(* ===== verification/_CoqProject ===== *)
-Q . S2P
Prelude.v
JsString.v
JsNum.v
JsValue.v
Json.v
RuntimeErrors.v
CodecFields.v
OcrCodec.v
Codec.v
Sse.v
JsCoerce.v
Stringify.v
Effects.v
Retry.v
Transport.v
Streaming.v
Discovery.v
Client.v
CaptureModel.v
CaptureHelpers.v
StoreHelpers.v
HttpClient.v
CanonicalJson.v
CapabilityRegistry.v
AcceptanceModel.v
AcceptanceCodec.v
JsMath.v
Rounding.v
OcrEvidence.v
Observable.v
WorkflowModel.v
Reconciliation.v
Workflow.v
WorkflowQueue.v
WorkflowSafety.v
Installation.v
Store.v
DesktopModel.v
DesktopCapture.v
DesktopSafety.v
ScopeLock.v
WindowsProbe.v
StableSort.v
ScopeProcesses.v
ScopeOwner.v
ContractImpact.v
DesktopSelectors.v
DesktopInstallation.v
DesktopBridge.v
DesktopStore.v
Posix.v
ArchConfig.v
ArchGraph.v
ArchSources.v
JavaSources.v
ArchRender.v
ArchDiff.v
ArchOwners.v
ArchSplice.v
WorkerStages.v
AcceptanceText.v
AcceptanceProof.v
AcceptanceEvidence.v
AcceptanceManifest.v
CheckpointJournal.v
