(* ===== verification/Prelude.v ===== *)
(** * Capture Workbench: a verification library

    Capture Workbench turns PDF pages, images and recordings into text with a
    local runtime.  The TypeScript part of the repository (src/packages,
    src/apps) talks to that runtime over loopback HTTP: a client library
    negotiates a contract, uploads bytes, follows event streams and decodes
    every response; a UI library runs captures through a queue and checks what a
    structuring provider returns before it is kept; a desktop app follows
    captures, saves them in its library and deletes what the runtime holds; an
    acceptance contract decides which test evidence is accepted.  This library
    models that code in Rocq, function by function and under the names of the
    source, and proves what makes it correct.

    ** Files and what they model

    The language underneath.  [Prelude] has the monad of fallible code and its
    inversion tactics, lists and tables.  [JsString] and [JsNum] are strings and
    binary64 numbers, [JsValue] the unknown values of the codecs, [Json]
    JSON.parse with its property order, [JsCoerce] the conversions (String,
    Number, comparison, encodeURIComponent, slice), [Stringify] JSON.stringify,
    [JsMath] the functions of Math.  [Observable] has RxJS observables of at
    most one value as trees of reads, updates and waits, with two logics for
    them: [wp] for what holds whatever the others do while it waits, and [obeys], in
    rely-guarantee style, for what holds as long as they keep to a relation.

    The runtime client, src/packages/capture-runtime-client/src.
    - [RuntimeErrors] is errors.ts: the error classes, the redaction of messages
      and details.
    - [CodecFields], [OcrCodec], [Codec] are codec.ts and codec-plumbing.ts: the
      exact-field check, the OCR projection, the other response models, the
      decoding of error bodies.  [Sse] is the event-stream decoder of codec.ts.
    - [Effects] is the world the client runs in: the replies still to come, the
      negotiated contract and a log of requests and pauses, with a monad over
      it and the interface [RuntimeTransport] the client is written against.
    - [Retry] is private/transport-retry.ts, [Transport] transport.ts,
      [Streaming] private/streaming.ts, [Discovery] private/discovery.ts and
      [Client] client.ts.  The module [Client.DiscoveryCache] is the cached
      negotiation as a transition system of concurrent callers.

    The UI library, src/packages/capture-workbench-ui/src/lib.
    - [CaptureModel] holds the generated records of captures and documents.
    - [CaptureHelpers] is capture-helpers.ts: file classes, document text, the
      version handshake, the check of a structuring candidate.
    - [StoreHelpers] is capture-client-errors.ts, capture-http-error.ts and the
      pure part of capture-workflow/capture-workbench-store-helpers.ts.
    - [HttpClient] is http-capture-client.ts: every operation over the runtime
      client, with its errors as the UI library reads them.  The retries of both
      layers meet here; the logic [sends] bounds what a run sends.  The module
      [HttpClient.ReadyCache] is its kept readiness with concurrent callers.
    - [WorkflowModel], [Reconciliation] and [Workflow] are the services
      capture-workflow.service.ts and capture-reconciliation.service.ts: the
      data and the task list, the programs that confirm an unknown state, and
      the queue with the runs of tasks as a transition system of commands,
      replies and stream events.  [WorkflowQueue] has the invariant of the
      queue and of its tasks, [WorkflowSafety] what is sent and shown.
    - [Installation] is installation/capture-runtime-installation.service.ts:
      one user action installs the missing requirements one after the other.
      Each run is a process, as in the workflow; cancelling, late replies and
      the tear-down are actions.
    - [Store] is capture-workflow/capture-workbench-store.ts: what is shown of
      the runtime, the installations it starts and, in [Store.SpeakerSamples],
      the object URLs it creates and revokes.

    The desktop app, src/apps/capture-workbench/src/app.
    - [OcrEvidence] is contracts/ocr-evidence.ts: the checks of a projection
      against the identity the host expects, and the record kept of it.
    - [DesktopModel] has the library updates, the selectors of
      services/desktop-workspace.selectors.ts that captures use and the state of
      the capture service; [DesktopCapture] is
      services/desktop-workspace-capture.service.ts, from the import of a file
      to the deletion of the runtime's data, with cancellation and recovery;
      [DesktopSafety] proves what the library holds when.  The projection is
      decoded by [Codec.parseCaptureOcrProjection] and the evidence built by
      [OcrEvidence.buildOcrEvidence], so these files are composed here.

    The acceptance contract, src/packages/capture-acceptance-contract/src/codecs.ts.
    - [CanonicalJson] has the field readers, the canonical serializer, the
      strict parser and the self-excluded digest.
    - [CapabilityRegistry] is the class CapabilityUseRegistry, a map driven by
      sequences of calls.
    - [AcceptanceModel] and [AcceptanceCodec] are the records and their decoders.

    The desktop's acceptance scripts, src/apps/capture-workbench-desktop/scripts.
    - [ScopeLock] is the lock of acceptance-scope.ts, which several processes
      take around each rewrite of one file: every contender is a program counter
      between two file or process calls, and calls, deaths and the clock
      interleave freely.
    - [WindowsProbe] is windows-acceptance-scope-probe.ts, with the calendar of
      Date that its creation times need; [ScopeProcesses] has the kinds of
      processes and the search for descendants; [ScopeOwner] the class that owns
      a scope and the patch of its paths.  The critical sections of its methods
      are operations of [ScopeLock], so the last theorem of [ScopeOwner] runs
      owners concurrently.

    The tools, src/tools.
    - [ContractImpact] is contract-impact.ts: two contract snapshots compared,
      schema by schema, and the candidate classified.

    ** How code is represented

    A function that may throw returns [result]; one that sends requests is an
    action of [Effects.io] over the world.  Objects parsed from JSON keep their
    property order; a record type of the source that the compiler guarantees is
    a Record.  Error values carry the messages of the source, so a theorem about
    an error states the text a caller sees.

    A service that waits is a transition system: its state, and for every task
    or capture the process that waits for a reply.  A reply, an event or a
    command resumes one process up to its next wait.  Replies are inputs, so a
    theorem about reachable states holds for every runtime, every library and
    every order in which they answer.

    Parameters stand for what is not in the repository: SHA-256, the UTF-8
    decoder, Date.parse, and what a transport answers.  Theorems hold for all
    of them; examples and witnesses fix concrete ones.

    Fuel.  JSON.parse starts with twice the length of the text plus two, since
    every second call consumes a character.  The chunk loop of an upload starts
    with one step more than there are bytes, since a chunk has at least one;
    [Streaming.upload_sends_each_byte_once] shows that it is enough.  The retry
    and reconnection loops recurse on the attempts that are left, a number of
    the options.  The negotiation needs no further negotiation, so one level of
    nesting suffices ([Client.negotiation_needs_no_negotiation]).  The queue is
    drained with one step more than there are queued tasks, each step taking
    one; [WorkflowQueue.queue_is_served] shows that none is left beside a free
    slot.  Reconnections after a lost event stream are limited to three by the
    source.  The polls of the desktop app and of an installation have no limit:
    the process ends at each poll with the phase it reached and is resumed from
    there; [DesktopSafety.go_on_waits] and [Installation.resume_ends] show that no
    process stops between two polls.  The search for descendants has one step
    more than there are processes; [ScopeProcesses.descendants_are_exact] shows
    that it is enough and that more fuel changes nothing.

    ** What the theorems show

    - Decoded values: an accepted OCR projection has its pages in order, with
      boxes inside the raster and one provenance; a completed one has no failed
      page.  Progress, batch submissions, readiness and error bodies have exact
      characterisations.
    - Protocol: negotiation returns only for a contract whose hash is on
      the allowlist; an upload sends every byte once and in order; events ascend, and a
      reconnection asks for what follows the last accepted event; a write
      without an idempotency key is sent once; retries return the first settled
      reply.
    - Streams: the event decoder does not depend on the split into chunks and
      inverts the encoding of frames.
    - Confinement: requests stay on the loopback origin, identifiers cannot
      leave their path segment, bearer tokens do not reach messages.
    - Evidence: a structuring candidate is accepted exactly when it preserves
      the raw capture; acceptance records are canonical, sealed by their digest,
      agree with their assignments and with the binding expected of them; a
      capability is used at most once; the desktop's OCR evidence depends on no
      content, names the capture it is for and is sealed by its digest.
    - Workflow: as many runs as the configured concurrency, no file waiting
      beside a free slot, no task in progress without a run that settles it, and
      no structured candidate committed that was not checked against the raw
      capture the runtime delivered for the same capture.
    - Both layers of retries: a capture is started under one key and at most six
      times, and a definite refusal is sent once.
    - Store: object URLs are revoked once and none is left; captures are enabled
      exactly on a complete runtime.
    - Installation: one action starts each requirement once, in the order of
      installation and at most sixteen of them; once cancelled it starts none.
    - Desktop: the runtime's data is deleted only after the library has saved
      what is kept of it, evidence is saved with its own capture only, a
      document without an active capture is not left in progress, and every
      busy document has one process.
    - Acceptance scope: two live processes are not in the critical section
      together, provided none dies in the window that the divergences below
      exploit, and under that proviso terminal evidence is never replaced; the
      descendants of a process are exactly those reached by parent links;
      what is recorded belongs to the application, once, and listeners to
      recorded processes; complete evidence needs the final refresh; creation
      times have one canonical form.
    - Contract changes: the comparison is silent exactly on schemas that are the
      same up to documentation and order, a candidate without impact is the same
      contract, and one that drops or breaks a schema is breaking.
    - Divergences: a group of theorems states behaviour that differs from a
      comment or an evident intention (an installation that
      failed and blocks every later one, a canceled recording that ends as
      completed, a lock that is taken from its live owner, a reconciler whose
      death blocks the lock); further ones are lemmas of their files (a refused
      runtime that is not shown as incompatible, an upload that is not cleaned
      up after a failed start, a canceled task that fails, a failed deletion
      that removes its task, a lock file cut short, prepared paths
      that are lost, inherited property names in a schema, pauses between
      retries, credentials after other schemes, inherited names, speakers of a
      candidate, events without a number, broken bodies, redaction depth,
      unknown fields with an empty name).

    ** Limits

    Strings are Latin-1: one character per code unit below 256.  The sign of
    zero, functions, symbols, accessors and cyclic objects are not represented.
    Wire interfaces that have no run-time content have no model.  An observable
    has at most one value, which is what the modelled services make of theirs;
    the engine's limit on spread arguments is ignored.  The configuration of the
    workflow is fixed while it runs.  In [ScopeLock] a file that is no JSON and
    one that is cut short are the same, and process numbers are not given to
    other contenders.  Not modelled yet, in the order planned:
    the remaining services of the desktop app (workspace store, library
    queries, recognition features, installation), the evidence checks of its other
    acceptance scripts and the release tools.  The Python runtime and the Rust launcher are other
    programs; Angular templates and build scripts have no model. *)

From Stdlib Require Export Ascii String ZArith QArith Lia List Sorted.
From stdpp Require Export prelude strings list.

#[export] Set Default Goal Selector "!".
Open Scope string_scope.
Open Scope list_scope.
Open Scope Z_scope.

(** ** Fallible code

    A TypeScript function that may throw is a function into [result E A]:
    [Err e] is the thrown value. *)

Inductive result (E A : Type) : Type :=
| Ok (a : A)
| Err (e : E).
Arguments Ok {E A} _.
Arguments Err {E A} _.

#[export] Instance result_ret E : MRet (result E) := fun A a => Ok a.
#[export] Instance result_bind E : MBind (result E) := fun A B f m =>
  match m with Ok a => f a | Err e => Err e end.
#[export] Instance result_fmap E : FMap (result E) := fun A B f m =>
  match m with Ok a => Ok (f a) | Err e => Err e end.

#[export] Instance result_eq_dec E A `{EqDecision E} `{EqDecision A} :
  EqDecision (result E A).
Proof. solve_decision. Defined.

Definition is_ok {E A} (r : result E A) : bool :=
  match r with Ok _ => true | Err _ => false end.

(** [if (bad) throw e;] *)
Definition reject_if {E} (bad : bool) (e : E) : result E unit :=
  if bad then Err e else Ok tt.

(** [for (const x of l) f(x);] where [f] may throw. *)
Fixpoint forM_ {E A} (l : list A) (f : A → result E unit) : result E unit :=
  match l with
  | [] => Ok tt
  | x :: l' => f x;; forM_ l' f
  end.

(** [l.map((item, index) => f(index, item))] where [f] may throw. *)
Fixpoint mapM_from {E A B} (i : nat) (f : nat → A → result E B) (l : list A) : result E (list B) :=
  match l with
  | [] => Ok []
  | x :: l' => y ← f i x; ys ← mapM_from (S i) f l'; Ok (y :: ys)
  end.
Definition mapM_idx {E A B} (f : nat → A → result E B) (l : list A) : result E (list B) :=
  mapM_from 0 f l.

(** [l.forEach((item, index) => f(index, item))] where [f] may throw. *)
Fixpoint forM_from {E A} (i : nat) (f : nat → A → result E unit) (l : list A) : result E unit :=
  match l with
  | [] => Ok tt
  | x :: l' => f i x;; forM_from (S i) f l'
  end.

Section result_lemmas.
Context {E : Type}.

Lemma Ok_inj {A} (a b : A) : @Ok E A a = Ok b → a = b.
Proof. by intros [= ->]. Qed.

Lemma bind_Ok {A B} (m : result E A) (f : A → result E B) (b : B) :
  m ≫= f = Ok b ↔ ∃ a, m = Ok a ∧ f a = Ok b.
Proof. destruct m; cbn; naive_solver. Qed.

Lemma bind_Err {A B} (m : result E A) (f : A → result E B) (e : E) :
  m ≫= f = Err e ↔ m = Err e ∨ ∃ a, m = Ok a ∧ f a = Err e.
Proof. destruct m; cbn; naive_solver. Qed.

Lemma reject_if_Ok (b : bool) (e : E) u : reject_if b e = Ok u ↔ b = false.
Proof. destruct b, u; cbn; naive_solver. Qed.

Lemma reject_if_Err (b : bool) (e e' : E) : reject_if b e = Err e' ↔ b = true ∧ e = e'.
Proof. destruct b; cbn; naive_solver. Qed.

Lemma reject_then_Ok {B} (b : bool) (e : E) (k : result E B) r :
  (reject_if b e;; k) = Ok r ↔ b = false ∧ k = Ok r.
Proof. destruct b; cbn; naive_solver. Qed.

Lemma forM_Ok {A} (l : list A) (f : A → result E unit) u :
  forM_ l f = Ok u ↔ Forall (λ x, f x = Ok tt) l.
Proof.
  destruct u. induction l as [|x l IH]; cbn; [naive_solver|].
  rewrite bind_Ok, Forall_cons, <-IH. split.
  - intros ([] & ? & ?). done.
  - intros [? ?]. by exists tt.
Qed.

Lemma mapM_from_Ok {A B} i (f : nat → A → result E B) (l : list A) k :
  mapM_from i f l = Ok k ↔
  length l = length k ∧
  ∀ j x y, l !! j = Some x → k !! j = Some y → f (i + j)%nat x = Ok y.
Proof.
  revert i k. induction l as [|x l IH]; intros i k; cbn.
  - split; [intros [=<-]; done|]. intros [Hl _]. by destruct k.
  - rewrite bind_Ok. setoid_rewrite bind_Ok. setoid_rewrite IH. split.
    + intros (y & Hy & ys & (Hl & Hall) & [=<-]). cbn. split; [lia|].
      intros [|j] x' y' Hx Hy'; cbn in *; simplify_eq.
      * by rewrite Nat.add_0_r.
      * rewrite <-Nat.add_succ_comm. by eapply Hall.
    + intros [Hl Hall]. destruct k as [|y ys]; [done|]. cbn in Hl.
      exists y. split; [specialize (Hall 0%nat x y eq_refl eq_refl); by rewrite Nat.add_0_r in Hall|].
      exists ys. split; [|done]. split; [lia|]. intros j x' y' Hx Hy.
      specialize (Hall (S j) x' y' Hx Hy). by rewrite <-Nat.add_succ_comm in Hall.
Qed.

Lemma mapM_idx_Ok {A B} (f : nat → A → result E B) (l : list A) k :
  mapM_idx f l = Ok k ↔
  length l = length k ∧
  ∀ j x y, l !! j = Some x → k !! j = Some y → f j x = Ok y.
Proof. apply mapM_from_Ok. Qed.

Lemma forM_from_Ok {A} i (f : nat → A → result E unit) (l : list A) u :
  forM_from i f l = Ok u ↔ ∀ j x, l !! j = Some x → f (i + j)%nat x = Ok tt.
Proof.
  destruct u. revert i. induction l as [|x l IH]; intros i; cbn; [naive_solver|].
  rewrite bind_Ok. split.
  - intros ([] & Hx & Hl) [|j] y Hy; cbn in *; simplify_eq.
    + by rewrite Nat.add_0_r.
    + rewrite <-Nat.add_succ_comm. by eapply IH.
  - intros Hall. exists tt. split.
    + specialize (Hall 0%nat x eq_refl). by rewrite Nat.add_0_r in Hall.
    + apply IH. intros j y Hy. specialize (Hall (S j) y Hy).
      by rewrite <-Nat.add_succ_comm in Hall.
Qed.
End result_lemmas.

(** ** Automation *)

(** Invert every successful run of a bind, a guard or a loop in the context. *)
Ltac inv_ok :=
  repeat match goal with
  | H : Ok ?a = Ok ?b |- _ => apply Ok_inj in H; first [subst a | subst b | idtac]
  | H : Err _ = Ok _ |- _ => discriminate H
  | H : Ok _ = Err _ |- _ => discriminate H
  | H : (reject_if _ _;; _) = Ok _ |- _ => apply reject_then_Ok in H as [? H]
  | H : reject_if _ _ = Ok _ |- _ => apply reject_if_Ok in H
  | H : _ ≫= _ = Ok _ |- _ => apply bind_Ok in H as (? & ? & H); cbv beta in H
  | H : forM_ _ _ = Ok _ |- _ => apply forM_Ok in H
  | u : unit |- _ => destruct u
  end.

Create Rewrite HintDb bools.
#[export] Hint Rewrite
  andb_true_iff orb_true_iff andb_false_iff orb_false_iff negb_true_iff negb_false_iff
  String.eqb_eq String.eqb_neq Z.leb_le Z.leb_gt Z.ltb_lt Z.ltb_ge Z.eqb_eq Z.eqb_neq
  Nat.leb_le Nat.leb_gt Nat.ltb_lt Nat.ltb_ge Nat.eqb_eq Nat.eqb_neq
  bool_decide_eq_true bool_decide_eq_false : bools.

(** Turn boolean tests of the code into propositions. *)
Ltac bsimp := autorewrite with bools in *.

(** ** Lists *)

Section list_lemmas.
Context {A : Type}.

Lemma existsb_false (f : A → bool) l : existsb f l = false ↔ Forall (λ x, f x = false) l.
Proof.
  induction l as [|x l IH]; cbn; [naive_solver|].
  rewrite orb_false_iff, Forall_cons. naive_solver.
Qed.

Lemma existsb_true (f : A → bool) l : existsb f l = true ↔ ∃ x, x ∈ l ∧ f x = true.
Proof. rewrite existsb_exists. setoid_rewrite list_elem_of_In. naive_solver. Qed.

Lemma forallb_true (f : A → bool) l : forallb f l = true ↔ Forall (λ x, f x = true) l.
Proof.
  induction l as [|x l IH]; cbn; [naive_solver|].
  rewrite andb_true_iff, Forall_cons. naive_solver.
Qed.

Lemma find_none_iff (f : A → bool) l : List.find f l = None ↔ Forall (λ x, f x = false) l.
Proof.
  induction l as [|x l IH]; cbn; [naive_solver|].
  rewrite Forall_cons. destruct (f x) eqn:?; naive_solver.
Qed.

(** The last element, with the head as the default of the rest. *)
Lemma list_last_cons (x d : A) l : List.last (x :: l) d = List.last l x.
Proof.
  revert x d. induction l as [|y l IH]; intros x d; [done|].
  change (List.last (y :: l) d = List.last (y :: l) x). by rewrite !IH.
Qed.

Lemma list_last_app (l k : list A) d : k ≠ [] → List.last (l ++ k) d = List.last k d.
Proof.
  intros Hk. revert d. induction l as [|x l IH]; intros d; [done|].
  change ((x :: l) ++ k) with (x :: (l ++ k)). rewrite list_last_cons, IH.
  destruct k; [done|]. by rewrite !list_last_cons.
Qed.

Lemma list_last_in (x : A) l : List.last l x = x ∨ List.last l x ∈ l.
Proof.
  revert x. induction l as [|y l IH]; intros x; [by left|]. rewrite list_last_cons. right.
  destruct (IH y) as [->|]; [by left|by right].
Qed.
End list_lemmas.

(** [list.includes(s)] on strings. *)
Definition includes (l : list string) (s : string) : bool := existsb (String.eqb s) l.

Lemma includes_spec l s : includes l s = true ↔ s ∈ l.
Proof.
  unfold includes. rewrite existsb_true. setoid_rewrite String.eqb_eq. naive_solver.
Qed.

Lemma includes_false l s : includes l s = false ↔ s ∉ l.
Proof. rewrite <-includes_spec. destruct (includes l s); naive_solver. Qed.

#[export] Hint Rewrite includes_spec includes_false : bools.

(** ** Tables *)

(** [table[key]] on the entries of an object, first entry first. *)
Definition table_find {A} (table : list (string * A)) (key : string) : option A :=
  snd <$> List.find (λ e, String.eqb e.1 key) table.

Lemma table_find_None {A} (table : list (string * A)) key :
  table_find table key = None ↔ key ∉ map fst table.
Proof.
  unfold table_find. rewrite fmap_None, find_none_iff, Forall_forall. split.
  - intros H ([k v] & -> & Hin)%list_elem_of_fmap. specialize (H _ Hin). cbn in H. by rewrite String.eqb_refl in H.
  - intros H [k v] Hin. apply String.eqb_neq. intros <-. apply H. apply list_elem_of_fmap. by exists (k, v).
Qed.

Lemma table_find_Some {A} (table : list (string * A)) key v :
  NoDup (map fst table) → table_find table key = Some v ↔ (key, v) ∈ table.
Proof.
  intros Hnd. unfold table_find. rewrite fmap_Some. split.
  - intros ([k w] & [Hin Hk]%find_some & ->). cbn in *. apply String.eqb_eq in Hk as ->. by apply list_elem_of_In.
  - induction table as [|[k w] table IH]; [by intros ?%elem_of_nil|]. cbn in Hnd.
    apply NoDup_cons in Hnd as [Hk Hnd]. intros [[= -> ->]|Hin]%elem_of_cons.
    + exists (k, w). cbn. by rewrite String.eqb_refl.
    + destruct (IH Hnd Hin) as (x & Hx & ->). cbn. destruct (String.eqb_spec k key) as [->|].
      * destruct Hk. apply list_elem_of_fmap. by exists (key, x.2).
      * by exists x.
Qed.
