(* ===== verification/JsString.v ===== *)
(** * JavaScript strings

    A JavaScript string is a sequence of 16-bit code units.  The model takes
    the Latin-1 range: one [ascii] character is one code unit below 256, so
    [length], comparison, slicing and the regular expressions below are exact
    on such strings.  Everything the program matches on (field names, digests,
    versions, header names, SSE field names) is ASCII. *)

From Stdlib Require Import DecimalString.
From S2P Require Import Prelude.

#[global] Arguments String.append : simpl nomatch.

Definition code (c : ascii) : Z := Z.of_N (N_of_ascii c).

(** [s.length] *)
Definition slen (s : string) : Z := Z.of_nat (String.length s).

(** Every code unit satisfies [P]. *)
Fixpoint all_chars (P : ascii → bool) (s : string) : bool :=
  match s with
  | "" => true
  | String c s' => P c && all_chars P s'
  end.

(** [\s] and [String.prototype.trim], restricted to Latin-1. *)
Definition is_space (c : ascii) : bool :=
  let n := code c in ((9 <=? n) && (n <=? 13)) || (n =? 32) || (n =? 160).

Fixpoint trim_start (s : string) : string :=
  match s with
  | "" => ""
  | String c s' => if is_space c then trim_start s' else s
  end.

Fixpoint trim_end (s : string) : string :=
  match s with
  | "" => ""
  | String c s' =>
      match trim_end s' with
      | "" => if is_space c then "" else String c ""
      | t => String c t
      end
  end.

Definition trim (s : string) : string := trim_end (trim_start s).

(** [!s.trim()] *)
Definition blank (s : string) : bool := String.eqb (trim s) "".

Definition is_digit (c : ascii) : bool := (48 <=? code c) && (code c <=? 57).
Definition is_hex_lower (c : ascii) : bool :=
  is_digit c || ((97 <=? code c) && (code c <=? 102)).
Definition is_upper (c : ascii) : bool := (65 <=? code c) && (code c <=? 90).
Definition is_lower (c : ascii) : bool := (97 <=? code c) && (code c <=? 122).
Definition is_alnum (c : ascii) : bool := is_digit c || is_upper c || is_lower c.

(** [s.toLowerCase()]: the ASCII letters and the Latin-1 capitals. *)
Definition lower_char (c : ascii) : ascii :=
  let n := code c in
  if is_upper c || ((192 <=? n) && (n <=? 222) && negb (n =? 215))
  then ascii_of_N (Z.to_N (n + 32)) else c.
Fixpoint lower (s : string) : string :=
  match s with "" => "" | String c s' => String (lower_char c) (lower s') end.

(** [s.startsWith(p)], [s.endsWith(t)], [s.slice(n)], [s.slice(0, n)] *)
Fixpoint starts_with (p s : string) : bool :=
  match p, s with
  | "", _ => true
  | String c p', String d s' => Ascii.eqb c d && starts_with p' s'
  | String _ _, "" => false
  end.
Fixpoint drop_str (n : nat) (s : string) : string :=
  match n, s with
  | O, _ => s
  | S _, "" => ""
  | S n', String _ s' => drop_str n' s'
  end.
Fixpoint take_str (n : nat) (s : string) : string :=
  match n, s with
  | O, _ => ""
  | S _, "" => ""
  | S n', String c s' => String c (take_str n' s')
  end.

(** [s.indexOf(c)], [None] for -1. *)
Fixpoint index_of (c : ascii) (s : string) : option nat :=
  match s with
  | "" => None
  | String d s' => if Ascii.eqb c d then Some O else S <$> index_of c s'
  end.

(** [s.split(c)] for a one-character separator. *)
Fixpoint split_on (c : ascii) (s : string) : list string :=
  match s with
  | "" => [""]
  | String d s' =>
      if Ascii.eqb c d then "" :: split_on c s'
      else match split_on c s' with
           | [] => [String d ""]
           | w :: ws => String d w :: ws
           end
  end.

(** [parts.join(sep)] *)
Definition join (sep : string) (parts : list string) : string := String.concat sep parts.

(** Decimal digits of an integer, as template literals print it. *)
Definition show_Z (z : Z) : string := NilEmpty.string_of_int (Z.to_int z).
Definition show_nat (n : nat) : string := show_Z (Z.of_nat n).

(** A text between double quotes. *)
Definition quote (s : string) : string := String "034" (s +:+ String "034" "").

(** ** The patterns the program tests strings with *)

(** [/^[0-9a-f]{64}$/u] *)
Definition is_sha256_hex (s : string) : bool := (slen s =? 64) && all_chars is_hex_lower s.

(** [/^sha256:[0-9a-f]{64}$/u] *)
Definition is_sha256_digest (s : string) : bool :=
  starts_with "sha256:" s && is_sha256_hex (drop_str 7 s).

(** [/^[a-z][a-z0-9_]{1,63}$/u] *)
Definition is_failure_code (s : string) : bool :=
  match s with
  | "" => false
  | String c s' =>
      is_lower c && (1 <=? slen s') && (slen s' <=? 63) &&
      all_chars (λ d, is_lower d || is_digit d || Ascii.eqb d "_") s'
  end.

(** [/^[A-Za-z0-9][A-Za-z0-9._:-]*$/u] *)
Definition is_opaque (s : string) : bool :=
  match s with
  | "" => false
  | String c s' =>
      is_alnum c &&
      all_chars (λ d, is_alnum d || existsb (Ascii.eqb d) ["."; "_"; ":"; "-"]%char) s'
  end.

(** ** Facts *)

Lemma str_app_nil_r s : s +:+ "" = s.
Proof. induction s as [|c s IH]; cbn; [done|]. by rewrite IH. Qed.

Lemma str_app_assoc s t u : s +:+ (t +:+ u) = (s +:+ t) +:+ u.
Proof. induction s as [|c s IH]; cbn; [done|]. by rewrite IH. Qed.

Lemma slen_nonneg s : 0 <= slen s.
Proof. unfold slen. lia. Qed.

Lemma slen_app s t : slen (s +:+ t) = slen s + slen t.
Proof. unfold slen. induction s as [|c s IH]; cbn; lia. Qed.

Lemma slen_0 s : slen s = 0 ↔ s = "".
Proof. destruct s; unfold slen; cbn; split; intros; try done; lia. Qed.

Lemma str_length_app s t : String.length (s +:+ t) = (String.length s + String.length t)%nat.
Proof. induction s as [|c s IH]; cbn; [done|]. by rewrite IH. Qed.

Lemma all_chars_app P s t : all_chars P (s +:+ t) = all_chars P s && all_chars P t.
Proof. induction s as [|c s IH]; cbn; [done|]. rewrite IH. by rewrite andb_assoc. Qed.

Lemma starts_with_spec p s : starts_with p s = true ↔ ∃ t, s = p +:+ t.
Proof.
  revert s. induction p as [|c p IH]; intros s; cbn; [naive_solver|].
  destruct s as [|d s]; [naive_solver|].
  rewrite andb_true_iff, IH, Ascii.eqb_eq. naive_solver.
Qed.

Lemma drop_str_app p t : drop_str (String.length p) (p +:+ t) = t.
Proof. by induction p. Qed.

Lemma take_drop_str n s : take_str n s +:+ drop_str n s = s.
Proof. revert n. induction s as [|c s IH]; intros [|n]; cbn; try done. by rewrite IH. Qed.

Lemma trim_end_nil s : trim_end s = "" ↔ all_chars is_space s = true.
Proof.
  induction s as [|c s IH]; cbn; [done|].
  rewrite andb_true_iff, <-IH. destruct (trim_end s), (is_space c); naive_solver.
Qed.

Lemma trim_start_nil s : trim_start s = "" ↔ all_chars is_space s = true.
Proof. induction s as [|c s IH]; cbn; [done|]. destruct (is_space c); naive_solver. Qed.

Lemma trim_start_all s : all_chars is_space (trim_start s) = all_chars is_space s.
Proof.
  induction s as [|c s IH]; cbn; [done|].
  destruct (is_space c) eqn:E; cbn; [done|]. by rewrite E.
Qed.

(** [s.trim()] is empty exactly when every character of [s] is white space. *)
Lemma blank_spec s : blank s = all_chars is_space s.
Proof.
  unfold blank, trim. apply eq_true_iff_eq.
  by rewrite String.eqb_eq, trim_end_nil, trim_start_all.
Qed.

Lemma index_of_Some c s n :
  index_of c s = Some n →
  s = take_str n s +:+ String c (drop_str (S n) s) ∧ all_chars (λ d, negb (Ascii.eqb c d)) (take_str n s) = true.
Proof.
  revert n. induction s as [|d s IH]; intros n; [done|].
  cbn [index_of]. destruct (Ascii.eqb c d) eqn:E.
  - intros [= <-]. apply Ascii.eqb_eq in E as ->. done.
  - intros (m & Hm & ->)%fmap_Some. apply IH in Hm as [Hs Hall].
    split; [exact (f_equal (String d) Hs)|]. cbn. by rewrite E.
Qed.

Lemma index_of_None c s :
  index_of c s = None ↔ all_chars (λ d, negb (Ascii.eqb c d)) s = true.
Proof.
  induction s as [|d s IH]; cbn; [done|]. destruct (Ascii.eqb c d); cbn; [done|].
  rewrite fmap_None. done.
Qed.

Lemma index_of_app c s t :
  all_chars (λ d, negb (Ascii.eqb c d)) s = true →
  index_of c (s +:+ String c t) = Some (String.length s).
Proof.
  induction s as [|d s IH]; cbn.
  - by rewrite Ascii.eqb_refl.
  - intros [Hd Hs]%andb_true_iff. apply negb_true_iff in Hd. by rewrite Hd, IH.
Qed.

Lemma is_sha256_hex_nonblank s : is_sha256_hex s = true → blank s = false.
Proof.
  unfold is_sha256_hex. rewrite andb_true_iff, blank_spec. intros [Hl Hh].
  destruct s as [|c s]; [done|]. cbn in *. apply andb_true_iff in Hh as [Hc _].
  apply andb_false_iff. left. unfold is_hex_lower, is_digit, is_space in *.
  destruct (decide (code c = 160)); bsimp; lia.
Qed.

(** ** Splitting *)

Lemma split_on_nonempty c s : split_on c s ≠ [].
Proof.
  destruct s as [|d s]; cbn; [done|]. destruct (Ascii.eqb c d); [done|]. by destruct (split_on c s).
Qed.

(** Splitting an appended text continues the last piece. *)
Lemma split_on_app c s t :
  split_on c (s +:+ t) =
  removelast (split_on c s) ++
  match split_on c t with
  | [] => []
  | w :: ws => (List.last (split_on c s) "" +:+ w) :: ws
  end.
Proof.
  induction s as [|d s IH]; cbn [String.append split_on].
  - cbn. pose proof (split_on_nonempty c t). by destruct (split_on c t).
  - destruct (Ascii.eqb c d).
    + rewrite IH. pose proof (split_on_nonempty c s). by destruct (split_on c s).
    + rewrite IH. pose proof (split_on_nonempty c s) as Hs. pose proof (split_on_nonempty c t) as Ht.
      destruct (split_on c s) as [|w [|w' ws]]; [done| |]; cbn; by destruct (split_on c t).
Qed.

Lemma split_on_no_sep c s :
  all_chars (λ d, negb (Ascii.eqb c d)) s = true → split_on c s = [s].
Proof.
  induction s as [|d s IH]; cbn; [done|].
  intros [Hd Hs]%andb_true_iff. apply negb_true_iff in Hd. by rewrite Hd, IH.
Qed.

Lemma split_on_cons c s t :
  all_chars (λ d, negb (Ascii.eqb c d)) s = true →
  split_on c (s +:+ String c t) = s :: split_on c t.
Proof.
  intros H. rewrite split_on_app, (split_on_no_sep c s H). cbn. rewrite Ascii.eqb_refl.
  cbn. by rewrite str_app_nil_r.
Qed.

(** What follows the last separator. *)
Lemma split_on_last c s t : List.last (split_on c (s +:+ String c t)) "" = List.last (split_on c t) "".
Proof.
  rewrite split_on_app. cbn [split_on]. rewrite Ascii.eqb_refl. cbv beta iota.
  rewrite list_last_app by done. pose proof (split_on_nonempty c t).
  destruct (split_on c t); [done|]. by rewrite !list_last_cons.
Qed.
