(* ===== verification/JsNum.v ===== *)
(** * JavaScript numbers

    A finite number is the rational it denotes; every binary64 value is one,
    and comparisons, [Number.isInteger] and [Number.isSafeInteger] are exact.
    Arithmetic whose result is not exact rounds with [round64], which is
    round-to-nearest-even to binary64.  The sign of zero is not represented:
    no modelled code divides by zero or uses [Object.is]. *)

From S2P Require Import Prelude.

Inductive num : Type :=
| NaN
| Inf (negative : bool)
| Fin (q : Q).

Definition num_of_Z (z : Z) : num := Fin (inject_Z z).

(** [Number.isFinite] *)
Definition is_finite (n : num) : bool :=
  match n with Fin _ => true | _ => false end.

(** The integer a number denotes, when it denotes one. *)
Definition to_int (n : num) : option Z :=
  match n with
  | Fin q => if Qnum q mod QDen q =? 0 then Some (Qnum q / QDen q) else None
  | _ => None
  end.

Definition MAX_SAFE_INTEGER : Z := 2 ^ 53 - 1.

(** [Number.isInteger], [Number.isSafeInteger] *)
Definition is_integer (n : num) : bool := bool_decide (is_Some (to_int n)).
Definition is_safe_integer (n : num) : bool :=
  match to_int n with Some z => Z.abs z <=? MAX_SAFE_INTEGER | None => false end.

(** [a === b], [a < b], [a <= b] on numbers *)
Definition num_eqb (a b : num) : bool :=
  match a, b with
  | Fin x, Fin y => Qeq_bool x y
  | Inf s, Inf t => Bool.eqb s t
  | _, _ => false
  end.

Definition Qltb (x y : Q) : bool := negb (Qle_bool y x).

Definition num_ltb (a b : num) : bool :=
  match a, b with
  | NaN, _ | _, NaN => false
  | Fin x, Fin y => Qltb x y
  | Inf s, Inf t => s && negb t
  | Inf s, Fin _ => s
  | Fin _, Inf t => negb t
  end.

Definition num_leb (a b : num) : bool := num_ltb a b || num_eqb a b.

(** ** Rounding to binary64 *)

Definition pow2 (e : Z) : Q :=
  if 0 <=? e then inject_Z (2 ^ e) else Qmake 1 (Z.to_pos (2 ^ (- e))).

Definition round_half_even (q : Q) : Z :=
  let f := Qnum q / QDen q in
  let r := Qnum q mod QDen q in
  if 2 * r <? QDen q then f
  else if QDen q <? 2 * r then f + 1
  else if Z.even f then f else f + 1.

Definition round64 (q : Q) : num :=
  if Qnum q =? 0 then Fin 0
  else
    let e0 := Z.log2 (Z.abs (Qnum q)) - Z.log2 (QDen q) in
    let e := if Qltb (Qmake (Z.abs (Qnum q)) (Qden q)) (pow2 e0) then e0 - 1 else e0 in
    let s := Z.max (e - 52) (-1074) in
    let m := round_half_even (Qdiv q (pow2 s)) in
    let r := Qred (Qmult (inject_Z m) (pow2 s)) in
    if 2 ^ 1024 <=? Z.abs (Qnum r / QDen r) then Inf (Qnum q <? 0) else Fin r.

(** [a + b], [a * b] on finite operands; the program applies them to no other. *)
Definition num_add (a b : num) : num :=
  match a, b with
  | Fin x, Fin y => round64 (Qplus x y)
  | NaN, _ | _, NaN => NaN
  | Inf s, Inf t => if Bool.eqb s t then Inf s else NaN
  | Inf s, Fin _ | Fin _, Inf s => Inf s
  end.

Definition num_mul (a b : num) : num :=
  match a, b with
  | Fin x, Fin y => round64 (Qmult x y)
  | NaN, _ | _, NaN => NaN
  | Inf s, Inf t => Inf (xorb s t)
  | Inf s, Fin y | Fin y, Inf s =>
      if Qnum y =? 0 then NaN else Inf (xorb s (Qnum y <? 0))
  end.

(** [Math.max(a, b)], [Math.min(a, b)] *)
Definition num_max (a b : num) : num :=
  match a, b with
  | NaN, _ | _, NaN => NaN
  | _, _ => if num_ltb a b then b else a
  end.
Definition num_min (a b : num) : num :=
  match a, b with
  | NaN, _ | _, NaN => NaN
  | _, _ => if num_ltb b a then b else a
  end.

(** ** Facts *)

Lemma Qltb_spec x y : Qltb x y = true ↔ (x < y)%Q.
Proof.
  unfold Qltb. rewrite negb_true_iff. split.
  - intros H. apply Qnot_le_lt. rewrite <-Qle_bool_iff. by rewrite H.
  - intros H. destruct (Qle_bool y x) eqn:E; [|done].
    apply Qle_bool_iff in E. by apply Qlt_not_le in H.
Qed.

Lemma to_int_Some n z : to_int n = Some z ↔ ∃ q, n = Fin q ∧ (q == inject_Z z)%Q.
Proof.
  destruct n as [| |[a d]]; cbn; [naive_solver..|]. split.
  - intros H. destruct (Z.eqb_spec (a mod Z.pos d) 0) as [E|E]; [|done]. simplify_eq.
    eexists; split; [done|]. unfold Qeq. cbn.
    rewrite Z.mul_1_r, Z.mul_comm. apply Z.div_exact; lia.
  - intros (q & [= <-] & E). unfold Qeq in E. cbn in E. rewrite Z.mul_1_r in E. subst.
    rewrite Z.mod_mul by lia. cbn. by rewrite Z.div_mul by lia.
Qed.

Lemma to_int_of_Z z : to_int (num_of_Z z) = Some z.
Proof. apply to_int_Some. by exists (inject_Z z). Qed.

Lemma is_integer_spec n : is_integer n = true ↔ ∃ z, to_int n = Some z.
Proof. unfold is_integer. by rewrite bool_decide_eq_true. Qed.

Lemma is_safe_integer_spec n :
  is_safe_integer n = true ↔ ∃ z, to_int n = Some z ∧ Z.abs z ≤ MAX_SAFE_INTEGER.
Proof. unfold is_safe_integer. destruct (to_int n); bsimp; naive_solver lia. Qed.

Lemma num_eqb_Fin x y : num_eqb (Fin x) (Fin y) = true ↔ (x == y)%Q.
Proof. cbn. apply Qeq_bool_iff. Qed.

Lemma num_leb_Fin x y : num_leb (Fin x) (Fin y) = true ↔ (x <= y)%Q.
Proof.
  unfold num_leb, num_ltb, num_eqb. rewrite orb_true_iff, Qltb_spec, Qeq_bool_iff.
  by rewrite Qle_lteq.
Qed.

Lemma num_ltb_Fin x y : num_ltb (Fin x) (Fin y) = true ↔ (x < y)%Q.
Proof. apply Qltb_spec. Qed.

(** A number that denotes an integer compares like the integer. *)
Lemma num_leb_int a b x y :
  to_int a = Some x → to_int b = Some y → num_leb a b = (x <=? y).
Proof.
  intros (p & -> & Hp)%to_int_Some (q & -> & Hq)%to_int_Some.
  apply eq_true_iff_eq. by rewrite num_leb_Fin, Hp, Hq, <-Zle_Qle, Z.leb_le.
Qed.

Lemma num_ltb_int a b x y :
  to_int a = Some x → to_int b = Some y → num_ltb a b = (x <? y).
Proof.
  intros (p & -> & Hp)%to_int_Some (q & -> & Hq)%to_int_Some.
  apply eq_true_iff_eq. by rewrite num_ltb_Fin, Hp, Hq, <-Zlt_Qlt, Z.ltb_lt.
Qed.

Lemma num_eqb_int a b x y :
  to_int a = Some x → to_int b = Some y → num_eqb a b = (x =? y).
Proof.
  intros (p & -> & Hp)%to_int_Some (q & -> & Hq)%to_int_Some.
  apply eq_true_iff_eq. rewrite num_eqb_Fin, Hp, Hq, Z.eqb_eq.
  unfold Qeq, inject_Z. cbn. lia.
Qed.

Lemma num_leb_Z a b : num_leb (num_of_Z a) (num_of_Z b) = (a <=? b).
Proof. apply num_leb_int; apply to_int_of_Z. Qed.

Lemma num_ltb_Z a b : num_ltb (num_of_Z a) (num_of_Z b) = (a <? b).
Proof. apply num_ltb_int; apply to_int_of_Z. Qed.

(** ** Exact arithmetic on integers *)

Lemma round_half_even_int q z : (q == inject_Z z)%Q → round_half_even q = z.
Proof.
  destruct q as [a d]. unfold Qeq, round_half_even. cbn. intros H.
  assert (a = z * Z.pos d) as -> by lia.
  rewrite Z.div_mul, Z.mod_mul by lia. by rewrite (proj2 (Z.ltb_lt (2 * 0) (Z.pos d))) by lia.
Qed.

Lemma pow2_pos e : (0 < pow2 e)%Q.
Proof.
  unfold pow2. destruct (Z.leb_spec 0 e); [|done].
  change 0%Q with (inject_Z 0). rewrite <-Zlt_Qlt. lia.
Qed.

Lemma pow2_neg e : e ≤ 0 → (pow2 e * inject_Z (2 ^ (- e)) == 1)%Q.
Proof.
  intros H. unfold pow2. destruct (Z.leb_spec 0 e).
  - assert (e = 0) as -> by lia. done.
  - unfold Qeq, Qmult, inject_Z. cbn. 
    assert (0 < 2 ^ (- e)) by (apply Z.pow_pos_nonneg; lia). nia.
Qed.

(** The binary exponent [round64] finds for an integer. *)
Lemma exponent_int q z :
  (q == inject_Z z)%Q → z ≠ 0 →
  let e0 := Z.log2 (Z.abs (Qnum q)) - Z.log2 (QDen q) in
  (if Qltb (Qmake (Z.abs (Qnum q)) (Qden q)) (pow2 e0) then e0 - 1 else e0) = Z.log2 (Z.abs z).
Proof.
  destruct q as [a d]. unfold Qeq. cbn [Qnum Qden inject_Z]. intros Ha Hnz.
  assert (a = z * Z.pos d) as -> by lia. cbv zeta.
  replace (Z.abs (z * Z.pos d)) with (Z.abs z * Z.pos d) by lia.
  set (L := Z.log2 (Z.abs z)).
  assert (Hlog : 2 ^ L ≤ Z.abs z < 2 ^ Z.succ L) by (apply Z.log2_spec; lia).
  assert (HL : 0 ≤ L) by apply Z.log2_nonneg.
  pose proof (Z.log2_mul_below (Z.abs z) (Z.pos d) ltac:(lia) ltac:(lia)) as Hlo.
  pose proof (Z.log2_mul_above (Z.abs z) (Z.pos d) ltac:(lia) ltac:(lia)) as Hhi.
  fold L in Hlo, Hhi.
  set (e0 := Z.log2 (Z.abs z * Z.pos d) - Z.log2 (Z.pos d)).
  assert (Hlt : Qltb (Qmake (Z.abs z * Z.pos d) d) (pow2 e0) = (Z.abs z <? 2 ^ e0)).
  { apply eq_true_iff_eq. rewrite Qltb_spec, Z.ltb_lt. unfold pow2.
    rewrite (proj2 (Z.leb_le 0 e0)) by lia. unfold Qlt, inject_Z. cbn. nia. }
  rewrite Hlt. destruct (Z.ltb_spec (Z.abs z) (2 ^ e0)) as [H|H].
  - assert (e0 ≠ L); [|lia]. intros E. rewrite E in H. lia.
  - assert (e0 ≠ L + 1); [|lia]. intros E. rewrite E in H. fold (Z.succ L) in H. lia.
Qed.

(** Rounding is the identity on the integers binary64 holds. *)
Lemma round64_int q z : (q == inject_Z z)%Q → Z.abs z ≤ 2 ^ 53 → to_int (round64 q) = Some z.
Proof.
  intros Hq Hz. unfold round64.
  destruct (Z.eqb_spec (Qnum q) 0) as [H0|H0].
  { unfold Qeq in Hq. rewrite H0 in Hq. cbn in Hq. assert (z = 0) as -> by lia. done. }
  assert (Hnz : z ≠ 0). { intros ->. unfold Qeq in Hq. cbn in Hq. lia. }
  pose proof (exponent_int q z Hq Hnz) as He'. cbv zeta in He'. rewrite He'. cbv zeta.
  set (e := Z.log2 (Z.abs z)) in *.
  assert (Hlog : 2 ^ e ≤ Z.abs z < 2 ^ Z.succ e) by (apply Z.log2_spec; lia).
  assert (He : 0 ≤ e ≤ 53).
  { split; [apply Z.log2_nonneg|]. change 53 with (Z.log2 (2 ^ 53)). apply Z.log2_le_mono. lia. }
  set (s := Z.max (e - 52) (-1074)).
  assert (∃ m, (inject_Z z == inject_Z m * pow2 s)%Q) as [m Hm].
  { destruct (Z.leb_spec e 52).
    - exists (z * 2 ^ (- s)). rewrite inject_Z_mult, <-Qmult_assoc, (Qmult_comm _ (pow2 s)), pow2_neg by lia.
      by rewrite Qmult_1_r.
    - assert (e = 53) as E by lia. rewrite E in Hlog. assert (s = 1) as -> by lia.
      exists (z / 2). change (pow2 1) with (inject_Z 2). rewrite <-inject_Z_mult.
      assert (z = 2 ^ 53 ∨ z = - 2 ^ 53) as [-> | ->] by lia; done. }
  assert (round_half_even (q / pow2 s) = m) as ->.
  { apply round_half_even_int. rewrite Hq, Hm. apply Qdiv_mult_l. intros E.
    pose proof (pow2_pos s) as H1. rewrite E in H1. done. }
  set (r := Qred _). assert (Hr : (r == inject_Z z)%Q) by (unfold r; by rewrite Qred_correct, Hm).
  assert (Hint : to_int (Fin r) = Some z) by (apply to_int_Some; by exists r).
  assert (Hdiv : Qnum r / QDen r = z).
  { unfold to_int in Hint. destruct (_ =? 0); [|done]. by injection Hint. }
  rewrite Hdiv. destruct (Z.leb_spec (2 ^ 1024) (Z.abs z)) as [Hbig|]; [|done].
  exfalso. apply (Z.lt_irrefl (2 ^ 1024)). eapply Z.le_lt_trans; [exact Hbig|].
  eapply Z.le_lt_trans; [exact Hz|]. apply Z.pow_lt_mono_r; lia.
Qed.

(** Sums of safe integers are exact. *)
Lemma num_add_int a b x y :
  to_int a = Some x → to_int b = Some y → Z.abs (x + y) ≤ 2 ^ 53 → to_int (num_add a b) = Some (x + y).
Proof.
  intros (p & -> & Hp)%to_int_Some (q & -> & Hq)%to_int_Some H. cbn [num_add].
  apply round64_int; [|done]. by rewrite Hp, Hq, inject_Z_plus.
Qed.
