(* ===== verification/JsValue.v ===== *)
(** * JavaScript values as the wire codecs see them

    [js] is an unknown value: what [JSON.parse] returns, plus [undefined] for
    an absent property.  An object is its own enumerable properties in
    [Object.keys] order; [JSON.parse] never repeats a key. *)

From S2P Require Import Prelude JsString JsNum.

Unset Elimination Schemes.
Inductive js : Type :=
| Undefined
| Null
| Bool (b : bool)
| Num (n : num)
| Str (s : string)
| Arr (l : list js)
| Obj (fields : list (string * js)).
Set Elimination Schemes.

Section js_ind.
Variable P : js → Prop.
Hypotheses (HU : P Undefined) (HN : P Null) (HB : ∀ b, P (Bool b))
  (HM : ∀ n, P (Num n)) (HS : ∀ s, P (Str s))
  (HA : ∀ l, Forall P l → P (Arr l))
  (HO : ∀ fs, Forall (λ kv, P kv.2) fs → P (Obj fs)).

Fixpoint js_ind (v : js) : P v :=
  match v with
  | Undefined => HU
  | Null => HN
  | Bool b => HB b
  | Num n => HM n
  | Str s => HS s
  | Arr l => HA l ((fix go (l : list js) : Forall P l :=
      match l with
      | [] => Forall_nil_2 _
      | x :: l' => Forall_cons_2 _ x l' (js_ind x) (go l')
      end) l)
  | Obj fs => HO fs ((fix go (fs : list (string * js)) : Forall (λ kv, P kv.2) fs :=
      match fs with
      | [] => Forall_nil_2 _
      | kv :: fs' => Forall_cons_2 _ kv fs' (js_ind kv.2) (go fs')
      end) fs)
  end.
End js_ind.

Abbreviation fields := (list (string * js)).

Definition js_Z (z : Z) : js := Num (num_of_Z z).

(** [Object.keys(record)] *)
Definition keys (r : fields) : list string := map fst r.

(** [key in record]; the tested keys are never names of [Object.prototype]. *)
Definition has_key (r : fields) (k : string) : bool := includes (keys r) k.

(** [record[key]] *)
Fixpoint get (r : fields) (k : string) : js :=
  match r with
  | [] => Undefined
  | (k', v) :: r' => if String.eqb k k' then v else get r' k
  end.

(** [Boolean(value)] *)
Definition truthy (v : js) : bool :=
  match v with
  | Undefined | Null => false
  | Bool b => b
  | Num n => match n with NaN => false | Inf _ => true | Fin q => negb (Qnum q =? 0) end
  | Str s => negb (String.eqb s "")
  | Arr _ | Obj _ => true
  end.

(** [value === undefined || value === null] *)
Definition nullish (v : js) : bool :=
  match v with Undefined | Null => true | _ => false end.

(** [value ?? fallback] *)
Definition coalesce (v d : js) : js := if nullish v then d else v.

(** [a === b].  Two arrays or objects of separate JSON texts are never the
    same object, so the comparison is false on them. *)
Definition strict_eqb (a b : js) : bool :=
  match a, b with
  | Undefined, Undefined | Null, Null => true
  | Bool x, Bool y => Bool.eqb x y
  | Num x, Num y => num_eqb x y
  | Str x, Str y => String.eqb x y
  | _, _ => false
  end.

Definition is_str (v : js) (s : string) : bool := strict_eqb v (Str s).
Definition is_null (v : js) : bool := strict_eqb v Null.
Definition is_undefined (v : js) : bool := strict_eqb v Undefined.
Definition is_true (v : js) : bool := strict_eqb v (Bool true).
Definition is_boolean (v : js) : bool := match v with Bool _ => true | _ => false end.
Definition is_array (v : js) : bool := match v with Arr _ => true | _ => false end.

(** [typeof value === 'string' && p(value)] and its array and number kin. *)
Definition string_with (p : string → bool) (v : js) : bool :=
  match v with Str s => p s | _ => false end.
Definition number_with (p : num → bool) (v : js) : bool :=
  match v with Num n => p n | _ => false end.
Definition array_with (p : list js → bool) (v : js) : bool :=
  match v with Arr l => p l | _ => false end.
Definition one_of (l : list string) (v : js) : bool := string_with (includes l) v.

(** [value && typeof value === 'object' && !Array.isArray(value)] *)
Definition as_object (v : js) : option fields :=
  match v with Obj r => Some r | _ => None end.

(** ** Facts *)

Lemma is_str_spec v s : is_str v s = true ↔ v = Str s.
Proof. destruct v; cbn; try naive_solver. rewrite String.eqb_eq. naive_solver. Qed.

Lemma is_str_false v s : is_str v s = false ↔ v ≠ Str s.
Proof. rewrite <-is_str_spec. destruct (is_str v s); naive_solver. Qed.

Lemma nullish_spec v : nullish v = true ↔ v = Undefined ∨ v = Null.
Proof. destruct v; naive_solver. Qed.

Lemma is_true_spec v : is_true v = true ↔ v = Bool true.
Proof. destruct v as [| |[]| | | |]; naive_solver. Qed.

Lemma string_with_spec p v : string_with p v = true ↔ ∃ s, v = Str s ∧ p s = true.
Proof. destruct v; naive_solver. Qed.

Lemma number_with_spec p v : number_with p v = true ↔ ∃ n, v = Num n ∧ p n = true.
Proof. destruct v; naive_solver. Qed.

Lemma array_with_spec p v : array_with p v = true ↔ ∃ l, v = Arr l ∧ p l = true.
Proof. destruct v; naive_solver. Qed.

Lemma one_of_spec l v : one_of l v = true ↔ ∃ s, v = Str s ∧ s ∈ l.
Proof. unfold one_of. rewrite string_with_spec. by setoid_rewrite includes_spec. Qed.

Lemma is_boolean_spec v : is_boolean v = true ↔ ∃ b, v = Bool b.
Proof. destruct v; naive_solver. Qed.

Lemma has_key_spec r k : has_key r k = true ↔ k ∈ keys r.
Proof. apply includes_spec. Qed.

Lemma get_absent r k : k ∉ keys r → get r k = Undefined.
Proof.
  induction r as [|[k' v] r IH]; cbn; [done|].
  intros [? ?]%not_elem_of_cons. destruct (String.eqb_spec k k'); [done|auto].
Qed.

Lemma get_In r k v : NoDup (keys r) → (k, v) ∈ r → get r k = v.
Proof.
  induction r as [|[k' v'] r IH]; cbn; [by intros _ ?%elem_of_nil|].
  intros [Hk Hnd]%NoDup_cons [[= -> ->]|Hin]%elem_of_cons; [by rewrite String.eqb_refl|].
  destruct (String.eqb_spec k k') as [->|]; [|auto].
  destruct Hk. by apply (list_elem_of_fmap_2 fst _ (k', v)).
Qed.

#[export] Hint Rewrite is_str_spec is_str_false nullish_spec is_true_spec
  string_with_spec number_with_spec array_with_spec one_of_spec is_boolean_spec has_key_spec : bools.
