(* ===== verification/Json.v ===== *)
(** * JSON texts

    [JSON.parse] of the language, on the strings of [JsString]: a [\u] escape
    above [00FF] names a character outside the model and is refused.  Numbers
    are rounded to binary64; a repeated key keeps its first position and its
    last value; array-index keys come first, in ascending order, as
    [Object.keys] lists them. *)

From S2P Require Import Prelude JsString JsNum JsValue.

Definition digit_value (c : ascii) : Z := code c - 48.

(** White space of the JSON grammar. *)
Definition is_json_ws (c : ascii) : bool :=
  let n := code c in (n =? 32) || (n =? 9) || (n =? 10) || (n =? 13).

Fixpoint skip_ws (s : string) : string :=
  match s with
  | String c s' => if is_json_ws c then skip_ws s' else s
  | "" => ""
  end.

(** The maximal run of digits, its value on top of [acc], and the rest. *)
Fixpoint read_digits (acc : Z) (count : nat) (s : string) : Z * nat * string :=
  match s with
  | String c s' => if is_digit c then read_digits (acc * 10 + digit_value c) (S count) s'
                   else (acc, count, s)
  | "" => (acc, count, s)
  end.

(** [(m * 10^e)] as a rational. *)
Definition decimal (m e : Z) : Q :=
  if 0 <=? e then inject_Z (m * 10 ^ e) else Qmake m (Z.to_pos (10 ^ (- e))).

Definition parse_int_part (s : string) : option (Z * string) :=
  match s with
  | String "0" s' => Some (0, s')
  | String c _ => if is_digit c then let '(v, _, r) := read_digits 0 0 s in Some (v, r) else None
  | "" => None
  end.

(** [-? int frac? exp?] *)
Definition parse_number (s : string) : option (num * string) :=
  let '(neg, s1) := match s with String "-" r => (true, r) | _ => (false, s) end in
  '(ip, s2) ← parse_int_part s1;
  '(m, scale, s3) ← match s2 with
    | String "." r => let '(v, k, r') := read_digits ip 0 r in
                      if Nat.eqb k 0 then None else Some (v, Z.of_nat k, r')
    | _ => Some (ip, 0, s2)
    end;
  '(e, s4) ← match s3 with
    | String c r =>
        if Ascii.eqb c "e" || Ascii.eqb c "E" then
          let '(eneg, r1) := match r with
            | String "+" r' => (false, r')
            | String "-" r' => (true, r')
            | _ => (false, r)
            end in
          let '(v, k, r2) := read_digits 0 0 r1 in
          if Nat.eqb k 0 then None else Some (if (eneg : bool) then - v else v, r2)
        else Some (0, s3)
    | "" => Some (0, s3)
    end;
  Some (round64 (decimal (if (neg : bool) then - m else m) (e - scale)), s4).

Definition hex_value (c : ascii) : option Z :=
  let n := code c in
  if is_digit c then Some (n - 48)
  else if (97 <=? n) && (n <=? 102) then Some (n - 87)
  else if (65 <=? n) && (n <=? 70) then Some (n - 55)
  else None.

(** The character an escape letter stands for. *)
Definition escape_char (c : ascii) : option ascii :=
  match c with
  | "034" => Some "034" | "\" => Some "\" | "/" => Some "/"
  | "b" => Some "008" | "f" => Some "012" | "n" => Some "010"
  | "r" => Some "013" | "t" => Some "009"
  | _ => None
  end%char.

(** The rest of a string literal, after its opening quote. *)
Fixpoint parse_string_body (n : nat) (s : string) : option (string * string) :=
  match n with
  | O => None
  | S n' =>
      match s with
      | "" => None
      | String c s' =>
          if Ascii.eqb c "034" then Some ("", s')
          else if Ascii.eqb c "\" then
            match s' with
            | String "u" (String a (String b (String d (String e s'')))) =>
                h1 ← hex_value a; h2 ← hex_value b; h3 ← hex_value d; h4 ← hex_value e;
                let n := h1 * 4096 + h2 * 256 + h3 * 16 + h4 in
                if 255 <? n then None
                else '(t, r) ← parse_string_body n' s'';
                     Some (String (ascii_of_N (Z.to_N n)) t, r)
            | String x s'' =>
                ch ← escape_char x; '(t, r) ← parse_string_body n' s''; Some (String ch t, r)
            | "" => None
            end
          else if code c <? 32 then None
          else '(t, r) ← parse_string_body n' s'; Some (String c t, r)
      end
  end.

(** ** Objects: the property order of [Object.keys] *)

(** A canonical array index: no leading zero, below [2^32 - 1]. *)
Definition array_index (k : string) : option Z :=
  match k with
  | "" => None
  | String "0" "" => Some 0
  | String "0" _ => None
  | _ => let '(v, _, r) := read_digits 0 0 k in
         match r with
         | "" => if v <? 2 ^ 32 - 1 then Some v else None
         | _ => None
         end
  end.

(** [record[key] = value] on own properties, before ordering. *)
Fixpoint set_member (k : string) (v : js) (r : fields) : fields :=
  match r with
  | [] => [(k, v)]
  | (k', v') :: r' => if String.eqb k k' then (k, v) :: r' else (k', v') :: set_member k v r'
  end.

Fixpoint insert_index (i : Z) (kv : string * js) (l : list (Z * (string * js))) : list (Z * (string * js)) :=
  match l with
  | [] => [(i, kv)]
  | (j, kv') :: l' => if i <? j then (i, kv) :: l else (j, kv') :: insert_index i kv l'
  end.

Definition is_index (kv : string * js) : bool := bool_decide (is_Some (array_index kv.1)).

(** Index properties in ascending order, then the others in insertion order. *)
Definition own_order (r : fields) : fields :=
  map snd (fold_right (λ kv l, match array_index kv.1 with
                               | Some i => insert_index i kv l
                               | None => l
                               end) [] r)
  ++ List.filter (λ kv, negb (is_index kv)) r.

Definition object_of_members (ms : fields) : js :=
  Obj (own_order (fold_left (λ r kv, set_member kv.1 kv.2 r) ms [])).

(** ** The parser

    [n] bounds the depth of calls; [JSON_parse] starts with twice the length of
    the text, and every second call consumes a character. *)

Fixpoint parse_value (n : nat) (s : string) : option (js * string) :=
  match n with
  | O => None
  | S n' =>
      let s := skip_ws s in
      match s with
      | "" => None
      | String c r =>
          if Ascii.eqb c "034" then '(t, r') ← parse_string_body (S (String.length r)) r; Some (Str t, r')
          else if Ascii.eqb c "{" then
            match skip_ws r with
            | String "}" r' => Some (Obj [], r')
            | _ => '(ms, r') ← parse_members n' r; Some (object_of_members ms, r')
            end
          else if Ascii.eqb c "[" then
            match skip_ws r with
            | String "]" r' => Some (Arr [], r')
            | _ => '(vs, r') ← parse_elements n' r; Some (Arr vs, r')
            end
          else if starts_with "true" s then Some (Bool true, drop_str 4 s)
          else if starts_with "false" s then Some (Bool false, drop_str 5 s)
          else if starts_with "null" s then Some (Null, drop_str 4 s)
          else '(x, r') ← parse_number s; Some (Num x, r')
      end
  end
with parse_elements (n : nat) (s : string) : option (list js * string) :=
  match n with
  | O => None
  | S n' =>
      '(v, r) ← parse_value n' s;
      match skip_ws r with
      | String "," r' => '(vs, r'') ← parse_elements n' r'; Some (v :: vs, r'')
      | String "]" r' => Some ([v], r')
      | _ => None
      end
  end
with parse_members (n : nat) (s : string) : option (fields * string) :=
  match n with
  | O => None
  | S n' =>
      match skip_ws s with
      | String c r0 =>
          if Ascii.eqb c "034" then
            '(k, r) ← parse_string_body (S (String.length r0)) r0;
            match skip_ws r with
            | String ":" r1 =>
                '(v, r2) ← parse_value n' r1;
                match skip_ws r2 with
                | String "," r3 => '(ms, r4) ← parse_members n' r3; Some ((k, v) :: ms, r4)
                | String "}" r3 => Some ([(k, v)], r3)
                | _ => None
                end
            | _ => None
            end
          else None
      | "" => None
      end
  end.

(** [JSON.parse(text)]; [None] is a thrown [SyntaxError]. *)
Definition JSON_parse (text : string) : option js :=
  '(v, r) ← parse_value (S (S (2 * String.length text))) text;
  if String.eqb (skip_ws r) "" then Some v else None.
