(* ===== verification/RuntimeErrors.v ===== *)
(** * Errors of the runtime client

    Models packages/capture-runtime-client/src/errors.ts: the error class
    hierarchy, credential redaction of messages and of detail values.  Every
    error the client throws is a [thrown] value whose message and details have
    gone through the redaction, as the base-class constructor does. *)

From S2P Require Import Prelude JsString JsNum JsValue.

(** ** Redaction of messages *)

(** Case-insensitive [s.startsWith(p)] for a lower-case ASCII [p]. *)
Fixpoint ci_prefix (p s : string) : bool :=
  match p, s with
  | "", _ => true
  | String c p', String d s' => Ascii.eqb c (lower_char d) && ci_prefix p' s'
  | String _ _, "" => false
  end.

(** Case-insensitive [/p/.test(s)]. *)
Fixpoint ci_contains (p s : string) : bool :=
  ci_prefix p s || match s with "" => false | String _ s' => ci_contains p s' end.

(** Length of the longest prefix whose characters satisfy [P]. *)
Fixpoint span_len (P : ascii → bool) (s : string) : nat :=
  match s with
  | "" => O
  | String c s' => if P c then S (span_len P s') else O
  end.

(** [[^\s,;]] *)
Definition bearer_char (c : ascii) : bool :=
  negb (is_space c || Ascii.eqb c "," || Ascii.eqb c ";").

(** [['"]] and [[^'"\s,;}]]; character 34 is the double quote. *)
Definition is_quote (c : ascii) : bool := Ascii.eqb c "'" || Ascii.eqb c "034".
Definition credential_char (c : ascii) : bool :=
  negb (is_space c || is_quote c || Ascii.eqb c "," || Ascii.eqb c ";" || Ascii.eqb c "}").

(** Length of the match of [/Bearer\s+[^\s,;]+/iu] at the start of [s]. *)
Definition match_bearer (s : string) : option nat :=
  if ci_prefix "bearer" s then
    let s1 := drop_str 6 s in
    let n1 := span_len is_space s1 in
    let n2 := span_len bearer_char (drop_str n1 s1) in
    if (Nat.eqb n1 0 || Nat.eqb n2 0)%nat then None else Some (6 + n1 + n2)%nat
  else None.

(** Length of the match of
    [/(?:authorization|bearerToken|access_token|token)\s*[:=]\s*['"]?[^'"\s,;}]+/iu]
    at the start of [s], with the index just after its separator. *)
Definition match_credential (s : string) : option (nat * nat) :=
  match List.find (λ p, ci_prefix p s) ["authorization"; "bearertoken"; "access_token"; "token"] with
  | None => None
  | Some name =>
      let n0 := String.length name in
      let n1 := span_len is_space (drop_str n0 s) in
      match drop_str (n0 + n1) s with
      | String sep rest =>
          if Ascii.eqb sep ":" || Ascii.eqb sep "=" then
            let after := (n0 + n1 + 1)%nat in
            let n2 := span_len is_space rest in
            let n3 := match drop_str n2 rest with
                      | String q _ => if is_quote q then 1%nat else O
                      | "" => O
                      end in
            let n4 := span_len credential_char (drop_str (n2 + n3) rest) in
            if Nat.eqb n4 0 then None else Some ((after + n2 + n3 + n4)%nat, after)
          else None
      | "" => None
      end
  end.

(** [s.replace(/re/g, f)]: scan left to right; a match of length [n] at the
    current position is replaced and its characters are skipped. *)
Fixpoint replace_all (re : string → option nat) (f : string → string) (skip : nat) (s : string) : string :=
  match s with
  | "" => ""
  | String c s' =>
      match skip with
      | S k => replace_all re f k s'
      | O => match re s with
             | Some n => f (take_str n s) +:+ replace_all re f (Nat.pred n) s'
             | None => String c (replace_all re f O s')
             end
      end
  end.

Definition redact_bearer (s : string) : string :=
  replace_all match_bearer (λ _, "Bearer [redacted]") 0 s.

Definition redact_credential (s : string) : string :=
  replace_all (λ t, fst <$> match_credential t)
    (λ m, match match_credential m with
          | Some (_, after) => take_str after m +:+ " [redacted]"
          | None => m
          end) 0 s.

Definition redact (s : string) : string := redact_credential (redact_bearer s).

(** ** Redaction of detail values *)

(** [/token|authorization|credential|secret|password/iu.test(key)] *)
Definition credential_key (key : string) : bool :=
  existsb (λ p, ci_contains p key) ["token"; "authorization"; "credential"; "secret"; "password"].

(** [redactValue] of errors.ts. *)
Fixpoint redactValue (depth : nat) (v : js) : js :=
  match v with
  | Str s => Str (redact s)
  | Arr l => if (4 <? depth)%nat then v else Arr (map (redactValue (S depth)) l)
  | Obj r =>
      if (4 <? depth)%nat then v
      else Obj (map (λ kv, (kv.1, if credential_key kv.1 then Str "[redacted]"
                                  else redactValue (S depth) kv.2)) r)
  | _ => v
  end.

(** ** The class hierarchy *)

Inductive error_class : Type :=
| CaptureRuntimeError
| CaptureTransportError
| CaptureAuthenticationError
| CaptureCompatibilityError
| CaptureProtocolError
| CaptureRemoteError
| CaptureRuntimeProtocolError
| CaptureRuntimeCompatibilityError.

(** [class A extends B] *)
Definition superclass (c : error_class) : option error_class :=
  match c with
  | CaptureRuntimeError => None
  | CaptureRuntimeProtocolError => Some CaptureProtocolError
  | CaptureRuntimeCompatibilityError => Some CaptureCompatibilityError
  | _ => Some CaptureRuntimeError
  end.

#[export] Instance error_class_eq_dec : EqDecision error_class.
Proof. solve_decision. Defined.

(** [error instanceof cls]: the hierarchy is three classes deep. *)
Definition instance_of (c cls : error_class) : bool :=
  bool_decide (c = cls) ||
  match superclass c with
  | None => false
  | Some p => bool_decide (p = cls) || match superclass p with
                                       | None => false
                                       | Some q => bool_decide (q = cls)
                                       end
  end.

Record runtime_error : Type := {
  err_class : error_class;
  err_status : Z;
  err_code : js;
  err_message : string;
  err_details : js;
  err_category : string;
  err_retryable : bool;
  err_issues : list js;
  err_request_id : option string
}.

(** What a [throw] may carry: one of the client's own errors, the abort
    [DOMException], a [TypeError] of the language, or another error of a
    caller, which is opaque. *)
Inductive thrown : Type :=
| Runtime (e : runtime_error)
| AbortError
| TypeErr
| OtherError (message : string).

Abbreviation outcome := (result thrown).

(** The constructor of the base class. *)
Definition new_runtime_error (cls : error_class) (status : Z) (code : js) (message : string)
    (details : js) (category : option string) (retryable : option bool)
    (issues : option (list js)) (requestId : option string) : thrown :=
  Runtime {|
    err_class := cls;
    err_status := status;
    err_code := code;
    err_message := redact message;
    err_details := redactValue 0 details;
    err_category := default "runtime" category;
    err_retryable := default false retryable;
    err_issues := map (redactValue 0) (default [] issues);
    err_request_id := requestId
  |}.

Definition new_transport_error (message : string) (details : js) (code : string) : thrown :=
  new_runtime_error CaptureTransportError 0 (Str code) message details
    (Some "transport") (Some true) None None.

Definition new_authentication_error (message : string) (status : Z) (details : js)
    (requestId : option string) : thrown :=
  new_runtime_error CaptureAuthenticationError status (Str "unauthorized") message details
    (Some "authentication") None None requestId.

Definition new_compatibility_error (message : string) : thrown :=
  new_runtime_error CaptureRuntimeCompatibilityError 0 (Str "incompatible_runtime") message Undefined
    (Some "compatibility") None None None.

(** [new CaptureRuntimeProtocolError(message, details)] *)
Definition new_protocol_error (message : string) (details : js) : thrown :=
  new_runtime_error CaptureRuntimeProtocolError 0 (Str "protocol_error") message details
    (Some "protocol") None None None.

(** [throw new CaptureRuntimeProtocolError(message)] *)
Definition protocol_error (message : string) : thrown := new_protocol_error message Undefined.

Definition new_remote_error (status : Z) (code : js) (message : string) (details : js)
    (category : option string) (retryable : option bool) (issues : option (list js))
    (requestId : option string) : thrown :=
  new_runtime_error CaptureRemoteError status code message details
    (Some (default "remote" category)) retryable issues requestId.

(** ** Replacing every match *)

Lemma replace_all_skip re f p s : replace_all re f (String.length p) (p +:+ s) = replace_all re f 0 s.
Proof. induction p as [|c p IH]; [done|]. exact IH. Qed.

Lemma take_str_length p s : take_str (String.length p) (p +:+ s) = p.
Proof. induction p as [|c p IH]; cbn; [done|]. by rewrite IH. Qed.

Lemma replace_all_match re f m s :
  m ≠ "" → re (m +:+ s) = Some (String.length m) →
  replace_all re f 0 (m +:+ s) = f m +:+ replace_all re f 0 s.
Proof.
  destruct m as [|c m]; [done|]. intros _ Hre.
  change (String c m +:+ s) with (String c (m +:+ s)) in *. cbn [replace_all]. rewrite Hre.
  change (String c (m +:+ s)) with (String c m +:+ s). rewrite take_str_length.
  cbn [String.length Nat.pred]. by rewrite replace_all_skip.
Qed.

(** Nothing starts to match inside [p]. *)
Lemma replace_all_none re f p s :
  (∀ a b, p = a +:+ b → b ≠ "" → re (b +:+ s) = None) →
  replace_all re f 0 (p +:+ s) = p +:+ replace_all re f 0 s.
Proof.
  induction p as [|c p IH]; [done|]. intros Hnone.
  change (String c p +:+ s) with (String c (p +:+ s)). cbn [replace_all].
  assert (re (String c (p +:+ s)) = None) as -> by (by apply (Hnone "" (String c p))).
  change (String c p +:+ replace_all re f 0 s) with (String c (p +:+ replace_all re f 0 s)). f_equal.
  apply IH. intros a b -> Hb. by apply (Hnone (String c a) b).
Qed.

Lemma span_len_all P p s :
  all_chars P p = true → match s with "" => True | String c _ => P c = false end →
  span_len P (p +:+ s) = String.length p.
Proof.
  intros Hp Hs. induction p as [|c p IH]; cbn in *.
  - destruct s as [|c s]; cbn; [done|]. by rewrite Hs.
  - apply andb_true_iff in Hp as [-> Hp]. f_equal. by apply IH.
Qed.

Lemma drop_str_length_app p s : drop_str (String.length p) (p +:+ s) = s.
Proof. induction p as [|c p IH]; cbn; done. Qed.

(** A literal pattern is found in [p ++ s] inside [p] only when it is in [p] or
    reaches into [s]; ["bearer"] never does the latter before another ["bearer"],
    because it starts with its only [b]. *)
Lemma bearer_not_inside b w s :
  ci_prefix "bearer" b = false → lower w = "bearer" → b ≠ "" → ci_prefix "bearer" (b +:+ w +:+ s) = false.
Proof.
  intros Hb Hw Hne. destruct w as [|c w]; [done|]. injection Hw as Hc _.
  change (String c w +:+ s) with (String c (w +:+ s)). generalize (w +:+ s) as t. intros t.
  do 6 (destruct b as [|? b]; [cbn in *; rewrite ?Hc; cbn;
    repeat match goal with |- context [Ascii.eqb ?x ?y] => destruct (Ascii.eqb x y); cbn end; done|]).
  exact Hb.
Qed.

Lemma ci_contains_app p a b : ci_contains p (a +:+ b) = false → ci_contains p b = false.
Proof. induction a as [|c a IH]; [done|]. cbn. intros [_ H]%orb_false_iff. auto. Qed.

Lemma ci_contains_prefix p s : ci_contains p s = false → ci_prefix p s = false.
Proof. destruct s; cbn; rewrite orb_false_iff; naive_solver. Qed.

(** Bearer tokens do not survive in a message: after a text that does not
    mention "bearer", the scheme in any case, white space and the whole token
    that follows, up to the next blank, comma or semicolon, become
    "Bearer [redacted]", and the rest of the message is redacted in turn. *)
Lemma bearer_token_is_redacted pre scheme space token rest :
  ci_contains "bearer" pre = false → lower scheme = "bearer" →
  space ≠ "" → all_chars is_space space = true → token ≠ "" → all_chars bearer_char token = true →
  match rest with "" => True | String c _ => bearer_char c = false end →
  redact_bearer (pre +:+ (scheme +:+ space +:+ token) +:+ rest) =
    pre +:+ "Bearer [redacted]" +:+ redact_bearer rest.
Proof.
  intros Hpre Hscheme Hsp Hspace Htok Htoken Hrest. unfold redact_bearer.
  assert (Hlen : String.length scheme = 6%nat).
  { destruct scheme as [|c1 [|c2 [|c3 [|c4 [|c5 [|c6 [|]]]]]]]; done. }
  assert (Hci : ∀ t, ci_prefix "bearer" (scheme +:+ t) = true).
  { intros t. destruct scheme as [|c1 [|c2 [|c3 [|c4 [|c5 [|c6 [|]]]]]]]; try done.
    injection Hscheme as H1 H2 H3 H4 H5 H6. cbn. by rewrite H1, H2, H3, H4, H5, H6. }
  rewrite replace_all_none; [rewrite replace_all_match; [done| |]|].
  - by destruct scheme.
  - unfold match_bearer. rewrite <-!str_app_assoc, Hci.
    assert (drop_str 6 (scheme +:+ space +:+ token +:+ rest) = space +:+ token +:+ rest) as ->.
    { rewrite <-Hlen. apply drop_str_length_app. }
    rewrite (span_len_all is_space space).
    + rewrite drop_str_length_app, (span_len_all bearer_char token) by done.
      destruct space as [|a space]; [done|]. destruct token as [|b token]; [done|]. cbn [String.length Nat.eqb orb].
      rewrite !str_length_app, Hlen. cbn [String.length]. by f_equal.
    + done.
    + destruct token as [|b token]; [done|]. cbn in Htoken. apply andb_true_iff in Htoken as [Hb _].
      unfold bearer_char in Hb. apply negb_true_iff in Hb. bsimp. naive_solver.
  - intros a b -> Hb. unfold match_bearer. rewrite <-!str_app_assoc, bearer_not_inside; try done.
    by apply ci_contains_prefix, (ci_contains_app _ a).
Qed.

Lemma bearer_token_is_redacted_witness :
  redact_bearer ("sent " +:+ ("bEaReR" +:+ "  " +:+ "abc.def=") +:+ ", retry") =
    "sent " +:+ "Bearer [redacted]" +:+ redact_bearer ", retry".
Proof. apply bearer_token_is_redacted; try reflexivity; discriminate. Defined.

(** A text without a match is left as it is. *)
Lemma replace_all_id re f s :
  (∀ a b, s = a +:+ b → b ≠ "" → re b = None) → replace_all re f 0 s = s.
Proof.
  intros H. rewrite <-(str_app_nil_r s) at 1. rewrite replace_all_none; [apply str_app_nil_r|].
  intros a b. rewrite str_app_nil_r. apply H.
Qed.

Lemma redact_bearer_id s : ci_contains "bearer" s = false → redact_bearer s = s.
Proof.
  intros H. apply replace_all_id. intros a b -> _. unfold match_bearer.
  by rewrite (ci_contains_prefix "bearer" b) by (by apply (ci_contains_app _ a)).
Qed.

Definition credential_names : list string := ["authorization"; "bearertoken"; "access_token"; "token"].

Lemma redact_credential_id s :
  Forall (λ p, ci_contains p s = false) credential_names → redact_credential s = s.
Proof.
  intros H. apply replace_all_id. intros a b -> _. unfold match_credential.
  assert (List.find (λ p, ci_prefix p b) ["authorization"; "bearertoken"; "access_token"; "token"] = None) as ->; [|done].
  apply find_none_iff. eapply Forall_impl; [exact H|]. cbv beta. intros p Hp.
  by apply ci_contains_prefix, (ci_contains_app _ a).
Qed.

(** Another authorization scheme is only half redacted: the pattern takes the
    name of the scheme for the credential and leaves the credential itself in
    the message, whatever it is (a credential that does not itself mention one
    of the redacted names). *)
Lemma basic_credentials_survive_redaction credential :
  ci_contains "bearer" credential = false →
  Forall (λ p, ci_contains p credential = false) credential_names →
  redact ("Authorization: Basic " +:+ credential) = "Authorization: [redacted] " +:+ credential.
Proof.
  intros Hb Hnames. unfold redact.
  rewrite redact_bearer_id by exact Hb. unfold redact_credential.
  change ("Authorization: Basic " +:+ credential) with ("Authorization: Basic" +:+ String " " credential).
  rewrite replace_all_match; [|done|done].
  assert (Hrest : redact_credential (String " " credential) = String " " credential).
  { apply redact_credential_id. unfold credential_names in *. rewrite !Forall_cons in *.
    destruct Hnames as (H1 & H2 & H3 & H4 & _).
    split; [exact H1|]. split; [exact H2|]. split; [exact H3|]. split; [exact H4|constructor]. }
  unfold redact_credential in Hrest. by rewrite Hrest.
Qed.

Lemma basic_credentials_survive_redaction_witness :
  redact ("Authorization: Basic " +:+ "dXNlcjpwYXNz") = "Authorization: [redacted] " +:+ "dXNlcjpwYXNz".
Proof. apply basic_credentials_survive_redaction; [reflexivity|]. repeat constructor. Defined.

(** ** Detail values *)

(** [occurs d r v]: the object with members [r] lies [d] levels inside [v]. *)
Inductive occurs : nat → list (string * js) → js → Prop :=
| occurs_here r : occurs 0 r (Obj r)
| occurs_array d r x l : x ∈ l → occurs d r x → occurs (S d) r (Arr l)
| occurs_member d r k x m : (k, x) ∈ m → occurs d r x → occurs (S d) r (Obj m).

Lemma redactValue_occurs d r v depth :
  occurs d r (redactValue depth v) → (depth + d ≤ 4)%nat →
  Forall (λ kv, credential_key kv.1 = true → kv.2 = Str "[redacted]") r.
Proof.
  revert v depth. induction d as [|d IH]; intros v depth Hocc Hd.
  - destruct v as [| | | | |l|m]; cbn [redactValue] in Hocc; try by inversion Hocc.
    + destruct (4 <? depth)%nat; inversion Hocc.
    + destruct (Nat.ltb_spec 4 depth); [lia|]. inversion Hocc; subst.
      apply Forall_forall. intros [k x] Hin Hk. apply list_elem_of_fmap in Hin as ([k' y] & [= -> ->] & _).
      cbn in *. by rewrite Hk.
  - destruct v as [| | | | |l|m]; cbn [redactValue] in Hocc; try by inversion Hocc.
    + destruct (Nat.ltb_spec 4 depth); [lia|]. inversion Hocc as [|? ? x ? Hin Hx|]; subst.
      apply list_elem_of_fmap in Hin as (y & -> & _). eapply (IH y (S depth)); [done|lia].
    + destruct (Nat.ltb_spec 4 depth); [lia|]. inversion Hocc as [| |? ? k x ? Hin Hx]; subst.
      apply list_elem_of_fmap in Hin as ([k' y] & [= -> ->] & _). cbn [fst snd] in Hx.
      destruct (credential_key k'); [inversion Hx|]. eapply (IH y (S depth)); [done|lia].
Qed.

(** Details are redacted four levels deep and no deeper: in the redaction of
    any value, every member of an object at nesting depth at most four whose
    name mentions a credential is "[redacted]"; an object five levels down is
    returned as it is, credentials included. *)
Lemma details_redacted_to_depth_four v secret :
  (∀ d r, occurs d r (redactValue 0 v) → (d ≤ 4)%nat →
     Forall (λ kv, credential_key kv.1 = true → kv.2 = Str "[redacted]") r) ∧
  redactValue 0 (Arr [Arr [Arr [Arr [Arr [Obj [("token", secret)]]]]]]) =
    Arr [Arr [Arr [Arr [Arr [Obj [("token", secret)]]]]]].
Proof. split; [|done]. intros d r Hocc Hd. by eapply redactValue_occurs. Qed.
