(* ===== verification/CodecFields.v ===== *)
(** * Field tables and primitive checks of the wire codec

    Models the shared part of packages/capture-runtime-client/src/codec.ts:
    the field table of every generated wire model, the exact-field check and
    the primitive predicates the validators are built from. *)

From S2P Require Import Prelude JsString JsNum JsValue RuntimeErrors.

(** [RUNTIME_VERSION] of private/generated-contracts.ts. *)
Definition RUNTIME_VERSION : string := "0.9.0".

(** [RuntimeResponseModel]: the string literals of the union, prefixed by [M_]. *)
Inductive RuntimeResponseModel : Type :=
| M_RuntimeReady
| M_RuntimeStreamingCapabilities
| M_RuntimeRequirement
| M_RuntimeRequirements
| M_RuntimeInstallation
| M_RuntimeInstallations
| M_RuntimeModelInstallation
| M_RuntimeModelOptions
| M_RawCapture
| M_CaptureOcrProjection
| M_CaptureDocument
| M_CaptureOperation
| M_Ingestion
| M_PartialCapture
| M_StreamingResult
| M_StructuringSession
| M_StructuringBatch.

#[export] Instance model_eq_dec : EqDecision RuntimeResponseModel.
Proof. solve_decision. Defined.

(** The name a model has in messages. *)
Definition model_name (m : RuntimeResponseModel) : string :=
  match m with
  | M_RuntimeReady => "RuntimeReady"
  | M_RuntimeStreamingCapabilities => "RuntimeStreamingCapabilities"
  | M_RuntimeRequirement => "RuntimeRequirement"
  | M_RuntimeRequirements => "RuntimeRequirements"
  | M_RuntimeInstallation => "RuntimeInstallation"
  | M_RuntimeInstallations => "RuntimeInstallations"
  | M_RuntimeModelInstallation => "RuntimeModelInstallation"
  | M_RuntimeModelOptions => "RuntimeModelOptions"
  | M_RawCapture => "RawCapture"
  | M_CaptureOcrProjection => "CaptureOcrProjection"
  | M_CaptureDocument => "CaptureDocument"
  | M_CaptureOperation => "CaptureOperation"
  | M_Ingestion => "Ingestion"
  | M_PartialCapture => "PartialCapture"
  | M_StreamingResult => "StreamingResult"
  | M_StructuringSession => "StructuringSession"
  | M_StructuringBatch => "StructuringBatch"
  end.

(** [MODEL_FIELDS[model]]: required and optional fields. *)
Definition MODEL_FIELDS (m : RuntimeResponseModel) : list string * list string :=
  match m with
  | M_RuntimeReady =>
      (["ready"; "service"; "apiVersion"; "runtimeVersion"; "captureDocumentSchemaVersion";
      "capabilities"],
       ["message"; "captureDocumentSchemaSha256"; "schemaSha256"; "contractSetVersion";
      "ocrCompute"])
  | M_RuntimeStreamingCapabilities =>
      (["protocolVersion"; "maxChunkBytes"; "checkpointIntervalMs"; "heartbeatIntervalMs";
      "stallTimeoutMs"],
       ["captureKinds"; "supportsProgressiveAudio"])
  | M_RuntimeRequirement =>
      (["requirementId"; "kind"; "displayName"; "status"; "requiredFor"; "installStrategy"],
       ["optional"; "detail"; "artifact"; "downloadBytes"])
  | M_RuntimeRequirements =>
      (["items"],
       [])
  | M_RuntimeInstallation =>
      (["installationId"; "requirementId"; "status"; "progress"; "createdAt"; "updatedAt"],
       ["error"; "completedAt"; "downloadBytes"; "downloadedBytes"])
  | M_RuntimeInstallations =>
      (["items"],
       [])
  | M_RuntimeModelInstallation =>
      (["installationId"; "optionId"; "status"; "progress"; "createdAt"; "updatedAt"],
       ["error"; "completedAt"])
  | M_RuntimeModelOptions =>
      (["catalogSha256"; "items"],
       [])
  | M_RawCapture =>
      (["schemaVersion"; "diagnosticOnly"; "source"; "segments"; "sourceText";
      "extractionEngine"; "createdAt"],
       ["diarizationEngine"; "speakers"; "suggestedUnits"; "warnings"; "ocrPageScope"])
  | M_CaptureOcrProjection =>
      (["apiVersion"; "schemaVersion"; "captureId"; "status"; "pages"; "pageCount";
      "runtimeVersion"; "contractSha256"; "provenance"; "createdAt"],
       ["source"; "warnings"; "failure"])
  | M_CaptureDocument =>
      (["blocks"; "completedAt"; "createdAt"; "extractionEngine"; "rawSegments";
      "schemaVersion"; "source"; "sourceText"; "structuringEngine"; "targetText"],
       ["diarizationEngine"; "speakers"; "suggestedUnits"; "warnings"])
  | M_CaptureOperation =>
      (["protocolVersion"; "captureId"; "ingestionId"; "status"; "partialRevision";
      "lastEventSequence"; "createdAt"; "updatedAt"],
       ["kind"; "progress"; "source"; "error"; "completedAt"; "pagesTotal"; "pagesDone";
      "durationMs"; "coveredUntilMs"])
  | M_Ingestion =>
      (["protocolVersion"; "ingestionId"; "status"; "fileName"; "mediaType"; "totalBytes";
      "receivedBytes"; "contiguousBytes"; "nextChunkIndex"; "nextOffset"; "expiresAt"],
       ["kind"; "sourceSha256"; "finalizedSha256"])
  | M_PartialCapture =>
      (["protocolVersion"; "captureId"; "source"; "revision"; "coveredUntilMs"; "updatedAt"],
       ["segments"; "sourceText"; "extractionEngine"])
  | M_StreamingResult =>
      (["operation"; "raw"; "result"],
       [])
  | M_StructuringSession =>
      (["protocolVersion"; "sessionId"; "captureId"; "rawSourceSha256"; "contractSetSha256";
      "providerCapability"; "schemaDialect"; "batchCount"; "nextBatchIndex"; "sessionDigest";
      "status"; "createdAt"; "updatedAt"],
       ["targetLanguage"; "completedAt"])
  | M_StructuringBatch =>
      (["protocolVersion"; "sessionId"; "captureId"; "batchIndex"; "batchCount";
      "sourceSegmentIds"; "providerPrompt"; "providerSchema"; "numCtx"; "numPredict";
      "batchDigest"; "status"],
       [])
  end.

(** [throw new CaptureRuntimeProtocolError(message)] when [bad]. *)
Definition throw_if (bad : bool) (message : string) : outcome unit :=
  reject_if bad (protocol_error message).

(** [if (key) throw ...] on the result of [find]: the empty name is falsy. *)
Definition throw_if_named (key : option string) (message : string → string) : outcome unit :=
  match key with
  | Some k => throw_if (negb (String.eqb k "")) (message k)
  | None => Ok tt
  end.

Definition first_unknown (r : fields) (allowed : list string) : option string :=
  List.find (λ k, negb (includes allowed k)) (keys r).
Definition first_missing (r : fields) (required : list string) : option string :=
  List.find (λ k, negb (has_key r k)) required.

(** [assertExactFields(record, required, label, optional)] *)
Definition assertExactFields (r : fields) (required : list string) (label : string)
    (optional : list string) : outcome unit :=
  throw_if_named (first_unknown r (required ++ optional))
    (λ k, "Capture Runtime returned unknown " +:+ label +:+ " field: " +:+ k +:+ ".");;
  throw_if_named (first_missing r required)
    (λ k, "Capture Runtime returned " +:+ label +:+ " without required field: " +:+ k +:+ ".").

(** [asRecord(value, label)] *)
Definition asRecord (v : js) (label : string) : outcome fields :=
  match as_object v with
  | Some r => Ok r
  | None => Err (protocol_error ("Capture Runtime returned invalid " +:+ label +:+ "."))
  end.

(** [isSafeIntegerAtLeast(value, minimum)] *)
Definition isSafeIntegerAtLeast (v : js) (minimum : Z) : bool :=
  number_with (λ n, is_safe_integer n && num_leb (num_of_Z minimum) n) v.

Definition isOcrProjectionStatus (v : js) : bool := one_of ["completed"; "failed"] v.
Definition isOcrPageStatus (v : js) : bool := one_of ["recognized"; "empty"; "failed"] v.
Definition isOcrAdapterClass (v : js) : bool := one_of ["dedicated"; "integrated"; "unknown"] v.
Definition isOcrComputeMode (v : js) : bool := one_of ["gpu-dml"; "cpu-fallback"] v.
Definition isOcrComputeReasonCode (v : js) : bool :=
  one_of ["no_compatible_gpu"; "dml_provider_unavailable"] v.

(** [/(?:Z|[+-]\d{2}:\d{2})$/u] *)
Definition has_offset_suffix (s : string) : bool :=
  let t := drop_str (String.length s - 6) s in
  let z := drop_str (String.length s - 1) s in
  String.eqb z "Z" ||
  match t with
  | String sg (String a (String b (String sep (String c (String d ""))))) =>
      (Ascii.eqb sg "+" || Ascii.eqb sg "-") && is_digit a && is_digit b &&
      Ascii.eqb sep ":" && is_digit c && is_digit d
  | _ => false
  end.

(** [isTimestamp(value)]; [Date.parse] of a free-form text is left to the
    engine by the language, so it is an argument. *)
Definition isTimestamp (Date_parse : string → num) (v : js) : bool :=
  string_with (λ s, is_finite (Date_parse s) && has_offset_suffix s) v.

(** ** Facts *)

(** Every key is declared, or the first undeclared one has the empty name. *)
Definition no_unknown_field (r : fields) (allowed : list string) : Prop :=
  (∀ k, k ∈ keys r → k ∈ allowed) ∨ first_unknown r allowed = Some "".

Lemma throw_if_Ok b m u : throw_if b m = Ok u ↔ b = false.
Proof. apply reject_if_Ok. Qed.

Lemma throw_if_named_Ok k m u : throw_if_named k m = Ok u ↔ k = None ∨ k = Some "".
Proof.
  destruct u, k as [k|]; cbn; [|naive_solver].
  rewrite throw_if_Ok, negb_false_iff, String.eqb_eq. naive_solver.
Qed.

Lemma first_missing_Ok r required m u :
  "" ∉ required →
  throw_if_named (first_missing r required) m = Ok u ↔ ∀ k, k ∈ required → k ∈ keys r.
Proof.
  intros Hne. rewrite throw_if_named_Ok. unfold first_missing. split.
  - intros [Hn|Hs].
    + rewrite find_none_iff, Forall_forall in Hn. intros k Hk.
      specialize (Hn k Hk). cbn in Hn. by apply negb_false_iff, has_key_spec in Hn.
    + apply List.find_some in Hs as [Hin _]. apply list_elem_of_In in Hin. done.
  - intros Hall. left. rewrite find_none_iff, Forall_forall. intros k Hk.
    apply negb_false_iff, has_key_spec. auto.
Qed.

Lemma first_unknown_None r allowed :
  first_unknown r allowed = None ↔ ∀ k, k ∈ keys r → k ∈ allowed.
Proof.
  unfold first_unknown. rewrite find_none_iff, Forall_forall.
  setoid_rewrite negb_false_iff. by setoid_rewrite includes_spec.
Qed.

Lemma assertExactFields_Ok r required label optional u :
  "" ∉ required →
  assertExactFields r required label optional = Ok u ↔
  no_unknown_field r (required ++ optional) ∧ (∀ k, k ∈ required → k ∈ keys r).
Proof.
  intros Hne. unfold assertExactFields, no_unknown_field.
  rewrite bind_Ok, <-first_unknown_None. setoid_rewrite throw_if_named_Ok at 1.
  setoid_rewrite (first_missing_Ok r required _ u Hne). naive_solver.
Qed.

Lemma asRecord_Ok v label r : asRecord v label = Ok r ↔ v = Obj r.
Proof. unfold asRecord. destruct v; cbn; naive_solver. Qed.

Lemma isSafeIntegerAtLeast_spec v m :
  isSafeIntegerAtLeast v m = true ↔
  ∃ n z, v = Num n ∧ to_int n = Some z ∧ m ≤ z ∧ Z.abs z ≤ MAX_SAFE_INTEGER.
Proof.
  unfold isSafeIntegerAtLeast. rewrite number_with_spec.
  setoid_rewrite andb_true_iff. setoid_rewrite is_safe_integer_spec. split.
  - intros (n & -> & (z & Hz & Hs) & Hle). exists n, z.
    rewrite (num_leb_int _ _ _ _ (to_int_of_Z m) Hz), Z.leb_le in Hle. done.
  - intros (n & z & -> & Hz & Hm & Hs). exists n. split; [done|]. split; [eauto|].
    by rewrite (num_leb_int _ _ _ _ (to_int_of_Z m) Hz), Z.leb_le.
Qed.

#[export] Hint Rewrite isSafeIntegerAtLeast_spec : bools.

(** Invert a successful validator: binds, guards, records. *)
Ltac inv_codec :=
  repeat (inv_ok; try match goal with
  | H : asRecord _ _ = Ok _ |- _ => apply asRecord_Ok in H; subst
  | H : throw_if _ _ = Ok _ |- _ => apply throw_if_Ok in H
  end; cbv zeta in *).

(** the exact-field check lets undeclared fields through: once the first
    undeclared field of a record has the empty name, any further fields pass,
    because the found name is tested for truthiness. *)
Lemma exact_fields_empty_name_bypass r required label optional v extra :
  "" ∉ required → "" ∉ optional →
  (∀ k, k ∈ required → k ∈ keys r) → (∀ k, k ∈ keys r → k ∈ required ++ optional) →
  assertExactFields (r ++ ("", v) :: extra) required label optional = Ok tt.
Proof.
  intros Hr Ho Hall Hdecl. apply assertExactFields_Ok; [done|]. split.
  - right. unfold first_unknown, keys in *. rewrite List.map_app.
    assert (List.find (λ k, negb (includes (required ++ optional) k)) (map fst r) = None) as Hnone.
    { apply find_none_iff, Forall_forall. intros k Hk. apply negb_false_iff, includes_spec. auto. }
    revert Hnone. generalize (map fst r) as ks. induction ks as [|k ks IH]; cbn.
    + intros _. destruct (includes (required ++ optional) "") eqn:E; [|done].
      apply includes_spec in E. set_solver.
    + destruct (negb _); [done|]. auto.
  - intros k Hk. unfold keys. rewrite List.map_app, elem_of_app. left. by apply Hall.
Qed.

Lemma exact_fields_empty_name_bypass_witness :
  assertExactFields [("items", Arr []); ("", Null); ("rogue", Bool true)] ["items"] "RuntimeInstallations" [] = Ok tt.
Proof.
  apply (exact_fields_empty_name_bypass [("items", Arr [])] ["items"] _ [] Null [("rogue", Bool true)]).
  - rewrite <-includes_false. reflexivity.
  - rewrite <-includes_false. reflexivity.
  - intros k Hk. exact Hk.
  - intros k Hk. exact Hk.
Defined.
