(* ===== verification/OcrCodec.v ===== *)
(** * The OCR projection validators

    Models the OCR part of packages/capture-runtime-client/src/codec.ts: the
    checks a [/ocr] response goes through, field by field, in source order. *)

From S2P Require Import Prelude JsString JsNum JsValue RuntimeErrors CodecFields.

(** [value !== undefined && value !== null] *)
Definition present (v : js) : bool := negb (nullish v).

(** [typeof v !== 'number' || !Number.isFinite(v) || v < 0 || v > 1] is false. *)
Definition is_unit_interval (v : js) : bool :=
  number_with (λ n, is_finite n && negb (num_ltb n (num_of_Z 0)) && negb (num_ltb (num_of_Z 1) n)) v.

(** [v as number] where an earlier check made it a number. *)
Definition num_or_nan (v : js) : num := match v with Num n => n | _ => NaN end.

Definition nonblank_string (v : js) : bool := string_with (λ s, negb (blank s)) v.

Definition validateOcrRaster (value : js) : outcome unit :=
  raster ← asRecord value "OCR raster";
  assertExactFields raster ["width"; "height"; "scale"; "coordinateSystem"] "OCR raster" [];;
  throw_if
    (negb (isSafeIntegerAtLeast (get raster "width") 1) ||
     negb (isSafeIntegerAtLeast (get raster "height") 1) ||
     negb (number_with (λ n, is_finite n && negb (num_leb n (num_of_Z 0)) &&
                              negb (num_ltb (num_of_Z 8) n)) (get raster "scale")) ||
     negb (is_str (get raster "coordinateSystem") "pixel"))
    "Capture Runtime returned invalid OCR raster bounds.".

(** One polygon coordinate: finite, not negative, not past [bound]. *)
Definition coordinate_ok (v : js) (bound : num) : bool :=
  number_with (λ n, is_finite n && negb (num_ltb n (num_of_Z 0)) && negb (num_ltb bound n)) v.

Definition validateOcrPoint (width height : num) (pointValue : js) : outcome unit :=
  point ← asRecord pointValue "OCR polygon point";
  assertExactFields point ["x"; "y"] "OCR polygon point" [];;
  throw_if (negb (coordinate_ok (get point "x") width) || negb (coordinate_ok (get point "y") height))
    "Capture Runtime OCR polygon points must be finite, non-negative, and inside raster bounds.".

Definition validateOcrBox (rasterValue value : js) : outcome unit :=
  box ← asRecord value "OCR box";
  assertExactFields box ["polygon"; "text"; "confidence"] "OCR box" [];;
  raster ← asRecord rasterValue "OCR raster";
  points ← match get box "polygon" with
    | Arr polygon =>
        throw_if ((Z.of_nat (length polygon) <? 4) || (256 <? Z.of_nat (length polygon)))
          "Capture Runtime OCR boxes must contain between four and 256 polygon points.";;
        Ok polygon
    | _ => Err (protocol_error
        "Capture Runtime OCR boxes must contain between four and 256 polygon points.")
    end;
  forM_ points (validateOcrPoint (num_or_nan (get raster "width")) (num_or_nan (get raster "height")));;
  throw_if (negb (string_with (λ s, negb (blank s) && (slen s <=? 8000000)) (get box "text")))
    "Capture Runtime returned invalid OCR box text.";;
  throw_if (negb (is_null (get box "confidence")) && negb (is_unit_interval (get box "confidence")))
    "Capture Runtime returned invalid OCR box confidence.".

Definition validateCaptureSource (value : js) : outcome unit :=
  source ← asRecord value "OCR source";
  assertExactFields source ["sha256"; "fileName"; "mediaType"; "bytes"] "OCR source" [];;
  throw_if
    (negb (string_with is_sha256_hex (get source "sha256")) ||
     negb (string_with (λ s, negb (blank s) && (slen s <=? 255)) (get source "fileName")) ||
     negb (nonblank_string (get source "mediaType")) ||
     negb (isSafeIntegerAtLeast (get source "bytes") 1))
    "Capture Runtime returned invalid OCR source metadata.".

Definition validateCaptureFailure (value : js) (label : string) : outcome unit :=
  failure ← asRecord value label;
  assertExactFields failure ["code"; "message"] label ["stage"; "retryable"];;
  throw_if
    (negb (string_with is_failure_code (get failure "code")) ||
     negb (string_with (λ s, negb (blank s) && (slen s <=? 500)) (get failure "message")) ||
     (present (get failure "stage") && negb (nonblank_string (get failure "stage"))) ||
     (negb (is_undefined (get failure "retryable")) && negb (is_boolean (get failure "retryable"))))
    ("Capture Runtime returned invalid " +:+ label +:+ ".").

(** [`sha256:${'0'.repeat(64)}`] *)
Definition zero_digest : string :=
  "sha256:0000000000000000000000000000000000000000000000000000000000000000".

Definition validateOcrProvenance (value : js) (label : string) : outcome unit :=
  provenance ← asRecord value label;
  let status := get provenance "status" in
  let invalid := "Capture Runtime returned invalid " +:+ label +:+ "." in
  if is_str status "resolved" then
    assertExactFields provenance
      ["status"; "engine"; "model"; "modelDigest"; "device"; "profileId"; "profileSpecSha256"] label [];;
    throw_if
      (negb (is_str (get provenance "engine") "windowsml-ocr") ||
       negb (nonblank_string (get provenance "model")) ||
       negb (string_with is_sha256_digest (get provenance "modelDigest")) ||
       is_str (get provenance "modelDigest") zero_digest ||
       negb (nonblank_string (get provenance "device")) ||
       negb (nonblank_string (get provenance "profileId")) ||
       negb (string_with is_sha256_hex (get provenance "profileSpecSha256"))) invalid
  else if is_str status "unavailable" then
    assertExactFields provenance ["status"; "profileId"; "profileSpecSha256"; "reason"] label [];;
    throw_if
      (negb (nonblank_string (get provenance "profileId")) ||
       negb (string_with is_sha256_hex (get provenance "profileSpecSha256")) ||
       negb (one_of ["model_unavailable"; "worker_crashed"; "worker_timeout"; "protocol_failure"]
               (get provenance "reason"))) invalid
  else Err (protocol_error invalid).

Definition isResolvedOcrProvenance (value : js) : outcome bool :=
  r ← asRecord value "OCR provenance"; Ok (is_str (get r "status") "resolved").

Definition provenance_fields : list string :=
  ["status"; "engine"; "model"; "modelDigest"; "device"; "profileId"; "profileSpecSha256"; "reason"].

Definition sameOcrProvenance (left right : js) : outcome bool :=
  leftRecord ← asRecord left "OCR page provenance";
  rightRecord ← asRecord right "OCR projection provenance";
  Ok (forallb (λ f, strict_eqb (get leftRecord f) (get rightRecord f)) provenance_fields).

Definition text_or_empty (v : js) : string := match v with Str s => s | _ => "" end.
Definition nonempty {A} (l : list A) : bool := match l with [] => false | _ => true end.
Definition list_or_empty (v : js) : list js := match v with Arr l => l | _ => [] end.

Definition validateOcrPage (documentProvenance : js) (page : fields) : outcome unit :=
  assertExactFields page ["page"; "status"; "raster"; "provenance"] "OCR page projection"
    ["text"; "boxes"; "confidence"; "failure"];;
  throw_if (negb (isSafeIntegerAtLeast (get page "page") 1) || negb (isOcrPageStatus (get page "status")))
    "Capture Runtime returned an invalid OCR page identity.";;
  validateOcrRaster (get page "raster");;
  let text := get page "text" in
  throw_if (negb (is_undefined text) && negb (string_with (λ _, true) text))
    "Capture Runtime returned invalid OCR page text.";;
  throw_if (string_with (λ s, 8000000 <? slen s) text)
    "Capture Runtime returned OCR page text over the limit.";;
  let boxes := get page "boxes" in
  throw_if (negb (is_undefined boxes) && negb (array_with (λ l, Z.of_nat (length l) <=? 100000) boxes))
    "Capture Runtime returned invalid OCR page boxes.";;
  forM_ (list_or_empty boxes) (validateOcrBox (get page "raster"));;
  let confidence := get page "confidence" in
  throw_if (present confidence && negb (is_unit_interval confidence))
    "Capture Runtime returned invalid OCR page confidence.";;
  let provenance := get page "provenance" in
  validateOcrProvenance provenance "OCR page provenance";;
  resolved ← isResolvedOcrProvenance provenance;
  throw_if (one_of ["recognized"; "empty"] (get page "status") && negb resolved)
    "Recognized and empty OCR pages require resolved provenance.";;
  same ← sameOcrProvenance provenance documentProvenance;
  throw_if (negb same) "Capture Runtime page OCR provenance must match document provenance.";;
  let failure := get page "failure" in
  (if present failure then validateCaptureFailure failure "OCR page failure" else Ok tt);;
  let textValue := text_or_empty text in
  let boxValues := list_or_empty boxes in
  if is_str (get page "status") "recognized" then
    throw_if (blank textValue || negb (is_unit_interval confidence) || present failure)
      "Recognized OCR pages require text and no failure."
  else if is_str (get page "status") "empty" then
    throw_if (negb (blank textValue) || nonempty boxValues || present confidence || present failure)
      "Empty OCR pages must not contain text, boxes, confidence, or failure."
  else
    throw_if (negb (blank textValue) || nonempty boxValues || present confidence ||
              nullish failure)
      "Failed OCR pages require only a typed failure.".

(** The loop over [pages]: every page is valid, in ascending page order. *)
Fixpoint validateOcrPages (documentProvenance : js) (previousPage : num) (pages : list js)
    : outcome (list fields) :=
  match pages with
  | [] => Ok []
  | value :: rest =>
      page ← asRecord value "OCR page projection";
      validateOcrPage documentProvenance page;;
      let current := num_or_nan (get page "page") in
      throw_if (num_leb current previousPage)
        "Capture Runtime OCR pages must be in ascending source page order.";;
      pageProjections ← validateOcrPages documentProvenance current rest;
      Ok (page :: pageProjections)
  end.

(** The provenance rule of a completed projection's pages. *)
Definition page_provenance_differs (documentProvenance : js) (page : fields) : outcome bool :=
  if nullish (get page "provenance") then Ok true
  else same ← sameOcrProvenance (get page "provenance") documentProvenance; Ok (negb same).

(** [pages.some(f)] where [f] may throw. *)
Fixpoint someM {A} (f : A → outcome bool) (l : list A) : outcome bool :=
  match l with
  | [] => Ok false
  | x :: l' =>
      match f x with
      | Ok true => Ok true
      | Ok false => someM f l'
      | Err e => Err e
      end
  end.

Section projection.
Context (Date_parse : string → num).

(** [validateCaptureOcrProjection], up to the loop over the pages. *)
Definition validateOcrHeader (record : fields) : outcome unit :=
  throw_if (negb (is_str (get record "apiVersion") "2.0") ||
            negb (is_str (get record "schemaVersion") "3"))
    "Capture Runtime returned an OCR projection with an incompatible version.";;
  throw_if (negb (nonblank_string (get record "captureId")))
    "Capture Runtime returned an OCR projection with an invalid captureId.";;
  throw_if (negb (isOcrProjectionStatus (get record "status")))
    "Capture Runtime returned an OCR projection with an invalid status.";;
  throw_if (negb (isTimestamp Date_parse (get record "createdAt")))
    "Capture Runtime returned an OCR projection with an invalid createdAt.";;
  let pageCount := get record "pageCount" in
  throw_if (negb (isSafeIntegerAtLeast pageCount 0) ||
            number_with (λ n, num_ltb (num_of_Z 500) n) pageCount ||
            negb (strict_eqb pageCount
              (js_Z (match get record "pages" with Arr l => Z.of_nat (length l) | _ => -1 end))))
    "Capture Runtime returned an OCR projection with an invalid pageCount.";;
  throw_if (negb (is_str (get record "runtimeVersion") RUNTIME_VERSION))
    "Capture Runtime returned an OCR projection with an incompatible runtimeVersion.";;
  throw_if (negb (string_with is_sha256_hex (get record "contractSha256")))
    "Capture Runtime returned an OCR projection with an invalid contractSha256.";;
  let source := get record "source" in
  (if present source then validateCaptureSource source else Ok tt);;
  let provenance := get record "provenance" in
  validateOcrProvenance provenance "OCR projection provenance";;
  (if is_str (get record "status") "completed" then
     resolved ← isResolvedOcrProvenance provenance;
     throw_if (negb resolved) "Completed OCR projections require resolved provenance."
   else Ok tt);;
  let failure := get record "failure" in
  (if present failure then validateCaptureFailure failure "OCR projection failure" else Ok tt);;
  let warnings := get record "warnings" in
  if is_undefined warnings then Ok tt
  else match warnings with
  | Arr l =>
      throw_if (1000 <? Z.of_nat (length l))
        "Capture Runtime returned invalid OCR projection warnings.";;
      forM_ l (λ warning, throw_if (negb (string_with (λ s, slen s <=? 500) warning))
        "Capture Runtime returned an invalid OCR projection warning.")
  | _ => Err (protocol_error "Capture Runtime returned invalid OCR projection warnings.")
  end.

Definition validateCaptureOcrProjection (record : fields) : outcome unit :=
  validateOcrHeader record;;
  let provenance := get record "provenance" in
  pages ← match get record "pages" with
    | Arr pages =>
        throw_if (500 <? Z.of_nat (length pages))
          "Capture Runtime returned invalid OCR projection pages.";;
        Ok pages
    | _ => Err (protocol_error "Capture Runtime returned invalid OCR projection pages.")
    end;
  pageProjections ← validateOcrPages provenance (num_of_Z 0) pages;
  if is_str (get record "status") "completed" then
    throw_if ((length pages =? 0)%nat || nullish (get record "source") || present (get record "failure"))
      "Completed OCR projections require pages, source, provenance, and no failure.";;
    throw_if (existsb (λ page, is_str (get page "status") "failed") pageProjections)
      "Completed OCR projections must not contain failed pages.";;
    throw_if (negb (existsb (λ page, is_str (get page "status") "recognized") pageProjections))
      "Completed OCR projections must contain recognized text.";;
    differs ← someM (page_provenance_differs provenance) pageProjections;
    throw_if differs
      "Completed OCR pages require provenance matching the document provenance."
  else
    throw_if (nullish (get record "failure")) "Failed OCR projections require a typed failure.".
End projection.

(** ** What acceptance means *)

(** The page number of a page record. *)
Definition page_number (page : fields) (z : Z) : Prop :=
  ∃ n, get page "page" = Num n ∧ to_int n = Some z.

(** The polygon points of [box] lie in [[0, width] x [0, height]]. *)
Definition point_inside (width height : Z) (point : js) : Prop :=
  ∃ fs x y, point = Obj fs ∧ get fs "x" = Num (Fin x) ∧ get fs "y" = Num (Fin y) ∧
    (0 <= x)%Q ∧ (x <= inject_Z width)%Q ∧ (0 <= y)%Q ∧ (y <= inject_Z height)%Q.

Definition box_inside (width height : Z) (box : js) : Prop :=
  ∃ fs polygon, box = Obj fs ∧ get fs "polygon" = Arr polygon ∧
    4 ≤ Z.of_nat (length polygon) ≤ 256 ∧ Forall (point_inside width height) polygon.

Definition raster_size (raster : js) (width height : Z) : Prop :=
  ∃ fs w h, raster = Obj fs ∧ get fs "width" = Num w ∧ get fs "height" = Num h ∧
    to_int w = Some width ∧ to_int h = Some height ∧ 1 ≤ width ∧ 1 ≤ height.

(** Same provenance, field by field. *)
Definition provenance_eq (a b : js) : Prop :=
  ∃ fa fb, a = Obj fa ∧ b = Obj fb ∧
    ∀ f, f ∈ provenance_fields → strict_eqb (get fa f) (get fb f) = true.

Lemma is_unit_interval_spec v :
  is_unit_interval v = true ↔ ∃ q, v = Num (Fin q) ∧ (0 <= q)%Q ∧ (q <= 1)%Q.
Proof.
  unfold is_unit_interval. rewrite number_with_spec. split.
  - intros (n & -> & H). bsimp. destruct n as [| |q]; try naive_solver. exists q.
    destruct H as [[_ H0] H1]. cbn in H0, H1. unfold Qltb in *. bsimp.
    by rewrite !Qle_bool_iff in *.
  - intros (q & -> & H0 & H1). exists (Fin q). split; [done|]. bsimp. cbn. unfold Qltb. bsimp.
    rewrite !Qle_bool_iff. done.
Qed.

Lemma coordinate_ok_spec v bound z :
  to_int bound = Some z →
  coordinate_ok v bound = true → ∃ q, v = Num (Fin q) ∧ (0 <= q)%Q ∧ (q <= inject_Z z)%Q.
Proof.
  intros (b & -> & Hb)%to_int_Some H. unfold coordinate_ok in H.
  apply number_with_spec in H as (n & -> & H). bsimp.
  destruct H as [[Hf H0] H1], n as [| |q]; try done. exists q. cbn in H0, H1.
  unfold Qltb in *. bsimp. rewrite !Qle_bool_iff in *. by rewrite <-Hb.
Qed.

Lemma validateOcrRaster_size raster u :
  validateOcrRaster raster = Ok u → ∃ w h, raster_size raster w h.
Proof.
  unfold validateOcrRaster. intros H. inv_codec. bsimp.
  destruct H as [[[(n & w & ? & ? & ? & _) (m & h & ? & ? & ? & _)] _] _].
  exists w, h. unfold raster_size. eauto 10.
Qed.

Lemma validateOcrPoint_inside w h wn hn p u :
  to_int wn = Some w → to_int hn = Some h →
  validateOcrPoint wn hn p = Ok u → point_inside w h p.
Proof.
  unfold validateOcrPoint. intros Hw Hh H. inv_codec. bsimp. destruct H as [Hx Hy].
  apply (coordinate_ok_spec _ _ _ Hw) in Hx as (qx & ? & ? & ?).
  apply (coordinate_ok_spec _ _ _ Hh) in Hy as (qy & ? & ? & ?).
  unfold point_inside. eauto 12.
Qed.

Lemma validateOcrBox_inside raster w h box u :
  raster_size raster w h → validateOcrBox raster box = Ok u → box_inside w h box.
Proof.
  intros (fs & wn & hn & -> & Hw & Hh & Hwi & Hhi & _) H.
  unfold validateOcrBox in H. inv_codec. simplify_eq.
  destruct (get _ "polygon") as [| | | | |polygon|] eqn:Hp in *; try done. inv_codec. bsimp.
  do 2 eexists. split; [done|]. split; [done|]. split; [lia|].
  eapply Forall_impl; [eassumption|]. intros p Hok. cbv beta in Hok.
  rewrite Hw, Hh in Hok. by eapply validateOcrPoint_inside.
Qed.

Lemma validateOcrPage_number prov page u :
  validateOcrPage prov page = Ok u → ∃ z, page_number page z ∧ 1 ≤ z.
Proof.
  unfold validateOcrPage. intros H. inv_codec. bsimp.
  match goal with H : (_ ∧ isOcrPageStatus _ = true) |- _ => destruct H as [(n & z & ? & ? & ? & _) _] end.
  exists z. unfold page_number. eauto.
Qed.

(** Facts about one accepted page, by its status. *)
Definition page_shape (page : fields) : Prop :=
  (is_str (get page "status") "recognized" = true ∧
     blank (text_or_empty (get page "text")) = false ∧
     is_unit_interval (get page "confidence") = true ∧ nullish (get page "failure") = true) ∨
  (is_str (get page "status") "empty" = true ∧
     blank (text_or_empty (get page "text")) = true ∧
     list_or_empty (get page "boxes") = [] ∧
     nullish (get page "confidence") = true ∧ nullish (get page "failure") = true) ∨
  (is_str (get page "status") "failed" = true ∧
     blank (text_or_empty (get page "text")) = true ∧
     list_or_empty (get page "boxes") = [] ∧
     nullish (get page "confidence") = true ∧ nullish (get page "failure") = false).

Lemma nonempty_false {A} (l : list A) : nonempty l = false ↔ l = [].
Proof. by destruct l. Qed.

Lemma sameOcrProvenance_eq a b : sameOcrProvenance a b = Ok true → provenance_eq a b.
Proof.
  unfold sameOcrProvenance. intros H. inv_codec.
  match goal with H : forallb _ _ = true |- _ => rewrite forallb_true, Forall_forall in H end.
  unfold provenance_eq. eauto 10.
Qed.

Lemma validateOcrPage_shape prov page u :
  validateOcrPage prov page = Ok u →
  page_shape page ∧ provenance_eq (get page "provenance") prov ∧
  (∃ w h, raster_size (get page "raster") w h ∧
     Forall (box_inside w h) (list_or_empty (get page "boxes"))).
Proof.
  unfold validateOcrPage. intros H. inv_codec. split; [|split].
  - match goal with H : negb (isSafeIntegerAtLeast _ _) || _ = false |- _ =>
      apply orb_false_iff in H as [_ Hst]; apply negb_false_iff in Hst end.
    unfold isOcrPageStatus in Hst. apply one_of_spec in Hst as (st & Hst & Hin).
    unfold page_shape. rewrite Hst in *. unfold is_str, present in *. cbn -[nonempty] in *.
    rewrite !elem_of_cons in Hin. destruct Hin as [->|[->|[->|[]%elem_of_nil]]]; cbn -[nonempty] in *;
      inv_codec; rewrite ?orb_false_iff, ?negb_false_iff in *; rewrite ?nonempty_false in *; clear -H; intuition congruence.
  - match goal with H : negb ?b = false, H' : sameOcrProvenance _ _ = Ok ?b |- _ =>
      apply negb_false_iff in H; subst b; by apply sameOcrProvenance_eq end.
  - match goal with H : validateOcrRaster _ = _ |- _ =>
      destruct (validateOcrRaster_size _ _ H) as (w & h & Hsize) end.
    exists w, h. split; [done|].
    eapply Forall_impl; [eassumption|]. intros b Hb. cbv beta in Hb.
    by eapply validateOcrBox_inside.
Qed.

Lemma validateOcrPages_Ok prov prev m pages ps :
  to_int prev = Some m → validateOcrPages prov prev pages = Ok ps →
  pages = map Obj ps ∧ Forall (λ p, validateOcrPage prov p = Ok tt) ps ∧
  ∃ ns, Forall2 page_number ps ns ∧ Sorted Z.lt (m :: ns).
Proof.
  revert prev m ps. induction pages as [|v pages IH]; intros prev m ps Hm H; cbn in H.
  - inv_codec. split; [done|]. split; [done|]. exists []. split; [constructor|]. repeat constructor.
  - inv_codec. match goal with H : validateOcrPage _ ?p = _ |- _ => rename p into page, H into Hp end.
    destruct (validateOcrPage_number _ _ _ Hp) as (z & (n & Hn & Hz) & _).
    rewrite Hn in *. cbn in *.
    match goal with H : validateOcrPages _ _ _ = _ |- _ =>
      destruct (IH _ _ _ Hz H) as (-> & Hall & ns & Hns & Hs) end.
    split; [done|]. split; [by constructor|]. exists (z :: ns). split.
    { constructor; [by exists n|done]. }
    match goal with H : num_leb _ _ = false |- _ =>
      rewrite (num_leb_int _ _ _ _ Hz Hm) in H; apply Z.leb_gt in H end.
    constructor; [done|]. by constructor.
Qed.

Lemma someM_false {A} (f : A → outcome bool) l :
  someM f l = Ok false → Forall (λ x, f x = Ok false) l.
Proof.
  induction l as [|x l IH]; cbn; [constructor|]. destruct (f x) as [[]|] eqn:E; try done. auto.
Qed.

Section accepted.
Context (Date_parse : string → num).

(** Everything a successful [validateCaptureOcrProjection] establishes about the pages. *)
Lemma validateCaptureOcrProjection_pages r u :
  validateCaptureOcrProjection Date_parse r = Ok u →
  ∃ ps ns, get r "pages" = Arr (map Obj ps) ∧
    Forall (λ p, validateOcrPage (get r "provenance") p = Ok tt) ps ∧
    Forall2 page_number ps ns ∧ Sorted Z.lt (0 :: ns) ∧
    strict_eqb (get r "pageCount") (js_Z (Z.of_nat (length ps))) = true ∧
    Z.of_nat (length ps) ≤ 500.
Proof.
  unfold validateCaptureOcrProjection. intros H. inv_codec.
  match goal with H : validateOcrHeader _ _ = _ |- _ => unfold validateOcrHeader in H end.
  inv_codec. destruct (get r "pages") as [| | | | |pages|] eqn:Hp in *; try done. inv_codec.
  match goal with H : validateOcrPages _ _ _ = _ |- _ =>
    destruct (validateOcrPages_Ok _ _ _ _ _ (to_int_of_Z 0) H) as (-> & Hall & ns & Hns & Hs) end.
  do 2 eexists. split; [done|]. split; [done|]. split; [done|]. split; [done|].
  bsimp. rewrite length_map in *. split; [naive_solver|lia].
Qed.

Lemma validateCaptureOcrProjection_completed r u :
  validateCaptureOcrProjection Date_parse r = Ok u →
  is_str (get r "status") "completed" = true →
  ∃ ps, get r "pages" = Arr (map Obj ps) ∧
    Forall (λ p, validateOcrPage (get r "provenance") p = Ok tt) ps ∧
    Forall (λ p, is_str (get p "status") "failed" = false) ps ∧
    Exists (λ p, is_str (get p "status") "recognized" = true) ps ∧
    nullish (get r "source") = false ∧ nullish (get r "failure") = true ∧
    ∃ pr, get r "provenance" = Obj pr ∧ get pr "status" = Str "resolved".
Proof.
  unfold validateCaptureOcrProjection. intros H Hst. rewrite Hst in H. inv_codec.
  match goal with H : validateOcrHeader _ _ = _ |- _ => unfold validateOcrHeader in H; rewrite Hst in H end.
  inv_codec. destruct (get r "pages") as [| | | | |pages|] eqn:Hp in *; try done. inv_codec.
  match goal with H : validateOcrPages _ _ _ = _ |- _ =>
    destruct (validateOcrPages_Ok _ _ _ _ _ (to_int_of_Z 0) H) as (-> & Hall & _) end.
  eexists. split; [done|]. split; [done|].
  match goal with H : existsb _ _ = false |- _ => apply existsb_false in H end.
  match goal with H : negb (existsb _ _) = false |- _ =>
    apply negb_false_iff, existsb_true in H as (p & Hin & Hrec) end.
  split; [done|]. split; [apply Exists_exists; eauto|].
  match goal with H : isResolvedOcrProvenance _ = Ok _ |- _ => unfold isResolvedOcrProvenance in H end.
  unfold present in *. inv_codec. rewrite ?orb_false_iff, ?negb_false_iff in *.
  split; [naive_solver|]. split; [naive_solver|].
  eexists. split; [eassumption|]. by apply is_str_spec.
Qed.
End accepted.
