(* ===== verification/Codec.v ===== *)
(** * The wire codec

    Models the rest of packages/capture-runtime-client/src/codec.ts: the shape
    check of a response by its model, the per-model validators, the decoding
    of JSON and error responses and the check of a batch submission. *)

From S2P Require Import Prelude JsString JsNum JsValue Json RuntimeErrors CodecFields OcrCodec.

(** ** Responses *)

(** A streamed body: the texts the incremental UTF-8 decoder returns, one per
    read, then the end of the stream or a read failure. *)
Record StreamBody : Type := {
  body_chunks : list string;
  body_failure : option thrown
}.

(** A fetch [Response]: status, headers by lower-case name, the bytes of its
    whole body, the text a UTF-8 decoder reads from them, and the same body as a
    stream ([None] for a null body). *)
Record Response : Type := {
  resp_status : Z;
  resp_headers : list (string * string);
  resp_bytes : string;
  resp_body : string;
  resp_stream : option StreamBody
}.

(** [response.ok] *)
Definition resp_ok (r : Response) : bool := (200 <=? resp_status r) && (resp_status r <=? 299).

(** [response.headers.get(name)] for a lower-case name. *)
Definition header (r : Response) (name : string) : option string :=
  snd <$> List.find (λ kv, String.eqb kv.1 name) (resp_headers r).

(** ** RuntimeReady *)

Definition validateRuntimeReady (record : fields) : outcome unit :=
  let preflight := get record "ocrCompute" in
  if nullish preflight then Ok tt
  else
    compute ← asRecord preflight "RuntimeReady ocrCompute";
    assertExactFields compute
      ["apiVersion"; "schemaVersion"; "service"; "runtimeVersion"; "contractSetVersion";
       "contractSha256"; "mode"; "adapterClass"; "userNoticeRequired"]
      "RuntimeReady ocrCompute" ["workerSha256"; "reasonCode"; "noticeCode"];;
    throw_if
      (negb (is_str (get compute "apiVersion") "2.0") ||
       negb (is_str (get compute "schemaVersion") "1") ||
       negb (is_str (get compute "service") "capture-runtime") ||
       negb (is_str (get compute "runtimeVersion") RUNTIME_VERSION) ||
       negb (is_str (get compute "contractSetVersion") "2") ||
       negb (string_with is_sha256_hex (get compute "contractSha256")) ||
       (present (get compute "workerSha256") &&
        negb (string_with is_sha256_hex (get compute "workerSha256"))) ||
       negb (isOcrComputeMode (get compute "mode")) ||
       negb (isOcrAdapterClass (get compute "adapterClass")) ||
       negb (is_boolean (get compute "userNoticeRequired")))
      "Capture Runtime returned an invalid OCR compute preflight.";;
    let reasonCode := get compute "reasonCode" in
    let noticeCode := get compute "noticeCode" in
    throw_if (present reasonCode && negb (isOcrComputeReasonCode reasonCode))
      "Capture Runtime returned an invalid OCR compute reason code.";;
    throw_if (present noticeCode && negb (is_str noticeCode "ocr_cpu_fallback"))
      "Capture Runtime returned an invalid OCR compute notice code.";;
    if is_str (get compute "mode") "gpu-dml" then
      throw_if (present reasonCode || truthy (get compute "userNoticeRequired") || present noticeCode)
        "GPU-DML OCR compute preflight cannot carry a fallback reason or notice."
    else
      throw_if (negb (isOcrComputeReasonCode reasonCode) ||
                negb (is_true (get compute "userNoticeRequired")) ||
                negb (is_str noticeCode "ocr_cpu_fallback"))
        "CPU-fallback OCR compute preflight requires a reason and user notice.".

(** ** Progress fields of operations, events and installations *)

(** [done > total], both already checked to be numbers. *)
Definition exceeds (done_ total : js) : bool :=
  num_ltb (num_or_nan total) (num_or_nan done_).

Definition assertCaptureProgress (record : fields) (label : string) : outcome unit :=
  let kind := coalesce (get record "kind") (Str "audio") in
  let done_ := coalesce (get record "pagesDone") Null in
  let total := coalesce (get record "pagesTotal") Null in
  throw_if
    ((negb (is_null done_) || negb (is_null total)) &&
     ((negb (is_str kind "pdf") && negb (is_str kind "image")) ||
      negb (isSafeIntegerAtLeast total 1) || negb (isSafeIntegerAtLeast done_ 0) ||
      exceeds done_ total))
    ("Capture Runtime returned invalid " +:+ label +:+ " page progress.");;
  let mediaFields := if String.eqb label "CaptureOperation"
                     then ["durationMs"; "coveredUntilMs"] else ["durationMs"] in
  forM_ mediaFields (λ field,
    let value := coalesce (get record field) Null in
    throw_if (negb (is_null value) && (negb (is_str kind "audio") || negb (isSafeIntegerAtLeast value 0)))
      ("Capture Runtime returned invalid " +:+ label +:+ " " +:+ field +:+ ".")).

Definition validateRuntimeInstallationDownload (record : fields) : outcome unit :=
  let total := coalesce (get record "downloadBytes") Null in
  let done_ := coalesce (get record "downloadedBytes") Null in
  throw_if
    (negb (is_null total && is_null done_) &&
     (negb (isSafeIntegerAtLeast total 1) || negb (isSafeIntegerAtLeast done_ 0) || exceeds done_ total))
    "Capture Runtime returned invalid RuntimeInstallation download bytes.".

(** ** Structuring sessions and batches *)

(** [typeof value === 'number' && Number.isInteger(value) && value >= 0] *)
Definition milliseconds (v : js) : bool :=
  number_with (λ n, is_integer n && num_leb (num_of_Z 0) n) v.

Definition validateStructuringSession (record : fields) : outcome unit :=
  provider ← match as_object (get record "providerCapability") with
    | Some p => Ok p
    | None => Err (protocol_error
        "Capture Runtime returned invalid StructuringSession provider capability.")
    end;
  assertExactFields provider ["provider"; "capability"; "schemaDialect"]
    "StructuringSession provider capability" [];;
  engine ← match as_object (get provider "provider") with
    | Some p => Ok p
    | None => Err (protocol_error "Capture Runtime returned invalid StructuringSession provider.")
    end;
  assertExactFields engine ["engine"; "model"; "digest"] "StructuringSession provider"
    ["device"; "elapsedMs"; "stageMs"];;
  let device := get engine "device" in
  throw_if (present device && negb (string_with (λ s, 1 <=? slen s) device))
    "Capture Runtime returned invalid StructuringSession provider device.";;
  let elapsedMs := get engine "elapsedMs" in
  let stageMs := get engine "stageMs" in
  throw_if
    ((present elapsedMs && negb (milliseconds elapsedMs)) ||
     (present stageMs &&
      match stageMs with
      | Obj stages => existsb (λ kv, blank kv.1 || negb (milliseconds kv.2)) stages
      | _ => true
      end))
    "Capture Runtime returned invalid StructuringSession provider processing times.".

Definition validateStructuringBatch (record : fields) : outcome unit :=
  throw_if
    (negb (array_with (λ ids, (1 <=? Z.of_nat (length ids)) &&
             forallb (string_with (λ s, negb (slen s =? 0))) ids) (get record "sourceSegmentIds")))
    "Capture Runtime returned invalid StructuringBatch sourceSegmentIds.";;
  forM_ ["providerPrompt"; "providerSchema"] (λ field,
    match as_object (get record field) with
    | Some _ => Ok tt
    | None => Err (protocol_error
        ("Capture Runtime returned invalid StructuringBatch " +:+ field +:+ "."))
    end).

(** ** The shape check *)

Definition validateModelShape (Date_parse : string → num) (value : js) (model : RuntimeResponseModel)
    : outcome unit :=
  match as_object value with
  | None => Err (protocol_error
      ("Capture Runtime returned invalid " +:+ model_name model +:+ " data."))
  | Some record =>
      let '(required, optional) := MODEL_FIELDS model in
      assertExactFields record required (model_name model) optional;;
      match model with
      | M_CaptureOcrProjection => validateCaptureOcrProjection Date_parse record
      | M_RuntimeReady => validateRuntimeReady record
      | M_RuntimeInstallation => validateRuntimeInstallationDownload record
      | M_CaptureOperation => assertCaptureProgress record "CaptureOperation"
      | M_StructuringSession => validateStructuringSession record
      | M_StructuringBatch => validateStructuringBatch record
      | _ => Ok tt
      end
  end.

Definition parseCaptureOcrProjection (Date_parse : string → num) (value : js) : outcome js :=
  validateModelShape Date_parse value M_CaptureOcrProjection;; Ok value.

(** ** Error responses *)

(** [value?.name] on an unknown value: none of the names is inherited. *)
Definition prop (v : js) (name : string) : js :=
  match v with Obj r => get r name | _ => Undefined end.

(** [details && typeof details === 'object' ? details : {}] *)
Definition details_map (details : js) : js :=
  match details with Obj _ => details | _ => Obj [] end.

Definition string_of (v : js) : option string := match v with Str s => Some s | _ => None end.
Definition boolean_of (v : js) : option bool := match v with Bool b => Some b | _ => None end.

(** [Array.isArray(v) ? v.filter((i) => !!i && typeof i === 'object') : undefined] *)
Definition issue_list (v : js) : option (list js) :=
  match v with
  | Arr l => Some (List.filter (λ i, match i with Obj _ | Arr _ => true | _ => false end) l)
  | _ => None
  end.

Definition first_some {A} (a b : option A) : option A :=
  match a with Some _ => a | None => b end.

(** [decodeError(response)]: the error to throw.  The base constructor calls
    [message.replace], so a message that is not a string is a [TypeError]. *)
Definition decodeError (response : Response) : thrown :=
  let envelope := default Undefined (JSON_parse (resp_body response)) in
  let error := prop envelope "error" in
  let details := prop error "details" in
  let detailsMap := details_map details in
  let category := first_some (string_of (prop error "category")) (string_of (prop detailsMap "category")) in
  let status := resp_status response in
  let retryable := default (500 <=? status)
    (first_some (boolean_of (prop error "retryable")) (boolean_of (prop detailsMap "retryable"))) in
  let issues := first_some (issue_list (prop error "issues")) (issue_list (prop detailsMap "issues")) in
  let requestId := first_some (header response "x-request-id")
    (first_some (header response "x-correlation-id")
      (first_some (string_of (prop error "requestId")) (string_of (prop detailsMap "requestId")))) in
  let code := coalesce (prop error "code") (Str ("http_" +:+ show_Z status)) in
  let message := coalesce (prop error "message")
    (Str ("Capture Runtime request failed (" +:+ show_Z status +:+ ").")) in
  match message with
  | Str text =>
      if (status =? 401) || (status =? 403) || is_str code "unauthorized" ||
         is_str code "authentication_failed"
      then new_authentication_error text status details requestId
      else new_remote_error status code text details category (Some retryable) issues requestId
  | _ => TypeErr
  end.

(** [decodeJson(response, transport, model)]: [undefined] for 204. *)
Definition decodeJson (Date_parse : string → num) (response : Response)
    (model : option RuntimeResponseModel) : outcome js :=
  if negb (resp_ok response) then Err (decodeError response)
  else if resp_status response =? 204 then Ok Undefined
  else match JSON_parse (resp_body response) with
  | None => Err (new_protocol_error "Capture Runtime returned invalid JSON." (Obj []))
  | Some value =>
      match model with
      | Some m => validateModelShape Date_parse value m;; Ok value
      | None => Ok value
      end
  end.

(** ** Batch submissions *)

Definition block_types : list string :=
  ["heading"; "paragraph"; "list-item"; "table"; "quote"; "transcript"].

Definition assertSemanticBlock (block : js) : outcome unit :=
  semantic ← match as_object block with
    | Some b => Ok b
    | None => Err (protocol_error
        "Capture Runtime structuring batch submission block is invalid.")
    end;
  assertExactFields semantic ["sourceSegmentId"; "type"] "structuring semantic block" ["targetText"];;
  throw_if (negb (string_with (λ s, negb (slen s =? 0)) (get semantic "sourceSegmentId")))
    "Capture Runtime structuring semantic block sourceSegmentId is invalid.";;
  throw_if (negb (one_of block_types (get semantic "type")))
    "Capture Runtime structuring semantic block type is invalid.";;
  throw_if (present (get semantic "targetText") &&
            negb (string_with (λ s, (1 <=? slen s) && (slen s <=? 2000000)) (get semantic "targetText")))
    "Capture Runtime structuring semantic block targetText is invalid.".

Definition assertStructuringBatchSubmission (value : js) : outcome unit :=
  body ← match as_object value with
    | Some b => Ok b
    | None => Err (protocol_error
        "Capture Runtime structuring batch submission must be an object.")
    end;
  assertExactFields body ["batchDigest"; "blocks"] "structuring batch submission" ["protocolVersion"];;
  throw_if (negb (is_undefined (get body "protocolVersion")) && negb (is_str (get body "protocolVersion") "2"))
    "Capture Runtime structuring batch submission protocolVersion is invalid.";;
  throw_if (negb (string_with is_sha256_hex (get body "batchDigest")))
    "Capture Runtime structuring batch submission batchDigest is invalid.";;
  blocks ← match get body "blocks" with
    | Arr l => throw_if (Z.of_nat (length l) <? 1)
                 "Capture Runtime structuring batch submission blocks are invalid.";; Ok l
    | _ => Err (protocol_error
        "Capture Runtime structuring batch submission blocks are invalid.")
    end;
  forM_ blocks assertSemanticBlock.

(** ** Properties *)

(** The models [validateModelShape] checks by their field table alone. *)
Definition plain_model (m : RuntimeResponseModel) : bool :=
  match m with
  | M_CaptureOcrProjection | M_RuntimeReady | M_RuntimeInstallation | M_CaptureOperation
  | M_StructuringSession | M_StructuringBatch => false
  | _ => true
  end.

Lemma required_nonempty m : "" ∉ (MODEL_FIELDS m).1.
Proof. rewrite <-includes_false. by destruct m. Qed.

Lemma validateModelShape_fields D v m u :
  validateModelShape D v m = Ok u →
  ∃ r, v = Obj r ∧ no_unknown_field r ((MODEL_FIELDS m).1 ++ (MODEL_FIELDS m).2) ∧
    (∀ k, k ∈ (MODEL_FIELDS m).1 → k ∈ keys r).
Proof.
  pose proof (required_nonempty m) as Hne.
  unfold validateModelShape. destruct v as [| | | | | |r]; try done. cbn [as_object].
  destruct (MODEL_FIELDS m) as [required optional]. cbn in *. intros H.
  apply bind_Ok in H as ([] & Hf & _). apply assertExactFields_Ok in Hf as [? ?]; [|done]. eauto.
Qed.

(** the shape check of a response accepts a value of a model without a
    validator of its own exactly when it is an object that has every required
    field and whose first undeclared field, if it has one, has the empty name. *)
Lemma validateModelShape_plain D v m :
  plain_model m = true →
  validateModelShape D v m = Ok tt ↔
  ∃ r, v = Obj r ∧ no_unknown_field r ((MODEL_FIELDS m).1 ++ (MODEL_FIELDS m).2) ∧
    (∀ k, k ∈ (MODEL_FIELDS m).1 → k ∈ keys r).
Proof.
  intros Hp. split; [apply validateModelShape_fields|].
  pose proof (required_nonempty m) as Hne.
  intros (r & -> & Hu & Hr). unfold validateModelShape. cbn [as_object].
  destruct (MODEL_FIELDS m) as [required optional]. cbn in *.
  apply bind_Ok. exists tt. split; [by apply assertExactFields_Ok|]. by destruct m.
Qed.

Lemma validateModelShape_plain_witness :
  plain_model M_RuntimeInstallations = true ∧
  validateModelShape (λ _, NaN) (Obj [("items", Arr [])]) M_RuntimeInstallations = Ok tt.
Proof.
  split; [reflexivity|]. apply validateModelShape_plain; [reflexivity|].
  exists [("items", Arr [])]. split; [reflexivity|]. split.
  - left. intros k Hk. exact Hk.
  - intros k Hk. exact Hk.
Defined.

(** A safe integer value and the integer it denotes. *)
Definition safe_int (v : js) (z : Z) : Prop :=
  ∃ n, v = Num n ∧ to_int n = Some z ∧ Z.abs z ≤ MAX_SAFE_INTEGER.

(** A progress pair: both absent, or [0 <= done <= total] with [1 <= total]. *)
Definition progress_pair (done_ total : js) : Prop :=
  ∃ d t, safe_int done_ d ∧ safe_int total t ∧ 1 ≤ t ∧ 0 ≤ d ≤ t.

Lemma coalesce_null v : is_null (coalesce v Null) = nullish v.
Proof. by destruct v. Qed.

Lemma coalesce_present v d : nullish v = false → coalesce v d = v.
Proof. by destruct v. Qed.

Lemma progress_pair_spec done_ total :
  negb (isSafeIntegerAtLeast total 1) || negb (isSafeIntegerAtLeast done_ 0) || exceeds done_ total = false
  ↔ progress_pair done_ total.
Proof.
  rewrite !orb_false_iff, !negb_false_iff, !isSafeIntegerAtLeast_spec. unfold exceeds, progress_pair, safe_int.
  split.
  - intros [[(n & t & -> & Ht & ? & ?) (m & d & -> & Hd & ? & ?)] Hlt]. cbn in Hlt.
    rewrite (num_ltb_int _ _ _ _ Ht Hd), Z.ltb_ge in Hlt. exists d, t. repeat split; eauto.
  - intros (d & t & (m & -> & Hd & ?) & (n & -> & Ht & ?) & ? & ? & ?). cbn.
    rewrite (num_ltb_int _ _ _ _ Ht Hd), Z.ltb_ge. repeat split; eauto 10.
Qed.

(** What the page and media progress fields of an operation or event must be. *)
Definition capture_progress_ok (record : fields) (label : string) : Prop :=
  let kind := coalesce (get record "kind") (Str "audio") in
  ((nullish (get record "pagesDone") = true ∧ nullish (get record "pagesTotal") = true) ∨
   ((kind = Str "pdf" ∨ kind = Str "image") ∧
    progress_pair (get record "pagesDone") (get record "pagesTotal"))) ∧
  (∀ f, f = "durationMs" ∨ (f = "coveredUntilMs" ∧ label = "CaptureOperation") →
     nullish (get record f) = true ∨
     (kind = Str "audio" ∧ ∃ z, safe_int (get record f) z ∧ 0 ≤ z)).

Lemma media_field_ok v kind m :
  throw_if (negb (is_null (coalesce v Null)) &&
            (negb (is_str kind "audio") || negb (isSafeIntegerAtLeast (coalesce v Null) 0))) m = Ok tt
  ↔ nullish v = true ∨ (kind = Str "audio" ∧ ∃ z, safe_int v z ∧ 0 ≤ z).
Proof.
  rewrite throw_if_Ok, coalesce_null, andb_false_iff, orb_false_iff, !negb_false_iff, is_str_spec.
  rewrite isSafeIntegerAtLeast_spec. unfold safe_int. destruct (nullish v) eqn:E; [naive_solver|].
  rewrite coalesce_present by done. split; [|naive_solver].
  intros [?|[? (n & z & ? & ? & ? & ?)]]; [done|]. right. eauto 10.
Qed.

Lemma progress_pair_present d t : progress_pair d t → nullish d = false ∧ nullish t = false.
Proof. intros (? & ? & (? & -> & _) & (? & -> & _) & _). done. Qed.

(** the progress check accepts a record exactly when its page counts are
    absent or form a pair [0 <= pagesDone <= pagesTotal] of a document capture,
    and its media times are absent or non-negative integers of an audio
    capture; an absent kind means audio. *)
Lemma assertCaptureProgress_exact record label :
  assertCaptureProgress record label = Ok tt ↔ capture_progress_ok record label.
Proof.
  unfold assertCaptureProgress, capture_progress_ok. rewrite bind_Ok.
  set (kind := coalesce (get record "kind") (Str "audio")).
  assert (∀ u, throw_if
    ((negb (is_null (coalesce (get record "pagesDone") Null)) ||
      negb (is_null (coalesce (get record "pagesTotal") Null))) &&
     ((negb (is_str kind "pdf") && negb (is_str kind "image")) ||
      negb (isSafeIntegerAtLeast (coalesce (get record "pagesTotal") Null) 1) ||
      negb (isSafeIntegerAtLeast (coalesce (get record "pagesDone") Null) 0) ||
      exceeds (coalesce (get record "pagesDone") Null) (coalesce (get record "pagesTotal") Null)))
    ("Capture Runtime returned invalid " +:+ label +:+ " page progress.") = Ok u ↔
    ((nullish (get record "pagesDone") = true ∧ nullish (get record "pagesTotal") = true) ∨
     ((kind = Str "pdf" ∨ kind = Str "image") ∧
      progress_pair (get record "pagesDone") (get record "pagesTotal")))) as Hpages.
  { intros u. rewrite throw_if_Ok, !coalesce_null, <-!orb_assoc, (orb_assoc (negb (isSafeIntegerAtLeast _ 1))).
    rewrite andb_false_iff, (orb_false_iff (negb _ && _)), progress_pair_spec.
    rewrite andb_false_iff, orb_false_iff, !negb_false_iff, !is_str_spec. split.
    - intros [?|[Hk Hpp]]; [by left|]. right. split; [done|].
      destruct (progress_pair_present _ _ Hpp) as [H1 H2].
      destruct (get record "pagesDone"), (get record "pagesTotal"); done.
    - intros [?|[Hk Hpp]]; [by left|]. right. split; [done|].
      destruct (progress_pair_present _ _ Hpp). by rewrite !coalesce_present. }
  setoid_rewrite Hpages. setoid_rewrite forM_Ok. setoid_rewrite Forall_forall.
  setoid_rewrite media_field_ok. split.
  - intros (_ & ? & Hm). split; [done|]. intros f Hf. apply Hm.
    destruct (String.eqb_spec label "CaptureOperation"); destruct Hf as [->|[-> ->]]; set_solver.
  - intros [? Hm]. exists tt. split; [done|]. intros f Hf. apply Hm.
    destruct (String.eqb_spec label "CaptureOperation"); set_solver.
Qed.

(** an installation is accepted by the download check exactly when it has
    no byte counts or has a pair [0 <= downloadedBytes <= downloadBytes]. *)
Lemma installation_download_exact record :
  validateRuntimeInstallationDownload record = Ok tt ↔
  (nullish (get record "downloadBytes") = true ∧ nullish (get record "downloadedBytes") = true) ∨
  progress_pair (get record "downloadedBytes") (get record "downloadBytes").
Proof.
  unfold validateRuntimeInstallationDownload.
  rewrite throw_if_Ok, !coalesce_null, andb_false_iff, negb_false_iff, andb_true_iff, progress_pair_spec.
  split; (intros [?|Hpp]; [by left|right]); destruct (progress_pair_present _ _ Hpp);
    revert Hpp; rewrite ?coalesce_present by done; [|done].
  by destruct (get record "downloadBytes"), (get record "downloadedBytes").
Qed.

(** The OCR compute preflight of an accepted readiness response. *)
Definition compute_preflight_ok (compute : fields) : Prop :=
  (get compute "mode" = Str "gpu-dml" ∧ get compute "userNoticeRequired" = Bool false ∧
   nullish (get compute "reasonCode") = true ∧ nullish (get compute "noticeCode") = true) ∨
  (get compute "mode" = Str "cpu-fallback" ∧ get compute "userNoticeRequired" = Bool true ∧
   isOcrComputeReasonCode (get compute "reasonCode") = true ∧
   get compute "noticeCode" = Str "ocr_cpu_fallback").

(** an accepted readiness response carries no OCR compute preflight, or one
    that is consistent: GPU mode without reason and notice, or CPU fallback
    with a known reason and the fallback notice; and it names this runtime. *)
Lemma runtime_ready_compute record :
  validateRuntimeReady record = Ok tt →
  nullish (get record "ocrCompute") = true ∨
  ∃ compute, get record "ocrCompute" = Obj compute ∧ compute_preflight_ok compute ∧
    get compute "runtimeVersion" = Str RUNTIME_VERSION ∧
    string_with is_sha256_hex (get compute "contractSha256") = true.
Proof.
  unfold validateRuntimeReady. destruct (nullish (get record "ocrCompute")) eqn:Hn; [by left|].
  intros H. right. inv_codec. rename x into compute.
  exists compute. split; [done|]. rewrite !orb_false_iff, !negb_false_iff in *.
  repeat match goal with H : _ ∧ _ |- _ => destruct H end.
  split; [|split; [by apply is_str_spec|done]].
  match goal with H : isOcrComputeMode _ = true |- _ =>
    apply one_of_spec in H as (mode & Hmode & Hin) end.
  match goal with H : is_boolean _ = true |- _ => apply is_boolean_spec in H as (b & Hb) end.
  unfold compute_preflight_ok. rewrite Hmode, Hb in *. unfold present in *.
  rewrite !elem_of_cons in Hin. destruct Hin as [->|[->|[]%elem_of_nil]]; cbn in H; inv_codec;
    rewrite ?orb_false_iff, ?negb_false_iff in *; [left|right];
    destruct b; cbn in *; rewrite ?is_str_spec in *; intuition congruence.
Qed.

Lemma runtime_ready_compute_witness :
  validateRuntimeReady [("ready", Bool true)] = Ok tt ∧
  (nullish (get [("ready", Bool true)] "ocrCompute") = true ∨
   ∃ compute, get [("ready", Bool true)] "ocrCompute" = Obj compute ∧ compute_preflight_ok compute ∧
    get compute "runtimeVersion" = Str RUNTIME_VERSION ∧
    string_with is_sha256_hex (get compute "contractSha256") = true).
Proof. split; [reflexivity|]. apply runtime_ready_compute. reflexivity. Defined.

(** What a batch submission must be before it is sent. *)
Definition semantic_block_ok (block : js) : Prop :=
  ∃ b, block = Obj b ∧
    no_unknown_field b ["sourceSegmentId"; "type"; "targetText"] ∧
    "sourceSegmentId" ∈ keys b ∧ "type" ∈ keys b ∧
    (∃ s, get b "sourceSegmentId" = Str s ∧ s ≠ "") ∧
    (∃ t, get b "type" = Str t ∧ t ∈ block_types) ∧
    (nullish (get b "targetText") = true ∨
     ∃ t, get b "targetText" = Str t ∧ 1 ≤ slen t ≤ 2000000).

Lemma assertSemanticBlock_exact block :
  assertSemanticBlock block = Ok tt ↔ semantic_block_ok block.
Proof.
  assert ("" ∉ ["sourceSegmentId"; "type"]) as Hne by (rewrite <-includes_false; done).
  unfold assertSemanticBlock, semantic_block_ok. split.
  - intros H. apply bind_Ok in H as (b & Hb & H). exists b.
    destruct block as [| | | | | |r]; cbn in Hb; simplify_eq. split; [done|].
    apply bind_Ok in H as ([] & Hf & H). apply assertExactFields_Ok in Hf as [Hu Hr]; [|done].
    split; [done|]. split; [apply Hr; set_solver|]. split; [apply Hr; set_solver|].
    inv_codec. unfold present in *. bsimp. split.
    { match goal with H : ∃ s, _ ∧ negb (slen s =? 0) = true |- _ => destruct H as (s & ? & Hs) end.
      exists s. bsimp. by rewrite slen_0 in Hs. }
    split; [done|]. match goal with H : _ ∨ _ |- _ => destruct H as [?|(t & ? & ?)] end; [by left|right].
    bsimp. eauto.
  - intros (b & -> & Hu & Hi & Ht & (s & Hs & Hsn) & Hty & Htt). cbn [as_object].
    apply bind_Ok. exists b. split; [done|]. apply bind_Ok. exists tt. split.
    { apply assertExactFields_Ok; [done|]. split; [done|]. set_solver. }
    apply bind_Ok. exists tt. rewrite !throw_if_Ok, negb_false_iff. split.
    { apply string_with_spec. exists s. bsimp. by rewrite slen_0. }
    apply bind_Ok. exists tt. rewrite !throw_if_Ok, negb_false_iff. split; [by apply one_of_spec|].
    unfold present. bsimp. destruct Htt as [?|(t & ? & ?)]; [by left|right].
    exists t. split; [done|]. bsimp. lia.
Qed.

(** a batch submission is accepted exactly when it is an object with the
    declared fields, protocol version 2 when one is given, a SHA-256 batch
    digest, and at least one block, each of which names its segment, has a
    known block type and a target text of at most two million characters. *)
Lemma batch_submission_exact value :
  assertStructuringBatchSubmission value = Ok tt ↔
  ∃ body blocks, value = Obj body ∧
    no_unknown_field body ["batchDigest"; "blocks"; "protocolVersion"] ∧
    (get body "protocolVersion" = Undefined ∨ get body "protocolVersion" = Str "2") ∧
    (∃ d, get body "batchDigest" = Str d ∧ is_sha256_hex d = true) ∧
    get body "blocks" = Arr blocks ∧ blocks ≠ [] ∧ Forall semantic_block_ok blocks.
Proof.
  assert ("" ∉ ["batchDigest"; "blocks"]) as Hne by (rewrite <-includes_false; done).
  unfold assertStructuringBatchSubmission. split.
  - intros H. apply bind_Ok in H as (b & Hb & H).
    destruct value as [| | | | | |r]; cbn in Hb; simplify_eq. exists b.
    apply bind_Ok in H as ([] & Hf & H). apply assertExactFields_Ok in Hf as [Hu Hr]; [|done].
    inv_codec. destruct (get b "blocks") as [| | | | |l|] eqn:Hbl; try done. exists l. inv_codec.
    split; [done|]. split; [done|]. split.
    { match goal with H : _ && _ = false |- _ => apply andb_false_iff in H as [Hv|Hv] end;
        apply negb_false_iff in Hv; [left|right; by apply is_str_spec].
      by destruct (get b "protocolVersion"). }
    split; [by apply string_with_spec, negb_false_iff|]. split; [done|].
    split; [match goal with |- ?z ≠ [] => by destruct z end|].
    eapply Forall_impl; [eassumption|]. intros block. by rewrite assertSemanticBlock_exact.
  - intros (b & l & -> & Hu & Hv & (d & Hd & Hh) & Hbl & Hnil & Hall). cbn [as_object].
    apply bind_Ok. exists b. split; [done|]. apply bind_Ok. exists tt. split.
    { apply assertExactFields_Ok; [done|]. split; [done|]. intros k Hk.
      destruct (decide (k ∈ keys b)) as [?|Hn]; [done|]. apply get_absent in Hn.
      rewrite !elem_of_cons in Hk. destruct Hk as [->|[->|[]%elem_of_nil]]; congruence. }
    rewrite Hbl, Hd. apply bind_Ok. exists tt. split.
    { apply throw_if_Ok. by destruct Hv as [-> | ->]. }
    apply bind_Ok. exists tt. split; [apply throw_if_Ok; cbn; by rewrite Hh|].
    apply bind_Ok. exists l. split.
    { apply bind_Ok. exists tt. split; [|done]. apply throw_if_Ok, Z.ltb_ge.
      destruct l; cbn [length]; [done|lia]. }
    apply forM_Ok. eapply Forall_impl; [eassumption|]. intros block. by rewrite assertSemanticBlock_exact.
Qed.

(** an unsuccessful response becomes an authentication error for status 401
    and 403 and for the two authentication codes, and a remote error otherwise;
    both carry the status, and a remote error whose envelope says nothing about
    retrying is retryable exactly from status 500.  Only a message that is not
    text raises a [TypeError] instead. *)
Lemma decodeError_classification response :
  let error := prop (default Undefined (JSON_parse (resp_body response))) "error" in
  let code := coalesce (prop error "code") (Str ("http_" +:+ show_Z (resp_status response))) in
  match decodeError response with
  | Runtime e =>
      err_status e = resp_status response ∧
      (err_class e = if (resp_status response =? 401) || (resp_status response =? 403) ||
                        is_str code "unauthorized" || is_str code "authentication_failed"
                     then CaptureAuthenticationError else CaptureRemoteError) ∧
      (err_class e = CaptureRemoteError →
       err_code e = code ∧
       (boolean_of (prop error "retryable") = None →
        boolean_of (prop (details_map (prop error "details")) "retryable") = None →
        err_retryable e = (500 <=? resp_status response)))
  | TypeErr => nullish (prop error "message") = false ∧ string_of (prop error "message") = None
  | _ => False
  end.
Proof.
  cbv zeta. unfold decodeError.
  set (error := prop (default Undefined (JSON_parse (resp_body response))) "error").
  set (code := coalesce (prop error "code") _).
  set (message := coalesce (prop error "message") _).
  destruct message as [| | | |text| |] eqn:Hm; subst message;
    try (destruct (prop error "message"); done).
  destruct (_ || _ || _ || _); cbn; (split; [done|]; split; [done|]); [done|].
  intros _. split; [done|]. by intros -> ->.
Qed.

(** ** Accepted OCR projections *)

Lemma parseCaptureOcrProjection_Ok D v v' :
  parseCaptureOcrProjection D v = Ok v' →
  v' = v ∧ ∃ r, v = Obj r ∧ validateCaptureOcrProjection D r = Ok tt.
Proof.
  unfold parseCaptureOcrProjection, validateModelShape. intros H.
  destruct v as [| | | | | |r]; try done. cbn [as_object MODEL_FIELDS] in H. inv_codec. eauto.
Qed.

(** C1: an accepted OCR projection lists between zero and 500 pages whose
    source page numbers are positive and strictly ascending, as many as its
    page count says. *)
Theorem ocr_projection_pages D v v' :
  parseCaptureOcrProjection D v = Ok v' →
  v' = v ∧ ∃ r ps ns, v = Obj r ∧ get r "pages" = Arr (map Obj ps) ∧
    Forall2 page_number ps ns ∧ StronglySorted Z.lt (0 :: ns) ∧
    strict_eqb (get r "pageCount") (js_Z (Z.of_nat (length ns))) = true ∧
    Z.of_nat (length ns) ≤ 500.
Proof.
  intros (-> & r & -> & H)%parseCaptureOcrProjection_Ok. split; [done|].
  apply validateCaptureOcrProjection_pages in H as (ps & ns & Hp & _ & Hns & Hs & Hc & Hl).
  exists r, ps, ns. rewrite <-(Forall2_length _ _ _ Hns). do 3 (split; [done|]). split; [|done].
  apply Sorted_StronglySorted; [intros ???; lia|done].
Qed.

(** every page of an accepted OCR projection has the content its status
    demands, the provenance of the document, and text boxes that are polygons
    of four to 256 points inside the page raster. *)
Lemma ocr_projection_page_content D v v' :
  parseCaptureOcrProjection D v = Ok v' →
  ∃ r ps, v = Obj r ∧ get r "pages" = Arr (map Obj ps) ∧
    Forall (λ page, page_shape page ∧
      provenance_eq (get page "provenance") (get r "provenance") ∧
      ∃ w h, raster_size (get page "raster") w h ∧
        Forall (box_inside w h) (list_or_empty (get page "boxes"))) ps.
Proof.
  intros (-> & r & -> & H)%parseCaptureOcrProjection_Ok.
  apply validateCaptureOcrProjection_pages in H as (ps & ns & Hp & Hall & _).
  exists r, ps. split; [done|]. split; [done|].
  eapply Forall_impl; [exact Hall|]. intros page Hok. exact (validateOcrPage_shape _ _ _ Hok).
Qed.

(** a projection accepted as completed names its source, carries no
    failure, has resolved provenance, no failed page and at least one
    recognized page. *)
Lemma ocr_projection_completed D v v' :
  parseCaptureOcrProjection D v = Ok v' →
  is_str (prop v "status") "completed" = true →
  ∃ ps, prop v "pages" = Arr (map Obj ps) ∧
    Forall (λ page, is_str (get page "status") "failed" = false) ps ∧
    Exists (λ page, is_str (get page "status") "recognized" = true ∧
                    blank (text_or_empty (get page "text")) = false) ps ∧
    nullish (prop v "source") = false ∧ nullish (prop v "failure") = true ∧
    prop (prop v "provenance") "status" = Str "resolved".
Proof.
  intros (-> & r & -> & H)%parseCaptureOcrProjection_Ok. cbn [prop]. intros Hst.
  apply validateCaptureOcrProjection_completed in H
    as (ps & Hp & Hall & Hnf & Hrec & Hs & Hf & pr & Hpr & Hres); [|done].
  exists ps. split; [done|]. split; [done|]. split.
  - rewrite Exists_exists in Hrec |- *. destruct Hrec as (page & Hin & Hrec).
    exists page. split; [done|]. split; [done|].
    rewrite Forall_forall in Hall. destruct (validateOcrPage_shape _ _ _ (Hall _ Hin)) as [Hsh _].
    apply is_str_spec in Hrec. unfold page_shape in Hsh. rewrite Hrec in Hsh. cbn in Hsh.
    intuition congruence.
  - rewrite Hpr. done.
Qed.

(** A small accepted projection, used to evaluate the theorems. *)
Definition hex_digest (c : string) : string := String.concat "" (replicate 64 c).

Definition sample_provenance : js :=
  Obj [("status", Str "resolved"); ("engine", Str "windowsml-ocr"); ("model", Str "pp-ocr");
       ("modelDigest", Str ("sha256:" +:+ hex_digest "a")); ("device", Str "cpu");
       ("profileId", Str "default"); ("profileSpecSha256", Str (hex_digest "b"))].

Definition sample_point (x y : Z) : js := Obj [("x", js_Z x); ("y", js_Z y)].

Definition sample_page (n : Z) : fields :=
  [("page", js_Z n); ("status", Str "recognized");
   ("raster", Obj [("width", js_Z 100); ("height", js_Z 50); ("scale", js_Z 2);
                   ("coordinateSystem", Str "pixel")]);
   ("provenance", sample_provenance); ("text", Str "hello");
   ("boxes", Arr [Obj [("polygon", Arr [sample_point 0 0; sample_point 10 0; sample_point 10 5; sample_point 0 50]);
                       ("text", Str "hello"); ("confidence", Null)]]);
   ("confidence", Num (Fin (1 # 2)))].

Definition sample_projection : js :=
  Obj [("apiVersion", Str "2.0"); ("schemaVersion", Str "3"); ("captureId", Str "c1");
       ("status", Str "completed"); ("pages", Arr [Obj (sample_page 2); Obj (sample_page 5)]);
       ("pageCount", js_Z 2); ("runtimeVersion", Str RUNTIME_VERSION);
       ("contractSha256", Str (hex_digest "c")); ("provenance", sample_provenance);
       ("createdAt", Str "2026-01-01T00:00:00Z");
       ("source", Obj [("sha256", Str (hex_digest "d")); ("fileName", Str "a.pdf");
                       ("mediaType", Str "application/pdf"); ("bytes", js_Z 10)])].

Lemma sample_projection_accepted :
  parseCaptureOcrProjection (λ _, num_of_Z 0) sample_projection = Ok sample_projection.
Proof. vm_compute. reflexivity. Qed.

Lemma ocr_projection_pages_witness :
  sample_projection = sample_projection ∧ ∃ r ps ns, sample_projection = Obj r ∧
    get r "pages" = Arr (map Obj ps) ∧
    Forall2 page_number ps ns ∧ StronglySorted Z.lt (0 :: ns) ∧
    strict_eqb (get r "pageCount") (js_Z (Z.of_nat (length ns))) = true ∧
    Z.of_nat (length ns) ≤ 500.
Proof. exact (ocr_projection_pages _ _ _ sample_projection_accepted). Defined.

Lemma ocr_projection_page_content_witness :
  ∃ r ps, sample_projection = Obj r ∧ get r "pages" = Arr (map Obj ps) ∧
    Forall (λ page, page_shape page ∧
      provenance_eq (get page "provenance") (get r "provenance") ∧
      ∃ w h, raster_size (get page "raster") w h ∧
        Forall (box_inside w h) (list_or_empty (get page "boxes"))) ps.
Proof. exact (ocr_projection_page_content _ _ _ sample_projection_accepted). Defined.

Lemma ocr_projection_completed_witness :
  ∃ ps, prop sample_projection "pages" = Arr (map Obj ps) ∧
    Forall (λ page, is_str (get page "status") "failed" = false) ps ∧
    Exists (λ page, is_str (get page "status") "recognized" = true ∧
                    blank (text_or_empty (get page "text")) = false) ps ∧
    nullish (prop sample_projection "source") = false ∧ nullish (prop sample_projection "failure") = true ∧
    prop (prop sample_projection "provenance") "status" = Str "resolved".
Proof. apply (ocr_projection_completed _ _ _ sample_projection_accepted). vm_compute. reflexivity. Defined.
