(* ===== verification/Sse.v ===== *)
(** * The server-sent-event decoder

    Models [decodeSse] and [parseJsonFrame] of
    packages/capture-runtime-client/src/codec.ts.  The generator's run is the list of
    frames it yields and the error it throws, if it does. *)

From S2P Require Import Prelude JsString JsNum JsValue Json RuntimeErrors CodecFields Codec.

Record SseFrame : Type := {
  frame_id : option string;
  frame_event : option string;
  frame_data : string
}.

(** The frame being assembled. *)
Record PendingFrame : Type := {
  pending_id : option string;
  pending_event : option string;
  pending_data : list string
}.

Definition empty_frame : PendingFrame := {| pending_id := None; pending_event := None; pending_data := [] |}.

Definition LF : ascii := "010".
Definition CR : ascii := "013".

(** [parts.join('\n')] *)
Definition join_lines (parts : list string) : string := join (String LF "") parts.

(** [flush()]: the frame to yield; the pending frame is reset in either case. *)
Definition flush (frame : PendingFrame) : option SseFrame :=
  match pending_data frame with
  | [] => None
  | d => Some {| frame_id := pending_id frame; frame_event := pending_event frame;
                 frame_data := join_lines d |}
  end.

(** [if (line.endsWith('\r')) line = line.slice(0, -1)] *)
Fixpoint strip_cr (line : string) : string :=
  match line with
  | "" => ""
  | String c "" => if Ascii.eqb c CR then "" else line
  | String c l => String c (strip_cr l)
  end.

(** [value.replace(/^ /u, '')] *)
Definition strip_space (value : string) : string :=
  match value with String " " v => v | _ => value end.

(** One line without its terminator: the pending frame and a frame to yield. *)
Definition process_line (frame : PendingFrame) (raw : string) : PendingFrame * option SseFrame :=
  let line := strip_cr raw in
  match line with
  | "" => (empty_frame, flush frame)
  | String ":" _ => (frame, None)
  | _ =>
      let '(field, value) := match index_of ":" line with
        | None => (line, "")
        | Some separator => (take_str separator line, strip_space (drop_str (S separator) line))
        end in
      if String.eqb field "id" then
        ({| pending_id := Some value; pending_event := pending_event frame; pending_data := pending_data frame |}, None)
      else if String.eqb field "event" then
        ({| pending_id := pending_id frame; pending_event := Some value; pending_data := pending_data frame |}, None)
      else if String.eqb field "data" then
        ({| pending_id := pending_id frame; pending_event := pending_event frame;
            pending_data := pending_data frame ++ [value] |}, None)
      else (frame, None)
  end.

(** The inner loop: take complete lines off the buffer.  Each turn shortens the
    buffer, so its length bounds the number of turns. *)
Fixpoint drain (fuel : nat) (buffer : string) (frame : PendingFrame)
    : string * PendingFrame * list SseFrame :=
  match fuel with
  | O => (buffer, frame, [])
  | S n =>
      match index_of LF buffer with
      | None => (buffer, frame, [])
      | Some newline =>
          let '(frame', result) := process_line frame (take_str newline buffer) in
          let '(buffer', frame'', results) := drain n (drop_str (S newline) buffer) frame' in
          (buffer', frame'', option_list result ++ results)
      end
  end.

(** One read: append the decoded text and drain the buffer. *)
Definition feed (st : string * PendingFrame) (chunk : string) : string * PendingFrame * list SseFrame :=
  let '(buffer, frame) := st in
  let buffer := buffer +:+ chunk in
  drain (String.length buffer) buffer frame.

Fixpoint read_all (st : string * PendingFrame) (chunks : list string) : string * PendingFrame * list SseFrame :=
  match chunks with
  | [] => (st.1, st.2, [])
  | c :: cs =>
      let '(buffer, frame, results) := feed st c in
      let '(buffer', frame', results') := read_all (buffer, frame) cs in
      (buffer', frame', results ++ results')
  end.

(** After the last read: a trailing [data:] line still counts. *)
Definition finish (buffer : string) (frame : PendingFrame) : option SseFrame :=
  let frame' :=
    if String.eqb buffer "" then frame
    else
      let line := strip_cr buffer in
      if starts_with "data:" line then
        {| pending_id := pending_id frame; pending_event := pending_event frame;
           pending_data := pending_data frame ++ [strip_space (drop_str 5 line)] |}
      else frame in
  flush frame'.

(** A generator's run: what it yields, then the error it throws, if any. *)
Definition run A : Type := list A * option thrown.

Definition decodeSse (response : Response) : run SseFrame :=
  if negb (resp_ok response) then ([], Some (decodeError response))
  else if negb (starts_with "text/event-stream" (lower (default "" (header response "content-type"))))
  then ([], Some (protocol_error "Capture Runtime returned an invalid event stream."))
  else match resp_stream response with
  | None => ([], None)
  | Some b =>
      let '(buffer, frame, results) := read_all ("", empty_frame) (body_chunks b) in
      match body_failure b with
      | Some e => (results, Some e)
      | None => (results ++ option_list (finish buffer frame), None)
      end
  end.

Definition parseJsonFrame (frame : SseFrame) : outcome js :=
  match JSON_parse (frame_data frame) with
  | Some v => Ok v
  | None => Err (new_protocol_error "Capture Runtime returned invalid event JSON." (Obj []))
  end.

(** ** Reference: lines of the whole text *)

(** Run the line automaton over complete lines. *)
Fixpoint process_lines (frame : PendingFrame) (lines : list string) : PendingFrame * list SseFrame :=
  match lines with
  | [] => (frame, [])
  | l :: ls =>
      let '(frame', result) := process_line frame l in
      let '(frame'', results) := process_lines frame' ls in
      (frame'', option_list result ++ results)
  end.

(** Complete lines of a text and the unterminated rest. *)
Definition complete_lines (text : string) : list string := removelast (split_on LF text).
Definition last_line (text : string) : string := List.last (split_on LF text) "".

(** The frames of a complete text, independent of how it was delivered. *)
Definition frames_of_text (text : string) : list SseFrame :=
  let '(frame, results) := process_lines empty_frame (complete_lines text) in
  results ++ option_list (finish (last_line text) frame).

(** ** Facts *)

Lemma drop_str_length n s : String.length (drop_str n s) = (String.length s - n)%nat.
Proof. revert s. induction n as [|n IH]; intros [|c s]; cbn; done || apply IH. Qed.

Lemma drain_lines fuel buffer frame :
  (String.length buffer ≤ fuel)%nat →
  drain fuel buffer frame =
  let '(frame', results) := process_lines frame (complete_lines buffer) in
  (last_line buffer, frame', results).
Proof.
  unfold complete_lines, last_line.
  revert buffer frame. induction fuel as [|n IH]; intros buffer frame Hl.
  - destruct buffer; cbn in Hl; [done|lia].
  - cbn [drain]. destruct (index_of LF buffer) as [i|] eqn:Hi.
    + apply index_of_Some in Hi as [Hb Hnl].
      assert (split_on LF buffer = take_str i buffer :: split_on LF (drop_str (S i) buffer)) as ->
        by (rewrite Hb at 1; by apply split_on_cons).
      pose proof (split_on_nonempty LF (drop_str (S i) buffer)) as Hne.
      destruct (split_on LF (drop_str (S i) buffer)) as [|w ws] eqn:Hs; [done|].
      change (removelast (take_str i buffer :: w :: ws)) with (take_str i buffer :: removelast (w :: ws)).
      change (List.last (take_str i buffer :: w :: ws) "") with (List.last (w :: ws) "").
      cbn [process_lines]. destruct (process_line frame (take_str i buffer)) as [frame' result].
      rewrite IH, Hs by (rewrite drop_str_length; lia).
      by destruct (process_lines frame' (removelast (w :: ws))).
    + apply index_of_None in Hi. by rewrite (split_on_no_sep LF _ Hi).
Qed.

Lemma process_lines_app frame l1 l2 :
  process_lines frame (l1 ++ l2) =
  let '(frame', r1) := process_lines frame l1 in
  let '(frame'', r2) := process_lines frame' l2 in (frame'', r1 ++ r2).
Proof.
  revert frame. induction l1 as [|l l1 IH]; intros frame; cbn.
  - by destruct (process_lines frame l2).
  - destruct (process_line frame l) as [f1 r1]. rewrite IH.
    destruct (process_lines f1 l1) as [f2 r2]. destruct (process_lines f2 l2) as [f3 r3].
    by rewrite app_assoc.
Qed.

Lemma last_app_cons {A} (l : list A) a k d : List.last (l ++ a :: k) d = List.last (a :: k) d.
Proof.
  induction l as [|x l IH]; [done|]. rewrite <-app_comm_cons.
  change (List.last (x :: l ++ a :: k) d) with
    (match l ++ a :: k with [] => x | _ => List.last (l ++ a :: k) d end).
  destruct (l ++ a :: k) eqn:E; [by destruct l|done].
Qed.

Lemma complete_lines_app s t :
  complete_lines (s +:+ t) = complete_lines s ++ complete_lines (last_line s +:+ t) ∧
  last_line (s +:+ t) = last_line (last_line s +:+ t).
Proof.
  unfold complete_lines, last_line. rewrite !split_on_app.
  assert (split_on LF (List.last (split_on LF s) "") = [List.last (split_on LF s) ""]) as ->.
  { apply split_on_no_sep. induction s as [|d s IH]; [done|]. cbn [split_on].
    destruct (Ascii.eqb LF d) eqn:Ed.
    - pose proof (split_on_nonempty LF s). destruct (split_on LF s); [done|exact IH].
    - pose proof (split_on_nonempty LF s). destruct (split_on LF s) as [|w [|w' ws]]; [done| |]; cbn in *.
      + by rewrite Ed.
      + exact IH. }
  cbn [removelast List.last app]. pose proof (split_on_nonempty LF t).
  destruct (split_on LF t) as [|w ws]; [done|].
  split; [by rewrite removelast_app|apply last_app_cons].
Qed.

Lemma read_all_lines buffer frame chunks :
  complete_lines buffer = [] → last_line buffer = buffer →
  read_all (buffer, frame) chunks =
  let text := buffer +:+ String.concat "" chunks in
  let '(frame', results) := process_lines frame (complete_lines text) in
  (last_line text, frame', results).
Proof.
  revert buffer frame. induction chunks as [|c cs IH]; intros buffer frame Hc Hl.
  - cbn. by rewrite str_app_nil_r, Hc, Hl.
  - cbn [read_all feed]. rewrite drain_lines by lia.
    destruct (process_lines frame (complete_lines (buffer +:+ c))) as [f1 r1] eqn:E1.
    assert (String.concat "" (c :: cs) = c +:+ String.concat "" cs) as ->.
    { destruct cs; [by rewrite str_app_nil_r|done]. }
    cbv zeta. rewrite str_app_assoc.
    destruct (complete_lines_app (buffer +:+ c) (String.concat "" cs)) as [-> ->].
    rewrite process_lines_app, E1.
    destruct (complete_lines_app (buffer +:+ c) "") as [Hc' Hl'].
    rewrite !str_app_nil_r in Hc', Hl'.
    rewrite IH; [|by apply (app_inv_head (complete_lines (buffer +:+ c))); rewrite <-Hc', app_nil_r|done].
    cbv zeta. by destruct (process_lines f1 _).
Qed.

(** ** Encoding frames, and the round trip *)

Definition line (l : string) : string := l +:+ String LF "".

Definition encode_opt (name : string) (v : option string) : string :=
  match v with Some s => line (name +:+ ": " +:+ s) | None => "" end.

(** The wire form of a frame, as an event-stream server writes it. *)
Definition encode_frame (f : SseFrame) : string :=
  encode_opt "id" (frame_id f) +:+ encode_opt "event" (frame_event f) +:+
  String.concat "" (map (λ d, line ("data: " +:+ d)) (split_on LF (frame_data f))) +:+ line "".

(** A value one line can carry; data may also contain line feeds. *)
Definition no_cr (s : string) : bool := all_chars (λ c, negb (Ascii.eqb CR c)) s.
Definition clean (s : string) : bool := no_cr s && all_chars (λ c, negb (Ascii.eqb LF c)) s.
Definition encodable (f : SseFrame) : bool :=
  match frame_id f with Some s => clean s | None => true end &&
  match frame_event f with Some s => clean s | None => true end &&
  no_cr (frame_data f).

Lemma strip_cr_clean s : no_cr s = true → strip_cr s = s.
Proof.
  unfold no_cr. induction s as [|c s IH]; [done|]. cbn [all_chars strip_cr].
  intros [Hc Hs]%andb_true_iff. destruct s as [|d s].
  - rewrite Ascii.eqb_sym in Hc. apply negb_true_iff in Hc. by rewrite Hc.
  - by rewrite IH.
Qed.

Lemma join_split c s : join (String c "") (split_on c s) = s.
Proof.
  unfold join. induction s as [|d s IH]; [done|]. cbn [split_on].
  pose proof (split_on_nonempty c s) as Hne. destruct (Ascii.eqb c d) eqn:E.
  - apply Ascii.eqb_eq in E as ->. destruct (split_on d s); [done|]. cbn in IH |- *. by rewrite IH.
  - destruct (split_on c s) as [|w [|w' ws]]; [done|cbn in *; by rewrite IH|].
    cbn in IH |- *. by rewrite IH.
Qed.

Lemma split_on_clean c s :
  Forall (λ w, all_chars (λ d, negb (Ascii.eqb c d)) w = true) (split_on c s).
Proof.
  induction s as [|d s IH]; cbn; [by repeat constructor|].
  destruct (Ascii.eqb c d) eqn:E; [by constructor|].
  destruct (split_on c s) as [|w ws]; [repeat constructor; cbn; by rewrite E|].
  inversion IH; subst. constructor; [|done]. cbn. by rewrite E.
Qed.

Lemma split_on_all (P : ascii → bool) c s :
  all_chars P s = true → Forall (λ w, all_chars P w = true) (split_on c s).
Proof.
  induction s as [|d s IH]; cbn; [by repeat constructor|]. intros [Hd Hs]%andb_true_iff.
  specialize (IH Hs). destruct (Ascii.eqb c d); [by constructor|].
  destruct (split_on c s) as [|w ws]; [repeat constructor; cbn; by rewrite Hd|].
  inversion IH; subst. constructor; [|done]. cbn. by rewrite Hd.
Qed.

Lemma complete_lines_line l t :
  all_chars (λ c, negb (Ascii.eqb LF c)) l = true →
  complete_lines (line l +:+ t) = l :: complete_lines t ∧ last_line (line l +:+ t) = last_line t.
Proof.
  intros H. unfold complete_lines, last_line, line. rewrite <-str_app_assoc. cbn [String.append].
  rewrite (split_on_cons LF l t H). pose proof (split_on_nonempty LF t).
  by destruct (split_on LF t).
Qed.

Lemma process_field frame name s :
  clean s = true → name = "id" ∨ name = "event" ∨ name = "data" →
  process_line frame (name +:+ ": " +:+ s) =
  (if String.eqb name "id" then
     {| pending_id := Some s; pending_event := pending_event frame; pending_data := pending_data frame |}
   else if String.eqb name "event" then
     {| pending_id := pending_id frame; pending_event := Some s; pending_data := pending_data frame |}
   else {| pending_id := pending_id frame; pending_event := pending_event frame;
           pending_data := pending_data frame ++ [s] |}, None).
Proof.
  unfold clean. intros [Hcr _]%andb_true_iff Hname. unfold process_line.
  rewrite strip_cr_clean; [by destruct Hname as [->|[->| ->]]|].
  unfold no_cr in *. rewrite all_chars_app. apply andb_true_iff.
  split; [by destruct Hname as [->|[->| ->]]|done].
Qed.


Lemma process_data_lines frame ds t :
  Forall (λ d, clean d = true) ds →
  process_lines frame (complete_lines (String.concat "" (map (λ d, line ("data: " +:+ d)) ds) +:+ t)) =
  process_lines {| pending_id := pending_id frame; pending_event := pending_event frame;
                   pending_data := pending_data frame ++ ds |} (complete_lines t) ∧
  last_line (String.concat "" (map (λ d, line ("data: " +:+ d)) ds) +:+ t) = last_line t.
Proof.
  intros Hds. revert frame. induction Hds as [|d ds Hd _ IH]; intros frame.
  - cbn [map String.concat String.append]. rewrite app_nil_r. by destruct frame.
  - assert (String.concat "" (map (λ d, line ("data: " +:+ d)) (d :: ds)) =
            line ("data: " +:+ d) +:+ String.concat "" (map (λ d, line ("data: " +:+ d)) ds)) as ->.
    { cbn [map]. destruct ds; cbn; [by rewrite str_app_nil_r|done]. }
    rewrite <-str_app_assoc.
    assert (all_chars (λ c, negb (Ascii.eqb LF c)) ("data: " +:+ d) = true) as Hlf.
    { rewrite all_chars_app. unfold clean in Hd. by apply andb_true_iff in Hd as [_ ->]. }
    destruct (complete_lines_line ("data: " +:+ d)
      (String.concat "" (map (λ d, line ("data: " +:+ d)) ds) +:+ t) Hlf) as [-> ->].
    cbn [process_lines]. change ("data: " +:+ d) with ("data" +:+ ": " +:+ d).
    rewrite (process_field frame "data" d Hd) by auto. cbn [String.eqb Ascii.eqb Bool.eqb].
    destruct (IH {| pending_id := pending_id frame; pending_event := pending_event frame;
                    pending_data := pending_data frame ++ [d] |}) as [IH1 IH2].
    cbn [pending_id pending_event pending_data] in IH1. rewrite <-app_assoc in IH1. cbn [app] in IH1.
    rewrite IH2. split; [|done]. cbn beta iota. rewrite IH1.
    by destruct (process_lines _ (complete_lines t)).
Qed.

Lemma process_opt_line frame name v t :
  name = "id" ∨ name = "event" →
  (match v with Some s => clean s | None => true end) = true →
  process_lines frame (complete_lines (encode_opt name v +:+ t)) =
  process_lines (match v with
    | Some s => (process_line frame (name +:+ ": " +:+ s)).1
    | None => frame end) (complete_lines t) ∧
  last_line (encode_opt name v +:+ t) = last_line t.
Proof.
  intros Hname Hv. destruct v as [s|]; [|done]. cbn [encode_opt].
  assert (all_chars (λ c, negb (Ascii.eqb LF c)) (name +:+ ": " +:+ s) = true) as Hlf.
  { rewrite all_chars_app. unfold clean in Hv. apply andb_true_iff in Hv as [_ Hv].
    apply andb_true_iff. split; [by destruct Hname as [-> | ->]|by cbn]. }
  destruct (complete_lines_line _ t Hlf) as [-> ->]. cbn [process_lines].
  rewrite process_field by (done || naive_solver).
  split; [|done]. cbn. by destruct (process_lines _ (complete_lines t)).
Qed.

(** Running the decoder over an encoded frame yields it and leaves nothing pending. *)
Lemma process_encoded_frame f t :
  encodable f = true →
  process_lines empty_frame (complete_lines (encode_frame f +:+ t)) =
  (let '(frame, results) := process_lines empty_frame (complete_lines t) in (frame, f :: results)) ∧
  last_line (encode_frame f +:+ t) = last_line t.
Proof.
  unfold encodable, encode_frame. intros [[Hid Hev]%andb_true_iff Hdata]%andb_true_iff.
  rewrite <-!str_app_assoc.
  destruct (process_opt_line empty_frame "id" (frame_id f)
    (encode_opt "event" (frame_event f) +:+ (String.concat "" (map (λ d, line ("data: " +:+ d))
       (split_on LF (frame_data f))) +:+ (line "" +:+ t)))) as [-> ->]; [auto|done|].
  match goal with |- process_lines ?fr _ = _ ∧ _ => set (f1 := fr) end.
  destruct (process_opt_line f1 "event" (frame_event f) (String.concat "" (map (λ d, line ("data: " +:+ d))
       (split_on LF (frame_data f))) +:+ (line "" +:+ t))) as [-> ->]; [auto|done|].
  match goal with |- process_lines ?fr _ = _ ∧ _ => set (f2 := fr) end.
  destruct (process_data_lines f2 (split_on LF (frame_data f)) (line "" +:+ t)) as [-> ->].
  { pose proof (split_on_clean LF (frame_data f)) as H1.
    pose proof (split_on_all _ LF _ Hdata) as H2. unfold clean.
    rewrite Forall_forall in *. intros w Hw. apply andb_true_iff. split; [by apply H2|by apply H1]. }
  destruct (complete_lines_line "" t eq_refl) as [-> ->]. cbn [process_lines].
  change (process_line ?fr "") with (empty_frame, flush fr). split; [|done].
  assert (f2 = {| pending_id := frame_id f; pending_event := frame_event f; pending_data := [] |}) as ->.
  { subst f2 f1. destruct (frame_id f), (frame_event f); rewrite ?process_field by auto; done. }
  unfold flush. cbn [pending_data pending_id pending_event app].
  pose proof (split_on_nonempty LF (frame_data f)) as Hne.
  destruct (split_on LF (frame_data f)) as [|w ws] eqn:Hs; [done|]. rewrite <-Hs.
  unfold join_lines. rewrite join_split. destruct (process_lines empty_frame (complete_lines t)).
  by destruct f.
Qed.

(** ** Properties *)

(** the frames decoded from an event stream that ends normally are those of
    its whole text, however the text was cut into reads. *)
Lemma decodeSse_chunk_independent response chunks :
  resp_ok response = true →
  starts_with "text/event-stream" (lower (default "" (header response "content-type"))) = true →
  resp_stream response = Some {| body_chunks := chunks; body_failure := None |} →
  decodeSse response = (frames_of_text (String.concat "" chunks), None).
Proof.
  intros Hok Hct Hbody. unfold decodeSse. rewrite Hok, Hct, Hbody. cbn [negb body_chunks body_failure].
  rewrite read_all_lines by done. cbn [String.append]. unfold frames_of_text.
  by destruct (process_lines empty_frame _).
Qed.

Definition sse_response (chunks : list string) : Response :=
  {| resp_status := 200; resp_headers := [("content-type", "text/event-stream; charset=utf-8")];
     resp_bytes := String.concat "" chunks; resp_body := String.concat "" chunks;
     resp_stream := Some {| body_chunks := chunks; body_failure := None |} |}.

Lemma decodeSse_chunk_independent_witness :
  decodeSse (sse_response ["da"; "ta: a" +:+ String LF ""; String LF "id"]) =
  (frames_of_text (String.concat "" ["da"; "ta: a" +:+ String LF ""; String LF "id"]), None) ∧
  frames_of_text ("data: a" +:+ String LF (String LF "id")) =
  [{| frame_id := None; frame_event := None; frame_data := "a" |}].
Proof.
  split; [apply decodeSse_chunk_independent; reflexivity|reflexivity].
Defined.

(** C35: decoding the wire form of any list of frames gives the frames back,
    whatever the cut of the text into reads. *)
Theorem decodeSse_roundtrip response frames chunks :
  resp_ok response = true →
  starts_with "text/event-stream" (lower (default "" (header response "content-type"))) = true →
  resp_stream response = Some {| body_chunks := chunks; body_failure := None |} →
  Forall (λ f, encodable f = true) frames →
  String.concat "" chunks = String.concat "" (map encode_frame frames) →
  decodeSse response = (frames, None).
Proof.
  intros Hok Hct Hbody Hall Hchunks. unfold decodeSse. rewrite Hok, Hct, Hbody. cbn [negb body_chunks body_failure].
  rewrite read_all_lines by done. cbn [String.append]. rewrite Hchunks.
  assert (process_lines empty_frame (complete_lines (String.concat "" (map encode_frame frames)))
            = (empty_frame, frames) ∧ last_line (String.concat "" (map encode_frame frames)) = "") as [-> ->].
  { clear Hchunks. induction Hall as [|f fs Hf _ IH]; [done|].
    assert (String.concat "" (map encode_frame (f :: fs)) =
            encode_frame f +:+ String.concat "" (map encode_frame fs)) as ->.
    { destruct fs; cbn [map String.concat]; [by rewrite str_app_nil_r|done]. }
    destruct (process_encoded_frame f (String.concat "" (map encode_frame fs)) Hf) as [-> ->].
    by destruct IH as [-> ->]. }
  cbn. by rewrite app_nil_r.
Qed.

Definition sample_frame : SseFrame :=
  {| frame_id := Some "7"; frame_event := Some "progress"; frame_data := "{}" +:+ String LF " x" |}.

Lemma decodeSse_roundtrip_witness :
  decodeSse (sse_response [encode_frame sample_frame; encode_frame sample_frame])
  = ([sample_frame; sample_frame], None).
Proof.
  eapply decodeSse_roundtrip; [reflexivity..|repeat constructor|reflexivity].
Defined.
