(* ===== verification/JsCoerce.v ===== *)
(** * Coercions of the language

    [Number(value)], [String(value)] and the relational comparison [a <= b] on
    unknown values, as the code applies them to headers, event sequences and
    template literals.  An object whose own [toString] is data cannot be
    converted: the language throws a [TypeError]. *)

From Stdlib Require Import Qabs.
From S2P Require Import Prelude JsString JsNum JsValue Json RuntimeErrors.

(** ** [Number.prototype.toString] *)

(** The number of decimal digits of [|z|]. *)
Definition digits10 (z : Z) : Z := slen (show_Z (Z.abs z)).

(** The [n] with [10^(n-1) <= q < 10^n], for [q > 0]. *)
Definition exponent10 (q : Q) : Z :=
  let n := digits10 (Qnum q) - digits10 (QDen q) in
  if Qltb q (decimal 1 n) then n else n + 1.

(** The shortest digits [s] of [k] places with [s * 10^(n-k)] rounding to [q]. *)
Fixpoint shortest (q : Q) (n : Z) (k : Z) (fuel : nat) : Z * Z * Z :=
  let s := round_half_even (Qdiv q (decimal 1 (n - k))) in
  let found := if s =? 10 ^ k then (10 ^ (k - 1), k, n + 1) else (s, k, n) in
  match fuel with
  | O => found
  | S fuel' => if num_eqb (round64 (decimal s (n - k))) (Fin q) then found
               else shortest q n (k + 1) fuel'
  end.

Definition zeros (n : Z) : string := String.concat "" (replicate (Z.to_nat n) "0").

Definition show_positive (q : Q) : string :=
  let '(s, k, n) := shortest q (exponent10 q) 1 16 in
  let ds := show_Z s in
  let cut i := take_str (Z.to_nat i) ds +:+ "." +:+ drop_str (Z.to_nat i) ds in
  if (k <=? n) && (n <=? 21) then ds +:+ zeros (n - k)
  else if (0 <? n) && (n <=? 21) then cut n
  else if (-6 <? n) && (n <=? 0) then "0." +:+ zeros (- n) +:+ ds
  else (if k =? 1 then ds else cut 1) +:+ "e" +:+ (if 0 <? n - 1 then "+" else "-") +:+
       show_Z (Z.abs (n - 1)).

(** [String(n)] on a number.  Every digit of a safe integer is significant. *)
Definition show_num (x : num) : string :=
  match x with
  | NaN => "NaN"
  | Inf s => if s then "-Infinity" else "Infinity"
  | Fin q =>
      match to_int x with
      | Some z => if Z.abs z <=? MAX_SAFE_INTEGER then show_Z z
                  else (if z <? 0 then "-" else "") +:+ show_positive (Qabs q)
      | None => (if Qnum q <? 0 then "-" else "") +:+ show_positive (Qabs q)
      end
  end.

Lemma show_num_safe z : Z.abs z ≤ MAX_SAFE_INTEGER → show_num (num_of_Z z) = show_Z z.
Proof.
  intros H. unfold show_num. rewrite to_int_of_Z. unfold num_of_Z at 1.
  by rewrite (proj2 (Z.leb_le _ _) H).
Qed.

(** ** [Number(text)] *)

(** Digits of base [2^k] after [0b], [0o] or [0x]. *)
Fixpoint read_radix (radix acc : Z) (count : nat) (s : string) : option (Z * nat) :=
  match s with
  | "" => Some (acc, count)
  | String c s' =>
      d ← hex_value c;
      if d <? radix then read_radix radix (acc * radix + d) (S count) s' else None
  end.

Definition radix_number (radix : Z) (s : string) : num :=
  match read_radix radix 0 0 s with
  | Some (v, S _) => round64 (inject_Z v)
  | _ => NaN
  end.

(** The unsigned [StrDecimalLiteral]: digits, an optional fraction, an optional exponent. *)
Definition decimal_number (neg : bool) (s : string) : num :=
  let '(ip, k, s1) := read_digits 0 0 s in
  let '(m, scale, s2) := match s1 with
    | String "." r => let '(v, j, r') := read_digits ip 0 r in (v, j, r')
    | _ => (ip, O, s1)
    end in
  if Nat.eqb (k + scale) 0 then NaN
  else
    let value e := round64 (decimal (if neg then - m else m) (e - Z.of_nat scale)) in
    match s2 with
    | "" => value 0
    | String c r =>
        if Ascii.eqb c "e" || Ascii.eqb c "E" then
          let '(eneg, r1) := match r with
            | String "+" r' => (false, r')
            | String "-" r' => (true, r')
            | _ => (false, r)
            end in
          match read_digits 0 0 r1 with
          | (e, S _, "") => value (if (eneg : bool) then - e else e)
          | _ => NaN
          end
        else NaN
    end.

(** [Number(s)] on a string. *)
Definition number_of_string (s : string) : num :=
  match trim s with
  | "" => Fin 0
  | String "0" (String c r) =>
      if Ascii.eqb c "x" || Ascii.eqb c "X" then radix_number 16 r
      else if Ascii.eqb c "o" || Ascii.eqb c "O" then radix_number 8 r
      else if Ascii.eqb c "b" || Ascii.eqb c "B" then radix_number 2 r
      else decimal_number false (trim s)
  | String c r =>
      let '(neg, t) := if Ascii.eqb c "-" then (true, r)
                       else if Ascii.eqb c "+" then (false, r) else (false, trim s) in
      if String.eqb t "Infinity" then Inf neg else decimal_number neg t
  end.

(** ** [ToPrimitive], [ToString], [ToNumber] *)

(** [String(value)]: an array joins its elements, an absent one is empty. *)
Fixpoint to_string (v : js) : outcome string :=
  match v with
  | Undefined => Ok "undefined"
  | Null => Ok "null"
  | Bool b => Ok (if b then "true" else "false")
  | Num n => Ok (show_num n)
  | Str s => Ok s
  | Arr l =>
      parts ← (fix go (l : list js) : outcome (list string) :=
        match l with
        | [] => Ok []
        | x :: l' =>
            p ← (if nullish x then Ok "" else to_string x);
            ps ← go l'; Ok (p :: ps)
        end) l;
      Ok (join "," parts)
  | Obj r => if has_key r "toString" then Err TypeErr else Ok "[object Object]"
  end.

Definition to_primitive (v : js) : outcome js :=
  match v with
  | Arr _ | Obj _ => Str <$> to_string v
  | _ => Ok v
  end.

(** [Number(value)] *)
Definition to_number (v : js) : outcome num :=
  p ← to_primitive v;
  Ok match p with
     | Undefined => NaN
     | Null => Fin 0
     | Bool b => num_of_Z (if b then 1 else 0)
     | Num n => n
     | Str s => number_of_string s
     | Arr _ | Obj _ => NaN
     end.

(** [a <= b] *)
Definition js_leb (a b : js) : outcome bool :=
  x ← to_primitive a;
  y ← to_primitive b;
  match x, y with
  | Str s, Str t => Ok (String.leb s t)
  | _, _ => m ← to_number x; n ← to_number y; Ok (num_leb m n)
  end.

(** On numbers it is the comparison of numbers. *)
Lemma js_leb_num m n : js_leb (Num m) (Num n) = Ok (num_leb m n).
Proof. done. Qed.

(** A value that is no number compares false with every number. *)
Lemma js_leb_undefined n : js_leb Undefined (Num n) = Ok false.
Proof. done. Qed.

(** ** [encodeURIComponent] *)

Definition uri_unreserved (c : ascii) : bool :=
  is_alnum c || existsb (Ascii.eqb c) ["-"; "_"; "."; "!"; "~"; "*"; "'"; "("; ")"]%char.

Definition hex_digit (n : Z) : ascii :=
  ascii_of_N (Z.to_N (if n <? 10 then 48 + n else 55 + n)).

Definition percent (byte : Z) : string :=
  String "%" (String (hex_digit (byte / 16)) (String (hex_digit (byte mod 16)) "")).

(** A character above [7F] has a UTF-8 encoding of two bytes. *)
Definition uri_escape (c : ascii) : string :=
  if uri_unreserved c then String c ""
  else if code c <? 128 then percent (code c)
  else percent (192 + code c / 64) +:+ percent (128 + code c mod 64).

Fixpoint encodeURIComponent (s : string) : string :=
  match s with
  | "" => ""
  | String c s' => uri_escape c +:+ encodeURIComponent s'
  end.

(** The encoding of an identifier never opens another path segment or a query. *)
Lemma uri_escape_safe c :
  all_chars (λ d, negb (existsb (Ascii.eqb d) ["/"; "?"; "#"; " "]%char)) (uri_escape c) = true.
Proof. by destruct c as [[] [] [] [] [] [] [] []]. Qed.

(** ** Arithmetic and order on unknown values *)

(** [a < b] *)
Definition js_ltb (a b : js) : outcome bool :=
  x ← to_primitive a;
  y ← to_primitive b;
  match x, y with
  | Str s, Str t => Ok (String.ltb s t)
  | _, _ => m ← to_number x; n ← to_number y; Ok (num_ltb m n)
  end.

(** [a + b]: a string operand makes it a concatenation. *)
Definition js_add (a b : js) : outcome js :=
  x ← to_primitive a;
  y ← to_primitive b;
  match x, y with
  | Str _, _ | _, Str _ => s ← to_string x; t ← to_string y; Ok (Str (s +:+ t))
  | _, _ => m ← to_number x; n ← to_number y; Ok (Num (num_add m n))
  end.

(** [value.name]: a [TypeError] on [undefined] and [null]. *)
Definition member (v : js) (name : string) : outcome js :=
  match v with
  | Undefined | Null => Err TypeErr
  | Obj r => Ok (get r name)
  | _ => Ok Undefined
  end.

(** A start or end index of [slice] on a sequence of [len] elements. *)
Definition slice_index (n : num) (len : Z) : Z :=
  match n with
  | NaN => 0
  | Inf s => if s then 0 else len
  | Fin q =>
      let i := Z.quot (Qnum q) (QDen q) in
      if i <? 0 then Z.max (len + i) 0 else Z.min i len
  end.

(** [bytes.slice(from, until)] *)
Definition slice_bytes (bytes : string) (from until : num) : string :=
  let i := slice_index from (slen bytes) in
  let j := slice_index until (slen bytes) in
  take_str (Z.to_nat (j - i)) (drop_str (Z.to_nat i) bytes).
