(* ===== verification/Stringify.v ===== *)
(** * JSON.stringify

    The language's serializer without indentation, on the values of [JsValue]:
    [None] for [undefined], which an array prints as [null] and an object
    leaves out; a number that is not finite prints as [null]. *)

From S2P Require Import Prelude JsString JsNum JsValue Json JsCoerce.

Definition hex_lower (n : Z) : ascii := ascii_of_N (Z.to_N (if n <? 10 then 48 + n else 87 + n)).

(** The escape of one code unit inside a JSON string. *)
Definition json_char (c : ascii) : string :=
  let n := code c in
  if n =? 34 then String "\" (String "034" "")
  else if n =? 92 then "\\"
  else if n =? 8 then "\b"
  else if n =? 9 then "\t"
  else if n =? 10 then "\n"
  else if n =? 12 then "\f"
  else if n =? 13 then "\r"
  else if n <? 32 then "\u00" +:+ String (hex_lower (n / 16)) (String (hex_lower (n mod 16)) "")
  else String c "".

Fixpoint json_chars (s : string) : string :=
  match s with
  | "" => ""
  | String c s' => json_char c +:+ json_chars s'
  end.

Definition json_string (s : string) : string := quote (json_chars s).

Definition json_number (n : num) : string := if is_finite n then show_num n else "null".

Fixpoint JSON_stringify (v : js) : option string :=
  match v with
  | Undefined => None
  | Null => Some "null"
  | Bool b => Some (if b then "true" else "false")
  | Num n => Some (json_number n)
  | Str s => Some (json_string s)
  | Arr l => Some ("[" +:+ join "," (map (λ x, default "null" (JSON_stringify x)) l) +:+ "]")
  | Obj r => Some ("{" +:+ join "," (omap (λ x, x) (map (λ kv,
      match JSON_stringify kv.2 with
      | Some t => Some (json_string kv.1 +:+ ":" +:+ t)
      | None => None
      end) r)) +:+ "}")
  end.
