(* ===== verification/Effects.v ===== *)
(** * Requests, replies and effects

    The part of packages/capture-runtime-client/src/contracts.ts the client's
    code computes with, and the monad its asynchronous code is modelled in.

    An operation is a function of the [World]: the replies the runtime will
    give, in order, one per request that reaches the host transport; the
    negotiation the client has cached; and the log of the effects so far.  A
    theorem that quantifies over the replies therefore covers every behaviour
    of the runtime, an abort or a lost connection being a rejected reply. *)

From S2P Require Import Prelude JsString JsNum JsValue JsCoerce RuntimeErrors Codec.

(** ** Requests *)

Inductive http_method : Type := GET | POST | PUT | DELETE.

#[export] Instance http_method_eq_dec : EqDecision http_method.
Proof. solve_decision. Defined.

(** A request body: the JSON text of a value, or bytes. *)
Inductive RequestBody : Type :=
| JsonBody (value : js)
| BytesBody (bytes : string).

Record RuntimeTransportRequest : Type := {
  req_method : option http_method;
  req_path : string;
  req_headers : list (string * string);
  req_body : option RequestBody
}.

(** [{ path }] and [{ path, method, headers, body }] *)
Definition get_request (path : string) : RuntimeTransportRequest :=
  {| req_method := None; req_path := path; req_headers := []; req_body := None |}.

(** [request.method ?? 'GET'] *)
Definition method_of (r : RuntimeTransportRequest) : http_method := default GET (req_method r).

(** ** Header lists *)

(** White space a header value is stripped of. *)
Definition is_http_ws (c : ascii) : bool :=
  let n := code c in (n =? 9) || (n =? 10) || (n =? 13) || (n =? 32).
Fixpoint strip_left (s : string) : string :=
  match s with
  | "" => ""
  | String c s' => if is_http_ws c then strip_left s' else s
  end.
Fixpoint strip_right (s : string) : string :=
  match s with
  | "" => ""
  | String c s' =>
      match strip_right s' with
      | "" => if is_http_ws c then "" else String c ""
      | t => String c t
      end
  end.
Definition header_value (s : string) : string := strip_right (strip_left s).

(** A header name is a token; a value holds no NUL, CR or LF. *)
Definition token_char (c : ascii) : bool :=
  is_alnum c ||
  existsb (Ascii.eqb c) ["!"; "#"; "$"; "%"; "&"; "'"; "*"; "+"; "-"; "."; "^"; "_"; "`"; "|"; "~"]%char.
Definition legal_header (kv : string * string) : bool :=
  negb (String.eqb kv.1 "") && all_chars token_char kv.1 &&
  all_chars (λ c, negb ((code c =? 0) || (code c =? 10) || (code c =? 13))) (header_value kv.2).

(** [new Headers(init)]: a [TypeError] on an illegal pair. *)
Definition new_headers (init : list (string * string)) : outcome (list (string * string)) :=
  if forallb legal_header init
  then Ok (map (λ kv, (lower kv.1, header_value kv.2)) init) else Err TypeErr.

(** [headers.get(name)] for a lower-case name: its values, joined. *)
Definition headers_get (hs : list (string * string)) (name : string) : option string :=
  match List.filter (λ kv, String.eqb kv.1 name) hs with
  | [] => None
  | l => Some (join ", " (map snd l))
  end.

(** ** The monad *)

Record RuntimeDiscovery : Type := {
  disc_ready : js;
  disc_streaming : js;
  disc_schemaSha256 : string;
  disc_contractIndex : js;
  disc_contractBundle : js
}.

(** A request reached the host transport; a timer was awaited. *)
Inductive Effect : Type :=
| Sent (request : RuntimeTransportRequest)
| Slept (milliseconds : num).

Record World : Type := {
  replies : list (outcome Response);
  negotiated : option RuntimeDiscovery;
  log : list Effect
}.

Definition io (A : Type) : Type := World → outcome A * World.

#[export] Instance io_ret : MRet io := λ A a w, (Ok a, w).
#[export] Instance io_bind : MBind io := λ A B f m w,
  match m w with
  | (Ok a, w') => f a w'
  | (Err e, w') => (Err e, w')
  end.

#[export] Instance io_fmap : FMap io := λ A B f m w,
  match m w with
  | (Ok a, w') => (Ok (f a), w')
  | (Err e, w') => (Err e, w')
  end.

(** A synchronous computation that may throw. *)
Definition lift {A} (r : outcome A) : io A := λ w, (r, w).
Definition throw {A} (e : thrown) : io A := λ w, (Err e, w).

(** [try { m } catch (error) { handler(error) }] *)
Definition try_catch {A} (m : io A) (handler : thrown → io A) : io A := λ w,
  match m w with
  | (Ok a, w') => (Ok a, w')
  | (Err e, w') => handler e w'
  end.

Definition emit (e : Effect) : io unit := λ w,
  (Ok tt, {| replies := replies w; negotiated := negotiated w; log := log w ++ [e] |}).

(** [sleep(milliseconds)] *)
Definition sleep (milliseconds : num) : io unit :=
  if num_ltb (num_of_Z 0) milliseconds then emit (Slept milliseconds) else mret tt.

(** ** Transports *)

(** What every transport promises: to answer a request or to reject it. *)
Class RuntimeTransport : Type := transport_request : RuntimeTransportRequest → io Response.

(** The host's transport: the runtime's next reply, whatever it is. *)
Definition host_transport : RuntimeTransport := λ request w,
  let logged rest := {| replies := rest; negotiated := negotiated w; log := log w ++ [Sent request] |} in
  match replies w with
  | reply :: rest => (reply, logged rest)
  | [] => (Err (OtherError "no reply"), logged [])
  end.

(** ** Plain responses and fresh worlds, for concrete runs *)

Definition plain_response (status : Z) (headers : list (string * string)) : Response :=
  {| resp_status := status; resp_headers := headers; resp_bytes := ""; resp_body := "";
     resp_stream := None |}.

Definition world_of (l : list (outcome Response)) : World :=
  {| replies := l; negotiated := None; log := [] |}.

(** The requests among the effects. *)
Definition sent (l : list Effect) : list RuntimeTransportRequest :=
  omap (λ e, match e with Sent r => Some r | Slept _ => None end) l.

(** ** Facts *)

Lemma io_bind_Ok {A B} (m : io A) (f : A → io B) w w' a :
  m w = (Ok a, w') → (m ≫= f) w = f a w'.
Proof. intros H. unfold mbind, io_bind. by rewrite H. Qed.

Lemma io_bind_Err {A B} (m : io A) (f : A → io B) w w' e :
  m w = (Err e, w') → (m ≫= f) w = (Err e, w').
Proof. intros H. unfold mbind, io_bind. by rewrite H. Qed.

Lemma sent_app l k : sent (l ++ k) = sent l ++ sent k.
Proof. apply omap_app. Qed.

(** [sleep] neither answers nor asks: it only extends the log. *)
Lemma sleep_spec ms w :
  ∃ l, sleep ms w = (Ok tt, {| replies := replies w; negotiated := negotiated w; log := log w ++ l |}) ∧
       sent l = [] ∧ (num_ltb (num_of_Z 0) ms = false → l = []).
Proof.
  unfold sleep. destruct (num_ltb _ ms).
  - exists [Slept ms]. done.
  - exists []. rewrite app_nil_r. by destruct w.
Qed.
