(* ===== verification/Retry.v ===== *)
(** * Requests with the discovery gate and the retry policy

    Models packages/capture-runtime-client/src/private/transport-retry.ts. *)

From S2P Require Import Prelude JsString JsNum JsValue JsCoerce RuntimeErrors Codec Effects.

(** [Pick<CaptureRuntimeClientOptions, 'maxRetries' | 'retryBackoffMs'>] *)
Record RetryOptions : Type := {
  maxRetries : option num;
  retryBackoffMs : option num
}.

Definition requiresDiscovery (path : string) : bool :=
  starts_with "/v2/" path &&
  negb (String.eqb path "/v2/health/ready") &&
  negb (String.eqb path "/v2/streaming/health/ready").

(** [[408, 425, 429, 500, 502, 503, 504].includes(response.status)] *)
Definition transient_status (status : Z) : bool :=
  existsb (Z.eqb status) [408; 425; 429; 500; 502; 503; 504].

(** [Number(response.headers.get('Retry-After'))]: [Number(null)] is zero. *)
Definition retry_after (response : Response) : num :=
  match header response "retry-after" with
  | Some v => number_of_string v
  | None => num_of_Z 0
  end.

(** [(retryBackoffMs ?? 0) * 2 ** attempt] *)
Definition backoff (options : RetryOptions) (attempt : nat) : num :=
  num_mul (default (num_of_Z 0) (retryBackoffMs options)) (round64 (inject_Z (2 ^ Z.of_nat attempt))).

(** The pause after a transient status. *)
Definition status_pause (options : RetryOptions) (response : Response) (attempt : nat) : num :=
  let retryAfter := retry_after response in
  if is_finite retryAfter && num_leb (num_of_Z 0) retryAfter
  then num_mul retryAfter (num_of_Z 1000)
  else backoff options attempt.

(** [maxRetries ?? 2]; the client's constructor refuses what is no natural number. *)
Definition retry_limit (options : RetryOptions) : nat :=
  match to_int (default (num_of_Z 2) (maxRetries options)) with
  | Some z => Z.to_nat z
  | None => 0
  end.

(** The body of the loop from [attempt] on; [left] attempts remain. *)
Fixpoint attempts `{RuntimeTransport} (options : RetryOptions) (request : RuntimeTransportRequest)
    (retries attempt left : nat) : io Response :=
  match left with
  | O => throw (new_transport_error "Capture Runtime retry loop exhausted." Undefined "transport_error")
  | S left' => λ w,
      match transport_request request w with
      | (Ok response, w') =>
          if transient_status (resp_status response) && (attempt <? retries)%nat
          then (sleep (status_pause options response attempt);;
                attempts options request retries (S attempt) left') w'
          else (Ok response, w')
      | (Err error, w') =>
          if (retries <=? attempt)%nat then (Err error, w')
          else (sleep (backoff options attempt);;
                attempts options request retries (S attempt) left') w'
      end
  end.

(** A request may be sent again when it is a read, a delete, or keyed. *)
Definition keyed (headers : list (string * string)) : bool :=
  match headers_get headers "x-idempotency-key" with
  | Some v => negb (String.eqb v "")
  | None => false
  end.

Definition requestWithRetry `{RuntimeTransport} (options : RetryOptions) (discover : io RuntimeDiscovery)
    (request : RuntimeTransportRequest) : io Response :=
  (if requiresDiscovery (req_path request) then discover;; mret tt else mret tt);;
  let method := method_of request in
  headers ← lift (new_headers (req_headers request));
  let retryableRequest := bool_decide (method = GET) || bool_decide (method = DELETE) || keyed headers in
  let retries := if retryableRequest then retry_limit options else O in
  attempts options request retries 0 (S retries).

(** ** What the loop does with the replies of the runtime *)

#[local] Existing Instance host_transport.

(** A reply the loop does not keep while it may try again. *)
Definition transient (reply : outcome Response) : bool :=
  match reply with
  | Ok response => transient_status (resp_status response)
  | Err _ => true
  end.

(** No reply of the run says when to try again. *)
Definition no_retry_after (l : list (outcome Response)) : Prop :=
  Forall (λ r, ∃ response, r = Ok response ∧ header response "retry-after" = None) l.

(** What a run of the loop from [w] with [left] attempts gives: the reply at
    some index [i], all replies before it transient, itself transient only when
    it is the last one allowed; one request per reply used; and no pause at all
    when no reply carries a [Retry-After]. *)
Definition loop_outcome (request : RuntimeTransportRequest) (left : nat) (w : World)
    (run : outcome Response * World) : Prop :=
  ∃ i reply l,
    run = (reply, {| replies := drop (S i) (replies w); negotiated := negotiated w; log := log w ++ l |}) ∧
    (i < left)%nat ∧ replies w !! i = Some reply ∧
    Forall (λ r, transient r = true) (take i (replies w)) ∧
    (transient reply = true → i = pred left) ∧
    sent l = replicate (S i) request ∧
    (no_retry_after (take (S i) (replies w)) → l = replicate (S i) (Sent request)).

Section loop.
Variables (options : RetryOptions) (request : RuntimeTransportRequest) (retries : nat).

Lemma loop_stops reply rest neg l0 left :
  (transient reply = true → left = 0%nat) →
  loop_outcome request (S left) {| replies := reply :: rest; negotiated := neg; log := l0 |}
    (reply, {| replies := rest; negotiated := neg; log := l0 ++ [Sent request] |}).
Proof using Type.
  intros Hl. exists 0%nat, reply, [Sent request]. repeat split; try done; [lia|]. intros ?%Hl. cbn. lia.
Qed.

Lemma loop_continues reply rest neg l0 left ms (next : io Response) :
  transient reply = true → (0 < left)%nat →
  (∀ response, reply = Ok response → header response "retry-after" = None →
     num_ltb (num_of_Z 0) ms = false) →
  (∀ l, let w := {| replies := rest; negotiated := neg; log := l |} in
        loop_outcome request left w (next w)) →
  loop_outcome request (S left) {| replies := reply :: rest; negotiated := neg; log := l0 |}
    ((sleep ms;; next) {| replies := rest; negotiated := neg; log := l0 ++ [Sent request] |}).
Proof using Type.
  intros Htr Hleft Hms Hnext.
  destruct (sleep_spec ms {| replies := rest; negotiated := neg; log := l0 ++ [Sent request] |})
    as (pause & Hsleep & Hnone & Hzero).
  rewrite (io_bind_Ok _ _ _ _ _ Hsleep). cbn [replies negotiated log].
  destruct (Hnext ((l0 ++ [Sent request]) ++ pause))
    as (i & r & l & Hrun & Hi & Hr & Hall & Hlast & Hlog & Hquiet).
  exists (S i), r, ([Sent request] ++ pause ++ l). rewrite Hrun. cbn [replies negotiated log] in *.
  repeat split; [by rewrite !app_assoc|lia|done|by constructor| | |].
  - intros ->%Hlast. cbn. lia.
  - by rewrite !sent_app, Hnone, Hlog.
  - intros [(response & Hok & Hno) Hrest]%Forall_cons. fold (take (S i) rest) in Hrest.
    rewrite (Hquiet Hrest), Hzero; [done|by eapply (Hms response)].
Qed.

Lemma attempts_spec left attempt w :
  (left + attempt = S retries)%nat → (0 < left)%nat → (left ≤ length (replies w))%nat →
  loop_outcome request left w (attempts options request retries attempt left w).
Proof using Type.
  revert attempt w. induction left as [|left IH]; intros attempt w Hsum Hpos Hlen; [lia|].
  destruct w as [[|reply rest] neg l0]; cbn in Hlen; [lia|].
  cbn [attempts]. unfold transport_request, host_transport. cbn [replies negotiated log].
  assert (Hnext : (attempt < retries)%nat → ∀ l,
    let w := {| replies := rest; negotiated := neg; log := l |} in
    loop_outcome request left w (attempts options request retries (S attempt) left w)).
  { intros ? l. apply IH; cbn; lia. }
  destruct reply as [response|error].
  - destruct (transient_status (resp_status response)) eqn:Hst; cbn [andb];
      [|by apply loop_stops; unfold transient; rewrite Hst].
    destruct (Nat.ltb_spec attempt retries); [|apply loop_stops; lia].
    apply loop_continues; [done|lia| |by apply Hnext].
    intros ? [= <-] Hno. unfold status_pause, retry_after. by rewrite Hno.
  - destruct (Nat.leb_spec retries attempt); [apply loop_stops; lia|].
    apply loop_continues; [done|lia|done|by apply Hnext].
Qed.
End loop.

(** ** The properties of the retry policy *)

(** The retries a request is allowed. *)
Definition allowed_retries (options : RetryOptions) (request : RuntimeTransportRequest)
    (headers : list (string * string)) : nat :=
  if bool_decide (method_of request = GET) || bool_decide (method_of request = DELETE) || keyed headers
  then retry_limit options else 0.

Lemma requestWithRetry_ungated options discover request w headers :
  requiresDiscovery (req_path request) = false →
  new_headers (req_headers request) = Ok headers →
  requestWithRetry options discover request w =
    attempts options request (allowed_retries options request headers) 0
      (S (allowed_retries options request headers)) w.
Proof. intros Hgate Hh. unfold requestWithRetry, lift, mbind, io_bind. by rewrite Hgate, Hh. Qed.

(** C5: Retry policy.  A request outside the discovery gate, sent over any
    sequence of replies at least as long as its allowance, ends with the first
    reply that is no transient status and no rejection, or with the last reply
    allowed; the requests sent are exactly one copy per reply used, at most one
    more than [maxRetries]; and the loop never reaches its "retry loop
    exhausted" error. *)
Theorem retry_returns_first_settled_reply options discover request w headers :
  requiresDiscovery (req_path request) = false →
  new_headers (req_headers request) = Ok headers →
  (allowed_retries options request headers < length (replies w))%nat →
  ∃ i reply w',
    requestWithRetry options discover request w = (reply, w') ∧
    (i ≤ allowed_retries options request headers)%nat ∧
    replies w !! i = Some reply ∧
    Forall (λ r, transient r = true) (take i (replies w)) ∧
    (transient reply = true → i = allowed_retries options request headers) ∧
    replies w' = drop (S i) (replies w) ∧
    sent (log w') = sent (log w) ++ replicate (S i) request.
Proof.
  intros Hgate Hh Hlen. rewrite (requestWithRetry_ungated _ _ _ _ _ Hgate Hh).
  destruct (attempts_spec options request (allowed_retries options request headers)
              (S (allowed_retries options request headers)) 0 w)
    as (i & reply & l & Hrun & Hi & Hr & Hall & Hlast & Hlog & _); [lia|lia|lia|].
  exists i, reply. eexists. rewrite Hrun. repeat split; try done; [lia|].
  cbn [log]. by rewrite sent_app, Hlog.
Qed.

(** A request that is neither a read, nor a delete, nor keyed reaches the
    runtime exactly once, and its reply is returned whatever it is. *)
Lemma unkeyed_write_is_sent_once options discover request w headers reply rest :
  requiresDiscovery (req_path request) = false →
  new_headers (req_headers request) = Ok headers →
  method_of request = POST ∨ method_of request = PUT → keyed headers = false →
  replies w = reply :: rest →
  requestWithRetry options discover request w =
    (reply, {| replies := rest; negotiated := negotiated w; log := log w ++ [Sent request] |}).
Proof.
  intros Hgate Hh Hm Hk Hw. rewrite (requestWithRetry_ungated _ _ _ _ _ Hgate Hh).
  assert (allowed_retries options request headers = 0%nat) as ->.
  { unfold allowed_retries. rewrite Hk. by destruct Hm as [->| ->]. }
  unfold attempts, transport_request, host_transport. rewrite Hw.
  destruct reply as [r|e]; [|done]. by destruct (transient_status (resp_status r)).
Qed.

(** Between attempts that only met transient statuses without a
    [Retry-After] header the client never pauses, whatever [retryBackoffMs] is:
    the effects are the requests alone.  ([Number(null)] is zero, so the missing
    header reads as "retry at once" and the configured backoff is not used.) *)
Lemma no_backoff_without_retry_after options discover request w headers :
  requiresDiscovery (req_path request) = false →
  new_headers (req_headers request) = Ok headers →
  (allowed_retries options request headers < length (replies w))%nat →
  no_retry_after (replies w) →
  ∃ n, log (requestWithRetry options discover request w).2 = log w ++ replicate n (Sent request).
Proof.
  intros Hgate Hh Hlen Hno. rewrite (requestWithRetry_ungated _ _ _ _ _ Hgate Hh).
  destruct (attempts_spec options request (allowed_retries options request headers)
              (S (allowed_retries options request headers)) 0 w)
    as (i & reply & l & Hrun & _ & _ & _ & _ & _ & Hquiet); [lia|lia|lia|].
  exists (S i). rewrite Hrun. cbn [log snd]. rewrite Hquiet; [done|]. by apply Forall_take.
Qed.

(** ** Concrete runs *)

Definition busy_then_ok : World :=
  world_of [Ok (plain_response 503 []); Ok (plain_response 429 []); Ok (plain_response 200 [])].

Definition backoff_100 : RetryOptions :=
  {| maxRetries := None; retryBackoffMs := Some (num_of_Z 100) |}.

Lemma retry_returns_first_settled_reply_witness :
  ∃ i reply w',
    requestWithRetry backoff_100 (throw TypeErr) (get_request "/meta/v2/contracts") busy_then_ok = (reply, w') ∧
    (i ≤ 2)%nat ∧ replies busy_then_ok !! i = Some reply ∧
    Forall (λ r, transient r = true) (take i (replies busy_then_ok)) ∧
    (transient reply = true → i = 2%nat) ∧
    replies w' = drop (S i) (replies busy_then_ok) ∧
    sent (log w') = [] ++ replicate (S i) (get_request "/meta/v2/contracts").
Proof.
  apply (retry_returns_first_settled_reply backoff_100 (throw TypeErr)
           (get_request "/meta/v2/contracts") busy_then_ok []); [reflexivity|reflexivity|].
  vm_compute. lia.
Defined.

Definition unkeyed_post : RuntimeTransportRequest :=
  {| req_method := Some POST; req_path := "/meta/x"; req_headers := [("Accept", "text/plain")]; req_body := None |}.

Lemma unkeyed_write_is_sent_once_witness :
  requestWithRetry backoff_100 (throw TypeErr) unkeyed_post busy_then_ok =
    (Ok (plain_response 503 []),
     {| replies := [Ok (plain_response 429 []); Ok (plain_response 200 [])];
        negotiated := None; log := [] ++ [Sent unkeyed_post] |}).
Proof.
  apply (unkeyed_write_is_sent_once backoff_100 (throw TypeErr) unkeyed_post busy_then_ok
           [("accept", "text/plain")]); try reflexivity. by left.
Defined.

Lemma no_backoff_without_retry_after_witness :
  ∃ n, log (requestWithRetry backoff_100 (throw TypeErr) (get_request "/meta/v2/contracts") busy_then_ok).2 =
    [] ++ replicate n (Sent (get_request "/meta/v2/contracts")).
Proof.
  apply (no_backoff_without_retry_after backoff_100 (throw TypeErr)
           (get_request "/meta/v2/contracts") busy_then_ok []); [reflexivity|reflexivity| |].
  - vm_compute. lia.
  - repeat constructor; by eexists.
Defined.
