(* ===== verification/Transport.v ===== *)
(** * Transports

    Models packages/capture-runtime-client/src/transport.ts: the check of the
    base URL, the HTTP transport over the platform's [fetch] and the in-memory
    transport.  The URL parser and [fetch] belong to the platform and are
    parameters. *)

From S2P Require Import Prelude JsString JsNum JsValue JsCoerce RuntimeErrors Codec Effects.

(** The parts of a parsed [URL] the check reads. *)
Record URL : Type := {
  url_protocol : string;
  url_hostname : string;
  url_port : string;
  url_username : string;
  url_password : string;
  url_pathname : string;
  url_search : string;
  url_hash : string;
  url_origin : string
}.

(** [baseUrl: string | number] *)
Inductive BaseUrl : Type :=
| BaseText (text : string)
| BasePort (port : num).

Definition unsafe_base_url (message : string) : thrown :=
  new_transport_error message Undefined "unsafe_base_url".

Definition loopback (u : URL) : bool :=
  String.eqb (url_hostname u) "127.0.0.1" || String.eqb (url_hostname u) "[::1]" ||
  String.eqb (url_hostname u) "::1".

Section loopback.
(** [new URL(text)], [None] when the constructor throws. *)
Variable parse_url : string → option URL.

Definition assertLoopbackBaseUrl (value : BaseUrl) : outcome string :=
  let candidate := match value with
    | BasePort n => "http://127.0.0.1:" +:+ show_num n
    | BaseText s => s
    end in
  match parse_url candidate with
  | None => Err (unsafe_base_url "Capture Runtime URL is invalid.")
  | Some url =>
      if negb (String.eqb (url_protocol url) "http:") || negb (loopback url) ||
         String.eqb (url_port url) "" || negb (String.eqb (url_username url) "") ||
         negb (String.eqb (url_password url) "") || negb (String.eqb (url_search url) "") ||
         negb (String.eqb (url_hash url) "") ||
         (negb (String.eqb (url_pathname url) "/") && negb (String.eqb (url_pathname url) ""))
      then Err (unsafe_base_url "Capture Runtime URL must be an HTTP loopback origin with an explicit port.")
      else Ok (url_origin url)
  end.
End loopback.

(** ** HTTP *)

(** [bearerToken?: string | (() => string | Promise<string>)] *)
Inductive BearerToken : Type :=
| TokenText (token : string)
| TokenOf (read : io string).

Record FetchInit : Type := {
  fetch_method : http_method;
  fetch_headers : list (string * string);
  fetch_body : option RequestBody;
  fetch_credentials : string;
  fetch_redirect : string
}.

(** [{ ...base, ...extra }] *)
Fixpoint set_entry (k v : string) (l : list (string * string)) : list (string * string) :=
  match l with
  | [] => [(k, v)]
  | (k', v') :: l' => if String.eqb k k' then (k', v) :: l' else (k', v') :: set_entry k v l'
  end.
Definition spread (base extra : list (string * string)) : list (string * string) :=
  foldl (λ l kv, set_entry kv.1 kv.2 l) base extra.

(** [headers.set(name, value)] on a header list: one entry is left for the name. *)
Definition headers_set (hs : list (string * string)) (name value : string) : list (string * string) :=
  List.filter (λ kv, negb (String.eqb kv.1 name)) hs ++ [(name, value)].

Section http.
Variable fetch : string → FetchInit → io Response.

Record HttpRuntimeTransport : Type := {
  http_baseUrl : string;
  http_bearerToken : option BearerToken
}.

(** The constructor. [browser] is [typeof window !== 'undefined']. *)
Definition new_HttpRuntimeTransport (parse_url : string → option URL) (browser : bool)
    (baseUrl : BaseUrl) (bearerToken : option BearerToken) : outcome HttpRuntimeTransport :=
  if browser && bool_decide (is_Some bearerToken)
  then Err (new_transport_error
              "Bearer tokens are only valid in a host backend or trusted process."
              Undefined "browser_credential_forbidden")
  else
    origin ← assertLoopbackBaseUrl parse_url baseUrl;
    Ok {| http_baseUrl := origin; http_bearerToken := bearerToken |}.

(** [typeof bearerToken === 'function' ? await bearerToken() : bearerToken] *)
Definition read_token (bearerToken : option BearerToken) : io (option string) :=
  match bearerToken with
  | Some (TokenOf read) => Some <$> (read : io string)
  | Some (TokenText s) => mret (Some s)
  | None => mret None
  end.

(** [if (token?.trim()) headers.set('Authorization', ...)] *)
Definition authorize (headers : list (string * string)) (token : option string) :
    outcome (list (string * string)) :=
  match token with
  | Some t =>
      if blank t then Ok headers
      else if legal_header ("authorization", "Bearer " +:+ t)
      then Ok (headers_set headers "authorization" (header_value ("Bearer " +:+ t)))
      else Err TypeErr
  | None => Ok headers
  end.

(** What a rejected [fetch] carries as [details]: an [Error] object has no
    enumerable property of its own. *)
Definition http_request (t : HttpRuntimeTransport) : RuntimeTransport := λ request,
  token ← read_token (http_bearerToken t);
  headers ← lift (new_headers (spread [("Accept", "application/json")] (req_headers request)));
  headers ← lift (authorize headers token);
  try_catch
    (fetch (http_baseUrl t +:+ req_path request)
       {| fetch_method := method_of request; fetch_headers := headers; fetch_body := req_body request;
          fetch_credentials := "omit"; fetch_redirect := "error" |})
    (λ _, throw (new_transport_error "Capture Runtime transport request failed." (Obj []) "transport_error")).
End http.

(** ** In memory *)

(** [path: string | RegExp] *)
Inductive RoutePath : Type :=
| RouteText (path : string)
| RoutePattern (test : string → bool).

Record RuntimeInMemoryRoute : Type := {
  route_method : option http_method;
  route_path : RoutePath;
  route_handle : RuntimeTransportRequest → io Response
}.

Definition route_matches (request : RuntimeTransportRequest) (candidate : RuntimeInMemoryRoute) : bool :=
  match route_method candidate with
  | None => true
  | Some m => bool_decide (m = method_of request)
  end &&
  match route_path candidate with
  | RouteText p => String.eqb p (req_path request)
  | RoutePattern test => test (req_path request)
  end.

(** [JSON.stringify({ error: { code: 'not_found', message: 'Route not found.' } })] *)
Definition not_found_body : string :=
  "{" +:+ quote "error" +:+ ":{" +:+ quote "code" +:+ ":" +:+ quote "not_found" +:+ "," +:+
  quote "message" +:+ ":" +:+ quote "Route not found." +:+ "}}".

Definition not_found : Response :=
  {| resp_status := 404; resp_headers := [("content-type", "application/json")];
     resp_bytes := not_found_body; resp_body := not_found_body;
     resp_stream := Some {| body_chunks := [not_found_body]; body_failure := None |} |}.

Definition in_memory_transport (routes : list RuntimeInMemoryRoute) : RuntimeTransport := λ request,
  match List.find (route_matches request) routes with
  | None => mret not_found
  | Some route => route_handle route request
  end.

(** ** Properties *)

(** The base URL check accepts a URL exactly when it is an [http:] URL of a
    loopback host with an explicit port and without credentials, query,
    fragment or path; the accepted value is the URL's origin. *)
Lemma loopback_base_url_exact parse_url value origin :
  assertLoopbackBaseUrl parse_url value = Ok origin ↔
  ∃ u, parse_url (match value with
                  | BasePort n => "http://127.0.0.1:" +:+ show_num n
                  | BaseText s => s
                  end) = Some u ∧
    origin = url_origin u ∧ url_protocol u = "http:" ∧
    url_hostname u ∈ ["127.0.0.1"; "[::1]"; "::1"] ∧
    url_port u ≠ "" ∧ url_username u = "" ∧ url_password u = "" ∧
    url_search u = "" ∧ url_hash u = "" ∧ url_pathname u ∈ ["/"; ""].
Proof.
  unfold assertLoopbackBaseUrl. destruct (parse_url _) as [u|]; [|naive_solver].
  assert (Hl : loopback u = true ↔ url_hostname u ∈ ["127.0.0.1"; "[::1]"; "::1"]).
  { unfold loopback. bsimp. rewrite !elem_of_cons, elem_of_nil. naive_solver. }
  match goal with |- context [if ?b then _ else _] => destruct b eqn:Hb end.
  - split; [done|]. intros (? & [= <-] & -> & Hp & Hh & Hport & ? & ? & ? & ? & Hpath).
    rewrite !elem_of_cons, elem_of_nil in Hpath. apply Hl in Hh. rewrite Hh, Hp in Hb. bsimp. naive_solver.
  - bsimp. split.
    + intros [= <-]. exists u. rewrite <-Hl, !elem_of_cons. naive_solver.
    + naive_solver.
Qed.

(** A transport that was constructed talks to its loopback origin only: two
    platforms whose [fetch] agrees on the URLs of that origin, without ambient
    credentials and without following redirects, cannot be told apart by any
    request; and a rejected [fetch] surfaces as a retryable transport error. *)
Lemma http_transport_confined parse_url browser baseUrl token t fetch fetch' request w :
  new_HttpRuntimeTransport parse_url browser baseUrl token = Ok t →
  (∀ u text path init w', parse_url text = Some u → loopback u = true →
     fetch_credentials init = "omit" → fetch_redirect init = "error" →
     fetch (url_origin u +:+ path) init w' = fetch' (url_origin u +:+ path) init w') →
  http_request fetch t request w = http_request fetch' t request w ∧
  (http_bearerToken t = None → is_ok (new_headers (spread [("Accept", "application/json")] (req_headers request))) = true →
   (∀ url init w', ∃ e w'', fetch url init w' = (Err e, w'')) →
   ∃ e w', http_request fetch t request w = (Err (Runtime e), w') ∧
           err_class e = CaptureTransportError ∧ err_retryable e = true).
Proof.
  intros Ht Hagree. split.
  - assert (∃ u text, parse_url text = Some u ∧ loopback u = true ∧ http_baseUrl t = url_origin u)
      as (u & text & Hu & Hl & Hbase).
    { unfold new_HttpRuntimeTransport, assertLoopbackBaseUrl in Ht.
      destruct (browser && _); [done|]. inv_ok.
      destruct (parse_url _) as [u|] eqn:Hu; [|done].
      match type of H with context [if ?b then _ else _] => destruct b eqn:Hb end; [done|].
      inv_ok. bsimp. exists u. eexists. naive_solver. }
    unfold http_request. rewrite Hbase. unfold mbind, io_bind.
    destruct (read_token (http_bearerToken t) w) as [[tok|e] w1]; [|done].
    unfold lift. destruct (new_headers _) as [hs|e]; [|done].
    destruct (authorize hs tok) as [hs'|e]; [|done].
    unfold try_catch. by rewrite (Hagree u text) by done.
  - intros Hnone Hh Hrej. unfold http_request. rewrite Hnone. unfold mbind, io_bind, lift.
    cbn [read_token mret io_ret]. destruct (new_headers _) as [hs|]; [|done]. cbn [authorize]. unfold try_catch.
    destruct (Hrej (http_baseUrl t +:+ req_path request)
      {| fetch_method := method_of request; fetch_headers := hs; fetch_body := req_body request;
         fetch_credentials := "omit"; fetch_redirect := "error" |} w) as (e & w' & ->).
    by do 2 eexists.
Qed.

(** ** A concrete run *)

Definition sample_url : URL :=
  {| url_protocol := "http:"; url_hostname := "127.0.0.1"; url_port := "8787"; url_username := "";
     url_password := ""; url_pathname := "/"; url_search := ""; url_hash := "";
     url_origin := "http://127.0.0.1:8787" |}.
Definition sample_parse (text : string) : option URL :=
  if String.eqb text "http://127.0.0.1:8787" then Some sample_url else None.
Definition refusing_fetch (url : string) (init : FetchInit) : io Response :=
  throw (OtherError "connection refused").
(** Differs from [refusing_fetch] on every other origin. *)
Definition leaking_fetch (url : string) (init : FetchInit) : io Response :=
  if starts_with "http://127.0.0.1:8787" url then throw (OtherError "connection refused")
  else mret (plain_response 200 []).
Definition sample_http : HttpRuntimeTransport :=
  {| http_baseUrl := "http://127.0.0.1:8787"; http_bearerToken := None |}.

Lemma starts_with_app p s : starts_with p (p +:+ s) = true.
Proof. induction p as [|c p IH]; cbn; [done|]. by rewrite Ascii.eqb_refl. Qed.

Lemma http_transport_confined_witness :
  http_request refusing_fetch sample_http (get_request "/v2/x") (world_of []) =
    http_request leaking_fetch sample_http (get_request "/v2/x") (world_of []) ∧
  ∃ e w', http_request refusing_fetch sample_http (get_request "/v2/x") (world_of []) = (Err (Runtime e), w') ∧
          err_class e = CaptureTransportError ∧ err_retryable e = true.
Proof.
  destruct (http_transport_confined sample_parse false (BasePort (num_of_Z 8787)) None sample_http
              refusing_fetch leaking_fetch (get_request "/v2/x") (world_of []))
    as [Hsame Hrej]; [reflexivity| |].
  - intros u text path init w' Hu _ _ _. unfold sample_parse in Hu.
    destruct (String.eqb text _); [|done]. injection Hu as <-.
    unfold leaking_fetch. cbn [url_origin sample_url]. by rewrite starts_with_app.
  - split; [exact Hsame|]. apply Hrej; [reflexivity|reflexivity|]. intros. by do 2 eexists.
Defined.
