(* ===== verification/Streaming.v ===== *)
(** * Uploads and event streams

    Models packages/capture-runtime-client/src/private/streaming.ts: the chunked
    upload that opens an ingestion, sends its bytes and starts the capture, the
    check of a page selection, and the resumable event stream.  SHA-256 is the
    platform's and a parameter. *)

From S2P Require Import Prelude JsString JsNum JsValue JsCoerce RuntimeErrors CodecFields OcrCodec Codec Sse Effects.

Definition CHUNK_BYTES : Z := 1024 * 1024.
Definition MAX_PDF_PAGE_SELECTION : Z := 500.

(** ** Page selections *)

(** The loop over the pages, after the page [previous]. *)
Fixpoint ascending_pages (previous : num) (pages : list js) : outcome unit :=
  match pages with
  | [] => Ok tt
  | page :: rest =>
      match page with
      | Num n =>
          if negb (is_safe_integer n) || num_leb n previous
          then Err (protocol_error "pdfPageNumbers must list source pages in ascending order without duplicates.")
          else ascending_pages n rest
      | _ => Err (protocol_error "pdfPageNumbers must list source pages in ascending order without duplicates.")
      end
  end.

Definition pdfPageSelection (pages : js) : outcome js :=
  match pages with
  | Undefined => Ok Undefined
  | Arr l =>
      let n := Z.of_nat (length l) in
      if (n <? 1) || (MAX_PDF_PAGE_SELECTION <? n)
      then Err (protocol_error "pdfPageNumbers must contain 1 to 500 pages.")
      else ascending_pages (num_of_Z 0) l;; Ok (Arr l)
  | _ => Err (protocol_error "pdfPageNumbers must contain 1 to 500 pages.")
  end.

(** ** Uploads *)

(** [body: BodyInit | Uint8Array | ArrayBuffer]; the bytes of any other body
    are those the platform's [Response] reads from it. *)
Inductive UploadBody : Type :=
| Uint8Array (bytes : string)
| ArrayBuffer (bytes : string)
| OtherBody (read : string).

Definition bodyBytes (body : UploadBody) : string :=
  match body with Uint8Array b | ArrayBuffer b | OtherBody b => b end.

Record CaptureUpload : Type := {
  up_fileName : string;
  up_body : UploadBody;
  up_mediaType : option string;
  up_sourceKind : string;
  up_targetLanguage : option string;
  up_structuringMode : option string;
  up_pdfPageNumbers : js;
  up_identifySpeakers : option bool;
  up_spokenLanguage : option string;
  up_clientRequestId : string
}.

Section upload.
Variable sha256 : string → string.
(** The JSON facade of the client. *)
Variable json : RuntimeTransportRequest → option RuntimeResponseModel → io js.

Definition json_headers : list (string * string) := [("Content-Type", "application/json")].
Definition idempotent (key : string) : list (string * string) := json_headers ++ [("X-Idempotency-Key", key)].

Definition open_request (upload : CaptureUpload) (bytes digest : string) : RuntimeTransportRequest :=
  let key := up_clientRequestId upload +:+ "-ingestion" in
  {| req_method := Some POST; req_path := "/v2/ingestions"; req_headers := idempotent key;
     req_body := Some (JsonBody (Obj [
       ("protocolVersion", Str "2"); ("kind", Str (up_sourceKind upload)); ("mode", Str "file");
       ("clientRequestId", Str key); ("fileName", Str (up_fileName upload));
       ("mediaType", Str (default "application/octet-stream" (up_mediaType upload)));
       ("totalBytes", js_Z (slen bytes)); ("sourceSha256", Str digest)])) |}.

(** [`${value.name}`] *)
Definition member_text (v : js) (name : string) : outcome string := member v name ≫= to_string.

(** [/v2/ingestions/${encodeURIComponent(ingestion.ingestionId)}] *)
Definition ingestion_path (ingestion : js) : outcome string :=
  id ← member_text ingestion "ingestionId";
  Ok ("/v2/ingestions/" +:+ encodeURIComponent id).

Definition delete_request (path : string) : RuntimeTransportRequest :=
  {| req_method := Some DELETE; req_path := path; req_headers := []; req_body := None |}.

(** The [catch] block: delete the ingestion, ignore how that ends, throw on. *)
Definition abandon {A} (ingestion : js) (error : thrown) : io A :=
  path ← lift (ingestion_path ingestion);
  try_catch (json (delete_request path) None;; mret tt) (λ _, mret tt);;
  throw error.

(** A statement of the [try] block while the variable [ingestion] holds this value. *)
Definition guarded {A} (ingestion : js) (m : io A) : io A :=
  try_catch m (abandon ingestion).

(** [bytes ${offset}-${offset + chunk.byteLength - 1}/${bytes.byteLength}] *)
Definition content_range (offset : js) (chunk bytes : string) : outcome string :=
  first ← to_string offset;
  past ← js_add offset (js_Z (slen chunk)) ≫= to_number;
  Ok ("bytes " +:+ first +:+ "-" +:+ show_num (num_add past (num_of_Z (-1))) +:+ "/" +:+ show_Z (slen bytes)).

(** One [PUT] of a chunk. *)
Definition put_chunk (bytes : string) (ingestion offset : js) (chunk : string) : io js :=
  request ← lift (
    path ← ingestion_path ingestion;
    index ← member_text ingestion "nextChunkIndex";
    range ← content_range offset chunk bytes;
    id ← member_text ingestion "ingestionId";
    Ok {| req_method := Some PUT; req_path := path +:+ "/chunks/" +:+ index;
          req_headers := [("Content-Range", range); ("Digest", "sha-256=" +:+ sha256 chunk);
                          ("X-Idempotency-Key", id +:+ "-" +:+ index)];
          req_body := Some (BytesBody chunk) |});
  json request (Some M_Ingestion).

(** The chunk at [offset]: [bytes.slice(offset, Math.min(offset + maxChunk, length))]. *)
Definition chunk_at (bytes : string) (maxChunk : num) (offset : js) : outcome string :=
  from ← to_number offset;
  past ← js_add offset (Num maxChunk) ≫= to_number;
  Ok (slice_bytes bytes from (num_min past (num_of_Z (slen bytes)))).

(** The [for] loop over the offsets; one unit of fuel per chunk. *)
Fixpoint upload_chunks (fuel : nat) (bytes : string) (maxChunk : num) (ingestion offset : js) : io js :=
  more ← guarded ingestion (lift (js_ltb offset (js_Z (slen bytes))));
  if (more : bool) then
    match fuel with
    | O => throw (OtherError "out of fuel")
    | S fuel' =>
        next ← guarded ingestion (
          chunk ← lift (chunk_at bytes maxChunk offset);
          put_chunk bytes ingestion offset chunk);
        past ← guarded next (lift (js_add offset (Num maxChunk)));
        upload_chunks fuel' bytes maxChunk next past
    end
  else mret ingestion.

Definition finalize_request (path bytes digest : string) : RuntimeTransportRequest :=
  {| req_method := Some POST; req_path := path +:+ "/finalize"; req_headers := json_headers;
     req_body := Some (JsonBody (Obj [("protocolVersion", Str "2"); ("totalBytes", js_Z (slen bytes));
                                      ("sha256", Str digest)])) |}.

(** [POST /v2/captures] *)
Definition start_request (upload : CaptureUpload) (ingestionId pdfPageNumbers : js) : RuntimeTransportRequest :=
  {| req_method := Some POST; req_path := "/v2/captures";
     req_headers := idempotent (up_clientRequestId upload);
     req_body := Some (JsonBody (Obj (
       [("protocolVersion", Str "2"); ("clientRequestId", Str (up_clientRequestId upload));
        ("ingestionId", ingestionId);
        ("structuringMode", Str (default "runtime" (up_structuringMode upload)));
        ("targetLanguage", from_option Str Null (up_targetLanguage upload));
        ("startPolicy", Str "eager")] ++
       (if is_undefined pdfPageNumbers then [] else [("pdfPageNumbers", pdfPageNumbers)]) ++
       (if default false (up_identifySpeakers upload) then [("identifySpeakers", Bool true)] else []) ++
       match up_spokenLanguage upload with
       | Some language => if String.eqb language "" then [] else [("spokenLanguage", Str language)]
       | None => []
       end))) |}.

(** Finalize and start.  The start request is returned from the [try] block
    without being awaited there, so only its construction is guarded. *)
Definition finish_upload (upload : CaptureUpload) (bytes digest : string) (ingestion pdfPageNumbers : js) : io js :=
  final ← guarded ingestion (
    path ← lift (ingestion_path ingestion);
    json (finalize_request path bytes digest) (Some M_Ingestion));
  id ← guarded final (lift (member final "ingestionId"));
  json (start_request upload id pdfPageNumbers) (Some M_CaptureOperation).

(** Enough for every chunk of at least one byte. *)
Definition chunk_fuel (bytes : string) : nat := S (String.length bytes).

Definition startStreamingCapture (getStreamingCapabilities : io js) (upload : CaptureUpload) : io js :=
  pages ← lift (pdfPageSelection (up_pdfPageNumbers upload));
  let bytes := bodyBytes (up_body upload) in
  let digest := sha256 bytes in
  capabilities ← getStreamingCapabilities;
  maxChunkBytes ← lift (member capabilities "maxChunkBytes" ≫= to_number);
  let maxChunk := num_max (num_of_Z 1) (num_min (num_of_Z CHUNK_BYTES) maxChunkBytes) in
  open ← json (open_request upload bytes digest) (Some M_Ingestion);
  offset ← guarded open (lift (member open "nextOffset"));
  ingestion ← upload_chunks (chunk_fuel bytes) bytes maxChunk open offset;
  finish_upload upload bytes digest ingestion pages.
End upload.

(** ** Events *)

(** What a consumer that runs a generator to its end sees: the values it
    yields and, when it throws, the error. *)
Definition generator (A : Type) : Type := World → (list A * option thrown) * World.

(** [['completed', 'failed', 'cancelled'].includes(event.eventType)] *)
Definition terminal_event (event : js) : bool :=
  match event with
  | Obj r => one_of ["completed"; "failed"; "cancelled"] (get r "eventType")
  | _ => false
  end.

(** Check one frame after the sequence [previous]: the event and its sequence. *)
Definition accept_event (id : string) (previous : js) (frame : SseFrame) : outcome (js * js) :=
  event ← parseJsonFrame frame;
  captureId ← member event "captureId";
  sequence ← member event "sequence";
  stale ← (if strict_eqb captureId (Str id) then js_leb sequence previous else Ok true);
  throw_if stale "Capture Runtime returned an invalid event identity or sequence.";;
  match event with
  | Obj record => assertCaptureProgress record "CaptureEvent"
  | _ => Ok tt
  end;;
  Ok (event, sequence).

(** How the loop over the frames of one response ends. *)
Inductive frames_end : Type :=
| Returned
| Threw (error : thrown)
| Drained (previous : js).

Fixpoint consume (id : string) (previous : js) (frames : list SseFrame) (failure : option thrown) :
    list js * js * frames_end :=
  match frames with
  | [] => ([], previous, match failure with Some e => Threw e | None => Drained previous end)
  | frame :: rest =>
      match accept_event id previous frame with
      | Err e => ([], previous, Threw e)
      | Ok (event, sequence) =>
          if terminal_event event then ([event], sequence, Returned)
          else let '(events, last, how) := consume id sequence rest failure in
               (event :: events, last, how)
      end
  end.

Definition events_request (id : string) (previous : js) : outcome RuntimeTransportRequest :=
  fresh ← js_ltb previous (js_Z 0);
  cursor ← (if (fresh : bool) then Ok [] else text ← to_string previous; Ok [("Last-Event-ID", text)]);
  Ok {| req_method := None; req_path := "/v2/captures/" +:+ encodeURIComponent id +:+ "/events";
        req_headers := ("Accept", "text/event-stream") :: cursor; req_body := None |}.

(** [error instanceof CaptureTransportError || (error instanceof CaptureRuntimeError && error.retryable)] *)
Definition reconnectable (error : thrown) : bool :=
  match error with
  | Runtime e => instance_of (err_class e) CaptureTransportError || err_retryable e
  | _ => false
  end.

Section events.
Variable request : RuntimeTransportRequest → io Response.

(** The [while] loop; [left] reconnects remain. *)
Fixpoint event_loop (id : string) (left : nat) (previous : js) : generator js := λ w,
  match (lift (events_request id previous) ≫= request) w with
  | (Err e, w') => (([], Some e), w')
  | (Ok response, w') =>
      let '(frames, failure) := decodeSse response in
      let '(events, last, how) := consume id previous frames failure in
      let again := match left with
        | O => λ e : option thrown, ((events, e), w')
        | S left' => λ _, let '((more, e), w'') := event_loop id left' last w' in
                          ((events ++ more, e), w'')
        end in
      match how with
      | Returned => ((events, None), w')
      | Threw e => if reconnectable e then again (Some e) else ((events, Some e), w')
      | Drained _ => again None
      end
  end.

(** [options.lastEventId === undefined ? -1 : Number(options.lastEventId)] *)
Definition initial_sequence (lastEventId : js) : outcome num :=
  if is_undefined lastEventId then Ok (num_of_Z (-1)) else to_number lastEventId.

Definition captureEvents (id : string) (lastEventId : js) (maxReconnects : option num) : generator js := λ w,
  let limit := default (num_of_Z 2) maxReconnects in
  if num_ltb limit (num_of_Z 0) || negb (is_integer limit)
  then (([], Some (protocol_error "maxReconnects must be a non-negative integer.")), w)
  else
    match initial_sequence lastEventId with
    | Err e => (([], Some e), w)
    | Ok previous =>
        event_loop id (match to_int limit with Some z => Z.to_nat z | None => O end) (Num previous) w
    end.
End events.

(** ** Page selections: the accepted lists *)

Lemma ascending_pages_spec previous p pages :
  to_int previous = Some p →
  ascending_pages previous pages = Ok tt ↔
  ∃ zs, Forall2 safe_int pages zs ∧ Sorted Z.lt (p :: zs).
Proof.
  revert previous p. induction pages as [|page pages IH]; intros previous p Hp; cbn [ascending_pages].
  - split; [|done]. intros _. exists []. split; [constructor|by repeat constructor].
  - split.
    + destruct page as [| | |n| | |]; try done.
      destruct (negb (is_safe_integer n) || num_leb n previous) eqn:Hbad; [done|].
      bsimp. destruct Hbad as [(z & Hz & Hsafe)%is_safe_integer_spec Hle].
      rewrite (num_leb_int _ _ _ _ Hz Hp) in Hle. bsimp.
      intros (zs & Hall & Hsorted)%(IH n z Hz). exists (z :: zs).
      split; [constructor; [by exists n|done]|]. by constructor; [|constructor].
    + intros (zs & Hall & Hsorted). inversion Hall as [|? z ? zs' (n & -> & Hz & Hsafe) Hall']; subst.
      inversion Hsorted as [|? ? Hsorted' Hhd]; subst. inversion Hhd; subst.
      assert (is_safe_integer n = true) as -> by (apply is_safe_integer_spec; by exists z).
      rewrite (num_leb_int _ _ _ _ Hz Hp), (proj2 (Z.leb_gt z p)) by done.
      cbn [negb orb]. apply (IH n z Hz). by exists zs'.
Qed.

(** A page selection is accepted exactly when it is absent, or a list of 1 to
    500 safe integers, the first at least one and each larger than the one
    before; an accepted selection is sent as it is. *)
Lemma pdf_page_selection_exact pages selection :
  pdfPageSelection pages = Ok selection ↔
  selection = pages ∧
  (pages = Undefined ∨
   ∃ l zs, pages = Arr l ∧ 1 ≤ Z.of_nat (length l) ≤ 500 ∧ Forall2 safe_int l zs ∧ Sorted Z.lt (0 :: zs)).
Proof.
  unfold pdfPageSelection, MAX_PDF_PAGE_SELECTION.
  destruct pages as [| | | | |l|]; try naive_solver.
  pose proof (ascending_pages_spec (num_of_Z 0) 0 l (to_int_of_Z 0)) as Hspec.
  destruct (_ || _) eqn:Hb.
  - split; [done|]. intros (_ & [?|(? & zs & [= <-] & ? & _)]); [done|]. bsimp. lia.
  - bsimp. rewrite bind_Ok. split.
    + intros ([] & (zs & ? & ?)%Hspec & [= <-]). split; [done|]. right. exists l, zs.
      repeat split; try done; lia.
    + intros (-> & [?|(? & zs & [= <-] & ? & ? & ?)]); [done|]. exists tt. split; [|done].
      apply Hspec. by exists zs.
Qed.

(** ** The chunks of a body *)

(** Reference: cut a text in pieces of [m] characters, the last one shorter. *)
Fixpoint pieces (fuel m : nat) (s : string) : list string :=
  match fuel, s with
  | O, _ | _, "" => []
  | S fuel', _ => take_str m s :: pieces fuel' m (drop_str m s)
  end.

Lemma drop_str_all n s : (String.length s ≤ n)%nat → drop_str n s = "".
Proof. revert n. induction s as [|c s IH]; intros [|n] H; cbn in *; try done; [lia|]. apply IH. lia. Qed.

Lemma drop_str_drop a b s : drop_str a (drop_str b s) = drop_str (b + a) s.
Proof. revert s. induction b as [|b IH]; intros [|c s]; cbn; try done; by destruct a. Qed.

Lemma length_take_str n s : String.length (take_str n s) = Nat.min n (String.length s).
Proof. revert s. induction n as [|n IH]; intros [|c s]; cbn; try done. by rewrite IH. Qed.

Lemma length_drop_str n s : String.length (drop_str n s) = (String.length s - n)%nat.
Proof. revert s. induction n as [|n IH]; intros [|c s]; cbn; done. Qed.

Lemma take_str_all n s : (String.length s ≤ n)%nat → take_str n s = s.
Proof. revert n. induction s as [|c s IH]; intros [|n] H; cbn in *; try done; [lia|]. by rewrite IH by lia. Qed.

Lemma concat_cons p ps : String.concat "" (p :: ps) = p +:+ String.concat "" ps.
Proof. destruct ps; cbn; [|done]. induction p; cbn; congruence. Qed.

(** The pieces are the text, cut: nothing is lost, repeated or empty, and only
    the last piece may be shorter than [m]. *)
Lemma pieces_spec fuel m s :
  (0 < m)%nat → (String.length s ≤ fuel)%nat →
  String.concat "" (pieces fuel m s) = s ∧
  Forall (λ p, (1 ≤ String.length p ≤ m)%nat) (pieces fuel m s) ∧
  (∀ i p, pieces fuel m s !! i = Some p → (S i < length (pieces fuel m s))%nat → String.length p = m).
Proof.
  intros Hm. revert s. induction fuel as [|fuel IH]; intros s Hs.
  { destruct s; cbn in Hs; [done|lia]. }
  destruct s as [|c s']; [done|]. set (s := String c s') in *.
  change (pieces (S fuel) m s) with (take_str m s :: pieces fuel m (drop_str m s)).
  destruct (IH (drop_str m s)) as (Hcat & Hall & Hfull).
  { rewrite length_drop_str. cbn in *. lia. }
  split; [|split].
  - by rewrite concat_cons, Hcat, take_drop_str.
  - constructor; [|done]. rewrite length_take_str. cbn. lia.
  - intros [|i] p Hp Hi; cbn in Hp, Hi; [|eapply Hfull; [done|lia]].
    injection Hp as <-. rewrite length_take_str.
    destruct (Nat.le_gt_cases m (String.length s)); [lia|].
    rewrite (drop_str_all m s) in Hi by lia. by destruct fuel; cbn in Hi; lia.
Qed.

(** ** The upload loop sends the pieces of the body, in order *)

Section upload_loop.
Variable sha256 : string → string.
Variable json : RuntimeTransportRequest → option RuntimeResponseModel → io js.

(** Reference: send the given pieces one after the other from [offset]. *)
Fixpoint put_all (bytes : string) (ingestion : js) (offset : Z) (ps : list string) : io js :=
  match ps with
  | [] => mret ingestion
  | p :: ps' =>
      next ← guarded json ingestion (put_chunk sha256 json bytes ingestion (js_Z offset) p);
      put_all bytes next (offset + slen p) ps'
  end.

Lemma try_catch_Ok {A} (m : io A) h w a w' : m w = (Ok a, w') → try_catch m h w = (Ok a, w').
Proof using Type. intros H. unfold try_catch. by rewrite H. Qed.

Lemma guarded_lift_Ok {A} ingestion (a : A) w : guarded json ingestion (lift (Ok a)) w = (Ok a, w).
Proof using Type. done. Qed.

Lemma show_num_int n z : to_int n = Some z → Z.abs z ≤ MAX_SAFE_INTEGER → show_num n = show_Z z.
Proof using Type.
  intros H Hs. destruct n as [| |q]; [done..|]. unfold show_num. by rewrite H, (proj2 (Z.leb_le _ _) Hs).
Qed.

(** A range is printed from the integers its bounds denote. *)
Lemma content_range_int o z chunk bytes :
  to_int o = Some z → 0 ≤ z → z + slen chunk ≤ MAX_SAFE_INTEGER →
  content_range (Num o) chunk bytes =
    Ok ("bytes " +:+ show_Z z +:+ "-" +:+ show_Z (z + slen chunk - 1) +:+ "/" +:+ show_Z (slen bytes)).
Proof using Type.
  intros Ho Hz Hmax. assert (0 ≤ slen chunk) by (unfold slen; lia).
  assert (MAX_SAFE_INTEGER = 2 ^ 53 - 1) by done.
  unfold content_range. cbn [to_string mbind result_bind].
  rewrite (show_num_int o z) by (done || lia). cbn [js_add to_primitive to_number js_Z mbind result_bind].
  assert (Hpast : to_int (num_add o (num_of_Z (slen chunk))) = Some (z + slen chunk)).
  { apply num_add_int; [done|apply to_int_of_Z|lia]. }
  rewrite (show_num_int _ (z + slen chunk - 1)); [done| |lia].
  apply num_add_int; [done|apply to_int_of_Z|lia].
Qed.

Lemma put_chunk_int bytes ingestion o z chunk :
  to_int o = Some z → 0 ≤ z → z + slen chunk ≤ MAX_SAFE_INTEGER →
  put_chunk sha256 json bytes ingestion (Num o) chunk = put_chunk sha256 json bytes ingestion (js_Z z) chunk.
Proof using Type.
  intros Ho Hz Hmax. unfold put_chunk, js_Z.
  by rewrite (content_range_int o z), (content_range_int (num_of_Z z) z) by (done || apply to_int_of_Z).
Qed.

Lemma num_min_int a b x y : to_int a = Some x → to_int b = Some y → to_int (num_min a b) = Some (Z.min x y).
Proof using Type.
  intros Ha Hb. pose proof (num_ltb_int _ _ _ _ Hb Ha) as Hlt.
  destruct a as [| |p], b as [| |q]; try done. cbn [num_min]. rewrite Hlt.
  destruct (Z.ltb_spec y x); [rewrite Hb|rewrite Ha]; f_equal; lia.
Qed.

Lemma num_max_int a b x y : to_int a = Some x → to_int b = Some y → to_int (num_max a b) = Some (Z.max x y).
Proof using Type.
  intros Ha Hb. pose proof (num_ltb_int _ _ _ _ Ha Hb) as Hlt.
  destruct a as [| |p], b as [| |q]; try done. cbn [num_max]. rewrite Hlt.
  destruct (Z.ltb_spec x y); [rewrite Hb|rewrite Ha]; f_equal; lia.
Qed.

Lemma slice_index_int n z len : to_int n = Some z → 0 ≤ z → slice_index n len = Z.min z len.
Proof using Type.
  intros (q & -> & Hq)%to_int_Some Hz. cbn. unfold Qeq in Hq. cbn in Hq.
  assert (Qnum q = z * QDen q) as -> by lia. rewrite Z.quot_mul by lia.
  by rewrite (proj2 (Z.ltb_ge z 0)).
Qed.

Lemma chunk_at_int bytes maxChunk m o z :
  to_int maxChunk = Some m → 1 ≤ m ≤ CHUNK_BYTES → to_int o = Some z → 0 ≤ z < slen bytes → slen bytes ≤ 2 ^ 52 →
  chunk_at bytes maxChunk (Num o) = Ok (take_str (Z.to_nat m) (drop_str (Z.to_nat z) bytes)).
Proof using Type.
  intros Hm Hrange Ho Hz Hlen. unfold chunk_at. cbn [js_add to_primitive to_number mbind result_bind].
  unfold CHUNK_BYTES in Hrange.
  assert (Hpast : to_int (num_add o maxChunk) = Some (z + m)) by (apply num_add_int; [done|done|lia]).
  pose proof (num_min_int _ _ _ _ Hpast (to_int_of_Z (slen bytes))) as Hmin.
  unfold slice_bytes. rewrite (slice_index_int o z), (slice_index_int _ _ _ Hmin) by (done || lia).
  f_equal. rewrite (Z.min_l z), (Z.min_l _ (slen bytes)) by lia.
  destruct (Z.le_gt_cases (z + m) (slen bytes)).
  - rewrite Z.min_l by lia. by replace (z + m - z) with m by lia.
  - rewrite Z.min_r by lia. unfold slen in *.
    rewrite !take_str_all; [done|rewrite length_drop_str; lia..].
Qed.

Lemma upload_chunks_spec fuel bytes maxChunk m ingestion o z w :
  to_int maxChunk = Some m → 1 ≤ m ≤ CHUNK_BYTES → to_int o = Some z → 0 ≤ z → slen bytes ≤ 2 ^ 52 →
  (String.length (drop_str (Z.to_nat z) bytes) < fuel)%nat →
  upload_chunks sha256 json fuel bytes maxChunk ingestion (Num o) w =
    put_all bytes ingestion z (pieces (pred fuel) (Z.to_nat m) (drop_str (Z.to_nat z) bytes)) w.
Proof using Type.
  intros Hm Hrange. revert ingestion o z w.
  induction fuel as [|fuel IH]; intros ingestion o z w Ho Hz Hlen Hfuel; [lia|].
  cbn [upload_chunks js_ltb to_primitive to_number mbind result_bind js_Z].
  unfold mbind at 1, io_bind at 1. rewrite guarded_lift_Ok, (num_ltb_int _ _ _ _ Ho (to_int_of_Z _)).
  cbn [pred]. destruct (Z.ltb_spec z (slen bytes)) as [Hlt|Hge].
  2: { rewrite drop_str_all by (unfold slen in *; lia). by destruct fuel. }
  rewrite length_drop_str in Hfuel. unfold slen in Hlt. destruct fuel as [|fuel]; [lia|].
  set (rest := drop_str (Z.to_nat z) bytes).
  assert (Hrest : rest ≠ "").
  { intros E. assert (String.length rest = 0%nat) as H by (by rewrite E). unfold rest in H.
    rewrite length_drop_str in H. lia. }
  assert (pieces (S fuel) (Z.to_nat m) rest =
    take_str (Z.to_nat m) rest :: pieces fuel (Z.to_nat m) (drop_str (Z.to_nat m) rest)) as ->
    by (by destruct rest).
  assert (Hsize : slen (take_str (Z.to_nat m) rest) ≤ m).
  { unfold slen. rewrite length_take_str. lia. }
  cbn [put_all]. rewrite (chunk_at_int bytes maxChunk m o z) by (done || (unfold slen; lia)). fold rest.
  set (c := take_str (Z.to_nat m) rest) in *.
  change (lift (Ok c) ≫= λ chunk, put_chunk sha256 json bytes ingestion (Num o) chunk)
    with (put_chunk sha256 json bytes ingestion (Num o) c).
  unfold CHUNK_BYTES in *. unfold slen in Hlen, Hsize.
  rewrite (put_chunk_int bytes ingestion o z) by (done || (unfold slen, MAX_SAFE_INTEGER; lia)).
  unfold mbind, io_bind. destruct (guarded _ _ _ w) as [[next|e] w1]; [|done].
  cbn [js_add to_primitive to_number mbind result_bind]. rewrite guarded_lift_Ok.
  assert (Hpast : to_int (num_add o maxChunk) = Some (z + m)) by (apply num_add_int; [done|done|lia]).
  rewrite (IH next _ (z + m) w1 Hpast); [|lia|unfold slen; lia|rewrite length_drop_str; lia].
  assert (Hrest' : drop_str (Z.to_nat (z + m)) bytes = drop_str (Z.to_nat m) rest).
  { unfold rest. rewrite drop_str_drop. f_equal. lia. }
  rewrite Hrest'. cbn [pred]. destruct (Z.le_gt_cases (z + m) (slen bytes)) as [Hle|Hgt].
  - assert (slen c = m) as ->; [|done]. unfold slen, c, rest in *.
    rewrite length_take_str, length_drop_str. lia.
  - rewrite drop_str_all; [by destruct fuel|]. unfold slen, rest in *. rewrite length_drop_str. lia.
Qed.
End upload_loop.

(** C3: Chunking.  After the ingestion is opened at the offset [z], for a body of
    at most 2^52 bytes, the upload sends the rest of the body cut in pieces of
    [min(1 MiB, maxChunkBytes)] bytes, one [PUT] per piece in order, each at the
    offset where the one before ended, and then finalizes and starts: the
    pieces put together are the bytes from [z] on, none is empty, and every
    piece but the last has the full size.  This holds whatever the runtime
    answers to any of the requests. *)
Theorem upload_sends_each_byte_once sha256 json capabilities upload w w1 w2 caps n k open o z pages :
  pdfPageSelection (up_pdfPageNumbers upload) = Ok pages →
  capabilities w = (Ok caps, w1) →
  member caps "maxChunkBytes" = Ok (Num n) → to_int n = Some k → 1 ≤ k →
  let bytes := bodyBytes (up_body upload) in
  json (open_request upload bytes (sha256 bytes)) (Some M_Ingestion) w1 = (Ok open, w2) →
  member open "nextOffset" = Ok (Num o) → to_int o = Some z → 0 ≤ z → slen bytes ≤ 2 ^ 52 →
  let m := Z.to_nat (Z.min CHUNK_BYTES k) in
  let rest := drop_str (Z.to_nat z) bytes in
  let ps := pieces (String.length bytes) m rest in
  startStreamingCapture sha256 json capabilities upload w =
    (put_all sha256 json bytes open z ps ≫= λ ingestion,
     finish_upload json upload bytes (sha256 bytes) ingestion pages) w2 ∧
  String.concat "" ps = rest ∧
  Forall (λ p, (1 ≤ String.length p ≤ m)%nat) ps ∧
  (∀ i p, ps !! i = Some p → (S i < length ps)%nat → String.length p = m).
Proof.
  intros Hpages Hcaps Hmember Hn Hk bytes Hopen Hoff Ho Hz Hlen m rest ps.
  assert (Hmax : to_int (num_max (num_of_Z 1) (num_min (num_of_Z CHUNK_BYTES) n)) = Some (Z.min CHUNK_BYTES k)).
  { pose proof (num_min_int _ _ _ _ (to_int_of_Z CHUNK_BYTES) Hn) as Hmin.
    rewrite (num_max_int _ _ _ _ (to_int_of_Z 1) Hmin). f_equal. unfold CHUNK_BYTES. lia. }
  split; [|apply pieces_spec].
  - unfold startStreamingCapture. rewrite Hpages. fold bytes.
    unfold mbind at 1, io_bind at 1, lift at 1. rewrite (io_bind_Ok _ _ _ _ _ Hcaps), Hmember.
    unfold mbind at 1, io_bind at 1, lift at 1. cbn [mbind result_bind to_number to_primitive].
    rewrite (io_bind_Ok _ _ _ _ _ Hopen), Hoff. unfold mbind at 1, io_bind at 1. rewrite guarded_lift_Ok.
    unfold mbind, io_bind.
    rewrite (upload_chunks_spec sha256 json (chunk_fuel bytes) bytes _ _ open o z w2 Hmax); try done.
    + unfold CHUNK_BYTES. lia.
    + unfold chunk_fuel. rewrite length_drop_str. lia.
  - unfold m, CHUNK_BYTES. lia.
  - unfold rest. rewrite length_drop_str. lia.
Qed.

(** ** A scripted JSON facade: one reply per request, no retry *)

Definition direct_json (Date_parse : string → num) (request : RuntimeTransportRequest)
    (model : option RuntimeResponseModel) : io js :=
  response ← host_transport request;
  lift (decodeJson Date_parse response model).

(** Clean-up covers the upload but not the start.  When finalizing fails, the
    ingestion is deleted and the failure is thrown, however the deletion ends;
    when the start request fails, whatever its failure, the ingestion is left
    behind: the start request is the last one sent.  (The code returns the
    start request's promise from the [try] block without awaiting it there.) *)
Lemma cleanup_covers_upload_not_start D upload bytes digest ingestion pages id path reply1 reply2 rest w :
  member ingestion "ingestionId" = Ok (Str id) → path = "/v2/ingestions/" +:+ encodeURIComponent id →
  replies w = reply1 :: reply2 :: rest →
  let finalize := finalize_request path bytes digest in
  let run := finish_upload (direct_json D) upload bytes digest ingestion pages w in
  (∀ e, reply1 = Err e →
     run.1 = Err e ∧ sent (log run.2) = sent (log w) ++ [finalize; delete_request path]) ∧
  (∀ response final id' e,
     reply1 = Ok response → decodeJson D response (Some M_Ingestion) = Ok final →
     member final "ingestionId" = Ok id' → reply2 = Err e →
     run.1 = Err e ∧ sent (log run.2) = sent (log w) ++ [finalize; start_request upload id' pages]).
Proof.
  intros Hid -> Hw finalize run.
  assert (Hpath : ingestion_path ingestion = Ok ("/v2/ingestions/" +:+ encodeURIComponent id)).
  { unfold ingestion_path, member_text. by rewrite Hid. }
  destruct w as [l neg l0]. cbn [replies] in Hw. subst l. split.
  - intros e ->. unfold run, finish_upload, guarded, abandon, direct_json, try_catch, mbind, io_bind, lift.
    rewrite Hpath. cbn. destruct reply2 as [r2|e2]; cbn.
    + destruct (decodeJson D r2 None); cbn; by rewrite !sent_app, <-app_assoc.
    + by rewrite !sent_app, <-app_assoc.
  - intros response final id' e -> Hdec Hfinal ->.
    unfold run, finish_upload, guarded, direct_json, try_catch, mbind, io_bind, lift.
    rewrite Hpath. cbn -[decodeJson]. rewrite Hdec, Hfinal. cbn. by rewrite !sent_app, <-app_assoc.
Qed.

(** ** Event streams *)

Definition event_sequence (event : js) : js :=
  match event with Obj r => get r "sequence" | _ => Undefined end.
Definition event_number (event : js) : num := num_or_nan (event_sequence event).
Definition of_capture (id : string) (event : js) : Prop :=
  ∃ r, event = Obj r ∧ get r "captureId" = Str id.

(** The sequence the stream resumes after, once these events are accepted. *)
Definition cursor (previous : js) (events : list js) : js :=
  from_option event_sequence previous (last events).

Lemma cursor_cons previous e es : cursor previous (e :: es) = cursor (event_sequence e) es.
Proof. unfold cursor. rewrite last_cons. by destruct (last es). Qed.

Lemma cursor_app previous es fs : cursor previous (es ++ fs) = cursor (cursor previous es) fs.
Proof. unfold cursor. rewrite last_app. by destruct (last fs), (last es). Qed.

Lemma member_Str v name s : member v name = Ok (Str s) → ∃ r, v = Obj r ∧ get r name = Str s.
Proof. destruct v; cbn; try done. intros [= H]. by eexists. Qed.

Lemma accept_event_Ok id previous frame event sequence :
  accept_event id previous frame = Ok (event, sequence) →
  of_capture id event ∧ sequence = event_sequence event ∧ js_leb sequence previous = Ok false.
Proof.
  unfold accept_event. intros H.
  apply bind_Ok in H as (e & _ & H). apply bind_Ok in H as (c & Hc & H).
  apply bind_Ok in H as (s & Hs & H). apply bind_Ok in H as (stale & Hstale & H).
  apply bind_Ok in H as ([] & Hthrow & H). apply bind_Ok in H as ([] & _ & H). injection H as -> ->.
  unfold throw_if in Hthrow. apply reject_if_Ok in Hthrow. subst stale.
  destruct (strict_eqb c (Str id)) eqn:Hid; [|done]. apply (is_str_spec c id) in Hid. subst c.
  apply member_Str in Hc as (r & -> & Hr). cbn [member] in Hs. injection Hs as <-.
  split; [by exists r|done].
Qed.

(** Only the last event may be terminal. *)
Definition terminal_last (events : list js) : Prop :=
  ∀ i e, events !! i = Some e → terminal_event e = true → S i = length events.

Lemma consume_spec id previous frames failure events last how :
  consume id previous frames failure = (events, last, how) →
  Forall (of_capture id) events ∧ last = cursor previous events ∧ terminal_last events ∧
  ((∃ e, e ∈ events ∧ terminal_event e = true) ↔ how = Returned).
Proof.
  revert previous events last how. induction frames as [|frame frames IH]; intros previous events last how.
  { cbn. intros [= <- <- <-]. split; [constructor|]. split; [done|]. split; [intros [|i]; done|].
    split; [intros (? & ?%elem_of_nil & _); done|by destruct failure]. }
  cbn [consume]. destruct (accept_event id previous frame) as [[event sequence]|e] eqn:Hacc.
  2: { intros [= <- <- <-]. split; [constructor|]. split; [done|]. split; [intros [|i]; done|].
       split; [intros (? & ?%elem_of_nil & _); done|done]. }
  apply accept_event_Ok in Hacc as (Hid & -> & _).
  destruct (terminal_event event) eqn:Hterm.
  { intros [= <- <- <-]. split; [by constructor|]. split; [done|]. split; [by intros [|[|i]]|].
    split; [done|]. intros _. exists event. split; [by left|done]. }
  destruct (consume id (event_sequence event) frames failure) as [[es l] h] eqn:Hrest.
  intros [= <- <- <-]. apply IH in Hrest as (Hall & -> & Hlast & Hret).
  split; [by constructor|]. split; [by rewrite cursor_cons|]. split.
  - intros [|i] e He Ht; cbn in He; [congruence|]. cbn. f_equal. by eapply Hlast.
  - rewrite <-Hret. split; intros (e & He & Ht); exists e; (split; [|done]).
    + apply elem_of_cons in He as [-> |]; [by rewrite Hterm in Ht|done].
    + by right.
Qed.

(** ** Order *)

Definition num_lt (a b : num) : Prop := num_ltb a b = true.

Definition proper_number (v : js) : Prop := ∃ n, v = Num n ∧ n ≠ NaN.

Lemma num_lt_trans a b c : num_lt a b → num_lt b c → num_lt a c.
Proof.
  unfold num_lt. destruct a as [|[]|x], b as [|[]|y], c as [|[]|z]; cbn; try done.
  rewrite !Qltb_spec. apply Qlt_trans.
Qed.

Lemma num_leb_false a b : a ≠ NaN → b ≠ NaN → num_leb a b = false → num_lt b a.
Proof.
  intros Ha Hb. destruct a as [|[]|x], b as [|[]|y]; try done.
  intros H. apply num_ltb_Fin, Qnot_le_lt. by rewrite <-num_leb_Fin, H.
Qed.

(** The numbers ascend, starting above [p]. *)
Fixpoint ascending (p : num) (l : list num) : Prop :=
  match l with
  | [] => True
  | n :: l' => num_lt p n ∧ ascending n l'
  end.

Lemma ascending_app p l k : ascending p l → ascending (List.last l p) k → ascending p (l ++ k).
Proof.
  revert p. induction l as [|n l IH]; intros p; cbn [app ascending]; [done|].
  intros [Hn Hl] Hk. rewrite list_last_cons in Hk. split; [done|]. by apply IH.
Qed.

Lemma ascending_above p l : ascending p l → Forall (num_lt p) l.
Proof.
  revert p. induction l as [|n l IH]; intros p; [by constructor|]. cbn. intros [Hn Hl]. constructor; [done|].
  eapply Forall_impl; [by apply IH|]. intros m. by apply num_lt_trans.
Qed.

Lemma ascending_sorted p l : ascending p l → StronglySorted num_lt l.
Proof.
  revert p. induction l as [|n l IH]; intros p; [constructor|]. cbn. intros [_ Hl].
  constructor; [by eapply IH|by apply ascending_above].
Qed.

Lemma event_number_cursor p es :
  Forall (λ e, proper_number (event_sequence e)) es →
  cursor (Num p) es = Num (List.last (map event_number es) p).
Proof.
  revert p. induction es as [|e es IH]; intros p; [done|]. intros [(n & Hn & _) Hes]%Forall_cons.
  rewrite cursor_cons, Hn, (IH n Hes). cbn [map]. rewrite list_last_cons.
  unfold event_number at 3. by rewrite Hn.
Qed.

Lemma consume_ascending id p frames failure events last how :
  p ≠ NaN → consume id (Num p) frames failure = (events, last, how) →
  Forall (λ e, proper_number (event_sequence e)) events →
  ascending p (map event_number events).
Proof.
  revert p events last how. induction frames as [|frame frames IH]; intros p events last how Hp.
  { by intros [= <- _ _]. }
  cbn [consume]. destruct (accept_event id (Num p) frame) as [[event sequence]|e] eqn:Hacc.
  2: { by intros [= <- _ _]. }
  apply accept_event_Ok in Hacc as (_ & -> & Hfresh).
  assert (Hstep : proper_number (event_sequence event) → num_lt p (event_number event)).
  { intros (n & Hn & Hnan). unfold event_number. rewrite Hn in *. rewrite js_leb_num in Hfresh.
    injection Hfresh as Hfresh. by apply num_leb_false. }
  destruct (terminal_event event).
  { intros [= <- _ _] [Hn _]%Forall_cons. cbn. auto. }
  destruct (consume id (event_sequence event) frames failure) as [[es l] h] eqn:Hrest.
  intros [= <- _ _] [Hn Hes]%Forall_cons. split; [auto|]. fold (map event_number).
  destruct Hn as (n & Hn & Hnan). unfold event_number at 1. rewrite Hn in *. by eapply IH.
Qed.

Section event_loops.
Variable request : RuntimeTransportRequest → io Response.

(** The three ways one response ends the loop or enters it again. *)
Lemma event_loop_ascending id left p w events e w' :
  p ≠ NaN → event_loop request id left (Num p) w = ((events, e), w') →
  Forall (λ e, proper_number (event_sequence e)) events →
  ascending p (map event_number events) ∧ Forall (of_capture id) events.
Proof using Type.
  revert p w events e w'. induction left as [|left IH]; intros p w events e w' Hp; cbn [event_loop];
    (destruct ((lift (events_request id (Num p)) ≫= request) w) as [[response|err] w1];
     [|intros [= <- _ _] _; by repeat constructor]);
    destruct (decodeSse response) as [frames failure];
    destruct (consume id (Num p) frames failure) as [[es l] how] eqn:Hc;
    pose proof (consume_spec _ _ _ _ _ _ _ Hc) as (Hof & Hl & _);
    pose proof (consume_ascending _ _ _ _ _ _ _ Hp Hc) as Hasc.
  - intros H Hnum. assert (events = es) as -> by (destruct how; [| |]; try destruct (reconnectable _); congruence).
    auto.
  - destruct (event_loop request id left l w1) as [[more e1] w2] eqn:Hmore. intros H Hnum.
    assert (events = es ∨ events = es ++ more) as [->| ->]
      by (destruct how; [| |]; try destruct (reconnectable _); naive_solver); [auto|].
    apply Forall_app in Hnum as [Hnum1 Hnum2].
    rewrite Hl, event_number_cursor in Hmore by done. apply IH in Hmore as [Hm Hm']; [| |done].
    + split; [|by apply Forall_app]. rewrite map_app. by apply ascending_app; [auto|].
    + destruct (list_last_in p (map event_number es)) as [->|Hin]; [done|].
      apply list_elem_of_fmap in Hin as (x & -> & Hx). rewrite Forall_forall in Hnum1.
      destruct (Hnum1 x Hx) as (n & Hn & Hnan). unfold event_number. by rewrite Hn.
Qed.
End event_loops.

(** ** Requests of a stream *)

(** The run of a stream, response by response: each request asks for the events
    after the last one accepted so far; at most [S left] requests; a terminal
    event ends the stream without error. *)
Definition stream_run (id : string) (left : nat) (previous : js) (l : list Effect)
    (events : list js) (e : option thrown) (l' : list Effect) : Prop :=
  ∃ segments requests,
    sent l' = sent l ++ requests ∧ concat segments = events ∧
    length segments = length requests ∧ (length requests ≤ S left)%nat ∧
    (∀ i r, requests !! i = Some r →
       events_request id (cursor previous (concat (take i segments))) = Ok r) ∧
    terminal_last events ∧ ((∃ x, x ∈ events ∧ terminal_event x = true) → e = None).

Lemma stream_run_none id left previous l e : stream_run id left previous l [] e l.
Proof.
  exists [], []. rewrite app_nil_r. repeat split; try done; [apply Nat.le_0_l|].
  by intros (? & ?%elem_of_nil & _).
Qed.

Lemma stream_run_one id left previous l r events e l' :
  events_request id previous = Ok r → sent l' = sent l ++ [r] → terminal_last events →
  ((∃ x, x ∈ events ∧ terminal_event x = true) → e = None) →
  stream_run id left previous l events e l'.
Proof.
  intros Hr Hl Hlast Hterm. exists [events], [r]. repeat split; try done.
  - cbn. by rewrite app_nil_r.
  - cbn. lia.
  - intros [|[|i]] r' Hi; cbn in Hi; by simplify_eq.
Qed.

Lemma stream_run_more id left previous l r es more e l1 l' :
  events_request id previous = Ok r → sent l1 = sent l ++ [r] →
  (∀ x, x ∈ es → terminal_event x = false) →
  stream_run id left (cursor previous es) l1 more e l' →
  stream_run id (S left) previous l (es ++ more) e l'.
Proof.
  intros Hr Hl Hes (segments & requests & Hsent & <- & Hlen & Hle & Hreq & Hlast & Hterm).
  exists (es :: segments), (r :: requests). repeat split.
  - by rewrite Hsent, Hl, <-app_assoc.
  - cbn. by rewrite Hlen.
  - cbn. lia.
  - intros [|i] r' Hi; cbn in Hi; [by simplify_eq|]. cbn [take firstn concat]. rewrite cursor_app. by apply Hreq.
  - intros i x Hi Hx. rewrite length_app.
    apply lookup_app_Some in Hi as [Hi|[Hge Hi]].
    + apply list_elem_of_lookup_2, Hes in Hi. congruence.
    + pose proof (Hlast _ _ Hi Hx). lia.
  - intros (x & [Hx|Hx]%elem_of_app & Ht); [apply Hes in Hx; congruence|]. apply Hterm. by exists x.
Qed.

Lemma event_loop_requests id left previous w events e w' :
  event_loop host_transport id left previous w = ((events, e), w') →
  stream_run id left previous (log w) events e (log w').
Proof.
  revert previous w events e w'. induction left as [|left IH]; intros previous w events e w';
    cbn [event_loop]; unfold lift at 1, mbind at 1, io_bind at 1;
    (destruct (events_request id previous) as [r|err] eqn:Hr;
     [|intros [= <- <- <-]; apply stream_run_none]);
    destruct (host_transport r w) as [reply w1] eqn:Hhost;
    assert (Hsent : sent (log w1) = sent (log w) ++ [r])
      by (unfold host_transport in Hhost; destruct (replies w); injection Hhost as _ <-; cbn; by rewrite sent_app);
    (destruct reply as [response|err];
     [|intros [= <- <- <-]; apply (stream_run_one id _ previous _ r); try done;
       by intros (? & ?%elem_of_nil & _)]);
    destruct (decodeSse response) as [frames failure];
    destruct (consume id previous frames failure) as [[es l] how] eqn:Hc;
    apply consume_spec in Hc as (_ & -> & Hlast & Hret).
  - intros H. assert (events = es ∧ w1 = w' ∧ (how = Returned → e = None)) as (-> & -> & He)
      by (destruct how; [| |]; try destruct (reconnectable _); naive_solver).
    apply (stream_run_one id _ previous _ r); try done. by intros ?%Hret%He.
  - destruct (event_loop _ id left _ w1) as [[more e1] w2] eqn:Hmore. apply IH in Hmore. intros H.
    assert ((events = es ∧ w1 = w' ∧ (how = Returned → e = None)) ∨
            (how ≠ Returned ∧ events = es ++ more ∧ e1 = e ∧ w2 = w')) as [(-> & -> & He)|(Hn & -> & -> & ->)]
      by (destruct how; [| |]; try destruct (reconnectable _); naive_solver).
    + apply (stream_run_one id _ previous _ r); try done. by intros ?%Hret%He.
    + eapply stream_run_more; [done|done| |done]. intros x Hx. apply not_true_iff_false. intros Ht.
      apply Hn, Hret. by exists x.
Qed.

(** ** Properties of event streams *)

Lemma captureEvents_loop request id lastEventId limit k p w :
  initial_sequence lastEventId = Ok p →
  to_int (default (num_of_Z 2) limit) = Some (Z.of_nat k) →
  captureEvents request id lastEventId limit w = event_loop request id k (Num p) w.
Proof.
  intros Hp Hk. unfold captureEvents. rewrite Hp, Hk, Nat2Z.id.
  assert (is_integer (default (num_of_Z 2) limit) = true) as -> by (apply is_integer_spec; by eexists).
  rewrite (num_ltb_int _ _ _ _ Hk (to_int_of_Z 0)), (proj2 (Z.ltb_ge (Z.of_nat k) 0)) by lia. done.
Qed.


(** Resumption.  A stream sends at most [maxReconnects + 1] requests; the
    request for each response asks for the events after the last one accepted
    from the responses before it; only the last event may be terminal, and a
    terminal event ends the stream without error. *)
Lemma capture_events_resume id lastEventId limit k p w events e w' :
  initial_sequence lastEventId = Ok p →
  to_int (default (num_of_Z 2) limit) = Some (Z.of_nat k) →
  captureEvents host_transport id lastEventId limit w = ((events, e), w') →
  ∃ segments requests,
    sent (log w') = sent (log w) ++ requests ∧ concat segments = events ∧
    length segments = length requests ∧ (length requests ≤ k + 1)%nat ∧
    (∀ i r, requests !! i = Some r →
       events_request id (cursor (Num p) (concat (take i segments))) = Ok r) ∧
    terminal_last events ∧ ((∃ x, x ∈ events ∧ terminal_event x = true) → e = None).
Proof.
  intros Hp Hk Hrun. rewrite (captureEvents_loop _ _ _ _ _ _ _ Hp Hk) in Hrun.
  rewrite Nat.add_1_r. by apply event_loop_requests in Hrun.
Qed.

(** An event without a [sequence] switches the order check off: it is accepted
    after any sequence [p], and so is any event [n] that follows it, even when
    [n <= p]. *)
Lemma event_without_sequence_resets_order id p n frame frame' r r' :
  parseJsonFrame frame = Ok (Obj r) → get r "captureId" = Str id →
  get r "sequence" = Undefined → is_ok (assertCaptureProgress r "CaptureEvent") = true →
  terminal_event (Obj r) = false →
  parseJsonFrame frame' = Ok (Obj r') → get r' "captureId" = Str id →
  get r' "sequence" = Num n → is_ok (assertCaptureProgress r' "CaptureEvent") = true →
  (consume id (Num p) [frame; frame'] None).1.1 = [Obj r; Obj r'].
Proof.
  intros Hf Hid Hseq Hprog Hterm Hf' Hid' Hseq' Hprog'.
  assert (Hok : ∀ r, is_ok (assertCaptureProgress r "CaptureEvent") = true →
    assertCaptureProgress r "CaptureEvent" = Ok tt).
  { intros x. by destruct (assertCaptureProgress x "CaptureEvent") as [[]|]. }
  assert (H1 : accept_event id (Num p) frame = Ok (Obj r, Undefined)).
  { unfold accept_event. rewrite Hf. cbn [mbind result_bind member]. rewrite Hid, Hseq.
    cbn [strict_eqb]. rewrite String.eqb_refl, js_leb_undefined. cbn [mbind result_bind throw_if reject_if].
    by rewrite (Hok r Hprog). }
  assert (H2 : accept_event id Undefined frame' = Ok (Obj r', Num n)).
  { unfold accept_event. rewrite Hf'. cbn [mbind result_bind member]. rewrite Hid', Hseq'.
    cbn [strict_eqb]. rewrite String.eqb_refl.
    assert (js_leb (Num n) Undefined = Ok false) as -> by (by destruct n as [|[]|]).
    cbn [mbind result_bind throw_if reject_if]. by rewrite (Hok r' Hprog'). }
  cbn [consume]. rewrite H1, Hterm, H2. by destruct (terminal_event (Obj r')).
Qed.

(** A body that breaks off while it is read is not resumed: the reader's error
    is none of the client's retryable errors, so the stream ends with it after
    this response, however many reconnects are left. *)
Lemma broken_body_is_not_resumed id lastEventId limit k p w response rest frames error events last r :
  initial_sequence lastEventId = Ok p →
  to_int (default (num_of_Z 2) limit) = Some (Z.of_nat k) →
  replies w = Ok response :: rest → events_request id (Num p) = Ok r →
  decodeSse response = (frames, Some error) → (∀ e, error ≠ Runtime e) →
  consume id (Num p) frames (Some error) = (events, last, Threw error) →
  captureEvents host_transport id lastEventId limit w =
    ((events, Some error), {| replies := rest; negotiated := negotiated w; log := log w ++ [Sent r] |}).
Proof.
  intros Hp Hk Hw Hr Hdec Herr Hc. rewrite (captureEvents_loop _ _ _ _ _ _ _ Hp Hk).
  destruct k; cbn [event_loop]; unfold lift, mbind, io_bind, host_transport; rewrite Hr, Hw, Hdec, Hc;
    by destruct error as [e| | |]; [destruct (Herr e)|..].
Qed.

(** ** Concrete runs *)

Definition member_json (name value : string) : string := quote name +:+ ":" +:+ value.

(** The JSON text of an event with these members beside its identity. *)
Definition event_json (eventType : string) (rest : list string) : string :=
  "{" +:+ join "," (member_json "captureId" (quote "c1") :: member_json "eventType" (quote eventType) :: rest) +:+ "}".

Definition event_text (json : string) : string :=
  "data: " +:+ json +:+ String LF (String LF "").

Definition ascending_world : World :=
  world_of [
    Ok (sse_response [event_text (event_json "progress" [member_json "sequence" "1"]);
                      event_text (event_json "progress" [member_json "sequence" "2"])]);
    Ok (sse_response [event_text (event_json "completed" [member_json "sequence" "5"])])].

Definition stream_events (w : World) : list js :=
  (captureEvents host_transport "c1" Undefined None w).1.1.
Definition stream_error (w : World) : option thrown :=
  (captureEvents host_transport "c1" Undefined None w).1.2.
Definition stream_end (w : World) : World := (captureEvents host_transport "c1" Undefined None w).2.


Lemma capture_events_resume_witness :
  ∃ segments requests,
    sent (log (stream_end ascending_world)) = [] ++ requests ∧ concat segments = stream_events ascending_world ∧
    length segments = length requests ∧ (length requests ≤ 2 + 1)%nat ∧
    (∀ i r, requests !! i = Some r →
       events_request "c1" (cursor (Num (num_of_Z (-1))) (concat (take i segments))) = Ok r) ∧
    terminal_last (stream_events ascending_world) ∧
    ((∃ x, x ∈ stream_events ascending_world ∧ terminal_event x = true) → stream_error ascending_world = None).
Proof.
  apply (capture_events_resume "c1" Undefined None 2 (num_of_Z (-1)) ascending_world).
  - reflexivity.
  - reflexivity.
  - unfold stream_events, stream_error, stream_end. by destruct (captureEvents _ _ _ _ _) as [[? ?] ?].
Defined.

Definition data_frame (json : string) : SseFrame :=
  {| frame_id := None; frame_event := None; frame_data := json |}.

(** Sequence 5, then none, then 3. *)
Lemma event_without_sequence_resets_order_witness :
  (consume "c1" (js_Z 5)
     [data_frame (event_json "progress" []); data_frame (event_json "progress" [member_json "sequence" "3"])]
     None).1.1 =
  [Obj [("captureId", Str "c1"); ("eventType", Str "progress")];
   Obj [("captureId", Str "c1"); ("eventType", Str "progress"); ("sequence", js_Z 3)]].
Proof.
  apply (event_without_sequence_resets_order "c1" (num_of_Z 5) (num_of_Z 3)); vm_compute; reflexivity.
Defined.

Definition broken_response : Response :=
  {| resp_status := 200; resp_headers := [("content-type", "text/event-stream")];
     resp_bytes := ""; resp_body := "";
     resp_stream := Some {| body_chunks := [event_text (event_json "progress" [member_json "sequence" "1"])];
                            body_failure := Some TypeErr |} |}.

Definition broken_request : RuntimeTransportRequest :=
  {| req_method := None; req_path := "/v2/captures/c1/events"; req_headers := [("Accept", "text/event-stream")];
     req_body := None |}.

Lemma broken_body_is_not_resumed_witness :
  captureEvents host_transport "c1" Undefined None (world_of [Ok broken_response]) =
    (([Obj [("captureId", Str "c1"); ("eventType", Str "progress"); ("sequence", js_Z 1)]], Some TypeErr),
     {| replies := []; negotiated := None; log := [] ++ [Sent broken_request] |}).
Proof.
  apply (broken_body_is_not_resumed "c1" Undefined None 2 (num_of_Z (-1)) (world_of [Ok broken_response])
           broken_response [] (fst (decodeSse broken_response)) TypeErr
           [Obj [("captureId", Str "c1"); ("eventType", Str "progress"); ("sequence", js_Z 1)]] (js_Z 1)
           broken_request); [reflexivity|reflexivity|reflexivity|vm_compute; reflexivity|vm_compute; reflexivity|discriminate|
    vm_compute; reflexivity].
Defined.

Definition sample_upload : CaptureUpload :=
  {| up_fileName := "a.wav"; up_body := Uint8Array "abcdefghij"; up_mediaType := None; up_sourceKind := "audio";
     up_targetLanguage := None; up_structuringMode := None; up_pdfPageNumbers := Undefined;
     up_identifySpeakers := None; up_spokenLanguage := None; up_clientRequestId := "req-1" |}.

Definition sample_ingestion : js :=
  Obj [("ingestionId", Str "i 1"); ("nextOffset", js_Z 0); ("nextChunkIndex", js_Z 0)].

(** A runtime that answers every request with the same ingestion. *)
Definition constant_json (request : RuntimeTransportRequest) (model : option RuntimeResponseModel) : io js :=
  host_transport request ≫= λ _, mret sample_ingestion.

Definition ok_world : World := world_of (replicate 9 (Ok (plain_response 200 []))).
Definition opened_world : World :=
  (constant_json (open_request sample_upload "abcdefghij" "sha") (Some M_Ingestion) ok_world).2.

Lemma upload_sends_each_byte_once_witness :
  startStreamingCapture (λ _, "sha") constant_json (mret (Obj [("maxChunkBytes", js_Z 4)])) sample_upload ok_world =
    (put_all (λ _, "sha") constant_json "abcdefghij" sample_ingestion 0 ["abcd"; "efgh"; "ij"] ≫= λ ingestion,
     finish_upload constant_json sample_upload "abcdefghij" "sha" ingestion Undefined) opened_world.
Proof.
  apply (upload_sends_each_byte_once (λ _, "sha") constant_json (mret (Obj [("maxChunkBytes", js_Z 4)]))
    sample_upload ok_world ok_world opened_world (Obj [("maxChunkBytes", js_Z 4)]) (num_of_Z 4) 4
    sample_ingestion (num_of_Z 0) 0 Undefined); try reflexivity; vm_compute; discriminate.
Defined.

Lemma cleanup_covers_upload_not_start_witness :
  let w := world_of [Err AbortError; Ok (plain_response 204 [])] in
  let run := finish_upload (direct_json (λ _, NaN)) sample_upload "" "sha" sample_ingestion Undefined w in
  run.1 = Err AbortError ∧
  sent (log run.2) =
    [] ++ [finalize_request "/v2/ingestions/i%201" "" "sha"; delete_request "/v2/ingestions/i%201"].
Proof.
  intros w run.
  refine (proj1 (cleanup_covers_upload_not_start (λ _, NaN) sample_upload "" "sha" sample_ingestion Undefined
    "i 1" "/v2/ingestions/i%201" (Err AbortError) (Ok (plain_response 204 [])) [] w _ _ _) AbortError _);
    reflexivity.
Defined.
