(* ===== verification/Discovery.v ===== *)
(** * Contract negotiation

    Models packages/capture-runtime-client/src/private/discovery.ts: readiness,
    the contract index, the contract bundle and its hash, and the streaming
    surface.  SHA-256 is the platform's and a parameter. *)

From S2P Require Import Prelude JsString JsNum JsValue Json JsCoerce Stringify RuntimeErrors CodecFields OcrCodec Codec Effects.

Definition CAPTURE_API_VERSION : string := "2.0".
Definition CAPTURE_DOCUMENT_SCHEMA_VERSION : string := "2".
Definition CAPTURE_DOCUMENT_SCHEMA_SHA256 : string :=
  "5452631ce9d8eea48851a819530d94920a39f41350d5575df0f8f97f82171774".
Definition CAPTURE_CONTRACT_SET_SHA256 : string :=
  "91ff5ff5cef6d68774cf036878843503f171044bf8c4a9f6a62e7fb418ce2380".

(** The expectations of [CaptureRuntimeClientOptions]. *)
Record ContractOptions : Type := {
  expectedApiVersion : option string;
  expectedSchemaVersion : option string;
  expectedSchemaSha256 : option string;
  expectedContractSetSha256 : option string;
  allowedContractSetSha256 : option (list string)
}.

(** ** Reading unknown values *)

(** [value?.name] *)
Definition opt_member (v : js) (name : string) : js :=
  match v with Obj r => get r name | _ => Undefined end.

(** Equality of [Set] and [Array.prototype.includes]: that of [===], but [NaN]
    equals itself. *)
Definition same_value_zero (a b : js) : bool :=
  strict_eqb a b || match a, b with Num NaN, Num NaN => true | _, _ => false end.

Definition array_includes (l : list js) (v : js) : bool := existsb (λ x, same_value_zero x v) l.

(** [new Set(l)], in insertion order *)
Definition set_of (l : list js) : list js :=
  foldl (λ acc x, if array_includes acc x then acc else acc ++ [x]) [] l.

(** [list?.includes(v)] for a value that is an array or absent *)
Definition includes_js (list_ v : js) : bool :=
  match list_ with Arr l => array_includes l v | _ => false end.

Definition not_object (v : js) : bool := match v with Obj _ | Arr _ => false | _ => true end.

Definition compat_if (bad : bool) (message : string) : outcome unit :=
  reject_if bad (new_compatibility_error message).

(** ** The contract index *)

Definition index_fields : list string :=
  ["catalogVersion"; "runtimeVersion"; "contractSetVersion"; "surfaces"; "sha256"; "href"].

(** [key in value]: a [TypeError] on what is no object. *)
Definition has_field (v : js) (key : string) : outcome bool :=
  match v with
  | Obj r => Ok (has_key r key)
  | Arr _ => Ok false
  | _ => Err TypeErr
  end.

Fixpoint missing_field (v : js) (required : list string) : outcome bool :=
  match required with
  | [] => Ok false
  | k :: ks =>
      match has_field v k with
      | Ok true => missing_field v ks
      | Ok false => Ok true
      | Err e => Err e
      end
  end.

Definition validateContractIndex (index : js) : outcome unit :=
  missing ← missing_field index index_fields;
  throw_if missing "Capture Runtime contract index is missing required fields.";;
  compat_if
    (negb (is_str (opt_member index "catalogVersion") "2") ||
     negb (is_str (opt_member index "contractSetVersion") "2") ||
     negb (string_with (λ _, true) (opt_member index "runtimeVersion")))
    "Capture Runtime contract catalog version is incompatible.";;
  compat_if
    (match opt_member index "surfaces" with
     | Arr surfaces =>
         negb (Nat.eqb (length (set_of (map (λ s, opt_member s "id") surfaces))) 1) ||
         negb (existsb (λ s, is_str (opt_member s "id") "v2") surfaces)
     | _ => true
     end)
    "Capture Runtime contract catalog does not expose the v2 surface.";;
  throw_if (negb (string_with is_sha256_hex (opt_member index "sha256")))
    "Capture Runtime contract index hash is invalid.".

(** ** The contract bundle *)

Definition bundle_arrays : list string := ["surfaces"; "schemas"; "operations"; "problems"; "invariants"].

Definition array_of (v : js) : list js := match v with Arr l => l | _ => [] end.

(** The test of one operation's metadata; [true] means invalid. *)
Definition operation_invalid (operation : js) : bool :=
  not_object operation ||
  negb (string_with (λ _, true) (opt_member operation "path")) ||
  negb (string_with (λ _, true) (opt_member operation "method")) ||
  negb (string_with (λ _, true) (opt_member operation "surface")) ||
  not_object (opt_member operation "body") ||
  negb (is_array (opt_member operation "requiredHeaders")) ||
  not_object (opt_member operation "idempotency") ||
  negb (is_array (opt_member operation "responseStatusCodes")).

Definition required_paths : list string :=
  ["/v2/health/ready"; "/v2/streaming/health/ready"; "/v2/runtime/requirements";
   "/v2/runtime/installations"; "/v2/captures"; "/v2/captures/{capture_id}/events";
   "/v2/captures/{capture_id}/raw"; "/v2/captures/{capture_id}/ocr";
   "/v2/captures/{capture_id}/result"; "/v2/captures/{capture_id}/structure/session";
   "/v2/captures/{capture_id}/structure/session/batches/{batch_index}"].

(** [operations.find(...)], [Undefined] when there is none *)
Definition requireOperation (operations : list js) (path : string) (method : option string) : js :=
  default Undefined (List.find (λ o,
    is_str (opt_member o "path") path &&
    match method with None => true | Some m => is_str (opt_member o "method") m end) operations).

Definition body_kind (operation : js) : js := opt_member (opt_member operation "body") "kind".
Definition needs_header (operation : js) (name : string) : bool :=
  includes_js (opt_member operation "requiredHeaders") (Str name).
Definition idempotency_mode (operation : js) : js := opt_member (opt_member operation "idempotency") "mode".

Definition validateContractBundle (bundle : js) : outcome string :=
  reject_if (nullish bundle) TypeErr;;
  throw_if
    (negb (is_str (opt_member bundle "contractSetVersion") "2") ||
     negb (is_str (opt_member bundle "schemaDialect") "https://json-schema.org/draft/2020-12/schema") ||
     existsb (λ field, negb (is_array (opt_member bundle field))) bundle_arrays)
    "Capture Runtime contract bundle is invalid.";;
  let surfaceIds := set_of (map (λ s, opt_member s "id") (array_of (opt_member bundle "surfaces"))) in
  compat_if (negb (Nat.eqb (length surfaceIds) 1) || negb (array_includes surfaceIds (Str "v2")))
    "Capture Runtime contract bundle does not expose the v2 surface.";;
  let operations := array_of (opt_member bundle "operations") in
  throw_if (existsb operation_invalid operations)
    "Capture Runtime contract operation metadata is invalid.";;
  let paths := set_of (map (λ o, opt_member o "path") operations) in
  forM_ required_paths (λ path,
    compat_if (negb (array_includes paths (Str path)))
      "Capture Runtime contract bundle does not advertise the required client surface.");;
  let session := "/v2/captures/{capture_id}/structure/session" in
  let batches := "/v2/captures/{capture_id}/structure/session/batches/{batch_index}" in
  let upload := requireOperation operations "/v2/captures" None in
  let chunk := requireOperation operations "/v2/ingestions/{ingestion_id}/chunks/{chunk_index}" None in
  let events := requireOperation operations "/v2/captures/{capture_id}/events" None in
  let ocr := requireOperation operations "/v2/captures/{capture_id}/ocr" (Some "GET") in
  let sessionOpen := requireOperation operations session (Some "POST") in
  let batchGet := requireOperation operations batches (Some "GET") in
  let batchSubmit := requireOperation operations batches (Some "PUT") in
  uploadKind ← to_string (body_kind upload);
  compat_if (negb (includes ["json"; "none"] uploadKind) || negb (needs_header upload "X-Idempotency-Key"))
    "Capture Runtime v2 capture metadata is incompatible.";;
  compat_if (negb (is_str (body_kind chunk) "binary") ||
             negb (forallb (needs_header chunk) ["Content-Range"; "Digest"; "X-Idempotency-Key"]))
    "Capture Runtime v2 chunk metadata is incompatible.";;
  compat_if (negb (is_str (opt_member events "mediaType") "text/event-stream") ||
             negb (is_str (opt_member (opt_member events "streaming") "kind") "sse") ||
             negb (is_str (opt_member (opt_member events "streaming") "lastEventIdHeader") "Last-Event-ID"))
    "Capture Runtime SSE metadata is incompatible.";;
  compat_if (negb (is_str (body_kind ocr) "none") ||
             negb (is_str (opt_member ocr "responseSchema") "CaptureOcrProjectionV3") ||
             negb (includes_js (opt_member ocr "responseStatusCodes") (js_Z 200)))
    "Capture Runtime OCR metadata is incompatible.";;
  compat_if (negb (is_str (body_kind sessionOpen) "json") ||
             negb (needs_header sessionOpen "X-Idempotency-Key") ||
             negb (is_str (idempotency_mode sessionOpen) "required") ||
             negb (is_str (body_kind batchGet) "none") ||
             negb (is_str (body_kind batchSubmit) "json") ||
             negb (needs_header batchSubmit "X-Idempotency-Key") ||
             negb (is_str (idempotency_mode batchSubmit) "required"))
    "Capture Runtime pull-session metadata is incompatible.";;
  let documentSchema := default Undefined
    (List.find (λ s, is_str (opt_member s "name") "CaptureDocument") (array_of (opt_member bundle "schemas"))) in
  compat_if (negb (is_str (opt_member documentSchema "schemaSha256") CAPTURE_DOCUMENT_SCHEMA_SHA256))
    "Capture Runtime document schema hash is incompatible.";;
  Ok CAPTURE_DOCUMENT_SCHEMA_SHA256.

(** ** Negotiation *)

Definition contracts_prefix : string := "/meta/v2/contracts/sha256/".

(** The incompatibilities a readiness report lists, in order. *)
Definition ready_failures (options : ContractOptions) (ready : js) : outcome (list string) :=
  let expectedApi := default CAPTURE_API_VERSION (expectedApiVersion options) in
  let expectedSchema := default CAPTURE_DOCUMENT_SCHEMA_VERSION (expectedSchemaVersion options) in
  let expectedHash := default CAPTURE_DOCUMENT_SCHEMA_SHA256 (expectedSchemaSha256 options) in
  let mismatch (bad : bool) (before : string) (value : js) (after : string) : outcome (list string) :=
    if bad then text ← to_string value; Ok [before +:+ text +:+ after] else Ok [] in
  service ← member ready "service";
  f1 ← mismatch (negb (is_str service "capture-runtime")) "service " service " is not Capture Runtime";
  isReady ← member ready "ready";
  let f2 := if truthy isReady then [] else ["runtime is not ready"] in
  api ← member ready "apiVersion";
  f3 ← mismatch (negb (is_str api expectedApi)) "API version " api " is unsupported";
  schema ← member ready "captureDocumentSchemaVersion";
  f4 ← mismatch (negb (is_str schema expectedSchema)) "document schema version " schema " is unsupported";
  let remoteHash := coalesce (opt_member ready "captureDocumentSchemaSha256") (opt_member ready "schemaSha256") in
  let f5 := if truthy remoteHash && negb (is_str remoteHash expectedHash)
            then ["document schema hash is incompatible"] else [] in
  capabilities ← member ready "capabilities";
  modes ← member capabilities "structuringModes";
  let f6 := match modes with
    | Arr l => if negb (array_includes l (Str "host")) && negb (array_includes l (Str "runtime"))
               then ["runtime exposes no structuring mode"] else []
    | _ => ["runtime exposes no structuring mode"]
    end in
  Ok (f1 ++ f2 ++ f3 ++ f4 ++ f5 ++ f6).

Definition allowed_hashes (options : ContractOptions) : list string :=
  default [default CAPTURE_CONTRACT_SET_SHA256 (expectedContractSetSha256 options)]
    (allowedContractSetSha256 options).

(** The checks of the index's [href]: the path of the bundle. *)
Definition bundle_path (contractIndex : js) : outcome string :=
  match opt_member contractIndex "href" with
  | Str href =>
      if starts_with contracts_prefix href then
        let hrefDigest := drop_str (String.length contracts_prefix) href in
        compat_if (negb (is_sha256_hex hrefDigest) || negb (is_str (opt_member contractIndex "sha256") hrefDigest))
          "Capture Runtime contract index href digest does not match its advertised bundle hash.";;
        Ok href
      else Err (protocol_error "Capture Runtime contract index href is invalid.")
  | _ => Err (protocol_error "Capture Runtime contract index href is invalid.")
  end.

Section negotiation.
Variable sha256 : string → string.

(** The checks of the bundle's bytes, then of its content: the schema hash and
    the parsed bundle. *)
Definition check_bundle (options : ContractOptions) (contractIndex : js) (response : Response) :
    outcome (string * js) :=
  reject_if (negb (resp_ok response)) (decodeError response);;
  let bundleHash := sha256 (resp_bytes response) in
  compat_if (negb (includes (allowed_hashes options) bundleHash))
    "Capture Runtime contract bundle identity is not allowlisted.";;
  compat_if
    (negb (is_str (opt_member contractIndex "sha256") bundleHash) ||
     negb (String.eqb (default bundleHash (header response "x-contract-sha256")) bundleHash) ||
     match header response "etag" with
     | Some etag => negb (String.eqb etag bundleHash) && negb (String.eqb etag (quote bundleHash))
     | None => false
     end)
    "Capture Runtime contract bundle hash is incompatible.";;
  bundle ← match JSON_parse (resp_body response) with
    | Some v => Ok v
    | None => Err (new_protocol_error "Capture Runtime contract bundle is not valid JSON." (Obj []))
    end;
  schemaHash ← validateContractBundle bundle;
  Ok (schemaHash, bundle).

Variable json : RuntimeTransportRequest → option RuntimeResponseModel → io js.
Context `{RuntimeTransport}.
Variables (getReady getStreamingCapabilities : io js).

Definition bundle_request (href : string) : RuntimeTransportRequest :=
  {| req_method := None; req_path := href; req_headers := [("Accept", "application/json")]; req_body := None |}.

Definition negotiateRuntime (options : ContractOptions) : io RuntimeDiscovery :=
  ready ← getReady;
  failures ← lift (ready_failures options ready);
  lift (compat_if (negb (Nat.eqb (length failures) 0)) (join "; " failures));;
  contractIndex ← json (get_request "/meta/v2/contracts") None;
  lift (validateContractIndex contractIndex);;
  href ← lift (bundle_path contractIndex);
  bundleResponse ← transport_request (bundle_request href);
  '(bundleSchemaHash, contractBundle) ← lift (check_bundle options contractIndex bundleResponse);
  streaming ← getStreamingCapabilities;
  lift (compat_if
    (truthy (opt_member ready "captureDocumentSchemaSha256") &&
     negb (is_str (opt_member ready "captureDocumentSchemaSha256") bundleSchemaHash))
    "Capture Runtime readiness schema hash differs from the discovered contract bundle.");;
  mret {| disc_ready := ready; disc_streaming := streaming; disc_schemaSha256 := bundleSchemaHash;
          disc_contractIndex := contractIndex; disc_contractBundle := contractBundle |}.
End negotiation.

(** ** What the checks guarantee *)

Lemma same_value_zero_Str v s : same_value_zero (Str s) v = true → v = Str s.
Proof.
  unfold same_value_zero. rewrite orb_true_iff. intros [H|H]; [|done].
  destruct v; try done. cbn in H. bsimp. by subst.
Qed.

Lemma same_value_zero_to_Str v s : same_value_zero v (Str s) = true → v = Str s.
Proof.
  unfold same_value_zero. rewrite orb_true_iff. intros [H|H]; [by apply is_str_spec|by destruct v as [| | |[]| | |]].
Qed.

Lemma array_includes_Str l s : array_includes l (Str s) = true ↔ Str s ∈ l.
Proof.
  unfold array_includes. rewrite existsb_true. split.
  - intros (x & Hx & H). by apply same_value_zero_to_Str in H as ->.
  - intros H. exists (Str s). split; [done|]. unfold same_value_zero. cbn. by rewrite String.eqb_refl.
Qed.

(** Every element of a list is in its set, up to the equality of sets. *)
Lemma set_of_covers l x : x ∈ l → x ∈ set_of l ∨ ∃ y, y ∈ set_of l ∧ same_value_zero y x = true.
Proof.
  unfold set_of. assert (Hgen : ∀ acc l,
    (∀ y, y ∈ acc → y ∈ foldl (λ acc x, if array_includes acc x then acc else acc ++ [x]) acc l) ∧
    (∀ x, x ∈ l → x ∈ foldl (λ acc x, if array_includes acc x then acc else acc ++ [x]) acc l ∨
       ∃ y, y ∈ foldl (λ acc x, if array_includes acc x then acc else acc ++ [x]) acc l ∧
            same_value_zero y x = true)).
  { clear. intros acc l. revert acc. induction l as [|z l IH]; intros acc; cbn [foldl].
    - split; [done|]. by intros x ?%elem_of_nil.
    - destruct (array_includes acc z) eqn:Hz.
      + split; [by apply IH|]. intros x [->|Hx]%elem_of_cons; [|by apply IH].
        unfold array_includes in Hz. apply existsb_true in Hz as (y & Hy & Heq).
        right. exists y. split; [by apply IH|done].
      + split; [intros y Hy; apply IH, elem_of_app; by left|].
        intros x [->|Hx]%elem_of_cons; [|by apply IH]. left. apply IH, elem_of_app. right. by left. }
  intros Hx. by apply Hgen.
Qed.

Lemma set_of_in l x : x ∈ set_of l → x ∈ l.
Proof.
  unfold set_of. assert (Hgen : ∀ acc l,
    x ∈ foldl (λ acc x, if array_includes acc x then acc else acc ++ [x]) acc l → x ∈ acc ∨ x ∈ l).
  { clear. intros acc l. revert acc. induction l as [|z l IH]; intros acc; cbn [foldl]; [by left|].
    rewrite elem_of_cons. intros [H|H]%IH; [|by right; right].
    destruct (array_includes acc z); [by left|]. apply elem_of_app in H as [?|[->|?%elem_of_nil]%elem_of_cons]; auto. done. }
  intros [?%elem_of_nil|?]%Hgen; done.
Qed.

(** A one-element set that holds ["v2"] holds nothing else. *)
Lemma single_surface l :
  length (set_of l) = 1%nat → array_includes (set_of l) (Str "v2") = true → Forall (eq (Str "v2")) l ∧ l ≠ [].
Proof.
  intros Hlen Hv2. apply array_includes_Str in Hv2.
  destruct (set_of l) as [|y [|? ?]] eqn:Hset; try done.
  apply elem_of_cons in Hv2 as [Hy|?%elem_of_nil]; [|done]. subst y. split.
  - apply Forall_forall. intros x Hx. destruct (set_of_covers l x Hx) as [Hin|(y & Hy & Heq)].
    + rewrite Hset in Hin. by apply elem_of_cons in Hin as [->|?%elem_of_nil].
    + rewrite Hset in Hy. apply elem_of_cons in Hy as [->|?%elem_of_nil]; [|done].
      by apply same_value_zero_Str in Heq.
  - intros ->. done.
Qed.

Lemma compat_if_Ok b m u : compat_if b m = Ok u ↔ b = false.
Proof. apply reject_if_Ok. Qed.

Lemma requireOperation_Some ops path method o :
  requireOperation ops path method = o → o ≠ Undefined →
  o ∈ ops ∧ opt_member o "path" = Str path ∧
  match method with None => True | Some m => opt_member o "method" = Str m end.
Proof.
  unfold requireOperation. destruct (List.find _ ops) as [x|] eqn:Hf; cbn; [|naive_solver].
  intros <- _. apply find_some in Hf as [Hin Hx]. rewrite <-list_elem_of_In in Hin.
  apply andb_true_iff in Hx as [Hp Hm]. apply is_str_spec in Hp. split; [done|]. split; [done|].
  destruct method; [by apply is_str_spec|done].
Qed.

(** The contract bundle the client relies on. *)
Definition client_surface (bundle : js) : Prop :=
  opt_member bundle "contractSetVersion" = Str "2" ∧
  (∃ surfaces, opt_member bundle "surfaces" = Arr surfaces ∧ surfaces ≠ [] ∧
     Forall (λ s, opt_member s "id" = Str "v2") surfaces) ∧
  ∃ operations schemas,
    opt_member bundle "operations" = Arr operations ∧ opt_member bundle "schemas" = Arr schemas ∧
    Forall (λ o, operation_invalid o = false) operations ∧
    Forall (λ path, ∃ o, o ∈ operations ∧ opt_member o "path" = Str path) required_paths ∧
    (∃ submit, submit ∈ operations ∧ opt_member submit "method" = Str "PUT" ∧
       idempotency_mode submit = Str "required" ∧ needs_header submit "X-Idempotency-Key" = true ∧
       opt_member submit "path" = Str "/v2/captures/{capture_id}/structure/session/batches/{batch_index}") ∧
    (∃ schema, schema ∈ schemas ∧ opt_member schema "name" = Str "CaptureDocument" ∧
       opt_member schema "schemaSha256" = Str CAPTURE_DOCUMENT_SCHEMA_SHA256).

Lemma is_array_Arr v : is_array v = true → ∃ l, v = Arr l ∧ array_of v = l.
Proof. destruct v; naive_solver. Qed.

Lemma opt_member_not_Undefined v name s : opt_member v name = Str s → v ≠ Undefined.
Proof. by intros H ->. Qed.

Lemma validateContractBundle_sound bundle h :
  validateContractBundle bundle = Ok h → h = CAPTURE_DOCUMENT_SCHEMA_SHA256 ∧ client_surface bundle.
Proof.
  unfold validateContractBundle, throw_if. intros H.
  apply reject_then_Ok in H as [_ H]. apply reject_then_Ok in H as [Hshape H].
  apply bind_Ok in H as (? & Hsurf%compat_if_Ok & H). apply reject_then_Ok in H as [Hops H].
  apply bind_Ok in H as (? & Hpaths%forM_Ok & H). apply bind_Ok in H as (kind & _ & H).
  apply bind_Ok in H as (? & _ & H). apply bind_Ok in H as (? & _ & H).
  apply bind_Ok in H as (? & _ & H). apply bind_Ok in H as (? & _ & H).
  apply bind_Ok in H as (? & Hsession%compat_if_Ok & H).
  apply bind_Ok in H as (? & Hdoc%compat_if_Ok & H). apply Ok_inj in H. split; [done|].
  rewrite !orb_false_iff, !negb_false_iff, existsb_false in Hshape.
  destruct Hshape as [[Hversion _] Harrays]. unfold bundle_arrays in Harrays. rewrite !Forall_cons, !negb_false_iff in Harrays.
  destruct Harrays as (Ha & Hb & Hc & _).
  apply is_array_Arr in Ha as (surfaces & Hs1 & Hs2). apply is_array_Arr in Hb as (schemas & Hb1 & Hb2).
  apply is_array_Arr in Hc as (operations & Ho1 & Ho2). rewrite Hs2 in Hsurf. rewrite Ho2 in *. rewrite Hb2 in Hdoc.
  split; [by apply is_str_spec|]. split.
  { exists surfaces. split; [done|]. rewrite orb_false_iff, !negb_false_iff, Nat.eqb_eq in Hsurf.
    destruct Hsurf as [Hlen Hv2]. destruct (single_surface _ Hlen Hv2) as [Hall Hne].
    split; [by intros ->|]. rewrite Forall_map in Hall. eapply Forall_impl; [exact Hall|]. naive_solver. }
  exists operations, schemas. split; [done|]. split; [done|]. split; [by apply existsb_false|]. split.
  { eapply Forall_impl; [exact Hpaths|]. cbv beta. intros path Hp%compat_if_Ok.
    apply negb_false_iff, array_includes_Str, set_of_in, list_elem_of_fmap in Hp as (o & Ho & Hin). by exists o. }
  split.
  - rewrite !orb_false_iff, !negb_false_iff in Hsession. destruct Hsession as [[[_ Hkind] Hneeds] Hmode].
    apply is_str_spec in Hmode.
    match type of Hmode with idempotency_mode ?o = _ => set (submit := o) in * end.
    destruct (requireOperation_Some _ _ _ submit eq_refl) as (Hin & Hp & Hm).
    { intros E. rewrite E in Hmode. done. }
    exists submit. done.
  - apply negb_false_iff, is_str_spec in Hdoc.
    destruct (List.find _ schemas) as [s|] eqn:Hf; cbn in Hdoc; [|done].
    apply find_some in Hf as [Hin Hname]. rewrite <-list_elem_of_In in Hin. apply is_str_spec in Hname.
    by exists s.
Qed.

(** A readiness report without incompatibility. *)
Definition ready_accepted (options : ContractOptions) (ready : js) : Prop :=
  member ready "service" = Ok (Str "capture-runtime") ∧
  truthy (opt_member ready "ready") = true ∧
  opt_member ready "apiVersion" = Str (default CAPTURE_API_VERSION (expectedApiVersion options)) ∧
  opt_member ready "captureDocumentSchemaVersion" =
    Str (default CAPTURE_DOCUMENT_SCHEMA_VERSION (expectedSchemaVersion options)) ∧
  (∃ modes, opt_member (opt_member ready "capabilities") "structuringModes" = Arr modes ∧
     (Str "host" ∈ modes ∨ Str "runtime" ∈ modes)).

Lemma member_opt v name x : member v name = Ok x → opt_member v name = x.
Proof. destruct v; cbn; congruence. Qed.

Lemma ready_failures_none options ready : ready_failures options ready = Ok [] → ready_accepted options ready.
Proof.
  unfold ready_failures. intros H.
  apply bind_Ok in H as (service & Hservice & H). apply bind_Ok in H as (f1 & H1 & H).
  apply bind_Ok in H as (isReady & Hready & H). apply bind_Ok in H as (api & Hapi & H).
  apply bind_Ok in H as (f3 & H3 & H). apply bind_Ok in H as (schema & Hschema & H).
  apply bind_Ok in H as (f4 & H4 & H). apply bind_Ok in H as (capabilities & Hcap & H).
  apply bind_Ok in H as (modes & Hmodes & H). apply Ok_inj in H.
  apply app_eq_nil in H as [-> H]. apply app_eq_nil in H as [H2 H]. apply app_eq_nil in H as [-> H].
  apply app_eq_nil in H as [-> H]. apply app_eq_nil in H as [_ H6].
  assert (Hmis : ∀ (b : bool) v before after s,
    (if negb b then text ← to_string v; Ok [before +:+ text +:+ after] else Ok []) = @Ok thrown _ [] →
    (b = is_str v s) → v = Str s).
  { intros b v before after s Hb ->. destruct (is_str v s) eqn:E; [by apply is_str_spec|].
    cbn [negb] in Hb. apply bind_Ok in Hb as (t & _ & Hb). by apply Ok_inj in Hb. }
  repeat split.
  - rewrite Hservice. f_equal. by eapply Hmis.
  - rewrite (member_opt _ _ _ Hready). by destruct (truthy isReady).
  - rewrite (member_opt _ _ _ Hapi). by eapply Hmis.
  - rewrite (member_opt _ _ _ Hschema). by eapply Hmis.
  - rewrite (member_opt _ _ _ Hcap), (member_opt _ _ _ Hmodes). destruct modes as [| | | | |l|]; try done.
    exists l. split; [done|]. destruct (array_includes l (Str "host")) eqn:Eh; [left; by apply array_includes_Str|].
    destruct (array_includes l (Str "runtime")) eqn:Er; [right; by apply array_includes_Str|]. done.
Qed.

Lemma bundle_path_Ok index href :
  bundle_path index = Ok href →
  ∃ digest, href = contracts_prefix +:+ digest ∧ opt_member index "sha256" = Str digest ∧ is_sha256_hex digest = true.
Proof.
  unfold bundle_path. destruct (opt_member index "href") as [| | | |h| |]; try done.
  destruct (starts_with contracts_prefix h) eqn:Hs; [|done]. intros H.
  apply bind_Ok in H as (? & Hc%compat_if_Ok & H). apply Ok_inj in H. subst href.
  rewrite orb_false_iff, !negb_false_iff in Hc. destruct Hc as [Hhex Hsha]. apply is_str_spec in Hsha.
  exists (drop_str (String.length contracts_prefix) h). split; [|done].
  assert (Hsplit : ∀ p s, starts_with p s = true → s = p +:+ drop_str (String.length p) s).
  { clear. induction p as [|c p IH]; intros [|d s] H; cbn in *; try done.
    apply andb_true_iff in H as [->%Ascii.eqb_eq H]. f_equal. by apply IH. }
  by apply Hsplit.
Qed.

Lemma check_bundle_Ok sha256 options index response h bundle :
  check_bundle sha256 options index response = Ok (h, bundle) →
  resp_ok response = true ∧ sha256 (resp_bytes response) ∈ allowed_hashes options ∧
  opt_member index "sha256" = Str (sha256 (resp_bytes response)) ∧
  JSON_parse (resp_body response) = Some bundle ∧ h = CAPTURE_DOCUMENT_SCHEMA_SHA256 ∧ client_surface bundle.
Proof.
  unfold check_bundle. intros H. apply reject_then_Ok in H as [Hok H].
  apply bind_Ok in H as (? & Hallow%compat_if_Ok & H). apply bind_Ok in H as (? & Hhash%compat_if_Ok & H).
  apply bind_Ok in H as (b & Hparse & H). apply bind_Ok in H as (h' & Hvalid & H). apply Ok_inj in H.
  injection H as <- <-. apply validateContractBundle_sound in Hvalid as [-> Hsurface].
  destruct (JSON_parse (resp_body response)) as [v|]; [|done]. apply Ok_inj in Hparse as ->.
  rewrite !orb_false_iff, !negb_false_iff in Hhash. destruct Hhash as [[Hsha _] _]. apply is_str_spec in Hsha.
  apply negb_false_iff in Hok. apply negb_false_iff, includes_spec in Hallow. done.
Qed.

Lemma io_bind_inv {A B} (m : io A) (f : A → io B) w b w' :
  (m ≫= f) w = (Ok b, w') → ∃ a w1, m w = (Ok a, w1) ∧ f a w1 = (Ok b, w').
Proof. unfold mbind, io_bind. destruct (m w) as [[a|e] w1]; [naive_solver|done]. Qed.

Lemma lift_inv {A} (r : outcome A) w a w' : lift r w = (Ok a, w') → r = Ok a ∧ w' = w.
Proof. by intros [= -> ->]. Qed.


(** ** A concrete negotiation *)

Definition sample_operation (path method kind : string) (extra : fields) : js :=
  Obj ([("path", Str path); ("method", Str method); ("surface", Str "v2"); ("body", Obj [("kind", Str kind)]);
        ("requiredHeaders", Arr [Str "X-Idempotency-Key"; Str "Content-Range"; Str "Digest"]);
        ("idempotency", Obj [("mode", Str "required")]); ("responseStatusCodes", Arr [js_Z 200])] ++ extra).

Definition sample_operations : list js :=
  map (λ path, sample_operation path "GET" "none"
         [("responseSchema", Str "CaptureOcrProjectionV3"); ("mediaType", Str "text/event-stream");
          ("streaming", Obj [("kind", Str "sse"); ("lastEventIdHeader", Str "Last-Event-ID")])]) required_paths ++
  [sample_operation "/v2/ingestions/{ingestion_id}/chunks/{chunk_index}" "PUT" "binary" [];
   sample_operation "/v2/captures/{capture_id}/structure/session" "POST" "json" [];
   sample_operation "/v2/captures/{capture_id}/structure/session/batches/{batch_index}" "PUT" "json" []].

Definition sample_bundle : js :=
  Obj [("contractSetVersion", Str "2"); ("schemaDialect", Str "https://json-schema.org/draft/2020-12/schema");
       ("surfaces", Arr [Obj [("id", Str "v2")]]);
       ("schemas", Arr [Obj [("name", Str "CaptureDocument"); ("schemaSha256", Str CAPTURE_DOCUMENT_SCHEMA_SHA256)]]);
       ("operations", Arr sample_operations); ("problems", Arr []); ("invariants", Arr [])].

Definition sample_index : js :=
  Obj [("catalogVersion", Str "2"); ("runtimeVersion", Str "0.9.0"); ("contractSetVersion", Str "2");
       ("surfaces", Arr [Obj [("id", Str "v2")]]); ("sha256", Str CAPTURE_CONTRACT_SET_SHA256);
       ("href", Str (contracts_prefix +:+ CAPTURE_CONTRACT_SET_SHA256))].

Definition sample_ready : js :=
  Obj [("ready", Bool true); ("service", Str "capture-runtime"); ("apiVersion", Str "2.0");
       ("captureDocumentSchemaVersion", Str "2"); ("capabilities", Obj [("structuringModes", Arr [Str "host"])])].

Definition bundle_response : Response :=
  let text := default "" (JSON_stringify sample_bundle) in
  {| resp_status := 200; resp_headers := [("etag", quote CAPTURE_CONTRACT_SET_SHA256)];
     resp_bytes := text; resp_body := text; resp_stream := None |}.

Definition default_contracts : ContractOptions :=
  {| expectedApiVersion := None; expectedSchemaVersion := None; expectedSchemaSha256 := None;
     expectedContractSetSha256 := None; allowedContractSetSha256 := None |}.

Definition sample_discovery : RuntimeDiscovery :=
  {| disc_ready := sample_ready; disc_streaming := Obj []; disc_schemaSha256 := CAPTURE_DOCUMENT_SCHEMA_SHA256;
     disc_contractIndex := sample_index; disc_contractBundle := sample_bundle |}.

