(* ===== verification/Client.v ===== *)
(** * The client facade

    Models packages/capture-runtime-client/src/client.ts: the constructor, the
    cached negotiation, and every operation of [CaptureRuntimeClient] as the
    request it sends and the model it decodes the reply with.  An operation that
    throws before it sends anything is an [Err] that leaves the world as it is. *)

From S2P Require Import Prelude JsString JsNum JsValue Json JsCoerce RuntimeErrors CodecFields OcrCodec Codec Sse Effects Retry Transport Streaming Discovery.

(** ** Construction *)

Record CaptureRuntimeClientOptions : Type := {
  opt_baseUrl : BaseUrl;
  opt_bearerToken : option BearerToken;
  opt_transport : option RuntimeTransport;
  opt_retry : RetryOptions;
  opt_contracts : ContractOptions
}.

(** [options: CaptureRuntimeClientOptions | RuntimeTransport]; [isTransport] tells them apart. *)
Inductive ClientInit : Type :=
| FromTransport (transport : RuntimeTransport)
| FromOptions (options : CaptureRuntimeClientOptions).

Record CaptureRuntimeClient : Type := {
  client_transport : RuntimeTransport;
  client_retry : RetryOptions;
  client_contracts : ContractOptions
}.

Definition no_contract_options : ContractOptions :=
  {| expectedApiVersion := None; expectedSchemaVersion := None; expectedSchemaSha256 := None;
     expectedContractSetSha256 := None; allowedContractSetSha256 := None |}.

Section construction.
Variables (parse_url : string → option URL) (fetch : string → FetchInit → io Response) (browser : bool).

Definition new_client (init : ClientInit) : outcome CaptureRuntimeClient :=
  let retry := match init with
    | FromTransport _ => {| maxRetries := None; retryBackoffMs := None |}
    | FromOptions o => opt_retry o
    end in
  let retries := default (num_of_Z 2) (maxRetries retry) in
  let pause := default (num_of_Z 0) (retryBackoffMs retry) in
  reject_if (num_ltb retries (num_of_Z 0) || negb (is_integer retries))
    (new_transport_error "maxRetries must be a non-negative integer." Undefined "transport_error");;
  reject_if (num_ltb pause (num_of_Z 0) || negb (is_finite pause))
    (new_transport_error "retryBackoffMs must be non-negative." Undefined "transport_error");;
  match init with
  | FromTransport t => Ok {| client_transport := t; client_retry := retry; client_contracts := no_contract_options |}
  | FromOptions o =>
      reject_if (browser && negb (bool_decide (is_Some (opt_transport o))))
        (new_transport_error
           "Browser clients must use a host-provided transport; sidecar URLs and Bearer tokens are process-only."
           Undefined "browser_transport_required");;
      transport ← match opt_transport o with
        | Some t => Ok t
        | None => http_request fetch <$> new_HttpRuntimeTransport parse_url browser (opt_baseUrl o) (opt_bearerToken o)
        end;
      Ok {| client_transport := transport; client_retry := retry; client_contracts := opt_contracts o |}
  end.
End construction.

(** ** Requests and the cached negotiation *)

Section client.
Variables (sha256 : string → string) (Date_parse : string → num) (client : CaptureRuntimeClient).

#[local] Instance client_transport_instance : RuntimeTransport := client_transport client.

(** [request] and [json] over a given gate. *)
Definition request_with (gate : io RuntimeDiscovery) (request : RuntimeTransportRequest) : io Response :=
  requestWithRetry (client_retry client) gate request.
Definition json_with (gate : io RuntimeDiscovery) (request : RuntimeTransportRequest)
    (model : option RuntimeResponseModel) : io js :=
  response ← request_with gate request;
  lift (decodeJson Date_parse response model).

Definition ready_request : RuntimeTransportRequest := get_request "/v2/health/ready".
Definition capabilities_request : RuntimeTransportRequest := get_request "/v2/streaming/health/ready".

(** The negotiation, whose own requests pass the gate too. *)
Definition negotiation (gate : io RuntimeDiscovery) : io RuntimeDiscovery :=
  negotiateRuntime sha256 (json_with gate) (json_with gate ready_request (Some M_RuntimeReady))
    (json_with gate capabilities_request (Some M_RuntimeStreamingCapabilities)) (client_contracts client).

Definition remember (d : RuntimeDiscovery) (w : World) : World :=
  {| replies := replies w; negotiated := Some d; log := log w |}.

(** [discover()]: the cached result, or a negotiation whose success is kept. *)
Definition cached (negotiate : io RuntimeDiscovery) : io RuntimeDiscovery := λ w,
  match negotiated w with
  | Some d => (Ok d, w)
  | None =>
      match negotiate w with
      | (Ok d, w') => (Ok d, remember d w')
      | (Err e, w') => (Err e, w')
      end
  end.

(** [n] nested negotiations; a negotiation that waited for itself would hang. *)
Fixpoint discover_nested (n : nat) : io RuntimeDiscovery :=
  match n with
  | O => throw (OtherError "waits for itself")
  | S n' => cached (negotiation (discover_nested n'))
  end.
Definition discover : io RuntimeDiscovery := discover_nested 1.

Definition request (r : RuntimeTransportRequest) : io Response := request_with discover r.
Definition json (r : RuntimeTransportRequest) (model : option RuntimeResponseModel) : io js :=
  json_with discover r model.

(** ** Operations *)

Definition getReady : io js := json ready_request (Some M_RuntimeReady).
Definition getStreamingCapabilities : io js :=
  json capabilities_request (Some M_RuntimeStreamingCapabilities).

Definition post (path : string) : RuntimeTransportRequest :=
  {| req_method := Some POST; req_path := path; req_headers := []; req_body := None |}.
Definition post_json (path key : string) (body : js) : RuntimeTransportRequest :=
  {| req_method := Some POST; req_path := path; req_headers := idempotent key; req_body := Some (JsonBody body) |}.
Definition id_path (base id suffix : string) : string := base +:+ "/" +:+ encodeURIComponent id +:+ suffix.

Definition getRequirements : io js :=
  response ← json (get_request "/v2/runtime/requirements") (Some M_RuntimeRequirements);
  lift (member response "items").
Definition startInstallation (requirementId idempotencyKey : string) : io js :=
  json (post_json "/v2/runtime/installations" idempotencyKey
          (Obj [("requirementId", Str requirementId); ("consent", Bool true)])) (Some M_RuntimeInstallation).
Definition listInstallations : io js :=
  response ← json (get_request "/v2/runtime/installations") (Some M_RuntimeInstallations);
  lift (member response "items").
Definition getInstallation (id : string) : io js :=
  json (get_request (id_path "/v2/runtime/installations" id "")) (Some M_RuntimeInstallation).
Definition cancelInstallation (id : string) : io js :=
  json (post (id_path "/v2/runtime/installations" id "/cancel")) (Some M_RuntimeInstallation).
Definition uninstallRequirement (requirementId : string) : io js :=
  json (delete_request (id_path "/v2/runtime/requirements" requirementId "/installation")) (Some M_RuntimeRequirement).
Definition getModelOptions : io js :=
  json (get_request "/v2/runtime/model-options") (Some M_RuntimeModelOptions).
Definition startModelInstallation (optionId idempotencyKey : string) : io js :=
  json (post_json "/v2/runtime/model-installations" idempotencyKey
          (Obj [("optionId", Str optionId); ("consent", Bool true)])) (Some M_RuntimeModelInstallation).
Definition getModelInstallation (id : string) : io js :=
  json (get_request (id_path "/v2/runtime/model-installations" id "")) (Some M_RuntimeModelInstallation).
Definition getModelInstallationStatus (id : string) : io js := getModelInstallation id.
Definition cancelModelInstallation (id : string) : io js :=
  json (post (id_path "/v2/runtime/model-installations" id "/cancel")) (Some M_RuntimeModelInstallation).

Definition capture_path (id suffix : string) : string := id_path "/v2/captures" id suffix.

Definition startStreamingCapture (upload : CaptureUpload) : io js :=
  Streaming.startStreamingCapture sha256 json getStreamingCapabilities upload.
Definition getStreamingCapture (id : string) : io js :=
  json (get_request (capture_path id "")) (Some M_CaptureOperation).
Definition getStreamingPartial (id : string) : io js :=
  json (get_request (capture_path id "/partial")) (Some M_PartialCapture).
Definition getStreamingResult (id : string) : io js :=
  json (get_request (capture_path id "/result")) (Some M_StreamingResult).
Definition cancelStreamingCapture (id : string) : io js :=
  json (post (capture_path id "/cancel")) (Some M_CaptureOperation).
Definition commitStreamingStructuredResult (id : string) (candidate : js) (idempotencyKey : string) : io js :=
  json (post_json (capture_path id "/structure/commit") idempotencyKey candidate) (Some M_CaptureOperation).
Definition reportStreamingStructuringFailure (id code message idempotencyKey : string) : io js :=
  json (post_json (capture_path id "/structure/failure") idempotencyKey
          (Obj [("protocolVersion", Str "2"); ("code", Str code); ("message", Str message)])) (Some M_CaptureOperation).
Definition deleteCapture (id : string) : io js := json (delete_request (capture_path id "")) None.

Definition createCapture (upload : CaptureUpload) : io js := startStreamingCapture upload.
Definition getCapture (id : string) : io js := getStreamingCapture id.
Definition cancelCapture (id : string) : io js := cancelStreamingCapture id.
Definition getRaw (id : string) : io js := json (get_request (capture_path id "/raw")) (Some M_RawCapture).
Definition getOcr (id : string) : io js := json (get_request (capture_path id "/ocr")) (Some M_CaptureOcrProjection).
Definition getResult (id : string) : io js := getStreamingResult id.
Definition commitStructure (id : string) (candidate : js) (idempotencyKey : string) : io js :=
  commitStreamingStructuredResult id candidate idempotencyKey.
Definition reportStructuringFailure (id code message idempotencyKey : string) : io js :=
  reportStreamingStructuringFailure id code message idempotencyKey.

(** [idempotencyKey = request.clientRequestId] by default. *)
Definition openStructuringSession (captureId : string) (open : fields) (key : option string) : io js :=
  let clientRequestId := get open "clientRequestId" in
  let idempotencyKey := from_option Str clientRequestId key in
  lift (
    throw_if (negb (strict_eqb (get open "captureId") (Str captureId)))
      "Structuring session captureId must match the route capture.";;
    throw_if (negb (truthy idempotencyKey) || negb (strict_eqb idempotencyKey clientRequestId))
      "X-Idempotency-Key must match structuring session clientRequestId.");;
  header_text ← lift (to_string idempotencyKey);
  json (post_json (capture_path captureId "/structure/session") header_text (Obj open)) (Some M_StructuringSession).
Definition getStructuringSession (captureId : string) : io js :=
  json (get_request (capture_path captureId "/structure/session")) (Some M_StructuringSession).

Definition batch_path (captureId : string) (batchIndex : num) : string :=
  capture_path captureId ("/structure/session/batches/" +:+ show_num batchIndex).
Definition assert_batch_index (batchIndex : num) : outcome unit :=
  throw_if (negb (is_integer batchIndex) || num_ltb batchIndex (num_of_Z 0))
    "Structuring batch index must be a non-negative integer.".
Definition getStructuringBatch (captureId : string) (batchIndex : num) : io js :=
  lift (assert_batch_index batchIndex);;
  json (get_request (batch_path captureId batchIndex)) (Some M_StructuringBatch).
Definition pullStructuringBatch (captureId : string) (batchIndex : num) : io js :=
  getStructuringBatch captureId batchIndex.

(** [{ ...submission, protocolVersion: '2' }] as the body of the [PUT] *)
Definition submit_request (captureId : string) (batchIndex : num) (submission : js) (key : string) :
    RuntimeTransportRequest :=
  {| req_method := Some PUT; req_path := batch_path captureId batchIndex; req_headers := idempotent key;
     req_body := Some (JsonBody (Obj (set_member "protocolVersion" (Str "2")
                                        (default [] (as_object submission))))) |}.
Definition submitStructuringBatch (captureId : string) (batchIndex : num) (submission : js)
    (idempotencyKey : string) : io js :=
  lift (assert_batch_index batchIndex;;
        assertStructuringBatchSubmission submission;;
        throw_if (String.eqb idempotencyKey "") "Structuring batch submissions require X-Idempotency-Key.");;
  json (submit_request captureId batchIndex submission idempotencyKey) (Some M_StructuringSession).

Definition captureEvents (id : string) (lastEventId : js) (maxReconnects : option num) : generator js :=
  Streaming.captureEvents request id lastEventId maxReconnects.
End client.

(** ** Construction, checked *)

(** A client that was constructed has a natural number of retries and a finite,
    non-negative pause, so the retry loop is bounded; and in a browser its
    transport is one the host provided, never an HTTP transport of its own. *)
Lemma client_construction parse_url fetch browser init client :
  new_client parse_url fetch browser init = Ok client →
  (∃ n, to_int (default (num_of_Z 2) (maxRetries (client_retry client))) = Some (Z.of_nat n) ∧
        retry_limit (client_retry client) = n) ∧
  (∃ q, default (num_of_Z 0) (retryBackoffMs (client_retry client)) = Fin q ∧ (0 <= q)%Q) ∧
  (browser = true → init = FromTransport (client_transport client) ∨
     ∃ o, init = FromOptions o ∧ opt_transport o = Some (client_transport client)).
Proof.
  unfold new_client. intros H. apply reject_then_Ok in H as [Hr H]. apply reject_then_Ok in H as [Hp H].
  assert (Hretry : client_retry client = match init with
      | FromTransport _ => {| maxRetries := None; retryBackoffMs := None |}
      | FromOptions o => opt_retry o end ∧
    (browser = true → init = FromTransport (client_transport client) ∨
       ∃ o, init = FromOptions o ∧ opt_transport o = Some (client_transport client))).
  { destruct init as [t|o]; [apply Ok_inj in H as <-; by split; [|left]|].
    apply reject_then_Ok in H as [Hb H]. apply bind_Ok in H as (t & Ht & H). apply Ok_inj in H as <-.
    split; [done|]. intros ->. right. exists o. split; [done|]. cbn [client_transport].
    destruct (opt_transport o) as [t'|]; [by apply Ok_inj in Ht as ->|done]. }
  destruct Hretry as [Hretry Htransport]. rewrite <-Hretry in Hr, Hp. split; [|split; [|done]].
  - rewrite orb_false_iff, negb_false_iff in Hr. destruct Hr as [Hpos (z & Hz)%is_integer_spec].
    rewrite (num_ltb_int _ _ _ _ Hz (to_int_of_Z 0)) in Hpos. apply Z.ltb_ge in Hpos.
    exists (Z.to_nat z). rewrite Z2Nat.id by done. split; [done|]. unfold retry_limit. by rewrite Hz.
  - rewrite orb_false_iff, negb_false_iff in Hp. destruct Hp as [Hpos Hfin].
    destruct (default _ (retryBackoffMs _)) as [| |q]; try done. exists q. split; [done|].
    apply Qnot_lt_le. intros Hlt%num_ltb_Fin. unfold num_of_Z in Hpos.
    change (inject_Z 0) with 0%Q in Hpos. congruence.
Qed.

(** ** The negotiation does not wait for itself *)

(** No request of the negotiation passes through the discovery gate: its
    result does not depend on what [discover] would do, so a client whose
    operations all wait for the negotiation cannot wait for itself. *)
Lemma negotiation_needs_no_negotiation sha256 D client gate gate' n w :
  negotiation sha256 D client gate w = negotiation sha256 D client gate' w ∧
  discover_nested sha256 D client (S n) w = discover sha256 D client w.
Proof.
  assert (Hgate : ∀ g g' w, negotiation sha256 D client g w = negotiation sha256 D client g' w) by reflexivity.
  split; [apply Hgate|]. unfold discover, discover_nested; fold (discover_nested sha256 D client).
  unfold cached. by rewrite (Hgate _ (throw (OtherError "waits for itself"))).
Qed.

(** ** Identifiers in paths *)

(** Reference decoder of one escaped character. *)
Definition unhex (c : ascii) : Z := if is_digit c then code c - 48 else code c - 55.
Definition decode_char (s : string) : option (ascii * string) :=
  match s with
  | String "%" (String a (String b rest)) =>
      let byte := unhex a * 16 + unhex b in
      if byte <? 128 then Some (ascii_of_N (Z.to_N byte), rest)
      else match rest with
           | String "%" (String a' (String b' rest')) =>
               Some (ascii_of_N (Z.to_N ((byte - 192) * 64 + (unhex a' * 16 + unhex b' - 128))), rest')
           | _ => None
           end
  | String c rest => Some (c, rest)
  | "" => None
  end.

Lemma decode_char_escape c s : decode_char (uri_escape c +:+ s) = Some (c, s).
Proof. by destruct c as [[] [] [] [] [] [] [] []]. Qed.

Lemma encodeURIComponent_inj s t : encodeURIComponent s = encodeURIComponent t → s = t.
Proof.
  revert t. induction s as [|c s IH]; intros [|d t]; cbn [encodeURIComponent]; [done|..].
  - intros H. pose proof (decode_char_escape d (encodeURIComponent t)) as E. rewrite <-H in E. done.
  - intros H. pose proof (decode_char_escape c (encodeURIComponent s)) as E. rewrite H in E. done.
  - intros H. pose proof (decode_char_escape c (encodeURIComponent s)) as E.
    rewrite H, decode_char_escape in E. injection E as -> E. f_equal. by apply IH.
Qed.

Definition path_safe (c : ascii) : bool := negb (existsb (Ascii.eqb c) ["/"; "?"; "#"; " "]%char).

Lemma encodeURIComponent_safe s : all_chars path_safe (encodeURIComponent s) = true.
Proof.
  induction s as [|c s IH]; cbn [encodeURIComponent]; [done|]. rewrite all_chars_app, IH, andb_true_r.
  apply uri_escape_safe.
Qed.

Lemma append_cancel_l p s t : p +:+ s = p +:+ t → s = t.
Proof. induction p as [|c p IH]; cbn; [done|]. intros [= H]. auto. Qed.

Lemma split_on_safe s t :
  all_chars path_safe s = true → split_on "/" (s +:+ String "/" t) = s :: split_on "/" t.
Proof.
  induction s as [|c s IH]; [done|]. cbn [all_chars]. intros [Hc Hs]%andb_true_iff.
  change (String c s +:+ String "/" t) with (String c (s +:+ String "/" t)). cbn [split_on].
  rewrite IH by done. destruct (Ascii.eqb_spec "/" c) as [<-|]; [done|done].
Qed.

(** An identifier stays in its path segment and is not confused with another:
    the path of a capture's operation has exactly the segments of its route,
    with the encoded identifier, free of separators, in the third place; and
    two identifiers give the same path only when they are equal. *)
Lemma capture_path_confined id suffix id' :
  split_on "/" (capture_path id (String "/" suffix)) =
    ["";"v2";"captures"; encodeURIComponent id] ++ split_on "/" suffix ∧
  all_chars path_safe (encodeURIComponent id) = true ∧
  (capture_path id "" = capture_path id' "" → id = id').
Proof.
  pose proof (encodeURIComponent_safe id) as Hsafe. split; [|split; [done|]].
  - unfold capture_path, id_path.
    change ("/v2/captures" +:+ "/" +:+ encodeURIComponent id +:+ String "/" suffix)
      with ("" +:+ String "/" ("v2" +:+ String "/" ("captures" +:+ String "/" (encodeURIComponent id +:+ String "/" suffix)))).
    by rewrite !split_on_safe.
  - unfold capture_path, id_path. intros H%append_cancel_l%append_cancel_l.
    apply encodeURIComponent_inj.
    assert (Hnil : ∀ s : string, s +:+ "" = s) by (induction s; cbn; congruence). by rewrite !Hnil in H.
Qed.

(** ** Concurrent callers of [discover]

    The operations above run one after the other.  Callers of [discover] may
    overlap; what they share is the field [discovery], a promise.  The steps are
    the calls and the settlements of promises, in any order. *)
Module DiscoveryCache.
Inductive promise : Type := Pending | Fulfilled | Rejected.

#[export] Instance promise_eq_dec : EqDecision promise.
Proof. solve_decision. Defined.

(** The field, the promises created so far, and the promise each call returned. *)
Record state : Type := {
  discovery : option nat;
  promises : list promise;
  returned : list nat
}.

Definition init : state := {| discovery := None; promises := []; returned := [] |}.

(** [discover()]: share the promise of the field, or start a negotiation. *)
Definition call (s : state) : state :=
  match discovery s with
  | Some p => {| discovery := Some p; promises := promises s; returned := returned s ++ [p] |}
  | None =>
      let p := length (promises s) in
      {| discovery := Some p; promises := promises s ++ [Pending]; returned := returned s ++ [p] |}
  end.

(** A negotiation ends; its [catch] handler clears the field when it is still its own. *)
Definition settle (p : nat) (success : bool) (s : state) : state :=
  {| discovery := if success then discovery s
                  else if bool_decide (discovery s = Some p) then None else discovery s;
     promises := <[p := if success then Fulfilled else Rejected]> (promises s);
     returned := returned s |}.

Inductive step : state → state → Prop :=
| step_call s : step s (call s)
| step_settle p b s : promises s !! p = Some Pending → step s (settle p b s).

Definition reachable : state → Prop := rtc step init.

Definition rejections (s : state) : nat := length (List.filter (λ p, bool_decide (p = Rejected)) (promises s)).

(** The field holds the one promise that is not rejected. *)
Definition invariant (s : state) : Prop :=
  (∀ p x, promises s !! p = Some x → x ≠ Rejected → discovery s = Some p) ∧
  (∀ p, discovery s = Some p → ∃ x, promises s !! p = Some x ∧ x ≠ Rejected) ∧
  length (promises s) = (rejections s + if discovery s then 1 else 0)%nat.

Lemma rejections_app l k :
  length (List.filter (λ p, bool_decide (p = Rejected)) (l ++ k)) =
  (length (List.filter (λ p, bool_decide (p = Rejected)) l) +
   length (List.filter (λ p, bool_decide (p = Rejected)) k))%nat.
Proof. by rewrite List.filter_app, length_app. Qed.

Lemma invariant_call s : invariant s → invariant (call s).
Proof.
  unfold call, invariant, rejections. destruct s as [[p|] ps rs]; cbn [discovery promises returned]; [done|].
  intros (Hone & _ & Hcount). split; [|split].
  - intros q x [Hq|[Hge Hq]]%lookup_app_Some Hx; [by specialize (Hone q x Hq Hx)|].
    apply list_lookup_singleton_Some in Hq as [Hq _]. f_equal. lia.
  - intros p [= <-]. exists Pending. split; [|done]. rewrite lookup_app_r, Nat.sub_diag by done. done.
  - rewrite rejections_app, length_app. cbn in Hcount |- *.
    rewrite bool_decide_eq_false_2 by done. cbn. lia.
Qed.

Lemma rejections_insert ps p x :
  ps !! p = Some Pending →
  length (List.filter (λ p, bool_decide (p = Rejected)) (<[p:=x]> ps)) =
  (length (List.filter (λ p, bool_decide (p = Rejected)) ps) + if bool_decide (x = Rejected) then 1 else 0)%nat.
Proof.
  revert p. induction ps as [|y ps IH]; intros [|p] H; cbn in *; try done.
  - injection H as ->. rewrite (bool_decide_eq_false_2 (Pending = Rejected)) by done.
    destruct (bool_decide (x = Rejected)); cbn; lia.
  - specialize (IH p H). destruct (bool_decide (y = Rejected)); cbn; [f_equal|]; exact IH.
Qed.

Lemma invariant_settle p b s : promises s !! p = Some Pending → invariant s → invariant (settle p b s).
Proof.
  unfold settle, invariant, rejections. intros Hp (Hone & Hcell & Hcount).
  pose proof (Hone p Pending Hp ltac:(done)) as Hfield. cbn [discovery promises].
  pose proof (lookup_lt_Some _ _ _ Hp) as Hlt. rewrite (bool_decide_eq_true_2 (discovery s = Some p)) by done.
  rewrite Hfield in Hcount. destruct b.
  - split; [|split].
    + intros q x Hq Hx. destruct (decide (q = p)) as [->|Hne]; [done|].
      rewrite list_lookup_insert_ne in Hq by done. by eapply Hone.
    + intros q Hq. assert (q = p) as -> by congruence. exists Fulfilled.
      by rewrite list_lookup_insert_eq.
    + rewrite length_insert, rejections_insert, Hfield, (bool_decide_eq_false_2 (Fulfilled = Rejected)) by done. lia.
  - split; [|split; [done|]].
    + intros q x Hq Hx. destruct (decide (q = p)) as [->|Hne].
      * rewrite list_lookup_insert_eq in Hq by done. congruence.
      * rewrite list_lookup_insert_ne in Hq by done. specialize (Hone q x Hq Hx). congruence.
    + rewrite length_insert, rejections_insert, (bool_decide_eq_true_2 (Rejected = Rejected)) by done. lia.
Qed.

Lemma reachable_invariant s : reachable s → invariant s.
Proof.
  unfold reachable. intros H. remember init as s0 eqn:E. assert (Hi : invariant s0).
  { subst. split; [done|]. by split. }
  clear E. induction H as [s|s1 s2 s3 Hstep _ IH]; [done|]. apply IH.
  destruct Hstep; [by apply invariant_call|by apply invariant_settle].
Qed.
End DiscoveryCache.

(** Concurrent discovery.  However calls and settlements interleave: at most
    one negotiation is in flight; a call made while one is in flight or after
    one has succeeded returns that same promise and starts nothing; a call
    after a failure starts a new negotiation; and the number of negotiations
    ever started is the number of failures, plus one when the field is set. *)
Lemma discovery_is_shared_until_it_fails s :
  DiscoveryCache.reachable s →
  (∀ p q, DiscoveryCache.promises s !! p = Some DiscoveryCache.Pending →
          DiscoveryCache.promises s !! q = Some DiscoveryCache.Pending → p = q) ∧
  (∀ p x, DiscoveryCache.promises s !! p = Some x → x ≠ DiscoveryCache.Rejected →
     DiscoveryCache.promises (DiscoveryCache.call s) = DiscoveryCache.promises s ∧
     last (DiscoveryCache.returned (DiscoveryCache.call s)) = Some p) ∧
  ((∀ x, x ∈ DiscoveryCache.promises s → x = DiscoveryCache.Rejected) →
     DiscoveryCache.promises (DiscoveryCache.call s) = DiscoveryCache.promises s ++ [DiscoveryCache.Pending]) ∧
  length (DiscoveryCache.promises s) =
    (DiscoveryCache.rejections s + if DiscoveryCache.discovery s then 1 else 0)%nat.
Proof.
  intros (Hone & Hcell & Hcount)%DiscoveryCache.reachable_invariant. split; [|split; [|split; [|done]]].
  - intros p q Hp Hq. apply Hone in Hp; [|done]. apply Hone in Hq; [|done]. congruence.
  - intros p x Hp Hx. unfold DiscoveryCache.call. rewrite (Hone p x Hp Hx). cbn. split; [done|]. apply last_snoc.
  - intros Hall. unfold DiscoveryCache.call. destruct (DiscoveryCache.discovery s) as [p|] eqn:Hd; [|done].
    destruct (Hcell p eq_refl) as (x & Hx & Hnr). apply list_elem_of_lookup_2, Hall in Hx. done.
Qed.

Lemma discovery_is_shared_until_it_fails_witness :
  let s := DiscoveryCache.call (DiscoveryCache.settle 0 false (DiscoveryCache.call DiscoveryCache.init)) in
  length (DiscoveryCache.promises s) = (DiscoveryCache.rejections s + 1)%nat.
Proof.
  intros s. refine (proj2 (proj2 (proj2 (discovery_is_shared_until_it_fails s _)))).
  eapply rtc_l; [apply DiscoveryCache.step_call|].
  eapply rtc_l; [by apply (DiscoveryCache.step_settle 0 false)|].
  eapply rtc_l; [apply DiscoveryCache.step_call|]. apply rtc_refl.
Defined.

Lemma client_construction_witness :
  ∃ client, new_client (λ _, None) (λ _ _, throw TypeErr) true (FromTransport host_transport) = Ok client ∧
    ∃ n, to_int (default (num_of_Z 2) (maxRetries (client_retry client))) = Some (Z.of_nat n) ∧
         retry_limit (client_retry client) = n.
Proof.
  eexists. split; [reflexivity|].
  exact (proj1 (client_construction (λ _, None) (λ _ _, throw TypeErr) true (FromTransport host_transport) _ eq_refl)).
Defined.
