(* ===== verification/CaptureModel.v ===== *)
(** * Captures and documents

    The wire interfaces the workbench UI library computes with
    (packages/capture-runtime-client/src/private/generated-contracts.ts), as
    records of the fields the modelled code reads.  A property declared
    [T | null | undefined] that is compared with [===] is a [js]; one that is
    only read through [??] or [== null] is an [option]. *)

From S2P Require Import Prelude JsString JsNum JsValue.

Inductive CaptureSourceKind : Type := pdf | image | audio.

#[export] Instance source_kind_eq_dec : EqDecision CaptureSourceKind.
Proof. solve_decision. Defined.

Record CaptureSource : Type := {
  source_sha256 : string;
  source_fileName : string;
  source_mediaType : string;
  source_bytes : num
}.

Record CaptureEngine : Type := {
  engine_engine : string;
  engine_model : string;
  engine_digest : string;
  engine_device : js
}.

Inductive CaptureLocator : Type :=
| PageLocator (page : num) (boundingBox : option (list num))
| TimeLocator (startMs endMs : num).

Record RawCaptureSegment : Type := {
  segment_id : string;
  segment_order : num;
  segment_locator : CaptureLocator;
  segment_text : string;
  segment_speaker : option string
}.

Record CaptureSpeaker : Type := {
  speaker_id : string;
  speaker_displayName : option string
}.

Record RawCapture : Type := {
  raw_source : CaptureSource;
  raw_segments : list RawCaptureSegment;
  raw_sourceText : string;
  raw_extractionEngine : CaptureEngine;
  raw_warnings : option (list string);
  raw_createdAt : string
}.

Record CaptureBlock : Type := {
  block_id : string;
  block_order : num;
  block_sourceSegmentId : string;
  block_locator : CaptureLocator;
  block_sourceText : string;
  block_targetText : string
}.

Record CaptureDocument : Type := {
  doc_schemaVersion : string;
  doc_source : CaptureSource;
  doc_sourceText : string;
  doc_targetText : string;
  doc_blocks : list CaptureBlock;
  doc_rawSegments : list RawCaptureSegment;
  doc_extractionEngine : CaptureEngine;
  doc_structuringEngine : CaptureEngine;
  doc_warnings : option (list string);
  doc_speakers : option (list CaptureSpeaker);
  doc_createdAt : string
}.

(** The readiness report as the UI library reads it. *)
Record RuntimeReady : Type := {
  ready_service : string;
  ready_apiVersion : string;
  ready_runtimeVersion : string;
  ready_schemaVersion : string;
  ready_structuringModes : js;
  ready_ready : bool
}.

Record PartialCapture : Type := {
  partial_source : CaptureSource;
  partial_segments : option (list RawCaptureSegment);
  partial_sourceText : option string;
  partial_extractionEngine : option CaptureEngine;
  partial_updatedAt : string
}.

Record CaptureReviewEdit : Type := { edit_segmentId : string; edit_reviewedText : string }.
Record CaptureReview : Type := { reviewVersion : num; review_edits : option (list CaptureReviewEdit) }.

Record CaptureFailure : Type := {
  failure_code : string;
  failure_message : string;
  failure_stage : option string;
  failure_retryable : option bool
}.

(** ** Runtime installation *)

Record RuntimeRequirement : Type := {
  requirementId : string;
  requirement_status : string;
  requirement_optional : bool
}.

Record RuntimeInstallation : Type := {
  installationId : string;
  installation_requirementId : string;
  installation_status : string;
  installation_progress : num;
  installation_error : option CaptureFailure
}.
