(* ===== verification/CaptureHelpers.v ===== *)
(** * File, compatibility and document helpers

    Models packages/capture-workbench-ui/src/lib/capture-helpers.ts: the file
    classes, the text of a document, the version handshake and the check of a
    structuring candidate against the raw capture it claims to structure. *)

From S2P Require Import Prelude JsString JsNum JsValue Json JsCoerce Discovery CaptureModel.

Definition CAPTURE_RUNTIME_MAJOR : num := num_of_Z 0.
Definition CAPTURE_RUNTIME_MINOR : num := num_of_Z 9.

(** ** Files *)

Definition RECORDING_EXTENSIONS : list string :=
  ["mp3"; "wav"; "m4a"; "m4b"; "aac"; "flac"; "ogg"; "oga"; "opus"; "wma"; "amr";
   "aif"; "aiff"; "caf"; "mka"; "3gp"; "3g2"; "mp4"; "m4v"; "mov"; "mkv"; "webm";
   "avi"; "wmv"; "asf"; "flv"; "mpg"; "mpeg"; "ts"; "mts"; "m2ts"].

Definition EXTENSION_KINDS : list (string * CaptureSourceKind) :=
  [("pdf", pdf); ("png", image); ("jpg", image); ("jpeg", image); ("webp", image)] ++
  map (λ extension, (extension, audio)) RECORDING_EXTENSIONS.

(** The value of [classifyCaptureFile]: [null], a kind, or a property the object
    literal [EXTENSION_KINDS] inherits from [Object.prototype]. *)
Inductive FileClass : Type :=
| Unsupported
| Kind (kind : CaptureSourceKind)
| Inherited (property : string).

#[export] Instance FileClass_eq_dec : EqDecision FileClass.
Proof. solve_decision. Defined.

(** The names of [Object.prototype] in lower case. *)
Definition inherited_names : list string := ["constructor"; "__proto__"].

(** [EXTENSION_KINDS[extension]]: own entries first, then the prototype. *)
Definition extension_kind (extension : string) : FileClass :=
  match table_find EXTENSION_KINDS extension with
  | Some kind => Kind kind
  | None => if includes inherited_names extension then Inherited extension else Unsupported
  end.

Definition classifyCaptureFile (name : string) : FileClass :=
  extension_kind (lower (List.last (split_on "." name) "")).

Definition captureAccept (enabled : list CaptureSourceKind) : string :=
  let has k := bool_decide (k ∈ enabled) in
  join "," (
    (if has pdf then [".pdf"; "application/pdf"] else []) ++
    (if has image then [".png"; ".jpg"; ".jpeg"; ".webp"; "image/png"; "image/jpeg"; "image/webp"] else []) ++
    (if has audio then map (λ e, "." +:+ e) RECORDING_EXTENSIONS ++ ["audio/*"; "video/*"] else [])).

(** ** The text of a document *)

(** [new Map(entries).get(key)]: the last entry of a key. *)
Definition map_get {A} (entries : list (string * A)) (key : string) : option A :=
  snd <$> List.find (λ e, String.eqb e.1 key) (rev entries).

(** [a || b] on strings *)
Definition or_else (a b : string) : string := if String.eqb a "" then b else a.

Definition LF_text : string := String "010" "".

Definition speaker_name (speaker : CaptureSpeaker) : string :=
  or_else (trim (default "" (speaker_displayName speaker))) (speaker_id speaker).

Definition block_line (names : list (string * string)) (speakerOf : list (string * option string))
    (block : CaptureBlock) : string :=
  let speaker := default "" (mjoin (map_get speakerOf (block_sourceSegmentId block))) in
  let name := if String.eqb speaker "" then "" else default "" (map_get names speaker) in
  if String.eqb name "" then block_targetText block
  else name +:+ ": " +:+ block_targetText block.

Definition captureDocumentText (document : CaptureDocument) : string :=
  match default [] (doc_speakers document) with
  | [] => or_else (trim (doc_targetText document)) (doc_sourceText document)
  | speakers =>
      let names := map (λ s, (speaker_id s, speaker_name s)) speakers in
      let speakerOf := map (λ s, (segment_id s, segment_speaker s)) (doc_rawSegments document) in
      join LF_text (map (block_line names speakerOf) (doc_blocks document))
  end.

(** ** The version handshake *)

(** [version.trim().replace(/^v/i, '')] *)
Definition normalize_version (version : string) : string :=
  match trim version with
  | String c r => if Ascii.eqb (lower_char c) "v" then r else String c r
  | "" => ""
  end.

(** [Number.parseInt(text, 10)]: leading space, a sign, the digits that follow. *)
Definition parse_int (text : string) : num :=
  let '(neg, digits) := match trim_start text with
    | String "-" r => (true, r)
    | String "+" r => (false, r)
    | t => (false, t)
    end in
  match read_digits 0 0 digits with
  | (v, S _, _) => round64 (inject_Z (if (neg : bool) then - v else v))
  | _ => NaN
  end.

Definition version_part (index : nat) (version : string) : num :=
  let n := parse_int (default "" (split_on "." (normalize_version version) !! index)) in
  if is_finite n then n else num_of_Z (-1).

Definition parseMajor (version : string) : num := version_part 0 version.
Definition parseMinor (version : string) : num := version_part 1 version.

(** The [CaptureCompatibilityError] an incompatible runtime is refused with. *)
Definition assertCaptureRuntimeCompatible (ready : RuntimeReady) (compatibleRuntimeMajor : num)
    (requiredStructuringMode : option string) (compatibleRuntimeMinor : num) : result string unit :=
  reject_if (negb (String.eqb (ready_service ready) "capture-runtime"))
    "The connected service is not Capture Runtime.";;
  reject_if (negb (num_eqb (parseMajor (ready_apiVersion ready)) (parseMajor CAPTURE_API_VERSION)))
    ("Capture API " +:+ ready_apiVersion ready +:+ " is incompatible with client API " +:+ CAPTURE_API_VERSION +:+ ".");;
  reject_if (negb (num_eqb (parseMajor (ready_runtimeVersion ready)) compatibleRuntimeMajor))
    ("Capture runtime " +:+ ready_runtimeVersion ready +:+ " is incompatible with client runtime major " +:+
     show_num compatibleRuntimeMajor +:+ ".");;
  reject_if (num_eqb compatibleRuntimeMajor (num_of_Z 0) &&
             negb (num_eqb (parseMinor (ready_runtimeVersion ready)) compatibleRuntimeMinor))
    ("Capture runtime " +:+ ready_runtimeVersion ready +:+ " is incompatible with client runtime minor " +:+
     show_num compatibleRuntimeMinor +:+ " while the client is on 0.x.");;
  reject_if (negb (String.eqb (ready_schemaVersion ready) CAPTURE_DOCUMENT_SCHEMA_VERSION))
    ("Capture runtime does not support schema " +:+ CAPTURE_DOCUMENT_SCHEMA_VERSION +:+ ".");;
  match requiredStructuringMode with
  | Some mode =>
      reject_if (negb (String.eqb mode "") && negb (includes_js (ready_structuringModes ready) (Str mode)))
        ("Capture runtime does not support " +:+ mode +:+ " structuring mode.")
  | None => Ok tt
  end.

(** ** Locators *)

(** [values.every((value, index) => value === other[index])]: only the positions
    of [values] are looked at. *)
Fixpoint every_equal (values other : list num) : bool :=
  match values with
  | [] => true
  | v :: vs =>
      match other with
      | [] => false
      | o :: os => num_eqb v o && every_equal vs os
      end
  end.

Definition locatorsEqual (left right : CaptureLocator) : bool :=
  match left, right with
  | TimeLocator s e, TimeLocator s' e' => num_eqb s s' && num_eqb e e'
  | PageLocator p box, PageLocator p' box' =>
      num_eqb p p' &&
      match box, box' with
      | Some b, Some b' => every_equal b b'
      | None, None => true
      | _, _ => false
      end
  | _, _ => false
  end.

(** [compareLocators(left, right) > 0].  A difference of two binary64 numbers is
    positive exactly when the first is the larger: gradual underflow never
    rounds a difference to zero. *)
Definition comes_after (left right : CaptureLocator) : bool :=
  match left, right with
  | PageLocator p _, PageLocator p' _ => num_ltb p' p
  | TimeLocator s _, TimeLocator s' _ => num_ltb s' s
  | PageLocator _ _, TimeLocator _ _ => false
  | TimeLocator _ _, PageLocator _ _ => true
  end.

Definition isValidLocator (locator : CaptureLocator) (raw : RawCapture) : bool :=
  match locator with
  | PageLocator page boundingBox =>
      is_integer page && num_ltb (num_of_Z 0) page &&
      match boundingBox with
      | None => true
      | Some box => Nat.eqb (length box) 4 && forallb is_finite box
      end &&
      existsb (λ s, match segment_locator s with
                    | PageLocator page' _ => num_eqb page' page
                    | TimeLocator _ _ => false
                    end) (raw_segments raw)
  | TimeLocator startMs endMs =>
      is_integer startMs && is_integer endMs && num_leb (num_of_Z 0) startMs && num_ltb startMs endMs &&
      existsb (λ s, match segment_locator s with
                    | TimeLocator start' end' => num_leb start' startMs && num_leb endMs end'
                    | PageLocator _ _ => false
                    end) (raw_segments raw)
  end.

Definition sameSource (left right : CaptureSource) : bool :=
  String.eqb (source_sha256 left) (source_sha256 right) &&
  String.eqb (source_fileName left) (source_fileName right) &&
  String.eqb (source_mediaType left) (source_mediaType right) &&
  num_eqb (source_bytes left) (source_bytes right).

Definition sameEngine (left right : CaptureEngine) : bool :=
  String.eqb (engine_engine left) (engine_engine right) &&
  String.eqb (engine_model left) (engine_model right) &&
  String.eqb (engine_digest left) (engine_digest right) &&
  strict_eqb (engine_device left) (engine_device right).

(** ** The check of a structuring candidate *)

(** [if (bad) issues.push(text)] *)
Definition issue (bad : bool) (text : string) : list string := if bad then [text] else [].

(** [name[index]] *)
Definition at_index (name : string) (index : nat) : string := name +:+ "[" +:+ show_nat index +:+ "]".

Definition same_segment (segment rawSegment : RawCaptureSegment) : bool :=
  String.eqb (segment_id segment) (segment_id rawSegment) &&
  num_eqb (segment_order segment) (segment_order rawSegment) &&
  String.eqb (segment_text segment) (segment_text rawSegment) &&
  locatorsEqual (segment_locator segment) (segment_locator rawSegment).

Fixpoint segment_issues (index : nat) (segments rawSegments : list RawCaptureSegment) : list string :=
  match segments with
  | [] => []
  | segment :: rest =>
      issue (match rawSegments with
             | [] => true
             | rawSegment :: _ => negb (same_segment segment rawSegment)
             end) (at_index "rawSegments" index +:+ " must exactly preserve raw capture evidence") ++
      segment_issues (S index) rest (tl rawSegments)
  end.

(** The loop over [raw.segments]; [seen] is [rawSegmentIds]. *)
Fixpoint raw_segment_issues (index : nat) (seen : list string) (segments : list RawCaptureSegment) : list string :=
  match segments with
  | [] => []
  | segment :: rest =>
      issue (negb (num_eqb (segment_order segment) (num_of_Z (Z.of_nat index))))
        (at_index "raw.segments" index +:+ ".order must equal " +:+ show_nat index) ++
      issue (includes seen (segment_id segment))
        (at_index "raw.segments" index +:+ ".segmentId must be unique") ++
      raw_segment_issues (S index) (segment_id segment :: seen) rest
  end.

(** What one block must keep of the raw segment at its position. *)
Definition block_segment_issues (name : string) (block : CaptureBlock) (expected : option RawCaptureSegment) :
    list string :=
  match expected with
  | Some segment =>
      if String.eqb (block_sourceSegmentId block) (segment_id segment) then
        issue (negb (locatorsEqual (block_locator block) (segment_locator segment)))
          (name +:+ ".locator must equal its raw segment locator") ++
        issue (negb (String.eqb (block_sourceText block) (segment_text segment)))
          (name +:+ ".sourceText must equal its raw segment text")
      else [name +:+ ".sourceSegmentId must follow raw segment order"]
  | None => [name +:+ ".sourceSegmentId must follow raw segment order"]
  end.

(** The loop over [candidate.blocks]; [segments] are the raw segments from [index] on. *)
Fixpoint block_issues (raw : RawCapture) (index : nat) (seen : list string) (previous : option CaptureLocator)
    (segments : list RawCaptureSegment) (blocks : list CaptureBlock) : list string :=
  match blocks with
  | [] => []
  | block :: rest =>
      let name := at_index "blocks" index in
      issue (negb (num_eqb (block_order block) (num_of_Z (Z.of_nat index))))
        (name +:+ ".order must equal " +:+ show_nat index) ++
      issue (includes seen (block_id block)) (name +:+ ".blockId must be unique") ++
      issue (blank (block_sourceText block)) (name +:+ ".sourceText must not be empty") ++
      issue (blank (block_targetText block)) (name +:+ ".targetText must not be empty") ++
      block_segment_issues name block (head segments) ++
      issue (negb (isValidLocator (block_locator block) raw))
        (name +:+ ".locator does not reference raw capture evidence") ++
      issue (match previous with Some p => comes_after p (block_locator block) | None => false end)
        (name +:+ ".locator is out of source order") ++
      block_issues raw (S index) (block_id block :: seen) (Some (block_locator block)) (tl segments) rest
  end.

(** The checks of the candidate's own fields, before the loops. *)
Definition field_issues (candidate : CaptureDocument) (raw : RawCapture) : list string :=
  issue (negb (String.eqb (doc_schemaVersion candidate) CAPTURE_DOCUMENT_SCHEMA_VERSION))
    ("schemaVersion must be " +:+ CAPTURE_DOCUMENT_SCHEMA_VERSION) ++
  issue (blank (doc_sourceText candidate)) "sourceText must not be empty" ++
  issue (blank (doc_targetText candidate)) "targetText must not be empty" ++
  issue (Nat.eqb (length (doc_blocks candidate)) 0) "blocks must not be empty" ++
  issue (negb (is_sha256_hex (source_sha256 (doc_source candidate))))
    "source.sha256 must be 64 lowercase hexadecimal characters" ++
  issue (negb (sameSource (doc_source candidate) (raw_source raw)))
    "source must exactly match raw capture evidence" ++
  (if negb (Nat.eqb (length (doc_rawSegments candidate)) (length (raw_segments raw)))
   then ["rawSegments must preserve every raw capture segment"]
   else segment_issues 0 (doc_rawSegments candidate) (raw_segments raw)) ++
  issue (negb (is_sha256_digest (engine_digest (doc_extractionEngine candidate))))
    "extractionEngine.digest must use sha256:<64 lowercase hex>" ++
  issue (negb (is_sha256_digest (engine_digest (doc_structuringEngine candidate))))
    "structuringEngine.digest must use sha256:<64 lowercase hex>" ++
  issue (negb (sameEngine (doc_extractionEngine candidate) (raw_extractionEngine raw)))
    "extractionEngine must match raw capture provenance" ++
  issue (negb (String.eqb (doc_sourceText candidate) (raw_sourceText raw)))
    "sourceText must exactly match raw capture evidence" ++
  issue (negb (String.eqb (doc_createdAt candidate) (raw_createdAt raw)))
    "createdAt must exactly match raw capture evidence" ++
  issue (negb (forallb (includes (default [] (doc_warnings candidate))) (default [] (raw_warnings raw))))
    "warnings must preserve every raw capture warning" ++
  issue (blank (engine_engine (doc_structuringEngine candidate))) "structuringEngine.engine must not be empty" ++
  issue (blank (engine_model (doc_structuringEngine candidate))) "structuringEngine.model must not be empty" ++
  issue (blank (engine_digest (doc_structuringEngine candidate))) "structuringEngine.digest must not be empty".

Definition validateStructuringCandidate (candidate : CaptureDocument) (raw : RawCapture) : list string :=
  field_issues candidate raw ++
  raw_segment_issues 0 [] (raw_segments raw) ++
  issue (negb (String.eqb (raw_sourceText raw) (join LF_text (map segment_text (raw_segments raw)))))
    "raw.sourceText must be the exact raw segment projection" ++
  block_issues raw 0 [] None (raw_segments raw) (doc_blocks candidate) ++
  issue (negb (Nat.eqb (length (doc_blocks candidate)) (length (raw_segments raw))))
    "blocks must cover every raw segment exactly once" ++
  issue (negb (String.eqb (doc_targetText candidate) (join LF_text (map block_targetText (doc_blocks candidate)))))
    "targetText must be the exact block target projection".

(** ** What an accepted candidate is *)

Lemma issue_nil b t : issue b t = [] ↔ b = false.
Proof. by destruct b. Qed.

Lemma app_nil_iff {A} (l k : list A) : l ++ k = [] ↔ l = [] ∧ k = [].
Proof. split; [apply app_eq_nil|by intros [-> ->]]. Qed.

Lemma num_eqb_Z n z : num_eqb n (num_of_Z z) = true ↔ to_int n = Some z.
Proof.
  rewrite to_int_Some. split.
  - destruct n as [| |q]; cbn; [done|by destruct negative|]. intros H%Qeq_bool_iff. by exists q.
  - intros (q & -> & Hq). by apply num_eqb_Fin.
Qed.

(** The elements are numbered from [index] on. *)
Definition numbered {A} (order : A → num) (index : nat) (l : list A) : Prop :=
  ∀ i x, l !! i = Some x → to_int (order x) = Some (Z.of_nat (index + i)).

Lemma numbered_cons {A} (order : A → num) index x l :
  numbered order index (x :: l) ↔ to_int (order x) = Some (Z.of_nat index) ∧ numbered order (S index) l.
Proof.
  unfold numbered. split.
  - intros H. split; [rewrite <-(Nat.add_0_r index); by apply (H 0%nat)|].
    intros i y Hy. rewrite Nat.add_succ_comm. by apply (H (S i)).
  - intros [Hx Hl] [|i] y Hy; cbn in Hy; [injection Hy as <-; by rewrite Nat.add_0_r|].
    rewrite <-Nat.add_succ_comm. by apply Hl.
Qed.

(** Names not seen before, and different from each other. *)
Definition fresh (seen names : list string) : Prop := NoDup names ∧ ∀ n, n ∈ names → n ∉ seen.

Lemma fresh_cons seen n names : fresh seen (n :: names) ↔ n ∉ seen ∧ fresh (n :: seen) names.
Proof.
  unfold fresh. rewrite NoDup_cons. split.
  - intros [[Hn Hd] H]. split; [apply H; by left|]. split; [done|].
    intros m Hm [->|Hs]%elem_of_cons; [done|]. apply (H m); [by right|done].
  - intros [Hn [Hd H]]. split; [split; [|done]|].
    + intros Hin. apply (H n Hin). by left.
    + intros m [->|Hm]%elem_of_cons; [done|]. intros Hs. apply (H m Hm). by right.
Qed.

Lemma fresh_nil names : fresh [] names ↔ NoDup names.
Proof. unfold fresh. split; [by intros [? _]|]. intros H. split; [done|]. intros n _. apply not_elem_of_nil. Qed.

Lemma raw_segment_issues_nil index seen segments :
  raw_segment_issues index seen segments = [] ↔
  numbered segment_order index segments ∧ fresh seen (map segment_id segments).
Proof.
  revert index seen. induction segments as [|s segments IH]; intros index seen; cbn [raw_segment_issues map].
  - split; [|done]. intros _. split; [by intros i x|]. split; [constructor|]. by intros n ?%elem_of_nil.
  - rewrite !app_nil_iff, !issue_nil, negb_false_iff, num_eqb_Z, includes_false, IH, numbered_cons, fresh_cons.
    naive_solver.
Qed.

Lemma segment_issues_nil index segments raws :
  length segments = length raws →
  segment_issues index segments raws = [] ↔ Forall2 (λ s r, same_segment s r = true) segments raws.
Proof.
  revert index raws. induction segments as [|s segments IH]; intros index [|r raws] Hlen; try done.
  injection Hlen as Hlen. cbn [segment_issues tl].
  rewrite app_nil_iff, issue_nil, negb_false_iff, Forall2_cons, IH by done. done.
Qed.

(** A block that carries exactly the evidence of its segment. *)
Definition block_of_segment (block : CaptureBlock) (segment : RawCaptureSegment) : Prop :=
  block_sourceSegmentId block = segment_id segment ∧ block_sourceText block = segment_text segment ∧
  locatorsEqual (block_locator block) (segment_locator segment) = true.

Definition block_wellformed (raw : RawCapture) (block : CaptureBlock) : Prop :=
  blank (block_sourceText block) = false ∧ blank (block_targetText block) = false ∧
  isValidLocator (block_locator block) raw = true.

(** No block lies before its predecessor in the source. *)
Fixpoint in_source_order (previous : option CaptureLocator) (blocks : list CaptureBlock) : Prop :=
  match blocks with
  | [] => True
  | b :: rest =>
      match previous with Some p => comes_after p (block_locator b) = false | None => True end ∧
      in_source_order (Some (block_locator b)) rest
  end.

Lemma block_segment_issues_nil name b expected :
  block_segment_issues name b expected = [] ↔ ∃ s, expected = Some s ∧ block_of_segment b s.
Proof.
  unfold block_segment_issues, block_of_segment. destruct expected as [s|]; [|naive_solver].
  destruct (String.eqb_spec (block_sourceSegmentId b) (segment_id s)); [|naive_solver].
  rewrite app_nil_iff, !issue_nil, !negb_false_iff, String.eqb_eq. naive_solver.
Qed.

Lemma block_issues_nil raw index seen previous segments blocks :
  length blocks = length segments →
  block_issues raw index seen previous segments blocks = [] ↔
  numbered block_order index blocks ∧ fresh seen (map block_id blocks) ∧
  Forall (block_wellformed raw) blocks ∧ Forall2 block_of_segment blocks segments ∧
  in_source_order previous blocks.
Proof.
  revert index seen previous segments.
  induction blocks as [|b blocks IH]; intros index seen previous [|s segments] Hlen; try done.
  - split; [|done]. intros _. split; [by intros i x|]. split; [split; [constructor|by intros n ?%elem_of_nil]|].
    split; [constructor|]. split; [constructor|done].
  - injection Hlen as Hlen. cbn [block_issues head tl map in_source_order]. cbv zeta.
    rewrite !app_nil_iff, !issue_nil, !negb_false_iff, num_eqb_Z, includes_false, block_segment_issues_nil,
      IH, numbered_cons, fresh_cons, Forall_cons, Forall2_cons by done.
    unfold block_wellformed.
    assert (Hprev : match previous with Some p => comes_after p (block_locator b) | None => false end = false ↔
                    match previous with Some p => comes_after p (block_locator b) = false | None => True end)
      by (by destruct previous). rewrite Hprev. naive_solver.
Qed.

(** A raw capture whose text is the projection of its numbered, uniquely named segments. *)
Definition raw_wellformed (raw : RawCapture) : Prop :=
  numbered segment_order 0 (raw_segments raw) ∧ NoDup (map segment_id (raw_segments raw)) ∧
  raw_sourceText raw = join LF_text (map segment_text (raw_segments raw)).

(** The candidate repeats the provenance of the raw capture. *)
Definition same_provenance (candidate : CaptureDocument) (raw : RawCapture) : Prop :=
  sameSource (doc_source candidate) (raw_source raw) = true ∧
  sameEngine (doc_extractionEngine candidate) (raw_extractionEngine raw) = true ∧
  doc_sourceText candidate = raw_sourceText raw ∧ doc_createdAt candidate = raw_createdAt raw ∧
  (∀ warning, warning ∈ default [] (raw_warnings raw) → warning ∈ default [] (doc_warnings candidate)) ∧
  Forall2 (λ s r, same_segment s r = true) (doc_rawSegments candidate) (raw_segments raw).

(** The candidate's own fields. *)
Definition candidate_fields (candidate : CaptureDocument) : Prop :=
  doc_schemaVersion candidate = CAPTURE_DOCUMENT_SCHEMA_VERSION ∧
  blank (doc_sourceText candidate) = false ∧ blank (doc_targetText candidate) = false ∧
  doc_blocks candidate ≠ [] ∧ is_sha256_hex (source_sha256 (doc_source candidate)) = true ∧
  is_sha256_digest (engine_digest (doc_extractionEngine candidate)) = true ∧
  is_sha256_digest (engine_digest (doc_structuringEngine candidate)) = true ∧
  blank (engine_engine (doc_structuringEngine candidate)) = false ∧
  blank (engine_model (doc_structuringEngine candidate)) = false.

(** The blocks follow the segments one by one, in order, and the target text is theirs. *)
Definition blocks_follow (candidate : CaptureDocument) (raw : RawCapture) : Prop :=
  Forall2 block_of_segment (doc_blocks candidate) (raw_segments raw) ∧
  numbered block_order 0 (doc_blocks candidate) ∧ NoDup (map block_id (doc_blocks candidate)) ∧
  Forall (block_wellformed raw) (doc_blocks candidate) ∧ in_source_order None (doc_blocks candidate) ∧
  doc_targetText candidate = join LF_text (map block_targetText (doc_blocks candidate)).

Lemma digest_not_blank d : is_sha256_digest d = true → blank d = false.
Proof. unfold is_sha256_digest. intros [H _]%andb_true_iff.
  apply starts_with_spec in H as (t & ->). apply not_true_iff_false. by rewrite blank_spec.
Qed.

Lemma field_issues_nil candidate raw :
  field_issues candidate raw = [] ↔ candidate_fields candidate ∧ same_provenance candidate raw.
Proof.
  unfold field_issues, candidate_fields, same_provenance.
  rewrite !app_nil_iff, !issue_nil, !negb_false_iff, !String.eqb_eq, Nat.eqb_neq.
  assert (Hsegs : (if negb (Nat.eqb (length (doc_rawSegments candidate)) (length (raw_segments raw)))
      then ["rawSegments must preserve every raw capture segment"]
      else segment_issues 0 (doc_rawSegments candidate) (raw_segments raw)) = [] ↔
    Forall2 (λ s r, same_segment s r = true) (doc_rawSegments candidate) (raw_segments raw)).
  { destruct (Nat.eqb_spec (length (doc_rawSegments candidate)) (length (raw_segments raw))) as [E|E]; cbn [negb].
    - by apply segment_issues_nil.
    - split; [done|]. by intros ?%Forall2_length. }
  assert (Hwarn : forallb (includes (default [] (doc_warnings candidate))) (default [] (raw_warnings raw)) = true ↔
    ∀ warning, warning ∈ default [] (raw_warnings raw) → warning ∈ default [] (doc_warnings candidate)).
  { rewrite forallb_true, Forall_forall. by setoid_rewrite includes_spec. }
  assert (Hblocks : length (doc_blocks candidate) ≠ 0%nat ↔ doc_blocks candidate ≠ []).
  { destruct (doc_blocks candidate); cbn; naive_solver lia. }
  rewrite Hsegs, Hwarn, Hblocks. split; [naive_solver|]. intros. destruct_and!.
  repeat split; try done. by apply digest_not_blank.
Qed.

(** C36: The candidate check is exact: a structuring candidate raises no issue
    exactly when the raw capture is well formed (numbered, uniquely named
    segments whose texts make up its source text), the candidate's own fields
    are well formed, it repeats the raw capture's provenance and segments, and
    its blocks follow the segments one by one in source order with their exact
    text, its target text being the blocks' texts. *)
Theorem validate_structuring_candidate_exact candidate raw :
  validateStructuringCandidate candidate raw = [] ↔
  raw_wellformed raw ∧ candidate_fields candidate ∧ same_provenance candidate raw ∧ blocks_follow candidate raw.
Proof.
  unfold validateStructuringCandidate, raw_wellformed, blocks_follow.
  rewrite !app_nil_iff, !issue_nil, !negb_false_iff, !String.eqb_eq, Nat.eqb_eq, field_issues_nil,
    raw_segment_issues_nil, fresh_nil. split.
  - intros (Hfields & Hraw & Htext & Hblocks & Hlen & Htarget).
    apply (block_issues_nil raw 0 [] None (raw_segments raw) (doc_blocks candidate) Hlen) in Hblocks.
    rewrite fresh_nil in Hblocks. naive_solver.
  - intros ((? & ? & ?) & ? & ? & Hall & ? & ? & ? & ? & ?).
    split; [done|]. split; [done|]. split; [done|]. split; [|split; [by eapply Forall2_length|done]].
    apply block_issues_nil; [by eapply Forall2_length|]. by rewrite fresh_nil.
Qed.

(** ** Speakers are not part of the checked evidence *)

Definition relabel_segment (label : RawCaptureSegment → option string) (s : RawCaptureSegment) : RawCaptureSegment :=
  {| segment_id := segment_id s; segment_order := segment_order s; segment_locator := segment_locator s;
     segment_text := segment_text s; segment_speaker := label s |}.

(** The candidate with other speakers: on its segments and in its list. *)
Definition relabel (label : RawCaptureSegment → option string) (speakers : option (list CaptureSpeaker))
    (candidate : CaptureDocument) : CaptureDocument :=
  {| doc_schemaVersion := doc_schemaVersion candidate; doc_source := doc_source candidate;
     doc_sourceText := doc_sourceText candidate; doc_targetText := doc_targetText candidate;
     doc_blocks := doc_blocks candidate;
     doc_rawSegments := map (relabel_segment label) (doc_rawSegments candidate);
     doc_extractionEngine := doc_extractionEngine candidate;
     doc_structuringEngine := doc_structuringEngine candidate; doc_warnings := doc_warnings candidate;
     doc_speakers := speakers; doc_createdAt := doc_createdAt candidate |}.

Lemma segment_issues_relabel label index segments raws :
  segment_issues index (map (relabel_segment label) segments) raws = segment_issues index segments raws.
Proof.
  revert index raws. induction segments as [|s segments IH]; intros index raws; [done|].
  cbn [map segment_issues]. rewrite IH. by destruct raws.
Qed.

(** The check does not compare speakers: a candidate raises the same issues
    whatever speakers its raw segments carry and whatever speakers it lists, so
    segments relabelled by the structuring provider pass as "exactly
    preserved". *)
Lemma candidate_speakers_not_checked label speakers candidate raw :
  validateStructuringCandidate (relabel label speakers candidate) raw = validateStructuringCandidate candidate raw.
Proof.
  unfold validateStructuringCandidate, field_issues. cbn [relabel doc_schemaVersion doc_source doc_sourceText
    doc_targetText doc_blocks doc_rawSegments doc_extractionEngine doc_structuringEngine doc_warnings doc_createdAt].
  by rewrite length_map, segment_issues_relabel.
Qed.

(** ** File classes *)

Lemma extension_kinds_unique : NoDup (map fst EXTENSION_KINDS).
Proof. apply (bool_decide_unpack _). by vm_compute. Qed.

(** The class of a file is decided by what follows the last dot of its name, in
    lower case: a listed extension gives its kind, anything else [null], except
    two names the lookup table inherits from [Object.prototype]: a file called
    "x.constructor" is given a function instead of [null]. *)
Lemma classify_capture_file_exact base extension kind :
  all_chars (λ c, negb (Ascii.eqb "." c)) extension = true →
  (classifyCaptureFile (base +:+ String "." extension) = Kind kind ↔ (lower extension, kind) ∈ EXTENSION_KINDS) ∧
  (classifyCaptureFile (base +:+ String "." extension) = Unsupported ↔
   lower extension ∉ map fst EXTENSION_KINDS ∧ lower extension ∉ inherited_names) ∧
  classifyCaptureFile (base +:+ ".constructor") = Inherited "constructor".
Proof.
  intros Hext. unfold classifyCaptureFile. rewrite !split_on_last, split_on_no_sep by done. cbn [List.last].
  set (e := lower extension). split; [|split; [|done]].
  - unfold extension_kind. rewrite <-table_find_Some by apply extension_kinds_unique.
    destruct (table_find EXTENSION_KINDS e); [naive_solver|]. destruct (includes inherited_names e); naive_solver.
  - rewrite <-table_find_None, <-includes_false. unfold extension_kind.
    destruct (table_find EXTENSION_KINDS e); [naive_solver|]. destruct (includes inherited_names e); naive_solver.
Qed.

Lemma classify_capture_file_exact_witness :
  classifyCaptureFile ("Meeting 3" +:+ String "." "MP4") = Kind audio.
Proof.
  refine (proj2 (proj1 (classify_capture_file_exact "Meeting 3" "MP4" audio _)) _); [reflexivity|].
  apply table_find_Some; [apply extension_kinds_unique|reflexivity].
Defined.

(** ** A sample capture *)

Definition sample_hash : string :=
  "0123456789abcdef0123456789abcdef0123456789abcdef0123456789abcdef".

Definition sample_engine : CaptureEngine :=
  {| engine_engine := "ocr"; engine_model := "m1"; engine_digest := "sha256:" +:+ sample_hash; engine_device := Str "cpu" |}.

Definition sample_source : CaptureSource :=
  {| source_sha256 := sample_hash; source_fileName := "a.pdf"; source_mediaType := "application/pdf"; source_bytes := num_of_Z 4 |}.

Definition sample_segment : RawCaptureSegment :=
  {| segment_id := "s1"; segment_order := num_of_Z 0; segment_locator := PageLocator (num_of_Z 1) None;
     segment_text := "text"; segment_speaker := None |}.

Definition sample_raw : RawCapture :=
  {| raw_source := sample_source; raw_segments := [sample_segment]; raw_sourceText := "text";
     raw_extractionEngine := sample_engine; raw_warnings := None; raw_createdAt := "2026-01-01T00:00:00Z" |}.

Definition sample_candidate : CaptureDocument :=
  {| doc_schemaVersion := CAPTURE_DOCUMENT_SCHEMA_VERSION; doc_source := sample_source; doc_sourceText := "text";
     doc_targetText := "Text";
     doc_blocks := [{| block_id := "b1"; block_order := num_of_Z 0; block_sourceSegmentId := "s1";
       block_locator := PageLocator (num_of_Z 1) None; block_sourceText := "text"; block_targetText := "Text" |}];
     doc_rawSegments := [sample_segment]; doc_extractionEngine := sample_engine;
     doc_structuringEngine := sample_engine; doc_warnings := None; doc_speakers := None;
     doc_createdAt := "2026-01-01T00:00:00Z" |}.
