(* ===== verification/StoreHelpers.v ===== *)
(** * Support of the capture workflow

    Models packages/capture-workbench-ui/src/lib/capture-client-errors.ts,
    capture-http-error.ts and the pure part of
    capture-workflow/capture-workbench-store-helpers.ts: failure messages, the
    classification of uncertain responses and their single retry, the check of
    a review, progress and stages. *)

From S2P Require Import Prelude JsString JsNum JsValue RuntimeErrors CaptureModel CaptureHelpers.

(** ** Unknown errors *)

(** What the code asks of a caught value: its classes, and the properties it
    reads.  A value that is no object has none of them. *)
Record caught : Type := {
  is_error : bool;
  is_dom_exception : bool;
  is_type_error : bool;
  error_name : string;
  error_message : js;
  error_code : js;
  error_status : js
}.

(** Both regular expressions are those of errors.ts. *)
Definition redactSensitiveMessage (message : string) : string := redact message.

Definition errorMessage (error : caught) (fallback : string) : string :=
  match error_message error with
  | Str m => if is_error error && negb (String.eqb m "") then redactSensitiveMessage m else fallback
  | _ => fallback
  end.

Definition redactFailure (error : CaptureFailure) : CaptureFailure :=
  {| failure_code := redactSensitiveMessage (failure_code error);
     failure_message := redactSensitiveMessage (failure_message error);
     failure_stage := failure_stage error; failure_retryable := failure_retryable error |}.

Definition isAbortError (error : caught) : bool :=
  if is_dom_exception error then String.eqb (error_name error) "AbortError"
  else is_error error && String.eqb (error_name error) "AbortError".

(** [new DOMException('The operation was aborted.', 'AbortError')] *)
Definition abort_exception : caught :=
  {| is_error := true; is_dom_exception := true; is_type_error := false; error_name := "AbortError";
     error_message := Str "The operation was aborted."; error_code := js_Z 20; error_status := Undefined |}.

Definition throwIfAborted (aborted : bool) : result caught unit := reject_if aborted abort_exception.

Definition isUncertainResponseFailure (error : caught) : bool :=
  if isAbortError error then false
  else if is_str (error_code error) "invalid_response" then true
  else match error_status error with
       | Num n => num_eqb n (num_of_Z 0) || num_leb (num_of_Z 500) n
       | _ => is_type_error error
       end.

(** ** One more attempt after an uncertain response *)

Section retry.
Context {S A : Type}.

(** A subscription to an observable: the values it emits and the error that
    ends it, if any, with the state it leaves. *)
Definition observable : Type := S → (list A * option caught) * S.

(** [aborted] reads the signal. *)
Definition retryUncertainResponse (operation : observable) (aborted : S → bool) : observable := λ s,
  match operation s with
  | ((values, None), s') => ((values, None), s')
  | ((values, Some error), s') =>
      if aborted s' then ((values, Some abort_exception), s')
      else if isUncertainResponseFailure error then
        let '((more, last_error), s'') := operation s' in ((values ++ more, last_error), s'')
      else ((values, Some error), s')
  end.
End retry.

(** ** HTTP failures *)

Record CaptureHttpError : Type := {
  http_status : num;
  http_code : string;
  http_message : string;
  http_details : js
}.

Fixpoint redactSensitiveValue (depth : nat) (value : js) : js :=
  if (4 <? depth)%nat then value
  else match value with
  | Str s => Str (redactSensitiveMessage s)
  | Arr l => Arr (map (redactSensitiveValue (S depth)) l)
  | Obj r => Obj (map (λ kv, (kv.1, if credential_key kv.1 then Str "[redacted]"
                                    else redactSensitiveValue (S depth) kv.2)) r)
  | _ => value
  end.

Definition new_CaptureHttpError (status : num) (code message : string) (details : js) : CaptureHttpError :=
  {| http_status := status; http_code := code; http_message := redactSensitiveMessage message;
     http_details := redactSensitiveValue 0 details |}.

Definition asFailure (error : CaptureHttpError) (stage : option string) : CaptureFailure :=
  {| failure_code := http_code error; failure_message := http_message error; failure_stage := stage;
     failure_retryable := None |}.

(** ** Failures of the workflow *)

Definition HOST_PROVIDER_FAILURE_CODE : string := "host_provider_failed".
Definition HOST_RECONCILIATION_FAILURE_CODE : string := "host_reconciliation_unavailable".

Definition normalizeHostFailureMessage (message : string) : string :=
  take_str 500 (or_else (trim (redactSensitiveMessage message)) "Host structuring failed.").

Definition hostReconciliationFailure (error : caught) : CaptureFailure :=
  {| failure_code := HOST_RECONCILIATION_FAILURE_CODE;
     failure_message := errorMessage error
       "Host structuring failed and the runtime terminal state could not be confirmed.";
     failure_stage := Some "structuring"; failure_retryable := Some true |}.

Definition failureFrom (error : caught) (stage : option string) (fallback : string) : CaptureFailure :=
  {| failure_code := match error_code error with Str c => redactSensitiveMessage c | _ => "capture_failed" end;
     failure_message := match error_message error with Str m => redactSensitiveMessage m | _ => fallback end;
     failure_stage := stage; failure_retryable := None |}.

(** ** Stages and statuses *)

Definition isTerminalTask (status : string) : bool := includes ["completed"; "failed"; "canceled"] status.
Definition isTerminalStreamingOperation (status : string) : bool := includes ["completed"; "failed"; "cancelled"] status.
Definition isTerminalStreamingEvent (eventType : string) : bool := includes ["completed"; "failed"; "cancelled"] eventType.
Definition isAwaitingHostStructuring (status : string) : bool := String.eqb status "awaiting_structuring".

Definition known_stages : list string :=
  ["queued"; "extracting"; "loading-model"; "transcribing"; "identifying-speakers";
   "awaiting_structuring"; "structuring"; "completed"; "failed"; "cancelled"].
Definition streamingStage (stage : string) : string :=
  if includes known_stages stage then stage else "preprocessing".

(** ** Partial captures and reviews *)

(** [Err] is the [Error] thrown for an incomplete capture. *)
Definition partialCaptureToRaw (partial : PartialCapture) : result string RawCapture :=
  match partial_segments partial, partial_sourceText partial, partial_extractionEngine partial with
  | Some segments, Some text, Some engine =>
      if String.eqb text "" then Err "Streaming partial capture is not complete enough to structure."
      else Ok {| raw_source := partial_source partial; raw_segments := segments; raw_sourceText := text;
                 raw_extractionEngine := engine; raw_warnings := None; raw_createdAt := partial_updatedAt partial |}
  | _, _, _ => Err "Streaming partial capture is not complete enough to structure."
  end.

(** The loop over the edits; [seen] are the segments already edited. *)
Fixpoint edit_issues (known : list string) (seen : list string) (edits : list CaptureReviewEdit) : list string :=
  match edits with
  | [] => []
  | edit :: rest =>
      let id := edit_segmentId edit in
      if includes seen id then ("duplicate segmentId " +:+ id) :: edit_issues known seen rest
      else if negb (includes known id) then ("unknown segmentId " +:+ id) :: edit_issues known (id :: seen) rest
      else issue (slen (trim (edit_reviewedText edit)) =? 0) ("reviewedText for " +:+ id +:+ " must not be empty") ++
           edit_issues known (id :: seen) rest
  end.

Definition validateCaptureReview (raw : RawCapture) (review : CaptureReview) : list string :=
  if negb (num_eqb (reviewVersion review) (num_of_Z 1)) then ["reviewVersion must be 1"]
  else edit_issues (map segment_id (raw_segments raw)) [] (default [] (review_edits review)).

(** ** Progress and names *)

Definition clampProgress (progress : num) : num :=
  num_max (num_of_Z 0) (num_min (num_of_Z 100) progress).

Definition runtimeProgressPercent (progress : num) : num :=
  clampProgress (if num_leb progress (num_of_Z 1) then num_mul progress (num_of_Z 100) else progress).

(** [fileName.replace(/\.[^.]+$/, '')] *)
Definition withoutExtension (fileName : string) : string :=
  match split_on "." fileName with
  | [] | [_] => fileName
  | parts => if String.eqb (List.last parts "") "" then fileName else join "." (removelast parts)
  end.

(** ** Properties *)

Lemma slen_zero s : slen s = 0 ↔ s = "".
Proof. destruct s; cbn; [done|]. unfold slen. cbn. naive_solver lia. Qed.

Lemma edit_issues_nil known seen edits :
  edit_issues known seen edits = [] ↔
  fresh seen (map edit_segmentId edits) ∧ (∀ id, id ∈ map edit_segmentId edits → id ∈ known) ∧
  Forall (λ e, blank (edit_reviewedText e) = false) edits.
Proof.
  revert seen. induction edits as [|e edits IH]; intros seen; cbn [edit_issues map].
  - split; [|done]. intros _. split; [split; [constructor|by intros n ?%elem_of_nil]|].
    split; [by intros n ?%elem_of_nil|constructor].
  - rewrite fresh_cons, Forall_cons. cbv zeta.
    destruct (includes seen (edit_segmentId e)) eqn:Hs; [apply includes_spec in Hs; naive_solver|].
    apply includes_false in Hs. destruct (includes known (edit_segmentId e)) eqn:Hk; cbn [negb].
    + apply includes_spec in Hk. rewrite app_nil_iff, issue_nil, IH, Z.eqb_neq, slen_zero.
      assert (Hb : trim (edit_reviewedText e) ≠ "" ↔ blank (edit_reviewedText e) = false)
        by (unfold blank; by rewrite String.eqb_neq). rewrite Hb.
      setoid_rewrite elem_of_cons. naive_solver.
    + apply includes_false in Hk. split; [done|]. intros (_ & Hall & _). destruct Hk. apply Hall. by left.
Qed.

(** A review is accepted exactly when it has version 1, edits no segment twice,
    edits only segments of the raw capture, and leaves no edited text blank. *)
Lemma validate_capture_review_exact raw review :
  validateCaptureReview raw review = [] ↔
  to_int (reviewVersion review) = Some 1 ∧
  NoDup (map edit_segmentId (default [] (review_edits review))) ∧
  (∀ id, id ∈ map edit_segmentId (default [] (review_edits review)) → id ∈ map segment_id (raw_segments raw)) ∧
  Forall (λ e, blank (edit_reviewedText e) = false) (default [] (review_edits review)).
Proof.
  unfold validateCaptureReview. destruct (num_eqb (reviewVersion review) (num_of_Z 1)) eqn:Hv; cbn [negb].
  - apply num_eqb_Z in Hv. rewrite edit_issues_nil, fresh_nil. naive_solver.
  - split; [done|]. intros (H & _). apply num_eqb_Z in H. congruence.
Qed.

Lemma num_ltb_false_Fin p q : num_ltb (Fin p) (Fin q) = false → (q <= p)%Q.
Proof. intros H. apply Qnot_lt_le. intros Hlt%num_ltb_Fin. congruence. Qed.

Lemma clampProgress_bounds p : p ≠ NaN → ∃ r, clampProgress p = Fin r ∧ (0 <= r)%Q ∧ (r <= inject_Z 100)%Q.
Proof.
  intros Hp. unfold clampProgress, num_of_Z. destruct p as [|[]|q]; [done|by exists 0%Q|by exists (inject_Z 100)|].
  cbn [num_min]. destruct (num_ltb (Fin q) (Fin (inject_Z 100))) eqn:Hq; cbn [num_max].
  - apply num_ltb_Fin in Hq. destruct (num_ltb (Fin (inject_Z 0)) (Fin q)) eqn:H0.
    + apply num_ltb_Fin in H0. exists q. split; [done|]. split; [by apply Qlt_le_weak|by apply Qlt_le_weak].
    + by exists 0%Q.
  - by exists (inject_Z 100).
Qed.

Lemma round64_not_NaN q : round64 q ≠ NaN.
Proof. unfold round64. repeat case_match; done. Qed.

(** Progress shown to the user: whatever number the runtime reports, a fraction
    or a percentage, in range or not, the shown percentage is between 0 and
    100; only [NaN] is passed on. *)
Lemma runtime_progress_percent_bounds p :
  (p = NaN ∧ runtimeProgressPercent p = NaN) ∨
  ∃ r, runtimeProgressPercent p = Fin r ∧ (0 <= r)%Q ∧ (r <= inject_Z 100)%Q.
Proof.
  assert (Hp : p = NaN ∨ p ≠ NaN) by (destruct p; naive_solver). destruct Hp as [->|Hp]; [by left|]. right. unfold runtimeProgressPercent.
  destruct (num_leb p (num_of_Z 1)); apply clampProgress_bounds; [|done].
  destruct p as [|[]|q]; try done. apply round64_not_NaN.
Qed.
