(* ===== verification/HttpClient.v ===== *)
(** * The HTTP client of the UI library

    Models packages/capture-workbench-ui/src/lib/http-capture-client.ts, the
    adapter between the runtime client ([Client]) and the UI library: it turns
    every error of the one into an error the other reads, and keeps the first
    negotiation.  Here the layers meet: what the retry of the UI library
    ([StoreHelpers]) makes of the retry of the runtime client ([Retry]). *)

From S2P Require Import Prelude JsString JsNum JsValue Json JsCoerce RuntimeErrors CodecFields OcrCodec Codec Effects Retry Streaming Discovery Client CaptureModel StoreHelpers.

(** ** Errors *)

Section errors.
(** The text of a [TypeError] is the engine's. *)
Variable engine_message : string.

(** [toCaptureHttpError], by what the UI library reads of the error; a code
  that is no string is passed on like one. *)
Definition toCaptureHttpError (error : thrown) : caught :=
match error with
| AbortError => abort_exception
| Runtime e =>
    {| is_error := true; is_dom_exception := false; is_type_error := false; error_name := "CaptureHttpError";
       error_message := Str (redactSensitiveMessage (err_message e)); error_code := err_code e;
       error_status := js_Z (err_status e) |}
| TypeErr =>
    {| is_error := true; is_dom_exception := false; is_type_error := true; error_name := "TypeError";
       error_message := Str engine_message; error_code := Undefined; error_status := Undefined |}
| OtherError message =>
    {| is_error := true; is_dom_exception := false; is_type_error := false; error_name := "Error";
       error_message := Str message; error_code := Undefined; error_status := Undefined |}
end.

(** [fromRuntime(operation)] *)
Definition fromRuntime {A} (operation : io A) (w : World) : result caught A * World :=
match operation w with
| (Ok a, w') => (Ok a, w')
| (Err error, w') => (Err (toCaptureHttpError error), w')
end.
End errors.

(** ** Operations *)

Definition mediaTypeFor (kind : CaptureSourceKind) : string :=
  match kind with pdf => "application/pdf" | image => "image/*" | audio => "audio/*" end.

Definition source_kind_name (kind : CaptureSourceKind) : string :=
  match kind with pdf => "pdf" | image => "image" | audio => "audio" end.

(** [StartStreamingCaptureRequest] with the [File]'s name, type and bytes. *)
Record StartRequest : Type := {
  start_id : string;
  file_name : string;
  file_type : string;
  file_bytes : string;
  start_kind : CaptureSourceKind;
  start_mode : string;
  start_language : option string;
  start_speakers : option bool;
  start_spoken : option string
}.

Definition upload_of (request : StartRequest) : CaptureUpload :=
  {| up_fileName := file_name request; up_body := OtherBody (file_bytes request);
     up_mediaType := Some (if String.eqb (file_type request) "" then mediaTypeFor (start_kind request)
                           else file_type request);
     up_sourceKind := source_kind_name (start_kind request); up_targetLanguage := start_language request;
     up_structuringMode := Some (start_mode request); up_pdfPageNumbers := Undefined;
     up_identifySpeakers := start_speakers request; up_spokenLanguage := start_spoken request;
     up_clientRequestId := start_id request |}.

Module HttpCaptureClient.
Section client.
Variables (sha256 : string → string) (Date_parse : string → num) (engine_message : string).
(** [this.runtime]; the id of [crypto.randomUUID()]. *)
Variables (runtime : CaptureRuntimeClient) (uuid : string).

#[local] Abbreviation from m := (fromRuntime engine_message m) (only parsing).

Definition getRequirements := from (Client.getRequirements sha256 Date_parse runtime).
Definition startInstallation (requirementId clientRequestId : string) :=
from (Client.startInstallation sha256 Date_parse runtime requirementId clientRequestId).
Definition listInstallations := from (Client.listInstallations sha256 Date_parse runtime).
Definition getInstallation (id : string) := from (Client.getInstallation sha256 Date_parse runtime id).
Definition cancelInstallation (id : string) := from (Client.cancelInstallation sha256 Date_parse runtime id).
Definition startStreamingCapture (request : StartRequest) :=
from (Client.startStreamingCapture sha256 Date_parse runtime (upload_of request)).
Definition getStreamingCapture (id : string) := from (Client.getStreamingCapture sha256 Date_parse runtime id).
Definition cancelStreamingCapture (id : string) := from (Client.cancelStreamingCapture sha256 Date_parse runtime id).
Definition getStreamingPartial (id : string) := from (Client.getStreamingPartial sha256 Date_parse runtime id).
Definition getStreamingRaw (id : string) := from (Client.getRaw sha256 Date_parse runtime id).
Definition getStreamingResult (id : string) := from (Client.getStreamingResult sha256 Date_parse runtime id).
Definition commitStreamingStructuredResult (id clientRequestId : string) (candidate : js) :=
from (Client.commitStreamingStructuredResult sha256 Date_parse runtime id candidate clientRequestId).
Definition reportStreamingStructuringFailure (id code message : string) (clientRequestId : option string) :=
from (Client.reportStreamingStructuringFailure sha256 Date_parse runtime id code message
      (default uuid clientRequestId)).
Definition deleteStreamingCapture (id : string) := from (Client.deleteCapture sha256 Date_parse runtime id).

(** [getReady], for callers one after the other: a negotiation that succeeded is
kept, by the field [discovery] as by the runtime client itself. *)
Definition getReady := from (disc_ready <$> discover sha256 Date_parse runtime).

(** [captureEvents], for a subscriber that stays to the end. *)
Definition captureEvents (id : string) (lastEventId : js) (w : World) : (list js * option caught) * World :=
let '((events, failure), w') := Client.captureEvents sha256 Date_parse runtime id lastEventId None w in
((events, toCaptureHttpError engine_message <$> failure), w').
End client.

(** [new HttpCaptureClient(options)]: the runtime client over the host's
  transport; [None] is a missing transport or one without [request]. *)
Definition new_HttpCaptureClient parse_url fetch browser (transport : option RuntimeTransport) :
  result caught (outcome CaptureRuntimeClient) :=
match transport with
| None => Err {| is_error := true; is_dom_exception := false; is_type_error := false;
                 error_name := "CaptureHttpError";
                 error_message := Str "Capture Workbench requires a host-provided RuntimeTransport.";
                 error_code := Str "browser_transport_required"; error_status := js_Z 0 |}
| Some t => Ok (new_client parse_url fetch browser (FromTransport t))
end.
End HttpCaptureClient.

(** ** What a run sends *)

Section sends.
Variables (allowed : RuntimeTransportRequest → Prop) (counted : RuntimeTransportRequest → bool).

(** Every run sends allowed requests only, and at most [n] counted ones. *)
Definition sends (n : nat) {A} (m : World → A * World) : Prop := ∀ w, ∃ l,
log (m w).2 = log w ++ l ∧ Forall allowed (sent l) ∧ (length (List.filter counted (sent l)) ≤ n)%nat.

Lemma sends_mono {A} n k (m : World → A * World) : (n ≤ k)%nat → sends n m → sends k m.
Proof. intros Hle H w. destruct (H w) as (l & ? & ? & ?). exists l. split_and!; [done..|lia]. Qed.

Lemma sends_none {A} (f : World → A * World) : (∀ w, log (f w).2 = log w) → sends 0 f.
Proof. intros H w. exists []. rewrite app_nil_r. by split_and!; [apply H|constructor|cbn; lia]. Qed.

Lemma sends_lift {A} (r : outcome A) : sends 0 (lift r).
Proof. by apply sends_none. Qed.

Lemma sends_throw {A} e : sends 0 (throw (A:=A) e).
Proof. by apply sends_none. Qed.

Lemma sends_ret {A} (a : A) : sends 0 (mret a : io A).
Proof. by apply sends_none. Qed.

(** The effects of two runs in a row. *)
Lemma sends_seq n k w l1 l2 l3 w' :
log w' = (log w ++ l1) ++ l2 → l3 = l1 ++ l2 → Forall allowed (sent l1) → Forall allowed (sent l2) →
(length (List.filter counted (sent l1)) ≤ n)%nat → (length (List.filter counted (sent l2)) ≤ k)%nat →
log w' = log w ++ l3 ∧ Forall allowed (sent l3) ∧ (length (List.filter counted (sent l3)) ≤ n + k)%nat.
Proof.
intros Hlog -> H1 H2 Hn Hk. rewrite sent_app, List.filter_app, length_app, Forall_app, Hlog, <-app_assoc.
split_and!; [done..|lia].
Qed.

Lemma sends_bind {A B} n k (m : io A) (f : A → io B) : sends n m → (∀ a, sends k (f a)) → sends (n + k) (m ≫= f).
Proof.
intros Hm Hf w. destruct (Hm w) as (l1 & Hl1 & ? & ?). unfold mbind, io_bind. destruct (m w) as [[a|e] w1].
- destruct (Hf a w1) as (l2 & Hl2 & ? & ?). cbn [snd] in Hl1. rewrite Hl1 in Hl2.
  exists (l1 ++ l2). by apply (sends_seq n k w l1 l2).
- exists l1. cbn [snd] in *. split_and!; [done..|lia].
Qed.

Lemma sends_silent_bind {A B} n (m : io A) (f : A → io B) : sends 0 m → (∀ a, sends n (f a)) → sends n (m ≫= f).
Proof. apply (sends_bind 0 n). Qed.

Lemma sends_bind_silent {A B} n (m : io A) (f : A → io B) : sends n m → (∀ a, sends 0 (f a)) → sends n (m ≫= f).
Proof. intros Hm Hf. rewrite <-(Nat.add_0_r n). by apply sends_bind. Qed.

Lemma sends_lift_bind {A B} n (r : outcome A) (f : A → io B) :
(∀ a, r = Ok a → sends n (f a)) → sends n (lift r ≫= f).
Proof.
intros Hf. destruct r as [a|e]; [|eapply sends_mono; [|apply sends_throw]; lia]. by apply (Hf a).
Qed.

Lemma sends_fmap {A B} n (f : A → B) (m : io A) : sends n m → sends n (f <$> m).
Proof.
intros Hm w. destruct (Hm w) as (l & Hl & ? & ?). exists l. unfold fmap, io_fmap. by destruct (m w) as [[a|e] w1].
Qed.

Lemma sends_try {A} n k (m : io A) h : sends n m → (∀ e, sends k (h e)) → sends (n + k) (try_catch m h).
Proof.
intros Hm Hh w. destruct (Hm w) as (l1 & Hl1 & ? & ?). unfold try_catch. destruct (m w) as [[a|e] w1].
- exists l1. cbn [snd] in *. split_and!; [done..|lia].
- destruct (Hh e w1) as (l2 & Hl2 & ? & ?). cbn [snd] in Hl1. rewrite Hl1 in Hl2.
  exists (l1 ++ l2). by apply (sends_seq n k w l1 l2).
Qed.

Lemma sends_sleep ms : sends 0 (sleep ms).
Proof.
intros w. destruct (sleep_spec ms w) as (l & -> & Hl & _). exists l. rewrite Hl. cbn. by split_and!; [|constructor|lia].
Qed.

#[local] Existing Instance host_transport.

Lemma sends_request r : allowed r → sends (if counted r then 1 else 0) (transport_request r).
Proof.
intros Hr w. exists [Sent r]. unfold transport_request, host_transport.
assert (length (List.filter counted (sent [Sent r])) = if counted r then 1 else 0)%nat as Hc.
{ cbn. by destruct (counted r). }
destruct (replies w); cbn [snd log]; (split_and!; [done|by repeat constructor|lia]).
Qed.

Lemma sends_attempts options r retries attempt left :
allowed r → sends (left * if counted r then 1 else 0) (attempts options r retries attempt left).
Proof.
intros Hr. revert attempt. induction left as [|left IH]; intros attempt; [apply sends_throw|].
cbn [attempts Nat.mul]. intros w. destruct (sends_request r Hr w) as (l1 & Hl1 & ? & ?).
assert (∀ ms, sends (left * if counted r then 1 else 0)
  (sleep ms;; attempts options r retries (S attempt) left)) as Hnext.
{ intros ms. apply sends_silent_bind; [apply sends_sleep|]. intros _. apply IH. }
destruct (transport_request r w) as [[response|e] w1]; cbn [snd] in Hl1;
  [destruct (_ && _)|destruct (_ <=? _)%nat]; try by (exists l1; cbn [snd]; split_and!; [done..|lia]).
- destruct (Hnext (status_pause options response attempt) w1) as (l2 & Hl2 & ? & ?). rewrite Hl1 in Hl2.
  exists (l1 ++ l2). by eapply (sends_seq _ _ w l1 l2).
- destruct (Hnext (backoff options attempt) w1) as (l2 & Hl2 & ? & ?). rewrite Hl1 in Hl2.
  exists (l1 ++ l2). by eapply (sends_seq _ _ w l1 l2).
Qed.

Lemma sends_with_retry options gate r :
sends 0 gate → allowed r →
sends (S (retry_limit options) * if counted r then 1 else 0) (requestWithRetry options gate r).
Proof.
intros Hg Hr. unfold requestWithRetry. apply sends_silent_bind.
- destruct (requiresDiscovery _); [|apply sends_ret]. apply sends_silent_bind; [done|]. intros _. apply sends_ret.
- intros _. apply sends_silent_bind; [apply sends_lift|]. intros headers. cbv zeta.
  eapply sends_mono; [|by apply sends_attempts]. apply Nat.mul_le_mono_r.
  destruct (_ || _ || _); lia.
Qed.
End sends.

(** ** Starting a capture, and starting it again *)

(** The runtime client over the host's transport. *)
Definition http_runtime : CaptureRuntimeClient :=
  {| client_transport := host_transport; client_retry := {| maxRetries := None; retryBackoffMs := None |};
     client_contracts := no_contract_options |}.

Lemma new_HttpCaptureClient_runtime parse_url fetch browser :
  HttpCaptureClient.new_HttpCaptureClient parse_url fetch browser (Some host_transport) = Ok (Ok http_runtime).
Proof. vm_compute. reflexivity. Qed.

Section start.
Variables (sha256 : string → string) (Date_parse : string → num) (key : string).

Definition is_start (r : RuntimeTransportRequest) : bool := String.eqb (req_path r) "/v2/captures".

Definition keyed_start (r : RuntimeTransportRequest) : Prop :=
is_start r = true → req_method r = Some POST ∧ req_headers r = idempotent key.

#[local] Abbreviation starts := (sends keyed_start is_start).

Lemma silent_json gate r model :
starts 0 gate → is_start r = false → starts 0 (json_with Date_parse http_runtime gate r model).
Proof.
intros Hg Hr. unfold json_with, request_with. apply sends_silent_bind; [|intros ?; apply sends_lift].
pose proof (sends_with_retry keyed_start is_start (client_retry http_runtime) gate r Hg) as H.
rewrite Hr, Nat.mul_0_r in H. apply H. intros ?. congruence.
Qed.

Lemma silent_negotiation gate : starts 0 gate → starts 0 (negotiation sha256 Date_parse http_runtime gate).
Proof.
intros Hg. unfold negotiation, negotiateRuntime.
apply sends_silent_bind; [by apply silent_json|]. intros ready.
do 2 (apply sends_lift_bind; intros ? _). apply sends_silent_bind; [by apply silent_json|]. intros index.
apply sends_lift_bind. intros _ _. apply sends_lift_bind. intros href (digest & -> & _)%bundle_path_Ok.
apply sends_silent_bind; [|intros response].
{ change 0%nat with (if is_start (bundle_request (contracts_prefix +:+ digest)) then 1 else 0)%nat.
  by apply sends_request. }
apply sends_lift_bind. intros [hash bundle] _. apply sends_silent_bind; [by apply silent_json|]. intros streaming.
apply sends_lift_bind. intros _ _. apply sends_ret.
Qed.

Lemma silent_discover : starts 0 (discover sha256 Date_parse http_runtime).
Proof.
intros w. unfold discover, discover_nested, cached. destruct (negotiated w).
- by apply (sends_ret keyed_start is_start r w).
- destruct (silent_negotiation _ (sends_throw _ _ (OtherError "waits for itself")) w) as (l & Hl & ? & ?).
  exists l. by destruct (negotiation _ _ _ _ w) as [[d|e] w1].
Qed.

#[local] Abbreviation json := (Client.json sha256 Date_parse http_runtime) (only parsing).

Lemma silent_request r model : is_start r = false → starts 0 (json r model).
Proof. apply silent_json, silent_discover. Qed.

Lemma start_is_keyed upload id pages model :
up_clientRequestId upload = key → starts 3 (json (start_request upload id pages) model).
Proof.
intros Hkey. unfold Client.json, json_with, request_with.
apply sends_bind_silent; [|intros ?; apply sends_lift].
apply (sends_with_retry keyed_start is_start (client_retry http_runtime) _ (start_request upload id pages)).
- apply silent_discover.
- intros _. by rewrite <-Hkey.
Qed.

(** The statements of the [try] block and the clean-up. *)
Lemma silent_guarded {A} ingestion n (m : io A) : starts n m → starts n (guarded json ingestion m).
Proof.
intros Hm. unfold guarded. rewrite <-(Nat.add_0_r n). apply sends_try; [done|]. intros e. unfold abandon.
apply sends_lift_bind. intros path (id & _ & [= <-])%bind_Ok.
apply sends_silent_bind; [|intros _; apply sends_throw].
apply (sends_try _ _ 0 0); [|intros _; apply sends_ret].
apply sends_silent_bind; [by apply silent_request|]. intros _. apply sends_ret.
Qed.

Lemma silent_chunks fuel bytes maxChunk ingestion offset :
starts 0 (upload_chunks sha256 json fuel bytes maxChunk ingestion offset).
Proof.
revert ingestion offset. induction fuel as [|fuel IH]; intros ingestion offset; cbn [upload_chunks];
  (apply sends_silent_bind; [apply silent_guarded, sends_lift|]); intros [];
  try apply sends_ret; [apply sends_throw|].
apply sends_silent_bind.
- apply silent_guarded. apply sends_lift_bind. intros chunk _. unfold put_chunk. apply sends_lift_bind.
  intros request (path & (id & _ & [= <-])%bind_Ok & H)%bind_Ok.
  apply bind_Ok in H as (index & _ & H). apply bind_Ok in H as (range & _ & H).
  apply bind_Ok in H as (id' & _ & [= <-]). by apply silent_request.
- intros next. apply sends_silent_bind; [apply silent_guarded, sends_lift|]. intros past. apply IH.
Qed.

Lemma starts_upload upload :
up_clientRequestId upload = key → starts 3 (Client.startStreamingCapture sha256 Date_parse http_runtime upload).
Proof.
intros Hkey. unfold Client.startStreamingCapture, startStreamingCapture.
apply sends_lift_bind. intros pages _. cbv zeta.
apply sends_silent_bind; [by apply silent_request|]. intros capabilities.
apply sends_lift_bind. intros maxChunkBytes _.
apply sends_silent_bind; [by apply silent_request|]. intros open.
apply sends_silent_bind; [apply silent_guarded, sends_lift|]. intros offset.
apply sends_silent_bind; [apply silent_chunks|]. intros ingestion. unfold finish_upload.
apply sends_silent_bind.
- apply silent_guarded, sends_lift_bind. intros path (id & _ & [= <-])%bind_Ok. by apply silent_request.
- intros final. apply sends_silent_bind; [apply silent_guarded, sends_lift|]. intros id. by apply start_is_keyed.
Qed.
End start.

(** ** The retries of both layers together *)

(** An operation of the adapter as the observable that [retryUncertainResponse]
    subscribes to. *)
Definition observable_of {A} (m : World → result caught A * World) : observable (S:=World) (A:=A) := λ w,
  match m w with
  | (Ok a, w') => (([a], None), w')
  | (Err e, w') => (([], Some e), w')
  end.

Lemma sends_observable_of allowed counted n engine_message {A} (m : io A) :
  sends allowed counted n m → sends allowed counted n (observable_of (fromRuntime engine_message m)).
Proof.
  intros Hm w. destruct (Hm w) as (l & Hl & ? & ?). exists l. unfold observable_of, fromRuntime.
  by destruct (m w) as [[a|e] w1].
Qed.

Lemma sends_replayed {A} allowed counted n (operation : observable (A:=A)) aborted :
  sends allowed counted n operation → sends allowed counted (n + n) (retryUncertainResponse operation aborted).
Proof.
  intros Hm w. destruct (Hm w) as (l1 & Hl1 & ? & ?). unfold retryUncertainResponse.
  destruct (operation w) as [[values [e|]] w1]; cbn [snd] in Hl1.
  - destruct (aborted w1); [exists l1; cbn [snd]; split_and!; [done..|lia]|].
    destruct (isUncertainResponseFailure e); [|exists l1; cbn [snd]; split_and!; [done..|lia]].
    destruct (Hm w1) as (l2 & Hl2 & ? & ?). rewrite Hl1 in Hl2. exists (l1 ++ l2).
    destruct (operation w1) as [[more last] w2]. by eapply (sends_seq _ _ _ _ w l1 l2).
  - exists l1. cbn [snd]. split_and!; [done..|lia].
Qed.

(** A capture is started under one key: however the runtime answers and
    however often the runtime client and the UI library try again, every
    request to start it is a POST with the idempotency key of the request the
    user's file was queued with, and there are at most six of them. *)
Lemma replayed_start_keeps_its_key sha256 Date_parse engine_message request aborted w :
  let start := HttpCaptureClient.startStreamingCapture sha256 Date_parse engine_message http_runtime request in
  ∃ l, log (retryUncertainResponse (observable_of start) aborted w).2 = log w ++ l ∧
    Forall (λ r, req_path r = "/v2/captures" →
      req_method r = Some POST ∧ req_headers r = idempotent (start_id request)) (sent l) ∧
    (length (List.filter is_start (sent l)) ≤ 6)%nat.
Proof.
  cbv zeta. destruct (sends_replayed _ _ _ _ aborted (sends_observable_of _ _ _ engine_message _
    (starts_upload sha256 Date_parse (start_id request) (upload_of request) eq_refl)) w) as (l & Hl & Hall & Hn).
  exists l. split; [exact Hl|]. split; [|exact Hn]. eapply Forall_impl; [exact Hall|].
  intros r Hr Hp. apply Hr. unfold is_start. by rewrite Hp.
Qed.

(** Which errors of the runtime client the UI library takes for an uncertain
    outcome. *)
Lemma uncertain_runtime_errors engine_message e :
  isUncertainResponseFailure (toCaptureHttpError engine_message e) =
  match e with
  | Runtime e => is_str (err_code e) "invalid_response" || (err_status e =? 0) || (500 <=? err_status e)
  | TypeErr => true
  | AbortError | OtherError _ => false
  end.
Proof.
  destruct e as [e| | |]; try reflexivity.
  unfold isUncertainResponseFailure, toCaptureHttpError, js_Z. cbn [error_code error_status].
  replace (isAbortError _) with false by reflexivity.
  rewrite num_leb_Z, (num_eqb_int _ _ _ _ (to_int_of_Z _) (to_int_of_Z 0)). by destruct (is_str _ _).
Qed.

(** A request past the gate whose first reply is kept. *)
Lemma settled_at_once options gate r w d hs response rest :
  gate w = (Ok d, w) → new_headers (req_headers r) = Ok hs → replies w = Ok response :: rest →
  transient_status (resp_status response) = false →
  requestWithRetry (H:=host_transport) options gate r w =
    (Ok response, {| replies := rest; negotiated := negotiated w; log := log w ++ [Sent r] |}).
Proof.
  intros Hg Hh Hw Htr. unfold requestWithRetry, lift, mbind, io_bind. rewrite Hh.
  destruct (requiresDiscovery _); rewrite ?Hg; cbn [mret io_ret attempts];
    unfold transport_request, host_transport; by rewrite Hw, Htr.
Qed.

Lemma discovered sha256 Date_parse runtime d w : negotiated w = Some d → discover sha256 Date_parse runtime w = (Ok d, w).
Proof. intros Hd. unfold discover, discover_nested, cached. by rewrite Hd. Qed.

Lemma decodeJson_refused Date_parse response model e :
  400 ≤ resp_status response < 500 → decodeError response = e → decodeJson Date_parse response model = Err e.
Proof.
  intros Hst <-. unfold decodeJson, resp_ok. replace (resp_status response <=? 299) with false by lia.
  by rewrite andb_false_r.
Qed.

(** A refusal of the runtime with a text is no uncertain outcome. *)
Lemma definite_failure engine_message response :
  let error := prop (default Undefined (JSON_parse (resp_body response))) "error" in
  400 ≤ resp_status response < 500 →
  (nullish (prop error "message") = true ∨ ∃ text, prop error "message" = Str text) →
  is_str (prop error "code") "invalid_response" = false →
  ∃ e, decodeError response = e ∧ isUncertainResponseFailure (toCaptureHttpError engine_message e) = false ∧
    error_status (toCaptureHttpError engine_message e) = js_Z (resp_status response).
Proof.
  cbv zeta. intros Hst Hmsg Hcode. exists (decodeError response). split; [done|].
  rewrite uncertain_runtime_errors. unfold decodeError.
  set (error := prop (default Undefined (JSON_parse (resp_body response))) "error") in *.
  assert (∃ text, coalesce (prop error "message")
    (Str ("Capture Runtime request failed (" +:+ show_Z (resp_status response) +:+ ").")) = Str text) as [text ->].
  { destruct Hmsg as [Hm|[text ->]]; [|by exists text]. destruct (prop error "message"); naive_solver. }
  assert (is_str (coalesce (prop error "code") (Str ("http_" +:+ show_Z (resp_status response))))
    "invalid_response" = false) as Hc by (by destruct (prop error "code")).
  destruct (_ || _ || _ || _); cbn [new_authentication_error new_remote_error new_runtime_error err_code err_status
    toCaptureHttpError error_status]; rewrite ?Hc; (split; [|done]).
  all: replace (resp_status response =? 0) with false by lia;
    replace (500 <=? resp_status response) with false by lia; reflexivity.
Qed.

(** A definite refusal is sent once: when the runtime answers the request
    to install with a status from 400 to 499 that is none of 408, 425 and 429,
    and its error has a text, neither layer asks again, and the user sees an
    error of that status. *)
Lemma definite_refusal_is_sent_once sha256 Date_parse engine_message id key w d response rest :
  let request := post_json "/v2/runtime/installations" key (Obj [("requirementId", Str id); ("consent", Bool true)]) in
  let error := prop (default Undefined (JSON_parse (resp_body response))) "error" in
  let install := HttpCaptureClient.startInstallation sha256 Date_parse engine_message http_runtime id key in
  negotiated w = Some d → replies w = Ok response :: rest → forallb legal_header (idempotent key) = true →
  400 ≤ resp_status response < 500 → transient_status (resp_status response) = false →
  (nullish (prop error "message") = true ∨ ∃ text, prop error "message" = Str text) →
  is_str (prop error "code") "invalid_response" = false →
  ∃ e w', retryUncertainResponse (observable_of install) (λ _, false) w = (([], Some e), w') ∧
    error_status e = js_Z (resp_status response) ∧ log w' = log w ++ [Sent request] ∧ replies w' = rest.
Proof.
  cbv zeta. intros Hd Hw Hkey Hst Htr Hmsg Hcode.
  destruct (definite_failure engine_message response Hst Hmsg Hcode) as (e & He & Hunc & Hstatus).
  set (w' := {| replies := rest; negotiated := negotiated w; log := log w ++ [Sent (post_json
    "/v2/runtime/installations" key (Obj [("requirementId", Str id); ("consent", Bool true)]))] |}).
  assert (Hrun : Client.startInstallation sha256 Date_parse http_runtime id key w = (Err e, w')).
  { unfold Client.startInstallation, Client.json, json_with, request_with.
    erewrite io_bind_Ok by (eapply settled_at_once; try done; [by apply (discovered _ _ _ d)|];
      unfold new_headers; cbn [post_json req_headers]; by rewrite Hkey).
    unfold lift. by rewrite (decodeJson_refused Date_parse response (Some M_RuntimeInstallation) e Hst He). }
  exists (toCaptureHttpError engine_message e), w'. split; [|by rewrite Hstatus].
  unfold retryUncertainResponse, observable_of, HttpCaptureClient.startInstallation, fromRuntime. rewrite Hrun.
  by rewrite Hunc.
Qed.

Definition refusing_world : World :=
  {| replies := [Ok (plain_response 409 []); Ok (plain_response 200 [])]; negotiated := Some sample_discovery; log := [] |}.

Lemma definite_refusal_is_sent_once_witness : ∃ e w',
  retryUncertainResponse
    (observable_of (HttpCaptureClient.startInstallation (λ _, "") (λ _, NaN) "" http_runtime "windowsml-ocr" "key-1"))
    (λ _, false) refusing_world = (([], Some e), w') ∧
  error_status e = js_Z 409 ∧
  log w' = [] ++ [Sent (post_json "/v2/runtime/installations" "key-1"
                          (Obj [("requirementId", Str "windowsml-ocr"); ("consent", Bool true)]))] ∧
  replies w' = [Ok (plain_response 200 [])].
Proof.
  apply (definite_refusal_is_sent_once (λ _, "") (λ _, NaN) "" "windowsml-ocr" "key-1" refusing_world
    sample_discovery (plain_response 409 [])); try reflexivity; [by vm_compute|by left].
Defined.

(** ** Concurrent callers of getReady

    Every call shares the promise of the field and wraps it in a [catch] of its
    own, which becomes the field.  A promise is a negotiation of the runtime
    client or such a [catch], with the index of the promise it waits for. *)
Module ReadyCache.
Inductive status : Type := Pending | Fulfilled | Rejected.

Record state : Type := {
discovery : option nat;
promises : list (status * option nat)
}.

Definition init : state := {| discovery := None; promises := [] |}.

(** [getReady()] *)
Definition call (s : state) : state :=
let n := length (promises s) in
match discovery s with
| Some active => {| discovery := Some n; promises := promises s ++ [(Pending, Some active)] |}
| None => {| discovery := Some (S n); promises := promises s ++ [(Pending, None); (Pending, Some n)] |}
end.

(** A negotiation ends. *)
Definition settle (p : nat) (success : bool) (s : state) : state :=
{| discovery := discovery s; promises := <[p := (if success then Fulfilled else Rejected, None)]> (promises s) |}.

(** The handler of a [catch] runs: a rejection clears the field, whoever set it. *)
Definition react (p parent : nat) (success : bool) (s : state) : state :=
{| discovery := if success then discovery s else None;
   promises := <[p := (if success then Fulfilled else Rejected, Some parent)]> (promises s) |}.

Inductive step : state → state → Prop :=
| step_call s : step s (call s)
| step_settle p b s : promises s !! p = Some (Pending, None) → step s (settle p b s)
| step_react p parent b s grand :
  promises s !! p = Some (Pending, Some parent) →
  promises s !! parent = Some (if b : bool then Fulfilled else Rejected, grand) → step s (react p parent b s).

Definition reachable : state → Prop := rtc step init.

(** No handler is due. *)
Definition quiet (s : state) : Prop := ∀ p parent st grand,
promises s !! p = Some (Pending, Some parent) → promises s !! parent = Some (st, grand) → st = Pending.

(** The promise waits for a negotiation that has not ended. *)
Inductive awaits (s : state) : nat → Prop :=
| awaits_negotiation p : promises s !! p = Some (Pending, None) → awaits s p
| awaits_catch p parent : promises s !! p = Some (Pending, Some parent) → awaits s parent → awaits s p.

(** The field holds a [catch] that was not rejected; a [catch] is younger than
  what it waits for. *)
Definition invariant (s : state) : Prop :=
(∀ p, discovery s = Some p → ∃ st parent, promises s !! p = Some (st, Some parent) ∧ st ≠ Rejected) ∧
(∀ p st parent, promises s !! p = Some (st, Some parent) → (parent < p)%nat).

Lemma ready_invariant_call s : invariant s → invariant (call s).
Proof.
intros [Hf Hp]. unfold call. destruct (discovery s) as [active|] eqn:Hd; split; cbn [discovery promises].
- intros p [= <-]. exists Pending, active. by rewrite lookup_app_r, Nat.sub_diag by done.
- intros p st parent [Hl|[Hge Hl]]%lookup_app_Some; [by eapply Hp|].
  apply list_lookup_singleton_Some in Hl as [Hl [= <- <-]].
  destruct (Hf active eq_refl) as (st' & parent' & Ha%lookup_lt_Some & _). lia.
- intros p [= <-]. exists Pending, (length (promises s)).
  by rewrite lookup_app_r, (Nat.sub_succ_l _ _ (le_n _)), Nat.sub_diag by lia.
- intros p st parent [Hl|[Hge Hl]]%lookup_app_Some; [by eapply Hp|].
  destruct (p - length (promises s))%nat as [|[|k]] eqn:Hk; try done. injection Hl as <- <-. lia.
Qed.

Lemma ready_invariant_settle p b s : promises s !! p = Some (Pending, None) → invariant s → invariant (settle p b s).
Proof.
intros Hl [Hf Hp]. unfold settle. split; cbn [discovery promises].
- intros q (st & parent & Hq & Hst)%Hf. exists st, parent. split; [|done].
  rewrite list_lookup_insert_ne; [done|]. intros ->. congruence.
- intros q st parent [(_ & [=] & _)|[_ Hq]]%list_lookup_insert_Some. by eapply Hp.
Qed.

Lemma ready_invariant_react p parent b s :
promises s !! p = Some (Pending, Some parent) → invariant s → invariant (react p parent b s).
Proof.
intros Hl [Hf Hp]. unfold react. split; cbn [discovery promises].
- intros q Hq. destruct b; [|done]. destruct (Hf q Hq) as (st & parent' & Hs & Hst).
  destruct (decide (p = q)) as [<-|Hne].
  + exists Fulfilled, parent. split; [|done]. by eapply list_lookup_insert_eq, lookup_lt_Some.
  + exists st, parent'. by rewrite list_lookup_insert_ne.
- intros q st parent' [(<- & [= _ <-] & _)|[_ Hq]]%list_lookup_insert_Some; by eapply Hp.
Qed.

Lemma ready_reachable_invariant s : reachable s → invariant s.
Proof.
intros H. apply (rtc_ind_r (R:=step) invariant init); [by split|intros x y _ Hxy IH|exact H].
destruct Hxy; [by apply ready_invariant_call|by apply ready_invariant_settle|by apply ready_invariant_react].
Qed.

(** No failed readiness is kept: whatever order calls, negotiations and
  handlers take, as soon as no handler is due the field is empty, or holds a
  promise that was fulfilled, or one that waits for a negotiation that has not
  ended.  So a call after a failure negotiates anew. *)
Lemma failed_readiness_is_not_kept s :
reachable s → quiet s →
match discovery s with
| None => True
| Some p => (∃ parent, promises s !! p = Some (Fulfilled, Some parent)) ∨ awaits s p
end.
Proof.
intros [Hf Hp]%ready_reachable_invariant Hq. destruct (discovery s) as [p|] eqn:Hd; [|done].
destruct (Hf p eq_refl) as (st & parent & Hl & Hst). destruct st; [right|left; by exists parent|done].
clear Hd Hst Hf. revert parent Hl. induction p as [p IH] using lt_wf_ind. intros parent Hl.
eapply awaits_catch; [exact Hl|]. pose proof (Hp _ _ _ Hl) as Hlt.
destruct (lookup_lt_is_Some_2 (promises s) parent) as [[st grand] Hg].
{ pose proof (lookup_lt_Some _ _ _ Hl). lia. }
rewrite (Hq _ _ _ _ Hl Hg) in Hg. destruct grand as [grand|]; [by apply (IH parent Hlt grand)|by apply awaits_negotiation].
Qed.

(** Two callers share a negotiation; it fails, and both handlers have run. *)
Lemma failed_readiness_is_not_kept_witness :
let s := react 2 1 false (react 1 0 false (settle 0 false (call (call init)))) in
discovery s = None ∧
match discovery (call s) with
| None => True
| Some p => (∃ parent, promises (call s) !! p = Some (Fulfilled, Some parent)) ∨ awaits (call s) p
end.
Proof.
split; [done|]. apply failed_readiness_is_not_kept.
- eapply rtc_l; [apply step_call|]. eapply rtc_l; [apply step_call|].
  eapply rtc_l; [by apply (step_settle 0 false)|]. eapply rtc_l; [by eapply (step_react 1 0 false)|].
  eapply rtc_l; [by eapply (step_react 2 1 false)|]. eapply rtc_l; [apply step_call|]. apply rtc_refl.
- intros [|[|[|[|[|p]]]]] parent st grand; cbn; try done. intros [= <-]; cbn. by intros [= <- _].
Defined.
End ReadyCache.
