(* ===== verification/CanonicalJson.v ===== *)
(** * Canonical JSON of the acceptance contract

    Models the shared part of
    packages/capture-acceptance-contract/src/codecs.ts: the error classes, the
    field readers every decoder is made of, the canonical serializer with its
    sorted keys, the strict parser and the self-excluded digest.

    [TextDecoder] and the SHA-256 of node:crypto are parameters.  A text is
    Latin-1 (see [JsString]), so it never starts with the byte order mark
    U+FEFF; the three bytes that encode it are tested as the code does. *)

From stdpp Require Import sorting.
From S2P Require Import Prelude JsString JsNum JsValue Json JsCoerce Stringify.

(** ** Errors *)

Inductive AcceptanceContractCodecError : Type :=
| CodecError (message : string)
| CapabilityReplayError (handleDigest : string)
| CapabilityNotIssuedError (handleDigest : string).

(** [error.message] *)
Definition codec_error_message (error : AcceptanceContractCodecError) : string :=
  match error with
  | CodecError message => message
  | CapabilityReplayError d => "Acceptance capability was already consumed: " +:+ d
  | CapabilityNotIssuedError d => "Acceptance capability was not issued: " +:+ d
  end.

Notation checked A := (result AcceptanceContractCodecError A).

Definition fail {A} (message : string) : checked A := Err (CodecError message).

(** [if (bad) fail(message);] *)
Definition fail_if (bad : bool) (message : string) : checked unit :=
  reject_if bad (CodecError message).

(** ** Sorted keys *)

Definition string_le (s t : string) : Prop := String.leb s t = true.

#[export] Instance string_le_dec : RelDecision string_le.
Proof. intros s t. unfold string_le. apply _. Defined.

(** [keys.sort()]: by code units. *)
Definition sort_keys (l : list string) : list string := merge_sort string_le l.

(** ** Field readers *)

Definition record (value : js) (context : string) : checked fields :=
  match as_object value with
  | Some r => Ok r
  | None => fail (context +:+ " must be an object")
  end.

Definition exactKeys (value : fields) (expected : list string) (context : string) : checked unit :=
  fail_if (bool_decide (sort_keys (keys value) ≠ sort_keys expected))
    (context +:+ " has an unknown or missing field").

Definition stringValue (value : js) (context : string) : checked string :=
  match value with
  | Str s => fail_if (String.eqb s "") (context +:+ " must be a non-empty string");; Ok s
  | _ => fail (context +:+ " must be a non-empty string")
  end.

(** [OPAQUE_PATTERN], [/^[A-Za-z0-9][A-Za-z0-9._:-]*$/u] *)
Definition is_opaque_value (s : string) : bool :=
  match s with
  | "" => false
  | String c s' => is_alnum c &&
      all_chars (λ d, is_alnum d || Ascii.eqb d "." || Ascii.eqb d "_" || Ascii.eqb d ":" || Ascii.eqb d "-") s'
  end.

Definition opaque (value : js) (context : string) : checked string :=
  s ← stringValue value context;
  fail_if (negb (is_opaque_value s)) (context +:+ " must be an opaque value");; Ok s.

Definition assertSha256 (value : js) (context : string) : checked string :=
  s ← stringValue value context;
  fail_if (negb (is_sha256_hex s)) (context +:+ " must be lowercase SHA-256");; Ok s.

(** A number that is an integer is read as the integer. *)
Definition integer (value : js) (context : string) (minimum : Z) : checked Z :=
  let error := context +:+ " must be an integer >= " +:+ show_Z minimum in
  match value with
  | Num n => match to_int n with
             | Some z => fail_if (z <? minimum) error;; Ok z
             | None => fail error
             end
  | _ => fail error
  end.

Definition ratio (value : js) (context : string) : checked num :=
  match value with
  | Num n => fail_if (negb (is_finite n) || num_ltb n (num_of_Z 0) || num_ltb (num_of_Z 1) n)
               (context +:+ " must be a finite ratio");; Ok n
  | _ => fail (context +:+ " must be a finite ratio")
  end.

Definition nonNegativeFinite (value : js) (context : string) : checked num :=
  match value with
  | Num n => fail_if (negb (is_finite n) || num_ltb n (num_of_Z 0))
               (context +:+ " must be a finite non-negative number");; Ok n
  | _ => fail (context +:+ " must be a finite non-negative number")
  end.

Definition arrayValue (value : js) (context : string) : checked (list js) :=
  match value with
  | Arr l => fail_if (bool_decide (l = [])) (context +:+ " must be a non-empty array");; Ok l
  | _ => fail (context +:+ " must be a non-empty array")
  end.

(** [enumValue(value, allowed, context)]; [allowed] pairs each string with the
    value of the model that stands for it. *)
Definition enumValue {A} (value : js) (allowed : list (string * A)) (context : string) : checked A :=
  match value with
  | Str s => match table_find allowed s with
             | Some a => Ok a
             | None => fail (context +:+ " has an invalid value")
             end
  | _ => fail (context +:+ " has an invalid value")
  end.

Definition uniqueDigests (values : list string) (context : string) : checked (list string) :=
  fail_if (bool_decide (¬ NoDup values)) (context +:+ " must contain unique digests");; Ok values.

(** [`${context}[${index}]`] *)
Definition at_index (context : string) (index : nat) : string :=
  context +:+ "[" +:+ show_nat index +:+ "]".

(** ** The canonical serializer *)

Definition WRONG_TYPE : string := "canonical JSON cannot contain this value type".

Fixpoint canonicalJsonValue (value : js) : checked string :=
  match value with
  | Undefined => fail WRONG_TYPE
  | Null => Ok "null"
  | Bool b => Ok (if b then "true" else "false")
  | Str s => Ok (json_string s)
  | Num n =>
      fail_if (negb (is_finite n)) "canonical JSON cannot contain a non-finite number";;
      Ok (json_number n)
  | Arr l =>
      texts ← mapM_idx (λ _ text, text) (map canonicalJsonValue l);
      Ok ("[" +:+ join "," texts +:+ "]")
  | Obj r =>
      let encoded := map (λ kv, (kv.1, canonicalJsonValue kv.2)) r in
      texts ← mapM_idx (λ _ key,
        text ← default (fail WRONG_TYPE) (table_find encoded key);
        Ok (json_string key +:+ ":" +:+ text)) (sort_keys (keys r));
      Ok ("{" +:+ join "," texts +:+ "}")
  end.

Definition canonicalJson (value : js) : checked string := canonicalJsonValue value.

(** [string | Uint8Array] *)
Inductive Input : Type :=
| Text (text : string)
| Bytes (bytes : list Z).

Definition has_bom (bytes : list Z) : bool :=
  match bytes with
  | a :: b :: c :: _ => (a =? 239) && (b =? 187) && (c =? 191)
  | _ => false
  end.

Section codec.
Variables (utf8_decode : list Z → option string) (sha256 : string → string).

Definition input_text (input : Input) : checked string :=
  match input with
  | Text text => Ok text
  | Bytes bytes =>
      fail_if (has_bom bytes) "record JSON must not contain a UTF-8 BOM";;
      match utf8_decode bytes with
      | Some text => Ok text
      | None => fail "record is not valid UTF-8"
      end
  end.

Definition parseJson (input : Input) : checked (string * js) :=
  text ← input_text input;
  match JSON_parse text with
  | None => fail "record is not valid JSON"
  | Some value =>
      canonical ← canonicalJson value;
      fail_if (negb (String.eqb canonical text)) "record JSON is not canonical";;
      Ok (text, value)
  end.

Definition sha256Canonical (value : js) : checked string := sha256 <$> canonicalJson value.

(** [delete copy[field]] *)
Definition without (field : string) (r : fields) : fields :=
  List.filter (λ kv, negb (String.eqb kv.1 field)) r.

Definition selfExcludedDigest (value : fields) (field : string) : checked string :=
  sha256Canonical (Obj (without field value)).

Definition decodeCanonical {T} (input : Input) (decoder : js → checked T) : checked T :=
  parsed ← parseJson input; decoder parsed.2.
End codec.

(** ** Facts about the key order *)

Lemma string_leb_cons a s b t :
  String.leb (String a s) (String b t) = true ↔
  (code a < code b)%Z ∨ a = b ∧ String.leb s t = true.
Proof.
  assert (Hcode : code a = code b ↔ a = b).
  { unfold code. split; [|by intros ->]. intros ?%N2Z.inj.
    rewrite <-(ascii_N_embedding a), <-(ascii_N_embedding b). congruence. }
  unfold String.leb. cbn. unfold Ascii.compare, code in *.
  destruct (N.compare_spec (N_of_ascii a) (N_of_ascii b)); naive_solver lia.
Qed.

Lemma string_leb_nil t : String.leb "" t = true.
Proof. by destruct t. Qed.

#[export] Instance string_le_trans : Transitive string_le.
Proof.
  intros s. unfold string_le. induction s as [|a s IH]; intros [|b t] [|c u]; try done.
  rewrite !string_leb_cons. intros [?|[-> ?]] [?|[-> ?]]; [left; lia|by left|by left|].
  right. eauto.
Qed.

#[export] Instance string_le_antisymm : AntiSymm (=) string_le.
Proof. intros s t. apply String.leb_antisym. Qed.

#[export] Instance string_le_total : Total string_le.
Proof. intros s t. apply String.leb_total. Qed.

Lemma sort_keys_perm l : sort_keys l ≡ₚ l.
Proof. apply merge_sort_Permutation. Qed.

(** Sorting identifies exactly the permutations. *)
Lemma sort_keys_unique l k : sort_keys l = sort_keys k ↔ l ≡ₚ k.
Proof.
  split.
  - intros H. by rewrite <-(sort_keys_perm l), H, sort_keys_perm.
  - intros H. apply (Sorted_unique string_le); [apply Sorted_merge_sort; apply _..|].
    by rewrite !sort_keys_perm.
Qed.

Lemma fail_if_Ok b m u : fail_if b m = Ok u ↔ b = false.
Proof. apply reject_if_Ok. Qed.

(** Inversion of every successful reader in the context. *)
Ltac inv_checked :=
  repeat (inv_ok; match goal with
  | H : fail_if _ _ = Ok _ |- _ => apply fail_if_Ok in H
  | H : fail _ = Ok _ |- _ => discriminate H
  | H : (_, _) = (_, _) |- _ => injection H as ? ?
  end); inv_ok; subst.

Lemma exactKeys_Ok r expected context u :
  exactKeys r expected context = Ok u ↔ keys r ≡ₚ expected.
Proof.
  unfold exactKeys. rewrite fail_if_Ok, bool_decide_eq_false, <-sort_keys_unique.
  destruct (decide (sort_keys (keys r) = sort_keys expected)); naive_solver.
Qed.

(** ** One text per record

    [reorder v w]: [w] is [v] with the fields of its objects, at any depth, in
    another order. *)

Inductive reorder : js → js → Prop :=
| reorder_refl v : reorder v v
| reorder_trans u v w : reorder u v → reorder v w → reorder u w
| reorder_fields r r' : NoDup (keys r) → r ≡ₚ r' → reorder (Obj r) (Obj r')
| reorder_member l k v v' r : reorder v v' → reorder (Obj (l ++ (k, v) :: r)) (Obj (l ++ (k, v') :: r))
| reorder_item l v v' r : reorder v v' → reorder (Arr (l ++ v :: r)) (Arr (l ++ v' :: r)).

Lemma table_find_perm {A} (t t' : list (string * A)) key :
  NoDup (map fst t) → t ≡ₚ t' → table_find t key = table_find t' key.
Proof.
  intros Hnd Hp. assert (Hnd' : NoDup (map fst t')) by (by rewrite <-Hp).
  apply option_eq. intros v. rewrite !table_find_Some by done. by rewrite Hp.
Qed.

Lemma mapM_from_ext {E A B} i (f g : nat → A → result E B) l :
  (∀ j x, f j x = g j x) → mapM_from i f l = mapM_from i g l.
Proof.
  intros H. revert i. induction l as [|x l IH]; intros i; cbn; [done|]. by rewrite H, IH.
Qed.

(** The order of the fields does not reach the canonical text. *)
Lemma canonicalJson_reorder v w : reorder v w → canonicalJsonValue v = canonicalJsonValue w.
Proof.
  intros H. induction H as [|u v w _ IH1 _ IH2|r r' Hnd Hp|l k v v' r _ IH|l v v' r _ IH]; [done|congruence|..].
  - cbn [canonicalJsonValue]. assert (Hk : sort_keys (keys r) = sort_keys (keys r')).
    { apply sort_keys_unique. unfold keys. by rewrite Hp. }
    rewrite Hk. unfold mapM_idx. erewrite mapM_from_ext; [done|]. intros j key. cbn beta.
    erewrite table_find_perm; [done| |by rewrite Hp]. rewrite map_map. exact Hnd.
  - cbn [canonicalJsonValue]. unfold keys. rewrite !map_app. cbn [map fst snd]. by rewrite IH.
  - cbn [canonicalJsonValue]. rewrite !map_app. cbn [map]. by rewrite IH.
Qed.

Lemma parseJson_Ok utf8_decode input text value :
  parseJson utf8_decode input = Ok (text, value) →
  input_text utf8_decode input = Ok text ∧ JSON_parse text = Some value ∧
  canonicalJson value = Ok text.
Proof.
  unfold parseJson. intros H. inv_checked. destruct (JSON_parse _) eqn:Hp; [|done]. inv_checked.
  simplify_eq. bsimp. subst. done.
Qed.

(** Two accepted inputs whose records differ at most in the order of the
    fields, at any depth, are the same text: the decoders accept one
    serialization per record, so digests over the bytes identify records. *)
Lemma one_text_per_record utf8_decode input input' text text' value value' :
  parseJson utf8_decode input = Ok (text, value) →
  parseJson utf8_decode input' = Ok (text', value') →
  reorder value value' → text = text'.
Proof.
  intros (_ & _ & H1)%parseJson_Ok (_ & _ & H2)%parseJson_Ok H%canonicalJson_reorder.
  unfold canonicalJson in *. congruence.
Qed.

Definition ok_or {E A} (d : A) (r : result E A) : A := match r with Ok a => a | Err _ => d end.

(** Bytes of ASCII text, as the examples decode them. *)
Definition decode_ascii (bytes : list Z) : option string :=
  Some (string_of_list_ascii (map (λ b, ascii_of_N (Z.to_N b)) bytes)).
Definition encode_ascii (text : string) : list Z := map code (list_ascii_of_string text).

Definition sample_record : js :=
  Obj [("b", Arr [Bool true; Obj [("y", Null); ("x", js_Z 1)]]); ("a", Str "t")].
Definition sample_record_text : string := ok_or "" (canonicalJson sample_record).

Lemma one_text_per_record_witness :
  sample_record_text = sample_record_text.
Proof.
  apply (one_text_per_record decode_ascii (Text sample_record_text) (Bytes (encode_ascii sample_record_text))
    _ _ (Obj [("a", Str "t"); ("b", Arr [Bool true; Obj [("x", js_Z 1); ("y", Null)]])])
        (Obj [("a", Str "t"); ("b", Arr [Bool true; Obj [("x", js_Z 1); ("y", Null)]])])).
  - vm_compute. reflexivity.
  - vm_compute. reflexivity.
  - apply reorder_refl.
Defined.
