(* ===== verification/CapabilityRegistry.v ===== *)
(** * Single-use capabilities

    Models [CapabilityUseRegistry] of
    packages/capture-acceptance-contract/src/codecs.ts: a map from the digest of
    a handle to the context it was issued for and whether it was consumed. *)

From stdpp Require Import gmap.
From S2P Require Import Prelude JsString JsNum JsValue CanonicalJson.

Inductive ParentGate : Type := D4 | D7.

#[export] Instance ParentGate_eq_dec : EqDecision ParentGate.
Proof. solve_decision. Defined.

Definition parent_gates : list (string * ParentGate) := [("D4", D4); ("D7", D7)].

Record CapabilityUseContext : Type := {
  use_childId : string;
  use_legId : string;
  use_parentGate : ParentGate;
  use_invocationSha256 : string;
}.

Definition capabilityUseContext (value : js) (context : string) : checked CapabilityUseContext :=
  item ← record value context;
  exactKeys item ["childId"; "legId"; "parentGate"; "invocationSha256"] context;;
  childId ← assertSha256 (get item "childId") (context +:+ ".childId");
  legId ← stringValue (get item "legId") (context +:+ ".legId");
  parentGate ← enumValue (get item "parentGate") parent_gates (context +:+ ".parentGate");
  invocationSha256 ← assertSha256 (get item "invocationSha256") (context +:+ ".invocationSha256");
  Ok {| use_childId := childId; use_legId := legId; use_parentGate := parentGate;
        use_invocationSha256 := invocationSha256 |}.

Definition sameCapabilityContext (left right : CapabilityUseContext) : bool :=
  String.eqb (use_childId left) (use_childId right) &&
  String.eqb (use_legId left) (use_legId right) &&
  bool_decide (use_parentGate left = use_parentGate right) &&
  String.eqb (use_invocationSha256 left) (use_invocationSha256 right).

(** ** The registry *)

Record IssuedCapability : Type := {
  issued_context : CapabilityUseContext;
  consumed : bool;
}.

Abbreviation CapabilityUseRegistry := (gmap string IssuedCapability).

Definition HANDLE : string := "capability handle digest".
Definition CONTEXT : string := "capability context".

Definition issue (registry : CapabilityUseRegistry) (handleDigest context : js)
    : checked CapabilityUseRegistry :=
  digest ← assertSha256 handleDigest HANDLE;
  expectedContext ← capabilityUseContext context CONTEXT;
  match registry !! digest with
  | Some _ => fail ("Acceptance capability was already issued: " +:+ digest)
  | None => Ok (<[digest := {| issued_context := expectedContext; consumed := false |}]> registry)
  end.

(** The part [consume] and [isConsumed] share: the digest and its entry. *)
Definition issued_for (registry : CapabilityUseRegistry) (handleDigest context : js)
    : checked (string * IssuedCapability) :=
  digest ← assertSha256 handleDigest HANDLE;
  match registry !! digest with
  | None => Err (CapabilityNotIssuedError digest)
  | Some issued =>
      expectedContext ← capabilityUseContext context CONTEXT;
      fail_if (negb (sameCapabilityContext (issued_context issued) expectedContext))
        "acceptance capability context does not match issuance";;
      Ok (digest, issued)
  end.

Definition consume (registry : CapabilityUseRegistry) (handleDigest context : js)
    : checked CapabilityUseRegistry :=
  entry ← issued_for registry handleDigest context;
  reject_if (consumed entry.2) (CapabilityReplayError entry.1);;
  Ok (<[entry.1 := {| issued_context := issued_context entry.2; consumed := true |}]> registry).

Definition isConsumed (registry : CapabilityUseRegistry) (handleDigest context : js) : checked bool :=
  entry ← issued_for registry handleDigest context; Ok (consumed entry.2).

(** ** Calls on one registry *)

Inductive Call : Type :=
| Issue (handleDigest context : js)
| Consume (handleDigest context : js)
| IsConsumed (handleDigest context : js).

(** What a call answers; a method without a value answers [None]. *)
Definition Reply : Type := checked (option bool).

(** A call that throws leaves the registry as it was. *)
Definition settle_call (registry : CapabilityUseRegistry) (after : checked CapabilityUseRegistry)
    : CapabilityUseRegistry * Reply :=
  match after with
  | Ok registry' => (registry', Ok None)
  | Err e => (registry, Err e)
  end.

Definition perform (registry : CapabilityUseRegistry) (call : Call) : CapabilityUseRegistry * Reply :=
  match call with
  | Issue d c => settle_call registry (issue registry d c)
  | Consume d c => settle_call registry (consume registry d c)
  | IsConsumed d c => (registry, Some <$> isConsumed registry d c)
  end.

(** The calls made so far with their answers, the last one first. *)
Inductive history : CapabilityUseRegistry → list (Call * Reply) → Prop :=
| history_new : history ∅ []
| history_call registry log call :
    history registry log →
    history (perform registry call).1 ((call, (perform registry call).2) :: log).

(** ** Single use *)

Definition use_of (context : js) (use : CapabilityUseContext) : Prop :=
  capabilityUseContext context CONTEXT = Ok use.

Definition issued_in (log : list (Call * Reply)) (d : string) (use : CapabilityUseContext) : Prop :=
  ∃ context, (Issue (Str d) context, Ok None) ∈ log ∧ use_of context use.
Definition consumed_in (log : list (Call * Reply)) (d : string) : Prop :=
  ∃ context, (Consume (Str d) context, Ok None) ∈ log.

(** What the map records of the calls. *)
Definition records (registry : CapabilityUseRegistry) (log : list (Call * Reply)) : Prop :=
  ∀ d, match registry !! d with
       | Some entry => issued_in log d (issued_context entry) ∧ (consumed entry = true ↔ consumed_in log d)
       | None => ¬ consumed_in log d
       end.

Lemma sameCapabilityContext_spec a b : sameCapabilityContext a b = true ↔ a = b.
Proof. destruct a, b. unfold sameCapabilityContext. cbn. bsimp. naive_solver. Qed.

Lemma assertSha256_Ok v context d :
  assertSha256 v context = Ok d ↔ v = Str d ∧ is_sha256_hex d = true.
Proof.
  unfold assertSha256, stringValue. split.
  - intros H. inv_ok. destruct v; try done. inv_checked. by rewrite negb_false_iff in *.
  - intros [-> H]. cbn. destruct (String.eqb_spec d "") as [->|]; [done|]. cbn. by rewrite H.
Qed.

Lemma issued_for_Ok registry handle context d entry :
  issued_for registry handle context = Ok (d, entry) →
  handle = Str d ∧ registry !! d = Some entry ∧ use_of context (issued_context entry).
Proof.
  unfold issued_for. intros H. inv_ok. apply assertSha256_Ok in H0 as [-> Hd].
  destruct (registry !! x) as [e|] eqn:He; [|done]. inv_checked. simplify_eq.
  rewrite negb_false_iff, sameCapabilityContext_spec in H1. subst. done.
Qed.

Lemma issued_in_cons entry log d use : issued_in log d use → issued_in (entry :: log) d use.
Proof. intros (c & Hin & Hu). exists c. split; [by right|done]. Qed.

Lemma consumed_in_cons call reply log d :
  consumed_in ((call, reply) :: log) d ↔
  (∃ c, call = Consume (Str d) c ∧ reply = Ok None) ∨ consumed_in log d.
Proof.
  unfold consumed_in. setoid_rewrite elem_of_cons. naive_solver.
Qed.

(** A call that does not consume keeps what the map records. *)
Lemma records_quiet registry log call reply :
  (∀ d c, call = Consume (Str d) c → reply ≠ Ok None) →
  records registry log → records registry ((call, reply) :: log).
Proof.
  intros Hq H d. specialize (H d).
  assert (Hc : consumed_in ((call, reply) :: log) d ↔ consumed_in log d).
  { rewrite consumed_in_cons. naive_solver. }
  destruct (registry !! d) as [e|]; rewrite Hc; [|done].
  destruct H. split; [by apply issued_in_cons|done].
Qed.

Lemma records_issue registry log handle context registry' :
  records registry log → issue registry handle context = Ok registry' →
  records registry' ((Issue handle context, Ok None) :: log).
Proof.
  intros H Hi. unfold issue in Hi. inv_ok. apply assertSha256_Ok in H0 as [-> _].
  destruct (registry !! x) eqn:Hx; [done|]. inv_ok.
  apply (records_quiet _ _ (Issue (Str x) context) (Ok None)) in H; [|done].
  intros d. specialize (H d). destruct (decide (d = x)) as [->|].
  - rewrite Hx in H. rewrite lookup_insert_eq. cbn. split; [|naive_solver].
    exists context. split; [by left|done].
  - by rewrite lookup_insert_ne.
Qed.

Lemma records_consume registry log handle context registry' :
  records registry log → consume registry handle context = Ok registry' →
  records registry' ((Consume handle context, Ok None) :: log).
Proof.
  intros H Hc. unfold consume in Hc. inv_checked. destruct x as [x e].
  apply issued_for_Ok in H0 as (-> & Hx & Hu). cbn in *.
  intros d. specialize (H d). destruct (decide (d = x)) as [->|].
  - rewrite Hx in H. rewrite lookup_insert_eq. cbn. split; [apply issued_in_cons, H|].
    rewrite consumed_in_cons. naive_solver.
  - rewrite lookup_insert_ne by done. destruct (registry !! d) as [e'|]; rewrite consumed_in_cons.
    + destruct H. split; [by apply issued_in_cons|naive_solver].
    + naive_solver.
Qed.

Lemma history_records registry log : history registry log → records registry log.
Proof.
  intros Hh. induction Hh as [|registry log call _ IH].
  - intros d. rewrite lookup_empty. by intros (c & ?%elem_of_nil).
  - destruct call as [h c|h c|h c]; cbn.
    + destruct (issue registry h c) eqn:Hi; cbn; [by eapply records_issue|by apply records_quiet].
    + destruct (consume registry h c) eqn:Hi; cbn; [by eapply records_consume|by apply records_quiet].
    + by apply records_quiet.
Qed.

(** C37: Over any sequence of calls on one registry, a capability is consumed at
    most once, and only after it was issued for the same context: when
    [consume] succeeds, an earlier [issue] of the digest with an equal context
    succeeded and no earlier [consume] of the digest did; and [isConsumed]
    answers whether one did. *)
Theorem capability_consumed_once registry log d context :
  history registry log →
  ((perform registry (Consume (Str d) context)).2 = Ok None →
    (∃ use, issued_in log d use ∧ use_of context use) ∧ ¬ consumed_in log d) ∧
  (∀ b, (perform registry (IsConsumed (Str d) context)).2 = Ok (Some b) →
    (b = true ↔ consumed_in log d)).
Proof.
  intros Hr%history_records. specialize (Hr d). split.
  - cbn [perform]. destruct (consume registry (Str d) context) eqn:Hc; [intros _|by intros [=]].
    unfold consume in Hc. inv_checked. destruct x as [x e].
    apply issued_for_Ok in H as ([= <-] & Hx & Hu). cbn in *. rewrite Hx in Hr.
    destruct Hr as [Hi Hc]. rewrite H0 in Hc. split; [by eexists|]. naive_solver.
  - intros b. cbn [perform snd]. unfold isConsumed.
    destruct (issued_for registry (Str d) context) as [[x e]|] eqn:Hi; [|by intros [=]].
    intros [= <-]. apply issued_for_Ok in Hi as ([= <-] & Hx & Hu). rewrite Hx in Hr. apply Hr.
Qed.

Definition sample_digest (c : string) : string := String.concat "" (replicate 64 c).
Definition sample_use (leg : string) : js :=
  Obj [("childId", Str (sample_digest "1")); ("legId", Str leg); ("parentGate", Str "D4");
       ("invocationSha256", Str (sample_digest "2"))].

(** Issue, refuse another leg, consume, refuse the replay. *)
Definition sample_run (calls : list Call) : CapabilityUseRegistry * list (Call * Reply) :=
  fold_left (λ st call, let after := perform st.1 call in (after.1, (call, after.2) :: st.2)) calls (∅, []).

Example sample_replies :
  map snd (sample_run
    [Consume (Str (sample_digest "a")) (sample_use "leg");
     Issue (Str (sample_digest "a")) (sample_use "leg");
     Issue (Str (sample_digest "a")) (sample_use "leg");
     Consume (Str (sample_digest "a")) (sample_use "other");
     IsConsumed (Str (sample_digest "a")) (sample_use "leg");
     Consume (Str (sample_digest "a")) (sample_use "leg");
     IsConsumed (Str (sample_digest "a")) (sample_use "leg");
     Consume (Str (sample_digest "a")) (sample_use "leg")]).2 =
  [Err (CapabilityReplayError (sample_digest "a")); Ok (Some true); Ok None; Ok (Some false);
   Err (CodecError "acceptance capability context does not match issuance");
   Err (CodecError ("Acceptance capability was already issued: " +:+ sample_digest "a"));
   Ok None; Err (CapabilityNotIssuedError (sample_digest "a"))].
Proof. vm_compute. reflexivity. Qed.

Lemma history_run calls registry log :
  history registry log →
  let after := fold_left (λ st call, let after := perform st.1 call in (after.1, (call, after.2) :: st.2))
    calls (registry, log) in
  history after.1 after.2.
Proof.
  revert registry log. induction calls as [|call calls IH]; intros registry log H; [done|].
  cbn. apply IH. by constructor.
Qed.

Lemma capability_consumed_once_witness :
  let st := sample_run [Issue (Str (sample_digest "a")) (sample_use "leg")] in
  ¬ consumed_in st.2 (sample_digest "a").
Proof.
  cbv zeta. apply (capability_consumed_once (sample_run [Issue (Str (sample_digest "a")) (sample_use "leg")]).1
    (sample_run [Issue (Str (sample_digest "a")) (sample_use "leg")]).2 (sample_digest "a") (sample_use "leg")).
  - apply history_run. constructor.
  - vm_compute. reflexivity.
Defined.
