(* ===== verification/AcceptanceModel.v ===== *)
(** * Records of the acceptance contract

    The interfaces of packages/capture-acceptance-contract/src/codecs.ts.  A
    property whose type is a single literal ([schemaVersion], [producer], the
    clean-up flags, the privacy flags) carries no information and has no field
    here; the decoders check it all the same. *)

From S2P Require Import Prelude JsNum CapabilityRegistry.

Inductive Tier : Type := Candidate | Published.
Inductive MediaKind : Type := Jpeg | Pdf.
Inductive Outcome : Type := Passed | Failed.
Inductive SourceGate : Type := D3 | D6.

#[export] Instance Tier_eq_dec : EqDecision Tier.
Proof. solve_decision. Defined.
#[export] Instance MediaKind_eq_dec : EqDecision MediaKind.
Proof. solve_decision. Defined.
#[export] Instance Outcome_eq_dec : EqDecision Outcome.
Proof. solve_decision. Defined.
#[export] Instance SourceGate_eq_dec : EqDecision SourceGate.
Proof. solve_decision. Defined.

Record RootBinding : Type := {
  ordinal : Z;
  role : string;
  rootRefDigest : string;
  rootGeneration : Z;
  specDigest : string;
  reservedListenerIdentity : string;
}.

#[export] Instance RootBinding_eq_dec : EqDecision RootBinding.
Proof. solve_decision. Defined.

(** The fields of a bound [Binding], which are those of an expected one. *)
Record ExpectedBindingContext : Type := {
  bindingAttemptId : string;
  groupRefDigest : string;
  groupGeneration : Z;
  rootBindings_of : list RootBinding;
  activationReceiptDigest : string;
}.

#[export] Instance ExpectedBindingContext_eq_dec : EqDecision ExpectedBindingContext.
Proof. solve_decision. Defined.

Inductive Binding : Type :=
| unbound
| bound (context : ExpectedBindingContext).

Record ScopeBase : Type := {
  scope_contractSha256 : string;
  scope_parentGate : ParentGate;
  scope_tier : Tier;
  scope_runIdDigest : string;
  scope_sequenceIndex : Z;
  scope_childKey : string;
  scope_legId : string;
  scope_childId : string;
  scope_childPlanDigest : string;
}.

Inductive ProducerChildScope : Type :=
| PlannedChildScope (base : ScopeBase)
| PreparedChildScope (base : ScopeBase) (binding : ExpectedBindingContext)
| ReadyChildScope (base : ScopeBase) (binding : ExpectedBindingContext)
    (invocationSha256 outputPathNonce : string).

Inductive LedgerBinding : Type :=
| LedgerBindingD3 (ledgerSha256 candidateId candidateManifestSha256 : string)
| LedgerBindingD6 (ledgerSha256 publicationLedgerSha256 downloadBundleSha256 : string).

Definition sourceGate (ledger : LedgerBinding) : SourceGate :=
  match ledger with LedgerBindingD3 _ _ _ => D3 | LedgerBindingD6 _ _ _ => D6 end.

Record ArtifactDigest : Type := { artifactKey : string; artifact_sha256 : string }.

Record WireLedgerBinding : Type := {
  wire_ledger : LedgerBinding;
  wire_artifactDigests : list ArtifactDigest;
}.

Record FixtureAssignment : Type := {
  fixtureIndex : Z;
  fixtureKey : string;
  fixtureIdentitySha256 : string;
  mediaKind : MediaKind;
  page : option Z;
  mediaCapabilityHandle : string;
  mediaCapabilityHandleSha256 : string;
  oracleCapabilityHandle : string;
  oracleCapabilityHandleSha256 : string;
  mediaSha256 : string;
  oracleSha256 : string;
  expectedNormalizedTruthSha256 : string;
  expectedAnchorSetSha256 : string;
  cerThreshold : num;
  artifactId : string;
}.

Record ProducerChildInvocation : Type := {
  inv_contractSha256 : string;
  inv_parentGate : ParentGate;
  inv_tier : Tier;
  inv_sequenceIndex : Z;
  inv_childKey : string;
  inv_legId : string;
  inv_childId : string;
  inv_root : string;
  inv_binding : ExpectedBindingContext;
  inv_artifactIds : list string;
  inv_ledgerBinding : LedgerBinding;
  inv_predecessorCleanupProofSha256 : option string;
  inv_fixtureAssignments : list FixtureAssignment;
  inv_outputPathNonce : string;
  invocationSha256 : string;
}.

Record SemanticFixtureResult : Type := {
  res_fixtureIndex : Z;
  res_fixtureKey : string;
  res_fixtureIdentitySha256 : string;
  res_mediaKind : MediaKind;
  res_page : option Z;
  res_mediaCapabilityHandleSha256 : string;
  res_oracleCapabilityHandleSha256 : string;
  res_mediaSha256 : string;
  res_oracleSha256 : string;
  actualNormalizedOutputSha256 : string;
  res_expectedNormalizedTruthSha256 : string;
  res_expectedAnchorSetSha256 : string;
  cer : num;
  anchorOmissions : Z;
  res_cerThreshold : num;
  outcome_of : Outcome;
  projectionSha256 : string;
  res_artifactId : string;
}.

Record ConsumerSemanticResult : Type := {
  sem_contractSha256 : string;
  sem_consumer : string;
  sem_parentGate : ParentGate;
  sem_tier : Tier;
  sem_sequenceIndex : Z;
  sem_childKey : string;
  sem_legId : string;
  sem_childId : string;
  sem_artifactIds : list string;
  sem_fixtureResults : list SemanticFixtureResult;
  semanticResultSha256 : string;
}.

Record ProducerCleanup : Type := {
  reconcileRefSha256 : string;
  generation : Z;
  automaticAttempts : Z;
  proofSha256 : string;
}.

(** A [WireFixtureResult] adds two literals to a [SemanticFixtureResult]. *)
Record AcceptanceChildWire : Type := {
  wire_contractSha256 : string;
  wire_parentGate : ParentGate;
  wire_tier : Tier;
  wire_runIdDigest : string;
  wire_sequenceIndex : Z;
  wire_childKey : string;
  wire_legId : string;
  wire_childId : string;
  wire_root : string;
  wire_artifactIds : list string;
  wire_ledgerBinding : WireLedgerBinding;
  wire_invocationSha256 : string;
  wire_fixtureAssignments : list FixtureAssignment;
  wire_fixtureResults : list SemanticFixtureResult;
  childSemanticResultSha256 : string;
  producerCleanup_of : ProducerCleanup;
  wireSha256 : string;
}.
