(* ===== verification/AcceptanceCodec.v ===== *)
(** * Decoders of the acceptance contract

    Models the readers and the four record decoders of
    packages/capture-acceptance-contract/src/codecs.ts.  The checks run in the
    order of the code, so the first failing one gives the error. *)

From S2P Require Import Prelude JsString JsNum JsValue Json CanonicalJson CapabilityRegistry AcceptanceModel.

Definition tiers : list (string * Tier) := [("candidate", Candidate); ("published", Published)].
Definition media_kinds : list (string * MediaKind) := [("jpeg", Jpeg); ("pdf", Pdf)].
Definition source_gates : list (string * SourceGate) := [("D3", D3); ("D6", D6)].
Definition outcomes : list (string * Outcome) := [("passed", Passed); ("failed", Failed)].

Definition SCOPE_BASE_KEYS : list string :=
  ["schemaVersion"; "contractVersion"; "contractSha256"; "producer"; "parentGate"; "tier";
   "runIdDigest"; "sequenceIndex"; "childKey"; "legId"; "childId"; "childPlanDigest"; "readyState"; "binding"].

Definition INVOCATION_KEYS : list string :=
  ["schemaVersion"; "contractVersion"; "contractSha256"; "producer"; "parentGate"; "tier";
   "invocationState"; "sequenceIndex"; "childKey"; "legId"; "childId"; "root"; "groupRefDigest";
   "groupGeneration"; "bindingAttemptId"; "rootBindings"; "activationReceiptDigest"; "artifactIds";
   "ledgerBinding"; "predecessorCleanupProofSha256"; "fixtureAssignments"; "outputPathNonce";
   "invocationSha256"].

Definition SEMANTIC_KEYS : list string :=
  ["schemaVersion"; "contractVersion"; "contractSha256"; "consumer"; "parentGate"; "tier";
   "sequenceIndex"; "childKey"; "legId"; "childId"; "artifactIds"; "fixtureResults";
   "semanticResultSha256"].

Definition WIRE_KEYS : list string :=
  ["schemaVersion"; "contractVersion"; "contractSha256"; "producer"; "parentGate"; "tier";
   "runIdDigest"; "sequenceIndex"; "childKey"; "legId"; "childId"; "root"; "artifactIds";
   "ledgerBinding"; "invocationSha256"; "fixtureAssignments"; "fixtureResults";
   "childSemanticResultSha256"; "producerCleanup"; "privacy"; "wireSha256"].

Definition ROOT_BINDING_KEYS : list string :=
  ["ordinal"; "role"; "rootRefDigest"; "rootGeneration"; "specDigest"; "reservedListenerIdentity"].

Definition EXPECTED_BINDING_KEYS : list string :=
  ["bindingAttemptId"; "groupRefDigest"; "groupGeneration"; "rootBindings"; "activationReceiptDigest"].

Definition FIXTURE_ASSIGNMENT_KEYS : list string :=
  ["fixtureIndex"; "fixtureKey"; "fixtureIdentitySha256"; "mediaKind"; "page";
   "mediaCapabilityHandle"; "mediaCapabilityHandleSha256"; "oracleCapabilityHandle";
   "oracleCapabilityHandleSha256"; "mediaSha256"; "oracleSha256"; "expectedNormalizedTruthSha256";
   "expectedAnchorSetSha256"; "cerThreshold"; "artifactId"].

Definition SEMANTIC_RESULT_KEYS : list string :=
  ["fixtureIndex"; "fixtureKey"; "fixtureIdentitySha256"; "mediaKind"; "page";
   "mediaCapabilityHandleSha256"; "oracleCapabilityHandleSha256"; "mediaSha256"; "oracleSha256";
   "actualNormalizedOutputSha256"; "expectedNormalizedTruthSha256"; "expectedAnchorSetSha256";
   "cer"; "anchorOmissions"; "cerThreshold"; "outcome"; "projectionSha256"; "artifactId"].

Definition WIRE_RESULT_KEYS : list string := SEMANTIC_RESULT_KEYS ++ ["normalization"; "distance"].

(** ** Readers *)

(** The literals 0.03 and 0.01, rounded to binary64 as the parser rounds them. *)
Definition expected_threshold (kind : MediaKind) : num :=
  match kind with Jpeg => round64 (3 # 100) | Pdf => round64 (1 # 100) end.

Definition cerThreshold_value (value : js) (kind : MediaKind) (context : string) : checked num :=
  threshold ← ratio value context;
  fail_if (negb (num_eqb threshold (expected_threshold kind)))
    (context +:+ " must be " +:+ (match kind with Jpeg => "0.03 for jpeg" | Pdf => "0.01 for pdf" end));;
  Ok threshold.

Definition pageValue (value : js) (kind : MediaKind) (context : string) : checked (option Z) :=
  if is_null value then
    fail_if (bool_decide (kind ≠ Jpeg)) (context +:+ " requires a PDF page");; Ok None
  else
    page ← integer value context 1;
    fail_if (bool_decide (kind ≠ Pdf)) (context +:+ " must be null for JPEG");; Ok (Some page).

(** [arrayValue(value, context).map(...)] with the indexed context *)
Definition array_of {A} (decode : js → string → checked A) (value : js) (context : string)
    : checked (list A) :=
  items ← arrayValue value context;
  mapM_idx (λ index item, decode item (at_index context index)) items.

Definition rootBinding (value : js) (context : string) : checked RootBinding :=
  item ← record value context;
  exactKeys item ROOT_BINDING_KEYS context;;
  ordinal ← integer (get item "ordinal") (context +:+ ".ordinal") 0;
  role ← stringValue (get item "role") (context +:+ ".role");
  rootRefDigest ← assertSha256 (get item "rootRefDigest") (context +:+ ".rootRefDigest");
  rootGeneration ← integer (get item "rootGeneration") (context +:+ ".rootGeneration") 0;
  specDigest ← assertSha256 (get item "specDigest") (context +:+ ".specDigest");
  listener ← opaque (get item "reservedListenerIdentity") (context +:+ ".reservedListenerIdentity");
  Ok {| ordinal := ordinal; role := role; rootRefDigest := rootRefDigest;
        rootGeneration := rootGeneration; specDigest := specDigest;
        reservedListenerIdentity := listener |}.

(** The second pass of [rootBindings]: ordinals 0, 1, ... and no root twice. *)
Fixpoint check_roots (index : nat) (seenRoles seenRoots : list string) (values : list RootBinding)
    (context : string) : checked unit :=
  match values with
  | [] => Ok tt
  | item :: rest =>
      fail_if (negb (ordinal item =? Z.of_nat index)) (context +:+ " must be complete and ordered");;
      fail_if (includes seenRoles (role item) || includes seenRoots (rootRefDigest item))
        (context +:+ " must not repeat a root");;
      check_roots (S index) (role item :: seenRoles) (rootRefDigest item :: seenRoots) rest context
  end.

Definition rootBindings (value : js) (context : string) : checked (list RootBinding) :=
  values ← array_of rootBinding value context;
  check_roots 0 [] [] values context;; Ok values.

(** The five fields a bound binding and an expected one share. *)
Definition binding_fields (item : fields) (context : string) : checked ExpectedBindingContext :=
  bindingAttemptId ← opaque (get item "bindingAttemptId") (context +:+ ".bindingAttemptId");
  groupRefDigest ← assertSha256 (get item "groupRefDigest") (context +:+ ".groupRefDigest");
  groupGeneration ← integer (get item "groupGeneration") (context +:+ ".groupGeneration") 0;
  roots ← rootBindings (get item "rootBindings") (context +:+ ".rootBindings");
  activationReceiptDigest ← assertSha256 (get item "activationReceiptDigest") (context +:+ ".activationReceiptDigest");
  Ok {| bindingAttemptId := bindingAttemptId; groupRefDigest := groupRefDigest;
        groupGeneration := groupGeneration; rootBindings_of := roots;
        activationReceiptDigest := activationReceiptDigest |}.

Definition expectedBindingContext (value : js) (context : string) : checked ExpectedBindingContext :=
  item ← record value context;
  exactKeys item EXPECTED_BINDING_KEYS context;;
  binding_fields item context.

Definition root_differs (item expected : RootBinding) : bool :=
  negb (ordinal item =? ordinal expected) || negb (String.eqb (role item) (role expected)) ||
  negb (String.eqb (rootRefDigest item) (rootRefDigest expected)) ||
  negb (rootGeneration item =? rootGeneration expected) ||
  negb (String.eqb (specDigest item) (specDigest expected)) ||
  negb (String.eqb (reservedListenerIdentity item) (reservedListenerIdentity expected)).

Definition binding_differs (actual expected : ExpectedBindingContext) : bool :=
  negb (String.eqb (bindingAttemptId actual) (bindingAttemptId expected)) ||
  negb (String.eqb (groupRefDigest actual) (groupRefDigest expected)) ||
  negb (groupGeneration actual =? groupGeneration expected) ||
  negb (String.eqb (activationReceiptDigest actual) (activationReceiptDigest expected)) ||
  negb (Nat.eqb (length (rootBindings_of actual)) (length (rootBindings_of expected))) ||
  existsb (λ pair, root_differs pair.1 pair.2) (zip (rootBindings_of actual) (rootBindings_of expected)).

Definition assertBindingMatches (actual : ExpectedBindingContext) (expected : js) (context : string)
    : checked unit :=
  expectedValue ← expectedBindingContext expected (context +:+ ".expected");
  fail_if (binding_differs actual expectedValue)
    (context +:+ " does not match the expected complete immutable binding").

Definition binding (value : js) (context : string) : checked Binding :=
  item ← record value context;
  is_bound ← enumValue (get item "kind") [("unbound", false); ("bound", true)] (context +:+ ".kind");
  if is_bound : bool then
    exactKeys item ("kind" :: EXPECTED_BINDING_KEYS) context;;
    fields ← binding_fields item context;
    Ok (bound fields)
  else
    exactKeys item ["kind"] context;; Ok unbound.

Definition assertGateTier (parentGate : ParentGate) (tier : Tier) (context : string) : checked unit :=
  fail_if (match parentGate, tier with D4, Published | D7, Candidate => true | _, _ => false end)
    (context +:+ " has an incompatible gate and tier").

Definition baseScope (value : fields) (context : string) : checked ScopeBase :=
  fail_if (negb (is_str (get value "schemaVersion") "ProducerChildScopeV1") ||
           negb (is_str (get value "contractVersion") "1")) (context +:+ " has an invalid schema version");;
  fail_if (negb (is_str (get value "producer") "capture-runtime")) (context +:+ ".producer is invalid");;
  parentGate ← enumValue (get value "parentGate") parent_gates (context +:+ ".parentGate");
  tier ← enumValue (get value "tier") tiers (context +:+ ".tier");
  assertGateTier parentGate tier context;;
  contractSha256 ← assertSha256 (get value "contractSha256") (context +:+ ".contractSha256");
  runIdDigest ← assertSha256 (get value "runIdDigest") (context +:+ ".runIdDigest");
  sequenceIndex ← integer (get value "sequenceIndex") (context +:+ ".sequenceIndex") 1;
  childKey ← stringValue (get value "childKey") (context +:+ ".childKey");
  legId ← stringValue (get value "legId") (context +:+ ".legId");
  childId ← assertSha256 (get value "childId") (context +:+ ".childId");
  childPlanDigest ← assertSha256 (get value "childPlanDigest") (context +:+ ".childPlanDigest");
  Ok {| scope_contractSha256 := contractSha256; scope_parentGate := parentGate; scope_tier := tier;
        scope_runIdDigest := runIdDigest; scope_sequenceIndex := sequenceIndex;
        scope_childKey := childKey; scope_legId := legId; scope_childId := childId;
        scope_childPlanDigest := childPlanDigest |}.

(** The pass after [map] of every ordered list: indices 0, 1, ... and no key twice. *)
Fixpoint check_order (index : nat) (seen : list string) (values : list (Z * string)) (context : string)
    : checked unit :=
  match values with
  | [] => Ok tt
  | (i, key) :: rest =>
      fail_if (negb (i =? Z.of_nat index) || includes seen key)
        (context +:+ " must be complete, ordered, and unique");;
      check_order (S index) (key :: seen) rest context
  end.

Definition ledger_fields (item : fields) (gate : SourceGate) (context : string) : checked LedgerBinding :=
  ledgerSha256 ← assertSha256 (get item "ledgerSha256") (context +:+ ".ledgerSha256");
  match gate with
  | D3 =>
      candidateId ← assertSha256 (get item "candidateId") (context +:+ ".candidateId");
      manifest ← assertSha256 (get item "candidateManifestSha256") (context +:+ ".candidateManifestSha256");
      Ok (LedgerBindingD3 ledgerSha256 candidateId manifest)
  | D6 =>
      publication ← assertSha256 (get item "publicationLedgerSha256") (context +:+ ".publicationLedgerSha256");
      bundle ← assertSha256 (get item "downloadBundleSha256") (context +:+ ".downloadBundleSha256");
      Ok (LedgerBindingD6 ledgerSha256 publication bundle)
  end.

Definition LEDGER_KEYS (gate : SourceGate) : list string :=
  match gate with
  | D3 => ["sourceGate"; "ledgerSha256"; "candidateId"; "candidateManifestSha256"]
  | D6 => ["sourceGate"; "ledgerSha256"; "publicationLedgerSha256"; "downloadBundleSha256"]
  end.

Definition ledgerBinding (value : js) (context : string) : checked LedgerBinding :=
  item ← record value context;
  gate ← enumValue (get item "sourceGate") source_gates (context +:+ ".sourceGate");
  exactKeys item (LEDGER_KEYS gate) context;;
  ledger_fields item gate context.

Definition artifactDigest (value : js) (context : string) : checked ArtifactDigest :=
  item ← record value context;
  exactKeys item ["artifactKey"; "sha256"] context;;
  key ← opaque (get item "artifactKey") (context +:+ ".artifactKey");
  digest ← assertSha256 (get item "sha256") (context +:+ ".sha256");
  Ok {| artifactKey := key; artifact_sha256 := digest |}.

(** [values[index - 1].artifactKey >= item.artifactKey] fails. *)
Fixpoint check_ascending (previous : option string) (values : list ArtifactDigest) (context : string)
    : checked unit :=
  match values with
  | [] => Ok tt
  | item :: rest =>
      fail_if (match previous with Some key => String.leb (artifactKey item) key | None => false end)
        (context +:+ " must be sorted by unique artifactKey");;
      check_ascending (Some (artifactKey item)) rest context
  end.

Definition artifactDigests (value : js) (context : string) : checked (list ArtifactDigest) :=
  values ← array_of artifactDigest value context;
  check_ascending None values context;; Ok values.

Definition wireLedgerBinding (value : js) (context : string) : checked WireLedgerBinding :=
  item ← record value context;
  gate ← enumValue (get item "sourceGate") source_gates (context +:+ ".sourceGate");
  exactKeys item (LEDGER_KEYS gate ++ ["artifactDigests"]) context;;
  ledger ← ledger_fields item gate context;
  digests ← artifactDigests (get item "artifactDigests") (context +:+ ".artifactDigests");
  Ok {| wire_ledger := ledger; wire_artifactDigests := digests |}.

(** [parentGate === 'D4' ? 'D3' : 'D6'] *)
Definition gate_of_ledger (parentGate : ParentGate) : SourceGate :=
  match parentGate with D4 => D3 | D7 => D6 end.

(** ** Fixtures *)

Section decoders.
Variables (utf8_decode : list Z → option string) (sha256 : string → string).

Definition fixtureAssignment (value : js) (context : string) : checked FixtureAssignment :=
  item ← record value context;
  exactKeys item FIXTURE_ASSIGNMENT_KEYS context;;
  let at_ (name : string) := context +:+ "." +:+ name in
  let digest (name : string) := assertSha256 (get item name) (at_ name) in
  kind ← enumValue (get item "mediaKind") media_kinds (at_ "mediaKind");
  index ← integer (get item "fixtureIndex") (at_ "fixtureIndex") 0;
  key ← stringValue (get item "fixtureKey") (at_ "fixtureKey");
  identity ← digest "fixtureIdentitySha256";
  page ← pageValue (get item "page") kind (at_ "page");
  mediaHandle ← opaque (get item "mediaCapabilityHandle") (at_ "mediaCapabilityHandle");
  mediaHandleSha ← digest "mediaCapabilityHandleSha256";
  oracleHandle ← opaque (get item "oracleCapabilityHandle") (at_ "oracleCapabilityHandle");
  oracleHandleSha ← digest "oracleCapabilityHandleSha256";
  media ← digest "mediaSha256";
  oracle ← digest "oracleSha256";
  truth ← digest "expectedNormalizedTruthSha256";
  anchors ← digest "expectedAnchorSetSha256";
  threshold ← cerThreshold_value (get item "cerThreshold") kind (at_ "cerThreshold");
  artifact ← digest "artifactId";
  own ← selfExcludedDigest sha256 item "fixtureIdentitySha256";
  fail_if (negb (String.eqb own identity))
    (at_ "fixtureIdentitySha256" +:+ " does not match canonical assignment identity");;
  Ok {| fixtureIndex := index; fixtureKey := key; fixtureIdentitySha256 := identity;
        mediaKind := kind; page := page; mediaCapabilityHandle := mediaHandle;
        mediaCapabilityHandleSha256 := mediaHandleSha; oracleCapabilityHandle := oracleHandle;
        oracleCapabilityHandleSha256 := oracleHandleSha; mediaSha256 := media; oracleSha256 := oracle;
        expectedNormalizedTruthSha256 := truth; expectedAnchorSetSha256 := anchors;
        cerThreshold := threshold; artifactId := artifact |}.

Definition assignment_position (a : FixtureAssignment) : Z * string := (fixtureIndex a, fixtureKey a).

Definition orderedAssignments (value : js) (context : string) : checked (list FixtureAssignment) :=
  values ← array_of fixtureAssignment value context;
  check_order 0 [] (map assignment_position values) context;; Ok values.

(** [(outcome === 'passed') !== passes] *)
Definition outcome_wrong (r : SemanticFixtureResult) : bool :=
  let passes := num_leb (cer r) (res_cerThreshold r) && (anchorOmissions r =? 0) in
  negb (Bool.eqb (bool_decide (outcome_of r = Passed)) passes).

(** A zero error rate means equal digests, a positive one different digests. *)
Definition cer_wrong (r : SemanticFixtureResult) : bool :=
  let same := String.eqb (actualNormalizedOutputSha256 r) (res_expectedNormalizedTruthSha256 r) in
  (num_eqb (cer r) (num_of_Z 0) && negb same) || (num_ltb (num_of_Z 0) (cer r) && same).

Definition semanticFixtureResult (value : js) (context : string) : checked SemanticFixtureResult :=
  item ← record value context;
  exactKeys item SEMANTIC_RESULT_KEYS context;;
  let at_ (name : string) := context +:+ "." +:+ name in
  let digest (name : string) := assertSha256 (get item name) (at_ name) in
  kind ← enumValue (get item "mediaKind") media_kinds (at_ "mediaKind");
  index ← integer (get item "fixtureIndex") (at_ "fixtureIndex") 0;
  key ← stringValue (get item "fixtureKey") (at_ "fixtureKey");
  identity ← digest "fixtureIdentitySha256";
  page ← pageValue (get item "page") kind (at_ "page");
  mediaHandleSha ← digest "mediaCapabilityHandleSha256";
  oracleHandleSha ← digest "oracleCapabilityHandleSha256";
  media ← digest "mediaSha256";
  oracle ← digest "oracleSha256";
  actual ← digest "actualNormalizedOutputSha256";
  truth ← digest "expectedNormalizedTruthSha256";
  anchors ← digest "expectedAnchorSetSha256";
  rate ← nonNegativeFinite (get item "cer") (at_ "cer");
  omissions ← integer (get item "anchorOmissions") (at_ "anchorOmissions") 0;
  threshold ← cerThreshold_value (get item "cerThreshold") kind (at_ "cerThreshold");
  outcome ← enumValue (get item "outcome") outcomes (at_ "outcome");
  projection ← digest "projectionSha256";
  artifact ← digest "artifactId";
  let result := {| res_fixtureIndex := index; res_fixtureKey := key;
        res_fixtureIdentitySha256 := identity; res_mediaKind := kind; res_page := page;
        res_mediaCapabilityHandleSha256 := mediaHandleSha;
        res_oracleCapabilityHandleSha256 := oracleHandleSha; res_mediaSha256 := media;
        res_oracleSha256 := oracle; actualNormalizedOutputSha256 := actual;
        res_expectedNormalizedTruthSha256 := truth; res_expectedAnchorSetSha256 := anchors;
        cer := rate; anchorOmissions := omissions; res_cerThreshold := threshold;
        outcome_of := outcome; projectionSha256 := projection; res_artifactId := artifact |} in
  fail_if (outcome_wrong result) (at_ "outcome" +:+ " does not match CER threshold and anchor omissions");;
  fail_if (cer_wrong result) (at_ "cer" +:+ " does not match normalized output and truth identity");;
  Ok result.

Definition result_position (r : SemanticFixtureResult) : Z * string := (res_fixtureIndex r, res_fixtureKey r).

Definition orderedSemanticResults (value : js) (context : string) : checked (list SemanticFixtureResult) :=
  values ← array_of semanticFixtureResult value context;
  check_order 0 [] (map result_position values) context;; Ok values.

Definition wireFixtureResult (value : js) (context : string) : checked SemanticFixtureResult :=
  item ← record value context;
  exactKeys item WIRE_RESULT_KEYS context;;
  result ← semanticFixtureResult (Obj (without "distance" (without "normalization" item))) context;
  enumValue (get item "normalization") [("nfkc-whitespace-v1", tt)] (context +:+ ".normalization");;
  enumValue (get item "distance") [("code-point-levenshtein-v1", tt)] (context +:+ ".distance");;
  Ok result.

Definition orderedWireResults (value : js) (context : string) : checked (list SemanticFixtureResult) :=
  values ← array_of wireFixtureResult value context;
  check_order 0 [] (map result_position values) context;; Ok values.

Definition producerCleanup (value : js) (context : string) : checked ProducerCleanup :=
  item ← record value context;
  let flags := ["rootReaped"; "descendantsTerminated"; "listenersReleased"; "stagingReleased";
    "captureDeleted"; "modelMemoryReleased"; "processesAbsent"; "listenersAbsent"; "stagingAbsent"] in
  exactKeys item (["journalState"; "reconcileRefSha256"; "generation"; "automaticAttempts"] ++
    flags ++ ["proofSha256"]) context;;
  forM_ flags (λ key, fail_if (negb (is_true (get item key))) (context +:+ "." +:+ key +:+ " must be true"));;
  enumValue (get item "journalState") [("terminal", tt)] (context +:+ ".journalState");;
  reconcile ← assertSha256 (get item "reconcileRefSha256") (context +:+ ".reconcileRefSha256");
  generation ← integer (get item "generation") (context +:+ ".generation") 0;
  attempts ← integer (get item "automaticAttempts") (context +:+ ".automaticAttempts") 0;
  proof ← assertSha256 (get item "proofSha256") (context +:+ ".proofSha256");
  Ok {| reconcileRefSha256 := reconcile; generation := generation;
        automaticAttempts := attempts; proofSha256 := proof |}.

Definition privacy (value : js) (context : string) : checked unit :=
  item ← record value context;
  let flags := ["rawOcr"; "rawTruth"; "rawMedia"; "tokens"; "paths"; "nativeIds"] in
  exactKeys item flags context;;
  forM_ flags (λ key, fail_if (negb (strict_eqb (get item key) (Bool false)))
    (context +:+ "." +:+ key +:+ " must be false")).

(** ** The record decoders *)

(** [uniqueDigests(arrayValue(...).map(assertSha256))] *)
Definition digest_list (value : js) (context : string) : checked (list string) :=
  digests ← array_of assertSha256 value context;
  uniqueDigests digests context.

(** The fixture artifacts are not exactly the listed ones. *)
Definition artifacts_differ (resultArtifacts artifactIds : list string) : bool :=
  negb (Nat.eqb (length resultArtifacts) (length artifactIds)) ||
  existsb (λ id, negb (includes artifactIds id)) resultArtifacts.

Definition bound_scope (item : fields) (expectedBinding : option js) (state : string)
    : checked ExpectedBindingContext :=
  scopeBinding ← binding (get item "binding") "scope.binding";
  match scopeBinding with
  | unbound => fail (state +:+ " scope must use the bound binding")
  | bound context =>
      match expectedBinding with
      | None => fail (state +:+ " scope requires an expected immutable binding context")
      | Some expected =>
          assertBindingMatches context expected (state +:+ " scope.binding");; Ok context
      end
  end.

Definition decodeProducerChildScopeValue (expectedBinding : option js) (value : js)
    : checked ProducerChildScope :=
  item ← record value "ProducerChildScopeV1";
  base ← baseScope item "ProducerChildScopeV1";
  readyState ← enumValue (get item "readyState")
    [("planned", "planned"); ("prepared", "prepared"); ("ready", "ready")] "scope.readyState";
  if String.eqb readyState "planned" then
    exactKeys item SCOPE_BASE_KEYS "ProducerChildScopeV1";;
    scopeBinding ← binding (get item "binding") "scope.binding";
    match scopeBinding with
    | unbound => Ok (PlannedChildScope base)
    | bound _ => fail "planned scope must use the unbound binding"
    end
  else if String.eqb readyState "prepared" then
    exactKeys item SCOPE_BASE_KEYS "ProducerChildScopeV1";;
    context ← bound_scope item expectedBinding readyState;
    Ok (PreparedChildScope base context)
  else
    exactKeys item (SCOPE_BASE_KEYS ++ ["invocationSha256"; "outputPathNonce"]) "ProducerChildScopeV1";;
    context ← bound_scope item expectedBinding readyState;
    invocation ← assertSha256 (get item "invocationSha256") "scope.invocationSha256";
    nonce ← opaque (get item "outputPathNonce") "scope.outputPathNonce";
    Ok (ReadyChildScope base context invocation nonce).

Definition decodeProducerChildScope (input : Input) (expectedBinding : option js)
    : checked ProducerChildScope :=
  decodeCanonical utf8_decode input (decodeProducerChildScopeValue expectedBinding).

Definition decodeProducerChildInvocationValue (expectedBinding : option js) (value : js)
    : checked ProducerChildInvocation :=
  item ← record value "ProducerChildInvocationV1";
  exactKeys item INVOCATION_KEYS "ProducerChildInvocationV1";;
  fail_if (negb (is_str (get item "schemaVersion") "ProducerChildInvocationV1") ||
           negb (is_str (get item "contractVersion") "1")) "invocation schema version is invalid";;
  fail_if (negb (is_str (get item "producer") "capture-runtime") ||
           negb (is_str (get item "invocationState") "frozen")) "invocation producer or state is invalid";;
  parentGate ← enumValue (get item "parentGate") parent_gates "invocation.parentGate";
  tier ← enumValue (get item "tier") tiers "invocation.tier";
  assertGateTier parentGate tier "invocation";;
  match expectedBinding with
  | None => fail "invocation requires an expected immutable binding context"
  | Some expected =>
      contractSha256 ← assertSha256 (get item "contractSha256") "invocation.contractSha256";
      sequenceIndex ← integer (get item "sequenceIndex") "invocation.sequenceIndex" 1;
      childKey ← stringValue (get item "childKey") "invocation.childKey";
      legId ← stringValue (get item "legId") "invocation.legId";
      childId ← assertSha256 (get item "childId") "invocation.childId";
      root ← assertSha256 (get item "root") "invocation.root";
      groupRefDigest ← assertSha256 (get item "groupRefDigest") "invocation.groupRefDigest";
      groupGeneration ← integer (get item "groupGeneration") "invocation.groupGeneration" 0;
      bindingAttemptId ← opaque (get item "bindingAttemptId") "invocation.bindingAttemptId";
      roots ← rootBindings (get item "rootBindings") "invocation.rootBindings";
      receipt ← assertSha256 (get item "activationReceiptDigest") "invocation.activationReceiptDigest";
      artifactIds ← digest_list (get item "artifactIds") "invocation.artifactIds";
      ledger ← ledgerBinding (get item "ledgerBinding") "invocation.ledgerBinding";
      predecessor ← (if is_null (get item "predecessorCleanupProofSha256") then Ok None
        else Some <$> assertSha256 (get item "predecessorCleanupProofSha256")
               "invocation.predecessorCleanupProofSha256");
      assignments ← orderedAssignments (get item "fixtureAssignments") "invocation.fixtureAssignments";
      nonce ← opaque (get item "outputPathNonce") "invocation.outputPathNonce";
      digest ← assertSha256 (get item "invocationSha256") "invocation.invocationSha256";
      let context := {| bindingAttemptId := bindingAttemptId; groupRefDigest := groupRefDigest;
        groupGeneration := groupGeneration; rootBindings_of := roots;
        activationReceiptDigest := receipt |} in
      fail_if (bool_decide (sourceGate ledger ≠ gate_of_ledger parentGate))
        "invocation ledger binding does not match its gate";;
      assertBindingMatches context expected "invocation.binding";;
      own ← selfExcludedDigest sha256 item "invocationSha256";
      fail_if (negb (String.eqb own digest)) "invocation digest does not match canonical bytes";;
      Ok {| inv_contractSha256 := contractSha256; inv_parentGate := parentGate; inv_tier := tier;
            inv_sequenceIndex := sequenceIndex; inv_childKey := childKey; inv_legId := legId;
            inv_childId := childId; inv_root := root; inv_binding := context;
            inv_artifactIds := artifactIds; inv_ledgerBinding := ledger;
            inv_predecessorCleanupProofSha256 := predecessor;
            inv_fixtureAssignments := assignments; inv_outputPathNonce := nonce;
            invocationSha256 := digest |}
  end.

Definition decodeProducerChildInvocation (input : Input) (expectedBinding : option js)
    : checked ProducerChildInvocation :=
  decodeCanonical utf8_decode input (decodeProducerChildInvocationValue expectedBinding).

Definition decodeConsumerSemanticResultValue (value : js) : checked ConsumerSemanticResult :=
  item ← record value "ConsumerSemanticResultV1";
  exactKeys item SEMANTIC_KEYS "ConsumerSemanticResultV1";;
  fail_if (negb (is_str (get item "schemaVersion") "ConsumerSemanticResultV1") ||
           negb (is_str (get item "contractVersion") "1")) "semantic result schema version is invalid";;
  parentGate ← enumValue (get item "parentGate") parent_gates "semantic.parentGate";
  tier ← enumValue (get item "tier") tiers "semantic.tier";
  assertGateTier parentGate tier "semantic result";;
  contractSha256 ← assertSha256 (get item "contractSha256") "semantic.contractSha256";
  consumer ← stringValue (get item "consumer") "semantic.consumer";
  sequenceIndex ← integer (get item "sequenceIndex") "semantic.sequenceIndex" 1;
  childKey ← stringValue (get item "childKey") "semantic.childKey";
  legId ← stringValue (get item "legId") "semantic.legId";
  childId ← assertSha256 (get item "childId") "semantic.childId";
  artifactIds ← digest_list (get item "artifactIds") "semantic.artifactIds";
  results ← orderedSemanticResults (get item "fixtureResults") "semantic.fixtureResults";
  digest ← assertSha256 (get item "semanticResultSha256") "semantic.semanticResultSha256";
  own ← selfExcludedDigest sha256 item "semanticResultSha256";
  fail_if (negb (String.eqb own digest)) "semantic result digest does not match canonical bytes";;
  resultArtifacts ← uniqueDigests (map res_artifactId results) "semantic fixture artifacts";
  fail_if (artifacts_differ resultArtifacts artifactIds)
    "semantic artifactIds must contain each fixture artifact exactly once";;
  Ok {| sem_contractSha256 := contractSha256; sem_consumer := consumer; sem_parentGate := parentGate;
        sem_tier := tier; sem_sequenceIndex := sequenceIndex; sem_childKey := childKey;
        sem_legId := legId; sem_childId := childId; sem_artifactIds := artifactIds;
        sem_fixtureResults := results; semanticResultSha256 := digest |}.

Definition decodeConsumerSemanticResult (input : Input) : checked ConsumerSemanticResult :=
  decodeCanonical utf8_decode input decodeConsumerSemanticResultValue.

Definition assignment_differs (assignment : FixtureAssignment) (result : SemanticFixtureResult) : bool :=
  negb (fixtureIndex assignment =? res_fixtureIndex result) ||
  negb (String.eqb (fixtureKey assignment) (res_fixtureKey result)) ||
  negb (String.eqb (fixtureIdentitySha256 assignment) (res_fixtureIdentitySha256 result)) ||
  bool_decide (mediaKind assignment ≠ res_mediaKind result) ||
  bool_decide (page assignment ≠ res_page result) ||
  negb (String.eqb (mediaCapabilityHandleSha256 assignment) (res_mediaCapabilityHandleSha256 result)) ||
  negb (String.eqb (oracleCapabilityHandleSha256 assignment) (res_oracleCapabilityHandleSha256 result)) ||
  negb (String.eqb (mediaSha256 assignment) (res_mediaSha256 result)) ||
  negb (String.eqb (oracleSha256 assignment) (res_oracleSha256 result)) ||
  negb (String.eqb (expectedNormalizedTruthSha256 assignment) (res_expectedNormalizedTruthSha256 result)) ||
  negb (String.eqb (expectedAnchorSetSha256 assignment) (res_expectedAnchorSetSha256 result)) ||
  negb (num_eqb (cerThreshold assignment) (res_cerThreshold result)) ||
  negb (String.eqb (artifactId assignment) (res_artifactId result)).

Definition decodeAcceptanceChildWireValue (value : js) : checked AcceptanceChildWire :=
  item ← record value "AcceptanceChildWireV1";
  exactKeys item WIRE_KEYS "AcceptanceChildWireV1";;
  fail_if (negb (is_str (get item "schemaVersion") "AcceptanceChildWireV1") ||
           negb (is_str (get item "contractVersion") "1")) "wire schema version is invalid";;
  fail_if (negb (is_str (get item "producer") "capture-runtime")) "wire producer is invalid";;
  parentGate ← enumValue (get item "parentGate") parent_gates "wire.parentGate";
  tier ← enumValue (get item "tier") tiers "wire.tier";
  assertGateTier parentGate tier "wire";;
  assignments ← orderedAssignments (get item "fixtureAssignments") "wire.fixtureAssignments";
  results ← orderedWireResults (get item "fixtureResults") "wire.fixtureResults";
  fail_if (negb (Nat.eqb (length assignments) (length results)))
    "wire assignment and result cardinality must match";;
  fail_if (existsb (λ pair, assignment_differs pair.1 pair.2) (zip assignments results))
    "wire fixture results must match assignments in order";;
  resultArtifacts ← uniqueDigests (map res_artifactId results) "wire fixture artifacts";
  artifactIds ← digest_list (get item "artifactIds") "wire.artifactIds";
  fail_if (artifacts_differ resultArtifacts artifactIds)
    "wire artifactIds must contain each fixture artifact exactly once";;
  contractSha256 ← assertSha256 (get item "contractSha256") "wire.contractSha256";
  runIdDigest ← assertSha256 (get item "runIdDigest") "wire.runIdDigest";
  sequenceIndex ← integer (get item "sequenceIndex") "wire.sequenceIndex" 1;
  childKey ← stringValue (get item "childKey") "wire.childKey";
  legId ← stringValue (get item "legId") "wire.legId";
  childId ← assertSha256 (get item "childId") "wire.childId";
  root ← assertSha256 (get item "root") "wire.root";
  ledger ← wireLedgerBinding (get item "ledgerBinding") "wire.ledgerBinding";
  invocation ← assertSha256 (get item "invocationSha256") "wire.invocationSha256";
  semantic ← assertSha256 (get item "childSemanticResultSha256") "wire.childSemanticResultSha256";
  cleanup ← producerCleanup (get item "producerCleanup") "wire.producerCleanup";
  privacy (get item "privacy") "wire.privacy";;
  digest ← assertSha256 (get item "wireSha256") "wire.wireSha256";
  fail_if (bool_decide (sourceGate (wire_ledger ledger) ≠ gate_of_ledger parentGate))
    "wire ledger binding does not match its gate";;
  own ← selfExcludedDigest sha256 item "wireSha256";
  fail_if (negb (String.eqb own digest)) "wire digest does not match canonical bytes";;
  Ok {| wire_contractSha256 := contractSha256; wire_parentGate := parentGate; wire_tier := tier;
        wire_runIdDigest := runIdDigest; wire_sequenceIndex := sequenceIndex;
        wire_childKey := childKey; wire_legId := legId; wire_childId := childId; wire_root := root;
        wire_artifactIds := artifactIds; wire_ledgerBinding := ledger;
        wire_invocationSha256 := invocation; wire_fixtureAssignments := assignments;
        wire_fixtureResults := results; childSemanticResultSha256 := semantic;
        producerCleanup_of := cleanup; wireSha256 := digest |}.

Definition decodeAcceptanceChildWire (input : Input) : checked AcceptanceChildWire :=
  decodeCanonical utf8_decode input decodeAcceptanceChildWireValue.
End decoders.

(** ** Facts about the readers *)

Lemma record_Ok value context r : record value context = Ok r ↔ value = Obj r.
Proof. unfold record. destruct value; cbn; naive_solver. Qed.

Lemma array_of_Ok {A} (decode : js → string → checked A) value context values :
  array_of decode value context = Ok values →
  ∃ items, value = Arr items ∧ items ≠ [] ∧ length items = length values ∧
    ∀ j x y, items !! j = Some x → values !! j = Some y → decode x (at_index context j) = Ok y.
Proof.
  unfold array_of, arrayValue. intros H. inv_ok. destruct value as [| | | | |items|]; try done.
  inv_checked. apply mapM_idx_Ok in H as [Hl Hall]. apply bool_decide_eq_false in H1.
  by exists x.
Qed.

(** Every decoded element comes from a successful run of the element reader. *)
Lemma array_of_elem {A} (decode : js → string → checked A) value context values y :
  array_of decode value context = Ok values → y ∈ values → ∃ x c, decode x c = Ok y.
Proof.
  intros (items & _ & _ & Hl & Hall)%array_of_Ok [j Hj]%list_elem_of_lookup.
  destruct (lookup_lt_is_Some_2 items j) as [x Hx]; [rewrite Hl; by eapply lookup_lt_Some|].
  eauto.
Qed.

(** The ordered lists: position [j] has index [j], and no key occurs twice. *)
Lemma check_order_Ok index seen values context u :
  check_order index seen values context = Ok u ↔
  (∀ j v, values !! j = Some v → v.1 = Z.of_nat (index + j)) ∧
  NoDup (map snd values) ∧ (∀ key, key ∈ map snd values → key ∉ seen).
Proof.
  destruct u. revert index seen. induction values as [|[i key] rest IH]; intros index seen; cbn.
  { split; [intros _|done]. split; [done|]. split; [constructor|]. by intros ? ?%elem_of_nil. }
  rewrite bind_Ok. setoid_rewrite fail_if_Ok. setoid_rewrite IH. rewrite NoDup_cons.
  setoid_rewrite elem_of_cons. setoid_rewrite orb_false_iff. setoid_rewrite includes_false.
  setoid_rewrite negb_false_iff. setoid_rewrite Z.eqb_eq. split.
  - intros (_ & [-> Hk] & Hidx & Hnd & Hseen). split; [|split; [split; [|done]|]].
    + intros [|j] v Hv; cbn in Hv; [simplify_eq; cbn; lia|].
      rewrite (Hidx _ _ Hv). lia.
    + intros Hin. apply (Hseen _ Hin). by left.
    + intros k [->|Hin]; [done|]. intros ?. apply (Hseen _ Hin). by right.
  - intros (Hidx & [Hk Hnd] & Hseen). exists tt. split; [|split; [|split; [done|]]].
    + split; [specialize (Hidx 0%nat _ eq_refl); cbn in Hidx; lia|]. apply Hseen. by left.
    + intros j v Hv. rewrite (Hidx (S j) v Hv). lia.
    + intros k Hin [->|Hs]; [done|]. by apply (Hseen k); [right|].
Qed.

Lemma root_differs_spec a b : root_differs a b = false ↔ a = b.
Proof. destruct a, b. unfold root_differs. cbn. bsimp. naive_solver. Qed.

Lemma existsb_zip_false {A B} (f : A → B → bool) l k :
  length l = length k →
  existsb (λ pair, f pair.1 pair.2) (zip l k) = false ↔
  ∀ j x y, l !! j = Some x → k !! j = Some y → f x y = false.
Proof.
  revert k. induction l as [|a l IH]; intros [|b k] Hl; cbn in *; try done.
  rewrite orb_false_iff, IH by lia. split.
  - intros [Hab Hrest] [|j] x y Hx Hy; cbn in *; [by simplify_eq|eauto].
  - intros H. split; [by apply (H 0%nat)|]. intros j x y. apply (H (S j)).
Qed.

Lemma binding_differs_spec a b : binding_differs a b = false ↔ a = b.
Proof.
  unfold binding_differs. rewrite !orb_false_iff, !negb_false_iff, !String.eqb_eq, Z.eqb_eq, Nat.eqb_eq.
  split.
  - intros (((((H1 & H2) & H3) & H4) & Hl) & Hz). rewrite existsb_zip_false in Hz by done.
    destruct a as [? ? ? l ?], b as [? ? ? k ?]. cbn in *. subst. f_equal.
    apply list_eq_same_length with (length k); [done..|]. intros i x y _ Hx Hy.
    apply root_differs_spec. eauto.
  - intros ->. split; [done|]. apply existsb_zip_false; [done|]. intros j x y Hx Hy.
    simplify_eq. by apply root_differs_spec.
Qed.

Lemma uniqueDigests_Ok values context k :
  uniqueDigests values context = Ok k ↔ k = values ∧ NoDup values.
Proof.
  unfold uniqueDigests. rewrite bind_Ok. setoid_rewrite fail_if_Ok. split.
  - intros (_ & Hb & [= <-]). apply bool_decide_eq_false, dec_stable in Hb. done.
  - intros [-> H]. exists tt. split; [|done]. apply bool_decide_eq_false. naive_solver.
Qed.

Lemma artifacts_match results ids :
  artifacts_differ results ids = false → NoDup results → NoDup ids → results ≡ₚ ids.
Proof.
  unfold artifacts_differ. intros [Hl Hin]%orb_false_iff Hr Hi.
  apply negb_false_iff, Nat.eqb_eq in Hl. rewrite existsb_false, Forall_forall in Hin.
  apply submseteq_length_Permutation; [|lia]. apply NoDup_submseteq; [done|].
  intros x Hx. specialize (Hin x Hx). by rewrite negb_false_iff, includes_spec in Hin.
Qed.

(** ** Semantic results *)

(** What a decoded fixture result promises: a pass is exactly an error rate
    within the threshold of the medium with no anchor left out, and the rate is
    zero exactly when the output has the digest of the truth. *)
Definition result_sound (r : SemanticFixtureResult) : Prop :=
  ∃ rate threshold : Q,
    cer r = Fin rate ∧ res_cerThreshold r = Fin threshold ∧ (0 <= rate)%Q ∧
    num_eqb (Fin threshold) (expected_threshold (res_mediaKind r)) = true ∧
    (outcome_of r = Passed ↔ (rate <= threshold)%Q ∧ anchorOmissions r = 0) ∧
    ((rate == 0)%Q ↔ actualNormalizedOutputSha256 r = res_expectedNormalizedTruthSha256 r).

Lemma nonNegativeFinite_Ok value context n :
  nonNegativeFinite value context = Ok n → ∃ q, n = Fin q ∧ (0 <= q)%Q.
Proof.
  unfold nonNegativeFinite. intros H. destruct value as [| | |m| | |]; try done.
  destruct m as [| |q]; [done|by destruct negative|]. cbn in H. inv_checked.
  exists q. split; [done|]. unfold Qltb in H0. apply negb_false_iff in H0. by apply Qle_bool_iff in H0.
Qed.

Lemma ratio_finite value context n : ratio value context = Ok n → ∃ q, n = Fin q.
Proof.
  unfold ratio. intros H. destruct value as [| | |m| | |]; try done.
  destruct m as [| |q]; [done|by destruct negative|]. cbn in H. inv_checked. by exists q.
Qed.

Lemma cerThreshold_value_Ok value kind context t :
  cerThreshold_value value kind context = Ok t →
  ∃ q, t = Fin q ∧ num_eqb (Fin q) (expected_threshold kind) = true.
Proof.
  unfold cerThreshold_value. intros H. inv_checked. apply ratio_finite in H0 as [q ->].
  apply negb_false_iff in H1. by exists q.
Qed.

Lemma outcome_wrong_false r rate t :
  cer r = Fin rate → res_cerThreshold r = Fin t → outcome_wrong r = false →
  outcome_of r = Passed ↔ (rate <= t)%Q ∧ anchorOmissions r = 0.
Proof.
  intros Hc Ht. unfold outcome_wrong. rewrite Hc, Ht, negb_false_iff.
  intros H%Bool.eqb_prop. rewrite <-(bool_decide_eq_true (outcome_of r = Passed)), H, andb_true_iff, Z.eqb_eq.
  unfold num_leb. cbn [num_ltb num_eqb]. rewrite orb_true_iff, Qltb_spec, Qeq_bool_iff, Qle_lteq. done.
Qed.

Lemma cer_wrong_false r rate :
  cer r = Fin rate → (0 <= rate)%Q → cer_wrong r = false →
  (rate == 0)%Q ↔ actualNormalizedOutputSha256 r = res_expectedNormalizedTruthSha256 r.
Proof.
  intros Hc Hpos. unfold cer_wrong. rewrite Hc. cbn [num_eqb num_ltb num_of_Z].
  rewrite orb_false_iff, !andb_false_iff, negb_false_iff, String.eqb_eq, String.eqb_neq.
  intros [H0 H1]. split.
  - intros E. destruct H0 as [H0|]; [|done]. apply Qeq_bool_neq in H0. done.
  - intros E. destruct H1 as [H1|]; [|done]. apply Qle_antisym; [|done].
    apply Qnot_lt_le. intros Hlt%Qltb_spec. change (inject_Z 0) with 0%Q in H1. congruence.
Qed.

Lemma semanticFixtureResult_sound value context r :
  semanticFixtureResult value context = Ok r → result_sound r.
Proof.
  unfold semanticFixtureResult. intros H. inv_checked. cbv zeta in *. inv_checked.
  match goal with H : nonNegativeFinite _ _ = Ok _ |- _ => apply nonNegativeFinite_Ok in H as (rate & -> & Hpos) end.
  match goal with H : cerThreshold_value _ _ _ = Ok _ |- _ => apply cerThreshold_value_Ok in H as (t & -> & Ht) end.
  exists rate, t. split; [done|]. split; [done|]. split; [done|]. split; [exact Ht|].
  split; [by apply outcome_wrong_false|by apply cer_wrong_false].
Qed.

Lemma wireFixtureResult_sound value context r :
  wireFixtureResult value context = Ok r → result_sound r.
Proof. unfold wireFixtureResult. intros H. inv_checked. by eapply semanticFixtureResult_sound. Qed.

(** ** The wire record *)

(** [result] reports on the fixture that [assignment] names. *)
Definition result_answers (assignment : FixtureAssignment) (result : SemanticFixtureResult) : Prop :=
  res_fixtureIndex result = fixtureIndex assignment ∧ res_fixtureKey result = fixtureKey assignment ∧
  res_fixtureIdentitySha256 result = fixtureIdentitySha256 assignment ∧
  res_mediaKind result = mediaKind assignment ∧ res_page result = page assignment ∧
  res_mediaCapabilityHandleSha256 result = mediaCapabilityHandleSha256 assignment ∧
  res_oracleCapabilityHandleSha256 result = oracleCapabilityHandleSha256 assignment ∧
  res_mediaSha256 result = mediaSha256 assignment ∧ res_oracleSha256 result = oracleSha256 assignment ∧
  res_expectedNormalizedTruthSha256 result = expectedNormalizedTruthSha256 assignment ∧
  res_expectedAnchorSetSha256 result = expectedAnchorSetSha256 assignment ∧
  num_eqb (cerThreshold assignment) (res_cerThreshold result) = true ∧
  res_artifactId result = artifactId assignment.

Lemma assignment_differs_spec a r : assignment_differs a r = false ↔ result_answers a r.
Proof.
  unfold assignment_differs, result_answers.
  rewrite !orb_false_iff, !negb_false_iff, !bool_decide_eq_false, !String.eqb_eq, Z.eqb_eq. split.
  - intros ((((((((((((? & ?) & ?) & ?%dec_stable) & ?%dec_stable) & ?) & ?) & ?) & ?) & ?) & ?) & ?) & ?).
    by repeat (split; [done|]).
  - intros (? & ? & ? & -> & -> & ? & ? & ? & ? & ? & ? & ? & ?). naive_solver.
Qed.

(** The gates, tiers and ledgers that belong together. *)
Definition gate_agrees (gate : ParentGate) (tier : Tier) (ledger : SourceGate) : Prop :=
  (gate, tier, ledger) = (D4, Candidate, D3) ∨ (gate, tier, ledger) = (D7, Published, D6).

Lemma gate_agrees_checks gate tier context ledger u :
  assertGateTier gate tier context = Ok u → bool_decide (ledger ≠ gate_of_ledger gate) = false →
  gate_agrees gate tier ledger.
Proof.
  unfold assertGateTier. intros H%fail_if_Ok Hl%bool_decide_eq_false%dec_stable. subst.
  destruct gate, tier; cbn in *; try done; [by left|by right].
Qed.

(** The record [item] carries in [field] the digest of its other fields. *)
Definition sealed (sha256 : string → string) (item : fields) (field digest : string) : Prop :=
  ∃ text, canonicalJson (Obj (without field item)) = Ok text ∧ sha256 text = digest.

Lemma sealed_check sha256 item field own digest :
  selfExcludedDigest sha256 item field = Ok own → negb (String.eqb own digest) = false →
  sealed sha256 item field digest.
Proof.
  unfold selfExcludedDigest, sha256Canonical. rewrite negb_false_iff, String.eqb_eq. intros H <-.
  destruct (canonicalJson _) as [text|] eqn:Ht; [|done]. injection H as <-. by exists text.
Qed.

(** Everything the wire decoder has checked when it returns. *)
Lemma wire_decoded sha256 value w :
  decodeAcceptanceChildWireValue sha256 value = Ok w →
  ∃ item, value = Obj item ∧ keys item ≡ₚ WIRE_KEYS ∧
    gate_agrees (wire_parentGate w) (wire_tier w) (sourceGate (wire_ledger (wire_ledgerBinding w))) ∧
    orderedAssignments sha256 (get item "fixtureAssignments") "wire.fixtureAssignments"
      = Ok (wire_fixtureAssignments w) ∧
    orderedWireResults (get item "fixtureResults") "wire.fixtureResults" = Ok (wire_fixtureResults w) ∧
    length (wire_fixtureAssignments w) = length (wire_fixtureResults w) ∧
    existsb (λ pair, assignment_differs pair.1 pair.2)
      (zip (wire_fixtureAssignments w) (wire_fixtureResults w)) = false ∧
    NoDup (wire_artifactIds w) ∧ map res_artifactId (wire_fixtureResults w) ≡ₚ wire_artifactIds w ∧
    sealed sha256 item "wireSha256" (wireSha256 w).
Proof.
  unfold decodeAcceptanceChildWireValue, digest_list. intros H. inv_checked.
  match goal with H : record _ _ = Ok ?r |- _ => exists r; apply record_Ok in H end.
  repeat match goal with
  | H : exactKeys _ _ _ = Ok _ |- _ => apply exactKeys_Ok in H
  | H : uniqueDigests _ _ = Ok _ |- _ => apply uniqueDigests_Ok in H as [-> ?]
  | H : negb (Nat.eqb _ _) = false |- _ => apply negb_false_iff, Nat.eqb_eq in H
  end.
  cbn. split; [done|]. split; [done|]. split; [by eapply gate_agrees_checks|].
  split; [done|]. split; [done|]. split; [done|]. split; [done|]. split; [done|].
  split; [by apply artifacts_match|by eapply sealed_check].
Qed.

Lemma decodeCanonical_Ok {T} utf8_decode input (decoder : js → checked T) t :
  decodeCanonical utf8_decode input decoder = Ok t →
  ∃ text value, input_text utf8_decode input = Ok text ∧ canonicalJson value = Ok text ∧
    decoder value = Ok t.
Proof.
  unfold decodeCanonical. intros H. inv_checked. destruct x as [text value].
  apply parseJson_Ok in H0 as (? & _ & ?). by exists text, value.
Qed.

(** C38: An accepted wire record reports on every assigned fixture exactly once,
    in order: result [j] answers assignment [j], no fixture key repeats, a
    result is "passed" exactly when its error rate is within the medium's
    threshold and no anchor was omitted, the rate is zero exactly when output
    and truth have the same digest, the artifact list is the results' artifacts
    without repetition, and gate, tier and ledger belong together. *)
Theorem accepted_wire_results utf8_decode sha256 input w :
  decodeAcceptanceChildWire utf8_decode sha256 input = Ok w →
  length (wire_fixtureAssignments w) = length (wire_fixtureResults w) ∧
  (∀ j a r, wire_fixtureAssignments w !! j = Some a → wire_fixtureResults w !! j = Some r →
    fixtureIndex a = Z.of_nat j ∧ result_answers a r ∧ result_sound r) ∧
  NoDup (map fixtureKey (wire_fixtureAssignments w)) ∧
  NoDup (wire_artifactIds w) ∧ map res_artifactId (wire_fixtureResults w) ≡ₚ wire_artifactIds w ∧
  gate_agrees (wire_parentGate w) (wire_tier w) (sourceGate (wire_ledger (wire_ledgerBinding w))).
Proof.
  intros (_ & value & _ & _ & H)%decodeCanonical_Ok.
  apply wire_decoded in H as (item & _ & _ & Hgate & Ha & Hr & Hlen & Hd & Hnd & Hp & _).
  unfold orderedAssignments in Ha. unfold orderedWireResults in Hr. inv_checked.
  apply check_order_Ok in H2 as (Hidx & Hkeys & _). rewrite map_map in Hkeys.
  rewrite existsb_zip_false in Hd by done.
  split; [done|]. split; [|done]. intros j a r Hj Hk. split; [|split].
  - specialize (Hidx j (assignment_position a)). apply Hidx.
    by apply (list_lookup_fmap_Some_2 assignment_position (wire_fixtureAssignments w)).
  - apply assignment_differs_spec. eauto.
  - destruct (array_of_elem _ _ _ _ r H) as (x & c & Hx); [by eapply list_elem_of_lookup_2|].
    by eapply wireFixtureResult_sound.
Qed.

(** ** Seals *)

Lemma invocation_decoded sha256 expectedBinding value i :
  decodeProducerChildInvocationValue sha256 expectedBinding value = Ok i →
  ∃ item expected context, value = Obj item ∧ expectedBinding = Some expected ∧
    gate_agrees (inv_parentGate i) (inv_tier i) (sourceGate (inv_ledgerBinding i)) ∧
    expectedBindingContext expected context = Ok (inv_binding i) ∧
    sealed sha256 item "invocationSha256" (invocationSha256 i).
Proof.
  unfold decodeProducerChildInvocationValue. intros H. inv_checked.
  destruct expectedBinding as [expected|]; [|done].
  match goal with H : record _ _ = Ok ?r |- _ => exists r, expected; apply record_Ok in H as -> end.
  inv_checked.
  match goal with H : assertBindingMatches _ _ _ = Ok _ |- _ => unfold assertBindingMatches in H; inv_checked end.
  match goal with H : binding_differs _ _ = false |- _ => apply binding_differs_spec in H; subst end.
  eexists. split; [done|]. split; [done|]. split; [by eapply gate_agrees_checks|].
  split; [eassumption|by eapply sealed_check].
Qed.

Lemma semantic_decoded sha256 value s :
  decodeConsumerSemanticResultValue sha256 value = Ok s →
  ∃ item, value = Obj item ∧ sealed sha256 item "semanticResultSha256" (semanticResultSha256 s).
Proof.
  unfold decodeConsumerSemanticResultValue. intros H. inv_checked.
  match goal with H : record _ _ = Ok ?r |- _ => exists r; apply record_Ok in H as -> end.
  split; [done|by eapply sealed_check].
Qed.

(** The text of [input] is the canonical text of a record that carries in
    [field] the digest of its other fields. *)
Definition sealed_input (utf8_decode : list Z → option string) (sha256 : string → string)
    (input : Input) (field digest : string) : Prop :=
  ∃ text item, input_text utf8_decode input = Ok text ∧ canonicalJson (Obj item) = Ok text ∧
    sealed sha256 item field digest.

(** Whatever a decoder accepts is canonical text sealed by its own digest:
    the digest field of a wire record, of an invocation and of a semantic
    result is the SHA-256 of the canonical text of the record without that
    field. *)
Lemma accepted_records_are_sealed utf8_decode sha256 input expectedBinding :
  (∀ w, decodeAcceptanceChildWire utf8_decode sha256 input = Ok w →
    sealed_input utf8_decode sha256 input "wireSha256" (wireSha256 w)) ∧
  (∀ i, decodeProducerChildInvocation utf8_decode sha256 input expectedBinding = Ok i →
    sealed_input utf8_decode sha256 input "invocationSha256" (invocationSha256 i)) ∧
  (∀ s, decodeConsumerSemanticResult utf8_decode sha256 input = Ok s →
    sealed_input utf8_decode sha256 input "semanticResultSha256" (semanticResultSha256 s)).
Proof.
  split; [|split].
  - intros w (text & value & Ht & Hc & H)%decodeCanonical_Ok.
    apply wire_decoded in H as (item & -> & _ & _ & _ & _ & _ & _ & _ & _ & Hs). by exists text, item.
  - intros i (text & value & Ht & Hc & H)%decodeCanonical_Ok.
    apply invocation_decoded in H as (item & _ & _ & -> & _ & _ & _ & Hs). by exists text, item.
  - intros s (text & value & Ht & Hc & H)%decodeCanonical_Ok.
    apply semantic_decoded in H as (item & -> & Hs). by exists text, item.
Qed.

(** ** Bindings *)

(** Roots numbered from 0, no role and no root twice. *)
Definition complete_roots (roots : list RootBinding) : Prop :=
  (∀ j r, roots !! j = Some r → ordinal r = Z.of_nat j) ∧
  NoDup (map role roots) ∧ NoDup (map rootRefDigest roots).

Lemma check_roots_Ok index seenRoles seenRoots values context u :
  check_roots index seenRoles seenRoots values context = Ok u →
  (∀ j r, values !! j = Some r → ordinal r = Z.of_nat (index + j)) ∧
  NoDup (map role values) ∧ NoDup (map rootRefDigest values) ∧
  (∀ r, r ∈ values → role r ∉ seenRoles ∧ rootRefDigest r ∉ seenRoots).
Proof.
  revert index seenRoles seenRoots.
  induction values as [|item rest IH]; intros index seenRoles seenRoots; cbn [check_roots].
  { intros _. split; [done|]. split; [constructor|]. split; [constructor|]. by intros ? ?%elem_of_nil. }
  intros H. inv_checked. apply IH in H as (Hidx & Hroles & Hroots & Hseen).
  rewrite negb_false_iff, Z.eqb_eq in H0. rewrite orb_false_iff, !includes_false in H1. destruct H1.
  split; [|split; [|split]].
  - intros [|j] r Hr; cbn in Hr; [simplify_eq; lia|]. rewrite (Hidx _ _ Hr). lia.
  - cbn. apply NoDup_cons. split; [|done]. intros (r & E & Hin)%list_elem_of_fmap.
    destruct (Hseen r Hin) as [Hr _]. rewrite <-E in Hr. set_solver.
  - cbn. apply NoDup_cons. split; [|done]. intros (r & E & Hin)%list_elem_of_fmap.
    destruct (Hseen r Hin) as [_ Hr]. rewrite <-E in Hr. set_solver.
  - intros r [->|Hin]%elem_of_cons; [done|]. destruct (Hseen r Hin). set_solver.
Qed.

Lemma expectedBindingContext_complete value context e :
  expectedBindingContext value context = Ok e → complete_roots (rootBindings_of e).
Proof.
  unfold expectedBindingContext, binding_fields. intros H. inv_checked. cbn.
  match goal with H : rootBindings _ _ = Ok _ |- _ => unfold rootBindings in H; inv_checked end.
  match goal with H : check_roots _ _ _ _ _ = Ok _ |- _ => apply check_roots_Ok in H as (? & ? & ? & _) end.
  by split.
Qed.

Lemma bound_scope_Ok item expectedBinding state context :
  bound_scope item expectedBinding state = Ok context →
  ∃ expected label, expectedBinding = Some expected ∧ expectedBindingContext expected label = Ok context.
Proof.
  unfold bound_scope. intros H. inv_checked. destruct x as [|actual]; [done|].
  destruct expectedBinding as [expected|]; [|done]. inv_checked.
  unfold assertBindingMatches in *. inv_checked.
  match goal with H : binding_differs _ _ = false |- _ => apply binding_differs_spec in H; subst end.
  eexists _, _. by split.
Qed.

(** [b] is the binding the caller expects, with its complete root set. *)
Definition expected_binding (expectedBinding : option js) (b : ExpectedBindingContext) : Prop :=
  ∃ expected label, expectedBinding = Some expected ∧ expectedBindingContext expected label = Ok b ∧
    complete_roots (rootBindings_of b).

Definition scope_binding (scope : ProducerChildScope) : option ExpectedBindingContext :=
  match scope with
  | PlannedChildScope _ => None
  | PreparedChildScope _ b | ReadyChildScope _ b _ _ => Some b
  end.

Lemma bound_scope_expected item expectedBinding state b :
  bound_scope item expectedBinding state = Ok b → expected_binding expectedBinding b.
Proof.
  intros (e & l & -> & He)%bound_scope_Ok. exists e, l. split; [done|]. split; [done|].
  by eapply expectedBindingContext_complete.
Qed.

(** A prepared or ready scope and an invocation are accepted only against
    an expected binding the caller supplies, and carry exactly that binding,
    whose roots are numbered without a gap and repeat no role and no root; a
    planned scope carries none. *)
Lemma accepted_binding_is_expected utf8_decode sha256 input expectedBinding :
  (∀ scope b, decodeProducerChildScope utf8_decode input expectedBinding = Ok scope →
    scope_binding scope = Some b → expected_binding expectedBinding b) ∧
  (∀ i, decodeProducerChildInvocation utf8_decode sha256 input expectedBinding = Ok i →
    expected_binding expectedBinding (inv_binding i)).
Proof.
  split.
  - intros scope b (_ & value & _ & _ & H)%decodeCanonical_Ok Hb.
    unfold decodeProducerChildScopeValue in H. inv_checked.
    repeat match type of H with (if ?c then _ else _) = _ => destruct c end; inv_checked.
    + destruct x3; [|done]. by inv_checked.
    + cbn in Hb. simplify_eq. by eapply bound_scope_expected.
    + cbn in Hb. simplify_eq. by eapply bound_scope_expected.
  - intros i (_ & value & _ & _ & H)%decodeCanonical_Ok.
    apply invocation_decoded in H as (item & e & l & _ & -> & _ & He & _).
    exists e, l. split; [done|]. split; [done|]. by eapply expectedBindingContext_complete.
Qed.

(** ** Sample records *)

Definition sample_sha256 (text : string) : string := sample_digest "a".
Definition digest_of (c : string) : js := Str (sample_digest c).

Definition sample_root : js :=
  Obj [("ordinal", js_Z 0); ("role", Str "runtime"); ("rootRefDigest", digest_of "1");
       ("rootGeneration", js_Z 3); ("specDigest", digest_of "2"); ("reservedListenerIdentity", Str "listener:1")].

Definition sample_binding_fields : fields :=
  [("bindingAttemptId", Str "attempt-1"); ("groupRefDigest", digest_of "3"); ("groupGeneration", js_Z 1);
   ("rootBindings", Arr [sample_root]); ("activationReceiptDigest", digest_of "4")].

Definition sample_assignment : js :=
  Obj [("fixtureIndex", js_Z 0); ("fixtureKey", Str "page-1"); ("fixtureIdentitySha256", digest_of "a");
       ("mediaKind", Str "jpeg"); ("page", Null); ("mediaCapabilityHandle", Str "m1");
       ("mediaCapabilityHandleSha256", digest_of "5"); ("oracleCapabilityHandle", Str "o1");
       ("oracleCapabilityHandleSha256", digest_of "6"); ("mediaSha256", digest_of "7");
       ("oracleSha256", digest_of "8"); ("expectedNormalizedTruthSha256", digest_of "9");
       ("expectedAnchorSetSha256", digest_of "b"); ("cerThreshold", Num (expected_threshold Jpeg));
       ("artifactId", digest_of "c")].

Definition sample_result : fields :=
  [("fixtureIndex", js_Z 0); ("fixtureKey", Str "page-1"); ("fixtureIdentitySha256", digest_of "a");
   ("mediaKind", Str "jpeg"); ("page", Null); ("mediaCapabilityHandleSha256", digest_of "5");
   ("oracleCapabilityHandleSha256", digest_of "6"); ("mediaSha256", digest_of "7");
   ("oracleSha256", digest_of "8"); ("actualNormalizedOutputSha256", digest_of "9");
   ("expectedNormalizedTruthSha256", digest_of "9"); ("expectedAnchorSetSha256", digest_of "b");
   ("cer", js_Z 0); ("anchorOmissions", js_Z 0); ("cerThreshold", Num (expected_threshold Jpeg));
   ("outcome", Str "passed"); ("projectionSha256", digest_of "d"); ("artifactId", digest_of "c")].

Definition sample_ledger : fields :=
  [("sourceGate", Str "D3"); ("ledgerSha256", digest_of "e"); ("candidateId", digest_of "f");
   ("candidateManifestSha256", digest_of "0")].

Definition sample_base (schema : string) : fields :=
  [("schemaVersion", Str schema); ("contractVersion", Str "1"); ("contractSha256", digest_of "1");
   ("parentGate", Str "D4"); ("tier", Str "candidate"); ("sequenceIndex", js_Z 1);
   ("childKey", Str "child"); ("legId", Str "leg"); ("childId", digest_of "2")].

Definition flags (value : bool) (names : list string) : fields := map (λ name, (name, Bool value)) names.

Definition sample_wire : fields :=
  sample_base "AcceptanceChildWireV1" ++
  [("producer", Str "capture-runtime"); ("runIdDigest", digest_of "3"); ("root", digest_of "4");
   ("artifactIds", Arr [digest_of "c"]);
   ("ledgerBinding", Obj (sample_ledger ++ [("artifactDigests",
      Arr [Obj [("artifactKey", Str "model"); ("sha256", digest_of "5")]])]));
   ("invocationSha256", digest_of "6"); ("fixtureAssignments", Arr [sample_assignment]);
   ("fixtureResults", Arr [Obj (sample_result ++ [("normalization", Str "nfkc-whitespace-v1");
      ("distance", Str "code-point-levenshtein-v1")])]);
   ("childSemanticResultSha256", digest_of "7");
   ("producerCleanup", Obj ([("journalState", Str "terminal"); ("reconcileRefSha256", digest_of "8");
      ("generation", js_Z 0); ("automaticAttempts", js_Z 0); ("proofSha256", digest_of "9")] ++
      flags true ["rootReaped"; "descendantsTerminated"; "listenersReleased"; "stagingReleased";
        "captureDeleted"; "modelMemoryReleased"; "processesAbsent"; "listenersAbsent"; "stagingAbsent"]));
   ("privacy", Obj (flags false ["rawOcr"; "rawTruth"; "rawMedia"; "tokens"; "paths"; "nativeIds"]));
   ("wireSha256", digest_of "a")].

Definition sample_scope : fields :=
  sample_base "ProducerChildScopeV1" ++
  [("producer", Str "capture-runtime"); ("runIdDigest", digest_of "3"); ("childPlanDigest", digest_of "4");
   ("readyState", Str "prepared"); ("binding", Obj (("kind", Str "bound") :: sample_binding_fields))].

(** The canonical text of a record, as input. *)
Definition sample_input (item : fields) : Input := Text (ok_or "" (canonicalJson (Obj item))).

Lemma accepted_wire_results_witness :
  match decodeAcceptanceChildWire decode_ascii sample_sha256 (sample_input sample_wire) with
  | Ok w => length (wire_fixtureAssignments w) = length (wire_fixtureResults w)
  | Err _ => False
  end.
Proof.
  destruct (decodeAcceptanceChildWire decode_ascii sample_sha256 (sample_input sample_wire)) as [w|e] eqn:H.
  - exact (proj1 (accepted_wire_results decode_ascii sample_sha256 (sample_input sample_wire) w H)).
  - vm_compute in H. discriminate H.
Defined.

Lemma accepted_records_are_sealed_witness :
  match decodeAcceptanceChildWire decode_ascii sample_sha256 (sample_input sample_wire) with
  | Ok w => sealed_input decode_ascii sample_sha256 (sample_input sample_wire) "wireSha256" (wireSha256 w)
  | Err _ => False
  end.
Proof.
  destruct (decodeAcceptanceChildWire decode_ascii sample_sha256 (sample_input sample_wire)) as [w|e] eqn:H.
  - exact (proj1 (accepted_records_are_sealed decode_ascii sample_sha256 (sample_input sample_wire) None) w H).
  - vm_compute in H. discriminate H.
Defined.

Lemma accepted_binding_is_expected_witness :
  match decodeProducerChildScope decode_ascii (sample_input sample_scope) (Some (Obj sample_binding_fields)) with
  | Ok (PreparedChildScope _ b) => expected_binding (Some (Obj sample_binding_fields)) b
  | _ => False
  end.
Proof.
  destruct (decodeProducerChildScope decode_ascii (sample_input sample_scope) (Some (Obj sample_binding_fields)))
    as [[base|base b|base b i n]|e] eqn:H; try (vm_compute in H; discriminate H).
  apply (proj1 (accepted_binding_is_expected decode_ascii sample_sha256 (sample_input sample_scope)
    (Some (Obj sample_binding_fields))) (PreparedChildScope base b) b H). reflexivity.
Defined.
