(* ===== verification/JsMath.v ===== *)
(** * Math

    Division, [Math.round], [Math.min] and [Math.max] over argument lists and
    [Number.EPSILON], on the numbers of [JsNum]. *)

From S2P Require Import Prelude JsNum.

(** [a / b]; the program divides finite numbers by positive ones only. *)
Definition num_div (a b : num) : num :=
  match a, b with
  | Fin x, Fin y => if Qnum y =? 0 then if Qnum x =? 0 then NaN else Inf (Qnum x <? 0) else round64 (Qdiv x y)
  | NaN, _ | _, NaN => NaN
  | Inf _, Inf _ => NaN
  | Inf s, Fin y => Inf (xorb s (Qnum y <? 0))
  | Fin _, Inf _ => Fin 0
  end.

(** [Math.round(a)]: the nearest integer, halves upwards. *)
Definition math_round (a : num) : num :=
  match a with
  | Fin q => let r := Qplus q (1 # 2) in num_of_Z (Qnum r / QDen r)
  | _ => a
  end.

(** [Math.floor(a)] *)
Definition math_floor (a : num) : num := match a with Fin q => num_of_Z (Qnum q / QDen q) | _ => a end.

(** [Number.EPSILON] *)
Definition EPSILON : num := Fin (pow2 (-52)).

(** [Math.min(...values)], [Math.max(...values)] *)
Definition math_min (values : list num) : num := fold_left num_min values (Inf false).
Definition math_max (values : list num) : num := fold_left num_max values (Inf true).

(** [values.reduce((sum, value) => sum + value, 0)] *)
Definition sum_of (values : list num) : num := fold_left num_add values (num_of_Z 0).
