(* ===== verification/Rounding.v ===== *)
(** * The error of rounding

    [round64] moves a number by at most half a unit in the last place.  So the
    floor of the quotient of two integers is the integer quotient, although the
    quotient itself is rounded. *)

From Stdlib Require Import Lqa Qpower.
From S2P Require Import Prelude JsNum JsMath.

Lemma round_half_even_near x :
  (inject_Z (round_half_even x) - (1 # 2) <= x)%Q ∧ (x <= inject_Z (round_half_even x) + (1 # 2))%Q.
Proof.
  destruct x as [n d]. unfold round_half_even. cbn [Qnum Qden].
  pose proof (Z.div_mod n (Z.pos d) ltac:(lia)) as Hdm.
  pose proof (Z.mod_pos_bound n (Z.pos d) ltac:(lia)) as Hb.
  set (f := n / Z.pos d) in *. set (r := n mod Z.pos d) in *.
  assert (Hm : ∀ m, -1 * Z.pos d ≤ 2 * (n - m * Z.pos d) ≤ Z.pos d →
    (inject_Z m - (1 # 2) <= n # d)%Q ∧ (n # d <= inject_Z m + (1 # 2))%Q).
  { intros m Hm. unfold Qle, Qminus, Qplus, Qopp, inject_Z. cbn. lia. }
  destruct (2 * r <? Z.pos d) eqn:H1; bsimp; [apply Hm; lia|].
  destruct (Z.pos d <? 2 * r) eqn:H2; bsimp; [apply Hm; lia|].
  destruct (Z.even f); apply Hm; lia.
Qed.

(** The binary exponent of a positive number, as [round64] finds it. *)
Definition exponent2 (q : Q) : Z :=
  let e0 := Z.log2 (Z.abs (Qnum q)) - Z.log2 (QDen q) in
  if Qltb (Qmake (Z.abs (Qnum q)) (Qden q)) (pow2 e0) then e0 - 1 else e0.

Lemma pow2_alt e : (pow2 e == Qpower 2 e)%Q.
Proof.
  unfold pow2. destruct (Z.leb_spec 0 e) as [H|H].
  - rewrite Zpower_Qpower by lia. done.
  - replace e with (- (- e)) at 2 by lia. rewrite Qpower_opp. 
    change 2%Q with (inject_Z 2). rewrite <-Zpower_Qpower by lia.
    unfold Qinv, inject_Z. cbn. assert (0 < 2 ^ (- e)) by (apply Z.pow_pos_nonneg; lia).
    destruct (2 ^ (- e)) eqn:E; [lia|done|lia].
Qed.

Lemma pow2_add a b : (pow2 (a + b) == pow2 a * pow2 b)%Q.
Proof. rewrite !pow2_alt. apply Qpower_plus. done. Qed.

Lemma pow2_mono a b : a ≤ b → (pow2 a <= pow2 b)%Q.
Proof.
  intros H. replace b with (a + (b - a)) by lia. rewrite pow2_add.
  assert (1 <= pow2 (b - a))%Q as H1.
  { unfold pow2. rewrite (proj2 (Z.leb_le 0 _)) by lia. change 1%Q with (inject_Z 1). rewrite <-Zle_Qle.
    assert (0 < 2 ^ (b - a)) by (apply Z.pow_pos_nonneg; lia). lia. }
  pose proof (pow2_pos a). nra.
Qed.

Lemma exponent2_below q : (0 < q)%Q → (pow2 (exponent2 q) <= q)%Q.
Proof.
  destruct q as [n d]. intros Hq. assert (0 < n) by (unfold Qlt in Hq; cbn in Hq; lia).
  unfold exponent2. cbn [Qnum Qden]. replace (Z.abs n) with n by lia.
  set (e0 := Z.log2 n - Z.log2 (Z.pos d)).
  destruct (Qltb (n # d) (pow2 e0)) eqn:Hlt.
  - assert (He : (pow2 (e0 - 1) * inject_Z (2 ^ Z.succ (Z.log2 (Z.pos d))) == inject_Z (2 ^ Z.log2 n))%Q).
    { rewrite !Zpower_Qpower by (pose proof (Z.log2_nonneg n); pose proof (Z.log2_nonneg (Z.pos d)); lia).
      change (inject_Z 2) with 2%Q. rewrite pow2_alt, <-Qpower_plus by done. f_equiv. unfold e0. lia. }
    destruct (Z.log2_spec n ltac:(lia)) as [Hn _]. destruct (Z.log2_spec (Z.pos d) ltac:(lia)) as [_ Hd].
    rewrite Zle_Qle in Hn. rewrite Zlt_Qlt in Hd.
    pose proof (pow2_pos (e0 - 1)) as Hp.
    assert (Hd2 : (pow2 (e0 - 1) * inject_Z (Z.pos d) <= inject_Z n)%Q) by nra.
    assert ((n # d) * inject_Z (Z.pos d) == inject_Z n)%Q as Hnd by (unfold Qeq, Qmult, inject_Z; cbn; lia).
    assert (0 < inject_Z (Z.pos d))%Q as Hd0 by done. nra.
  - apply Qnot_lt_le. intros Hc%Qltb_spec. congruence.
Qed.

(** The scale of the last place. *)
Definition ulp_exponent (q : Q) : Z := Z.max (exponent2 q - 52) (-1074).

Lemma round64_pos q :
  (0 < q)%Q → (q <= inject_Z (2 ^ 60))%Q →
  ∃ r, round64 q = Fin r ∧ (0 <= r)%Q ∧
       (r - (1 # 2) * pow2 (ulp_exponent q) <= q)%Q ∧ (q <= r + (1 # 2) * pow2 (ulp_exponent q))%Q.
Proof.
  intros Hq Hbig. unfold round64. rewrite (proj2 (Z.eqb_neq (Qnum q) 0)).
  2:{ destruct q as [n d]. unfold Qlt in Hq. cbn in *. lia. }
  cbv zeta. fold (exponent2 q). fold (ulp_exponent q). set (s := ulp_exponent q).
  pose proof (pow2_pos s) as Hs. destruct (round_half_even_near (q / pow2 s)) as [H1 H2].
  set (m := round_half_even (q / pow2 s)) in *.
  assert (Hx : (q / pow2 s * pow2 s == q)%Q) by (field; lra).
  assert (Hm : (0 <= m)).
  { assert (0 < q / pow2 s)%Q by (apply Qlt_shift_div_l; lra).
    assert (inject_Z (-1) < inject_Z m)%Q as Hlt by (change (inject_Z (-1)) with (-1)%Q; lra).
    rewrite <-Zlt_Qlt in Hlt. lia. }
  assert (Hm' : (0 <= inject_Z m)%Q) by (change 0%Q with (inject_Z 0); by rewrite <-Zle_Qle).
  set (r := Qred (inject_Z m * pow2 s)).
  assert (Hr : (r == inject_Z m * pow2 s)%Q) by apply Qred_correct.
  assert (Hbounds : (r - (1 # 2) * pow2 s <= q)%Q ∧ (q <= r + (1 # 2) * pow2 s)%Q) by (rewrite Hr; split; nra).
  assert (Hr0 : (0 <= r)%Q) by (rewrite Hr; nra).
  destruct (Z.leb_spec (2 ^ 1024) (Z.abs (Qnum r / QDen r))) as [Hov|]; [exfalso|by exists r].
  assert (Hs8 : (pow2 s <= inject_Z (2 ^ 60))%Q).
  { pose proof (exponent2_below q Hq) as He. unfold s, ulp_exponent.
    apply Z.max_case_strong; intros _; [|done].
    pose proof (pow2_mono (exponent2 q - 52) (exponent2 q) ltac:(lia)). lra. }
  assert (Hrb : (r <= inject_Z (2 ^ 61))%Q).
  { change (2 ^ 61) with (2 ^ 60 + 2 ^ 60). rewrite inject_Z_plus. lra. }
  destruct r as [n d]. cbn [Qnum Qden] in *. unfold Qle in Hrb, Hr0. cbn in Hrb, Hr0.
  assert (n / Z.pos d ≤ 2 ^ 61) by (apply Z.div_le_upper_bound; lia).
  assert (0 ≤ n / Z.pos d) by (apply Z.div_pos; lia).
  assert (2 ^ 61 < 2 ^ 1024) by (apply Z.pow_lt_mono_r; lia). lia.
Qed.

(** The error relative to the number, away from the subnormal numbers. *)
Lemma round64_relative q :
  (pow2 (-1022) <= q)%Q → (q <= inject_Z (2 ^ 60))%Q →
  ∃ r, round64 q = Fin r ∧ (r <= q + q * pow2 (-53))%Q ∧ (q - q * pow2 (-53) <= r)%Q.
Proof.
  intros Hlo Hhi. pose proof (pow2_pos (-1022)) as Hp0. assert (Hq : (0 < q)%Q) by lra.
  destruct (round64_pos q Hq Hhi) as (r & Hr & _ & H1 & H2). exists r. split; [done|].
  assert ((1 # 2) * pow2 (ulp_exponent q) <= q * pow2 (-53))%Q; [|split; lra].
  unfold ulp_exponent. change (1 # 2) with (pow2 (-1)).
  apply Z.max_case_strong; intros _.
  - rewrite <-pow2_add. replace (-1 + (exponent2 q - 52)) with (exponent2 q + -53) by lia. rewrite pow2_add.
    pose proof (exponent2_below q Hq). pose proof (pow2_pos (-53)). nra.
  - rewrite <-pow2_add. change (-1 + -1074) with (-1022 + -53). rewrite pow2_add.
    pose proof (pow2_pos (-53)). nra.
Qed.

(** ** Integer division *)

(** [Math.floor(a / d)] of whole numbers *)
Lemma math_floor_div a d :
  0 ≤ a < 2 ^ 53 → 0 < d < 2 ^ 53 → math_floor (num_div (num_of_Z a) (num_of_Z d)) = num_of_Z (a / d).
Proof.
  intros Ha Hd. change (num_div (num_of_Z a) (num_of_Z d)) with
    (if d =? 0 then if a =? 0 then NaN else Inf (a <? 0) else round64 (inject_Z a / inject_Z d)).
  rewrite (proj2 (Z.eqb_neq d 0)) by lia.
  assert (Hq : (inject_Z a / inject_Z d == a # Z.to_pos d)%Q).
  { rewrite <-(Z2Pos.id d) at 1 by lia. by rewrite <-Qmake_Qdiv. }
  assert (Hn : a / d * d ≤ a < (a / d + 1) * d).
  { pose proof (Z.div_mod a d ltac:(lia)). pose proof (Z.mod_pos_bound a d ltac:(lia)). nia. }
  assert (Hd0 : (0 < inject_Z d)%Q) by (change 0%Q with (inject_Z 0); rewrite <-Zlt_Qlt; lia).
  set (n := a / d) in *.
  destruct (decide (a = n * d)) as [He|Hne].
  { assert (to_int (round64 (inject_Z a / inject_Z d)) = Some n) as (r & -> & Hr)%to_int_Some.
    { apply round64_int; [|nia]. rewrite He, inject_Z_mult. field. lra. }
    unfold math_floor. f_equal. assert (to_int (Fin r) = Some n) as Hint by (apply to_int_Some; by exists r).
    unfold to_int in Hint. destruct (_ =? 0); [|done]. by injection Hint as ->. }
  destruct (round64_relative (inject_Z a / inject_Z d)) as (r & -> & Hup & Hlow).
  - apply Qle_shift_div_l; [done|]. apply Qle_trans with (pow2 (-1022) * inject_Z (2 ^ 53))%Q.
    { apply Qmult_le_l; [done|]. rewrite <-Zle_Qle. lia. }
    apply Qle_trans with (inject_Z 1); [vm_compute; congruence|]. rewrite <-Zle_Qle.
    assert (0 ≤ n) by (apply Z.div_pos; lia). assert (n = 0 ∨ 1 ≤ n) as [|] by lia; nia.
  - apply Qle_shift_div_r; [done|]. rewrite <-inject_Z_mult, <-Zle_Qle. nia.
  - set (q := (inject_Z a / inject_Z d)%Q) in *.
    assert (Hqd : (q * inject_Z d == inject_Z a)%Q) by (unfold q; field; lra).
    assert (H53 : (pow2 (-53) * inject_Z (2 ^ 53) == 1)%Q) by done.
    assert (Ha' : (inject_Z a < inject_Z (2 ^ 53))%Q) by (rewrite <-Zlt_Qlt; lia).
    pose proof (pow2_pos (-53)) as Hp.
    assert (Herr : (q * pow2 (-53) * inject_Z d < 1)%Q) by nra.
    assert (H1 : (inject_Z n * inject_Z d + 1 <= inject_Z a)%Q).
    { change 1%Q with (inject_Z 1). rewrite <-inject_Z_mult, <-inject_Z_plus, <-Zle_Qle. lia. }
    assert (H2 : (inject_Z a + 1 <= (inject_Z n + 1) * inject_Z d)%Q).
    { change 1%Q with (inject_Z 1). rewrite <-!inject_Z_plus, <-inject_Z_mult, <-Zle_Qle. lia. }
    assert (Hlo : (inject_Z n <= r)%Q) by nra.
    assert (Hhi : (r < inject_Z n + 1)%Q) by nra.
    unfold math_floor. assert (Qnum r / QDen r = n) as ->; [|done]. destruct r as [rn rd]. unfold Qle in Hlo. unfold Qlt, Qplus in Hhi. cbn in Hlo, Hhi |- *.
    symmetry. apply Z.div_unique with (rn - n * Z.pos rd); lia.
Qed.

(** ** Sums past the exact integers *)

Lemma round_half_even_at_least n x : (inject_Z n <= x)%Q → n ≤ round_half_even x.
Proof.
  intros Hn. destruct (round_half_even_near x) as [_ H]. set (m := round_half_even x) in *.
  assert (inject_Z n <= inject_Z m + (1 # 2))%Q as Hle by lra.
  unfold Qle, Qplus, inject_Z in Hle. cbn in Hle. lia.
Qed.

(** At least [2 ^ 53]. *)
Definition past_exact (n : num) : Prop :=
  match n with Fin q => (inject_Z (2 ^ 53) <= q)%Q | Inf negative => negative = false | NaN => False end.

Lemma scaled_floor q : (inject_Z (2 ^ 53) <= q)%Q →
  ∃ n, (inject_Z n <= q / pow2 (ulp_exponent q))%Q ∧ (inject_Z (2 ^ 53) <= inject_Z n * pow2 (ulp_exponent q))%Q.
Proof.
  intros Hq. assert (Hq0 : (0 < q)%Q) by (eapply Qlt_le_trans; [|exact Hq]; reflexivity).
  set (s := ulp_exponent q). pose proof (pow2_pos s) as Hs.
  destruct (Z.le_gt_cases s 0) as [Hle|Hgt].
  - exists (2 ^ 53 * 2 ^ (- s)). pose proof (pow2_neg s Hle) as Hn. rewrite inject_Z_mult.
    set (k := inject_Z (2 ^ 53)) in *. set (u := inject_Z (2 ^ (- s))) in *. 
    assert (Hk : (k * u * pow2 s == k)%Q) by (transitivity (k * (pow2 s * u))%Q; [ring|rewrite Hn; ring]).
    split; [apply Qle_shift_div_l; [done|]|]; rewrite Hk; lra.
  - assert (Hse : s = exponent2 q - 52) by (unfold s, ulp_exponent in *; lia).
    exists (2 ^ 52). change (inject_Z (2 ^ 52)) with (pow2 52). rewrite <-pow2_add. split.
    + apply Qle_shift_div_l; [done|]. rewrite <-pow2_add. replace (52 + s) with (exponent2 q) by lia. by apply exponent2_below.
    + change (inject_Z (2 ^ 53)) with (pow2 53). apply pow2_mono. lia.
Qed.

Lemma round64_past_exact q : (inject_Z (2 ^ 53) <= q)%Q → past_exact (round64 q).
Proof.
  intros Hq. assert (Hq0 : (0 < q)%Q) by (eapply Qlt_le_trans; [|exact Hq]; reflexivity).
  assert (Hn0 : 0 < Qnum q) by (destruct q; unfold Qlt in Hq0; cbn in *; lia).
  unfold round64. rewrite (proj2 (Z.eqb_neq (Qnum q) 0)) by lia.
  cbv zeta. fold (exponent2 q). fold (ulp_exponent q).
  destruct (scaled_floor q Hq) as (n & Hn & Hbig). apply round_half_even_at_least in Hn.
  set (s := ulp_exponent q) in *. set (m := round_half_even (q / pow2 s)) in *. pose proof (pow2_pos s) as Hs.
  destruct (_ <=? _); cbn [past_exact]; [apply Z.ltb_ge; lia|].
  rewrite Qred_correct. rewrite Zle_Qle in Hn. set (k := inject_Z (2 ^ 53)) in *. nra.
Qed.

Lemma num_add_past_exact a n : past_exact a → 0 ≤ n → past_exact (num_add a (num_of_Z n)).
Proof.
  intros Ha Hn. destruct a; cbn in *; try done.
  apply round64_past_exact. rewrite Zle_Qle in Hn. change (inject_Z 0) with 0%Q in Hn. set (k := inject_Z (2 ^ 53)) in *. lra.
Qed.

Lemma past_exact_unsafe n z : past_exact n → to_int n = Some z → 2 ^ 53 ≤ z.
Proof.
  intros Hn (q & -> & Hq)%to_int_Some. cbn in Hn. rewrite Hq in Hn. by rewrite <-Zle_Qle in Hn.
Qed.

(** A floating-point sum of counts that ends at a safe integer is exact. *)
Lemma past_exact_sum counts : ∀ a, Forall (λ n, 0 ≤ n) counts → past_exact a →
  past_exact (fold_left (λ total n, num_add total (num_of_Z n)) counts a).
Proof.
  induction counts as [|n counts IH]; intros a Hall Ha; [done|]. apply Forall_cons in Hall as [Hn Hall]. cbn.
  apply IH; [done|]. by apply num_add_past_exact.
Qed.

Lemma safe_sum_is_exact counts : ∀ a x z,
  Forall (λ n, 0 ≤ n) counts → to_int a = Some x → 0 ≤ x →
  to_int (fold_left (λ total n, num_add total (num_of_Z n)) counts a) = Some z → z < 2 ^ 53 →
  z = fold_left Z.add counts x.
Proof.
  induction counts as [|n counts IH]; intros a x z Hall Ha Hx Hz Hsafe; cbn in *; [congruence|].
  apply Forall_cons in Hall as [Hn Hall]. destruct (Z.le_gt_cases (x + n) (2 ^ 53)) as [Hle|Hgt].
  - apply (IH (num_add a (num_of_Z n))); [done| |lia|done|done].
    apply num_add_int; [done|apply to_int_of_Z|]. rewrite Z.abs_eq; lia.
  - exfalso. assert (Hp : past_exact (num_add a (num_of_Z n))).
    { apply to_int_Some in Ha as (q & -> & Hq). cbn. apply round64_past_exact. rewrite Hq, <-inject_Z_plus, <-Zle_Qle. lia. }
    apply (past_exact_sum counts) in Hp; [|done]. pose proof (past_exact_unsafe _ _ Hp Hz). lia.
Qed.
