(* ===== verification/OcrEvidence.v ===== *)
(** * The privacy-safe OCR evidence of the desktop app

    Models src/apps/capture-workbench/src/app/contracts/ocr-evidence.ts: the
    checks of an OCR projection against the identity the host expects, and the
    record kept of it, which carries counts and provenance but no content.

    Records are JSON objects in the property order of the source, since the
    digest is taken over their canonical text.  Parameters: the NFKC
    normalisation, [Date.parse] and WebCrypto's SHA-256 over the UTF-8 bytes of
    a text.  Negative zero is not a value of [JsNum], so [Object.is(_, -0)] is
    false; engine limits on the number of spread arguments are not modelled. *)

From S2P Require Import Prelude JsString JsNum JsMath JsValue JsCoerce Stringify RuntimeErrors CodecFields OcrCodec CanonicalJson.

Section evidence.
Variables (normalize_nfkc : string → string) (Date_parse : string → num).
(** [globalThis.crypto?.subtle.digest('SHA-256', new TextEncoder().encode(_))] as bytes. *)
Variable subtle : option (string → list Z).

Definition MAX_PAGES : Z := 500.
Definition MAX_BOXES : Z := 100000.
Definition MAX_TEXT_LENGTH : Z := 8000000.

(** [new OcrEvidenceValidationError(message)] by its message *)
Abbreviation validated := (result string).

Definition invalid {A} (label : string) : validated A := Err ("Invalid OCR evidence: " +:+ label).
Definition invalid_if (bad : bool) (label : string) : validated unit :=
if bad then invalid label else Ok tt.

(** ** Field checks *)

Definition record (value : js) (label : string) : validated fields :=
match value with Obj r => Ok r | _ => invalid label end.

Definition requireExactKeys (value : fields) (required : list string) (label : string) (optional : list string)
  : validated unit :=
invalid_if (existsb (λ key, negb (has_key value key)) required ||
            existsb (λ key, negb (includes (required ++ optional) key)) (keys value)) (label +:+ " fields").

Definition nonEmpty (value : js) (label : string) : validated unit :=
invalid_if (negb (nonblank_string value)) label.

Definition sha (value : js) (label : string) : validated unit :=
invalid_if (negb (string_with is_sha256_hex value)) label.

Definition safeInteger (value : js) (label : string) (minimum : Z) : validated unit :=
invalid_if (negb (isSafeIntegerAtLeast value minimum)) label.

Definition finitePositive (value : js) (label : string) : validated unit :=
invalid_if (negb (number_with (λ n, is_finite n && negb (num_leb n (num_of_Z 0))) value)) label.

Definition finitePositiveAtMost (value : js) (label : string) (maximum : Z) : validated unit :=
finitePositive value label;;
invalid_if (num_ltb (num_of_Z maximum) (num_or_nan value)) label.

Definition boundedNumber (value : js) (label : string) : validated unit :=
invalid_if (negb (is_unit_interval value)) label.

Definition round4 (value : num) : num :=
num_div (math_round (num_mul (num_add value EPSILON) (num_of_Z 10000))) (num_of_Z 10000).

Definition canonicalConfidence (value : js) (label : string) : validated unit :=
boundedNumber value label;;
invalid_if (negb (num_eqb (round4 (num_or_nan value)) (num_or_nan value))) (label +:+ " must be canonical").

Definition finiteNonNegative (value : js) (label : string) : validated unit :=
invalid_if (negb (number_with (λ n, is_finite n && negb (num_ltb n (num_of_Z 0))) value)) label.

Definition isoTimestamp (value : js) (label : string) : validated unit :=
invalid_if (negb (string_with (λ s, negb (blank s) && match Date_parse s with NaN => false | _ => true end) value)) label.

(** The text of a value in a template; the code only inserts checked strings. *)
Definition text (v : js) : string := match v with Str s => s | _ => "" end.

(** ** Canonical text *)

(** [None] is [undefined]: empty in a joined array, spelled out after a key. *)
Fixpoint canonicalJson (value : js) : option string :=
match value with
| Arr l => Some ("[" +:+ join "," (map (λ item, default "" (canonicalJson item)) l) +:+ "]")
| Obj r =>
    let texts := map (λ kv, (kv.1, default "undefined" (canonicalJson kv.2))) r in
    Some ("{" +:+ join "," (map (λ key, json_string key +:+ ":" +:+ default "undefined" (table_find texts key))
      (sort_keys (keys r))) +:+ "}")
| _ => JSON_stringify value
end.

(** ** The projection *)

Definition validateExpectedIdentity (value : js) : validated fields :=
expected ← record value "expected identity";
requireExactKeys expected ["captureId"; "sourceSha256"; "runtimeVersion"; "contractSha256"; "terminalStatus";
  "workerSha256"] "expected identity" [];;
nonEmpty (get expected "captureId") "expected captureId";;
sha (get expected "sourceSha256") "expected sourceSha256";;
nonEmpty (get expected "runtimeVersion") "expected runtimeVersion";;
sha (get expected "contractSha256") "expected contractSha256";;
invalid_if (negb (is_str (get expected "terminalStatus") "completed") &&
            negb (is_str (get expected "terminalStatus") "failed")) "expected terminalStatus";;
sha (get expected "workerSha256") "expected workerSha256";;
Ok expected.

Definition validateProvenance (value : js) : validated fields :=
provenance ← record value "OCR provenance";
if is_str (get provenance "status") "resolved" then
  requireExactKeys provenance ["status"; "engine"; "model"; "modelDigest"; "device"; "profileId";
    "profileSpecSha256"] "resolved OCR provenance" [];;
  invalid_if (negb (is_str (get provenance "engine") "windowsml-ocr")) "OCR provenance engine";;
  nonEmpty (get provenance "model") "OCR provenance model";;
  invalid_if (negb (string_with is_sha256_digest (get provenance "modelDigest"))) "OCR provenance modelDigest";;
  invalid_if (is_str (get provenance "modelDigest") zero_digest) "OCR provenance modelDigest";;
  nonEmpty (get provenance "device") "OCR provenance device";;
  nonEmpty (get provenance "profileId") "OCR provenance profileId";;
  sha (get provenance "profileSpecSha256") "OCR provenance profileSpecSha256";;
  Ok provenance
else if is_str (get provenance "status") "unavailable" then
  requireExactKeys provenance ["status"; "profileId"; "profileSpecSha256"; "reason"]
    "unavailable OCR provenance" [];;
  nonEmpty (get provenance "profileId") "unavailable OCR provenance profileId";;
  sha (get provenance "profileSpecSha256") "unavailable OCR provenance profileSpecSha256";;
  invalid_if (negb (one_of ["model_unavailable"; "worker_crashed"; "worker_timeout"; "protocol_failure"]
    (get provenance "reason"))) "unavailable OCR provenance reason";;
  Ok provenance
else invalid "OCR provenance status".

Definition sameProvenance (left right : fields) : bool :=
bool_decide (canonicalJson (Obj left) = canonicalJson (Obj right)).

Definition validateFailure (value : js) (label : string) : validated unit :=
failure ← record value label;
requireExactKeys failure ["code"; "message"] label ["stage"; "retryable"];;
invalid_if (negb (string_with is_failure_code (get failure "code"))) (label +:+ " code");;
nonEmpty (get failure "message") (label +:+ " message");;
invalid_if (500 <? slen (text (get failure "message"))) (label +:+ " message length");;
invalid_if (present (get failure "stage") && negb (nonblank_string (get failure "stage"))) (label +:+ " stage");;
invalid_if (negb (is_undefined (get failure "retryable")) && negb (is_boolean (get failure "retryable")))
  (label +:+ " retryable").

Definition validatePoint (raster : fields) (label : string) (index : nat) (value : js) : validated unit :=
let pointLabel := label +:+ " point " +:+ show_nat index in
point ← record value pointLabel;
requireExactKeys point ["x"; "y"] pointLabel [];;
finiteNonNegative (get point "x") (pointLabel +:+ " x");;
finiteNonNegative (get point "y") (pointLabel +:+ " y");;
invalid_if (num_ltb (num_or_nan (get raster "width")) (num_or_nan (get point "x")) ||
            num_ltb (num_or_nan (get raster "height")) (num_or_nan (get point "y"))) (label +:+ " point bounds").

Definition validateBox (raster : fields) (label : string) (value : js) : validated unit :=
box ← record value label;
requireExactKeys box ["polygon"; "text"; "confidence"] label [];;
points ← match get box "polygon" with
  | Arr polygon =>
      invalid_if ((Z.of_nat (length polygon) <? 4) || (256 <? Z.of_nat (length polygon))) (label +:+ " polygon");;
      Ok polygon
  | _ => invalid (label +:+ " polygon")
  end;
forM_from 0 (validatePoint raster label) points;;
nonEmpty (get box "text") (label +:+ " text");;
invalid_if (MAX_TEXT_LENGTH <? slen (text (get box "text"))) (label +:+ " text length");;
(if is_null (get box "confidence") then Ok tt else boundedNumber (get box "confidence") (label +:+ " confidence")).

Definition validatePage (documentProvenance : fields) (index : nat) (value : js) : validated unit :=
let label := "page " +:+ show_nat (S index) in
page ← record value label;
requireExactKeys page ["page"; "status"; "raster"; "provenance"] label ["text"; "boxes"; "confidence"; "failure"];;
invalid_if (negb (strict_eqb (get page "page") (js_Z (Z.of_nat (S index))))) (label +:+ " ordering");;
let status := get page "status" in
invalid_if (negb (is_str status "recognized") && negb (is_str status "empty") && negb (is_str status "failed"))
  (label +:+ " status");;
raster ← record (get page "raster") (label +:+ " raster");
requireExactKeys raster ["width"; "height"; "scale"; "coordinateSystem"] (label +:+ " raster") [];;
safeInteger (get raster "width") (label +:+ " raster width") 1;;
safeInteger (get raster "height") (label +:+ " raster height") 1;;
finitePositiveAtMost (get raster "scale") (label +:+ " raster scale") 8;;
invalid_if (negb (is_str (get raster "coordinateSystem") "pixel")) (label +:+ " raster coordinateSystem");;
provenance ← validateProvenance (get page "provenance");
invalid_if (negb (sameProvenance provenance documentProvenance)) (label +:+ " provenance mismatch");;
let textValue := get page "text" in
invalid_if (negb (is_undefined textValue) && negb (string_with (λ _, true) textValue)) (label +:+ " text");;
invalid_if (string_with (λ s, MAX_TEXT_LENGTH <? slen s) textValue) (label +:+ " text length");;
let boxes := get page "boxes" in
invalid_if (negb (is_undefined boxes) && negb (array_with (λ l, Z.of_nat (length l) <=? MAX_BOXES) boxes))
  (label +:+ " boxes");;
forM_from 0 (λ i, validateBox raster (label +:+ " box " +:+ show_nat i)) (list_or_empty boxes);;
let confidence := get page "confidence" in
(if present confidence then canonicalConfidence confidence (label +:+ " confidence") else Ok tt);;
let failure := get page "failure" in
(if present failure then validateFailure failure (label +:+ " failure") else Ok tt);;
(if is_str status "recognized" then
   invalid_if (blank (text textValue) || present failure || negb (number_with (λ _, true) confidence))
     ("recognized " +:+ label +:+ " shape")
 else if is_str status "empty" then
   invalid_if (negb (blank (text textValue)) || nonempty (list_or_empty boxes) || present confidence ||
     present failure) ("empty " +:+ label +:+ " shape")
 else
   invalid_if (negb (blank (text textValue)) || nonempty (list_or_empty boxes) || present confidence ||
     negb (present failure)) ("failed " +:+ label +:+ " shape"));;
invalid_if ((is_str status "recognized" || is_str status "empty") &&
            negb (is_str (get provenance "status") "resolved")) (label +:+ " provenance status").

Definition validateSource (expected : fields) (status value : js) : validated unit :=
if nullish value then invalid_if (negb (is_str status "failed")) "projection source"
else
  source ← record value "projection source";
  requireExactKeys source ["sha256"; "fileName"; "mediaType"; "bytes"] "projection source" [];;
  sha (get source "sha256") "projection sourceSha256";;
  invalid_if (negb (strict_eqb (get source "sha256") (get expected "sourceSha256")))
    "sourceSha256 does not match expected identity";;
  nonEmpty (get source "fileName") "projection source fileName";;
  nonEmpty (get source "mediaType") "projection source mediaType";;
  safeInteger (get source "bytes") "projection source bytes" 1.

(** The status of a page that passed [validatePage]. *)
Definition page_status (value : js) : js := match value with Obj page => get page "status" | _ => Undefined end.

Definition validateOutcome (projection documentProvenance : fields) (pages : list js) : validated unit :=
let failure := get projection "failure" in
if is_str (get projection "status") "completed" then
  invalid_if (present failure) "completed projection failure";;
  invalid_if (existsb (λ value, is_str (page_status value) "failed") pages)
    "completed projection contains failed page";;
  invalid_if (negb (existsb (λ value, is_str (page_status value) "recognized") pages))
    "completed projection requires recognized page";;
  invalid_if (negb (is_str (get documentProvenance "status") "resolved")) "completed projection provenance"
else
  invalid_if (nullish failure) "failed projection failure";;
  validateFailure failure "projection failure".

Definition matches (projection expected : fields) (field expectedField message : string) : validated unit :=
invalid_if (negb (strict_eqb (get projection field) (get expected expectedField))) message.

Definition validateProjection (value : js) (expected : fields) : validated fields :=
projection ← record value "projection";
requireExactKeys projection ["apiVersion"; "schemaVersion"; "captureId"; "status"; "pages"; "pageCount";
  "runtimeVersion"; "contractSha256"; "provenance"; "createdAt"] "projection" ["source"; "warnings"; "failure"];;
invalid_if (negb (is_str (get projection "apiVersion") "2.0") ||
            negb (is_str (get projection "schemaVersion") "3")) "projection version";;
nonEmpty (get projection "captureId") "projection captureId";;
matches projection expected "captureId" "captureId" "captureId does not match expected identity";;
invalid_if (negb (is_str (get projection "status") "completed") && negb (is_str (get projection "status") "failed"))
  "projection status";;
matches projection expected "status" "terminalStatus" "terminal status does not match expected identity";;
nonEmpty (get projection "runtimeVersion") "projection runtimeVersion";;
matches projection expected "runtimeVersion" "runtimeVersion" "runtimeVersion does not match expected identity";;
sha (get projection "contractSha256") "projection contractSha256";;
matches projection expected "contractSha256" "contractSha256" "contractSha256 does not match expected identity";;
isoTimestamp (get projection "createdAt") "projection createdAt";;
validateSource expected (get projection "status") (get projection "source");;
invalid_if (negb (isSafeIntegerAtLeast (get projection "pageCount") 0) ||
            num_ltb (num_of_Z MAX_PAGES) (num_or_nan (get projection "pageCount"))) "projection pageCount";;
pages ← match get projection "pages" with
  | Arr pages =>
      invalid_if (negb (strict_eqb (js_Z (Z.of_nat (length pages))) (get projection "pageCount")))
        "projection pages/pageCount";;
      Ok pages
  | _ => invalid "projection pages/pageCount"
  end;
documentProvenance ← validateProvenance (get projection "provenance");
forM_from 0 (validatePage documentProvenance) pages;;
validateOutcome projection documentProvenance pages;;
Ok projection.

(** ** The evidence *)

(** [.replace(/\r\n?/gu, '\n')] *)
Fixpoint newlines (s : string) : string :=
match s with
| "" => ""
| String c s' =>
    if Ascii.eqb c "013" then
      String "010" (match s' with
                    | String d s'' => if Ascii.eqb d "010" then newlines s'' else newlines s'
                    | "" => ""
                    end)
    else String c (newlines s')
end.

(** [.replace(/\s+/gu, ' ')]; [inside] a run of spaces that is already replaced. *)
Fixpoint collapse_spaces (inside : bool) (s : string) : string :=
match s with
| "" => ""
| String c s' =>
    if is_space c then if inside then collapse_spaces true s' else String " " (collapse_spaces true s')
    else String c (collapse_spaces false s')
end.

Definition normalizedCodePointCount (value : string) : Z :=
slen (trim (collapse_spaces false (newlines (normalize_nfkc value)))).

Definition summarizeConfidence (values : list num) : js :=
match values with
| [] => Obj [("scoreState", Str "none"); ("numericCount", js_Z 0); ("min", Null); ("max", Null); ("mean", Null)]
| _ =>
    Obj [("scoreState", Str "numeric"); ("numericCount", js_Z (Z.of_nat (length values)));
         ("min", Num (round4 (math_min values))); ("max", Num (round4 (math_max values)));
         ("mean", Num (round4 (num_div (sum_of values) (num_of_Z (Z.of_nat (length values))))))]
end.

(** [/^[a-z][a-z0-9_.-]{0,63}$/u] *)
Definition is_failure_stage (s : string) : bool :=
match s with
| "" => false
| String c s' =>
    is_lower c && (slen s' <=? 63) &&
    all_chars (λ d, is_lower d || is_digit d || existsb (Ascii.eqb d) ["_"; "."; "-"]%char) s'
end.

Definition toEvidenceFailure (value : js) : validated js :=
failure ← record value "failure";
let code := text (get failure "code") in
let stage := if string_with is_failure_stage (get failure "stage") then [("stage", get failure "stage")] else [] in
let retryable := if is_boolean (get failure "retryable") then [("retryable", get failure "retryable")] else [] in
Ok (Obj ([("code", get failure "code"); ("message", Str ("OCR failure: " +:+ code +:+ "."))] ++ stage ++ retryable)).

Definition numbers (values : list js) : list num :=
omap (λ v, match v with Num n => Some n | _ => None end) values.

(** A page of the evidence with what the summary adds up. *)
Record InternalEvidencePage : Type := {
evidence : fields;
numericScores : list num;
page_chars : Z;
page_boxes : Z
}.

Definition toInternalEvidencePage (value : js) : validated InternalEvidencePage :=
page ← record value "page";
let boxes := list_or_empty (get page "boxes") in
confidences ← mapM_idx (λ _ value, box ← record value "box"; Ok (get box "confidence")) boxes;
let numeric := numbers confidences in
let recognized := is_str (get page "status") "recognized" in
raster ← record (get page "raster") "raster";
let chars := if recognized then normalizedCodePointCount (text (get page "text")) else 0 in
let output :=
  [("page", get page "page"); ("status", get page "status");
   ("raster", Obj [("width", get raster "width"); ("height", get raster "height")]);
   ("normalizedCharCount", js_Z chars); ("boxCount", js_Z (Z.of_nat (length boxes)));
   ("confidence", if recognized then get page "confidence" else Null);
   ("confidenceSummary", summarizeConfidence numeric)] in
failure ← (if is_str (get page "status") "failed"
           then failure ← toEvidenceFailure (get page "failure"); Ok [("failure", failure)] else Ok []);
Ok {| evidence := output ++ failure; numericScores := numeric; page_chars := chars;
      page_boxes := Z.of_nat (length boxes) |}.

Definition summarizePages (pages : list InternalEvidencePage) : js :=
Obj [("normalizedCharCount", Num (sum_of (map (λ page, num_of_Z (page_chars page)) pages)));
     ("boxCount", Num (sum_of (map (λ page, num_of_Z (page_boxes page)) pages)));
     ("confidenceSummary", summarizeConfidence (concat (map numericScores pages)))].

Definition toEvidenceProvenance (projection : fields) (workerSha256 : js) : validated js :=
provenance ← record (get projection "provenance") "provenance";
let resolved := is_str (get provenance "status") "resolved" in
let known field := if resolved then get provenance field else Null in
Ok (Obj [("status", Str (if resolved then "resolved" else "unavailable"));
  ("runtimeVersion", get projection "runtimeVersion"); ("contractSha256", get projection "contractSha256");
  ("engine", known "engine"); ("model", known "model"); ("modelDigest", known "modelDigest");
  ("device", known "device"); ("profileId", get provenance "profileId");
  ("profileSpecSha256", get provenance "profileSpecSha256"); ("workerSha256", workerSha256)]).

(** [byte.toString(16).padStart(2, '0')] *)
Definition hex_byte (byte : Z) : string :=
String (hex_lower (byte / 16)) (String (hex_lower (byte mod 16)) "").

Definition sha256 (value : string) : validated string :=
match subtle with
| None => invalid "WebCrypto SHA-256 is unavailable"
| Some digest => Ok (String.concat "" (map hex_byte (digest value)))
end.

(** [evidenceWithoutDigest] *)
Definition evidence_payload (projectionValue expectedValue : js) : validated fields :=
expected ← validateExpectedIdentity expectedValue;
projection ← validateProjection projectionValue expected;
provenance ← toEvidenceProvenance projection (get expected "workerSha256");
internalPages ← mapM_idx (λ _, toInternalEvidencePage) (list_or_empty (get projection "pages"));
failure ← (if truthy (get projection "failure")
           then failure ← toEvidenceFailure (get projection "failure"); Ok [("failure", failure)] else Ok []);
Ok ([("schemaVersion", js_Z 1); ("captureId", get projection "captureId");
     ("sourceSha256", get expected "sourceSha256"); ("status", get projection "status");
     ("pageCount", get projection "pageCount"); ("pages", Arr (map (λ page, Obj (evidence page)) internalPages));
     ("summary", summarizePages internalPages); ("provenance", provenance)] ++ failure).

Definition buildOcrEvidence (projection expected : js) : validated js :=
payload ← evidence_payload projection expected;
digest ← sha256 (default "undefined" (canonicalJson (Obj payload)));
Ok (Obj (payload ++ [("digest", Str digest)])).

(** ** Inversion of accepted values *)

Lemma invalid_if_Ok bad label u : invalid_if bad label = Ok u ↔ bad = false.
Proof. destruct bad, u; cbn; naive_solver. Qed.

Lemma evidence_record_Ok value label r : record value label = Ok r ↔ value = Obj r.
Proof. destruct value; cbn; naive_solver. Qed.

Ltac inv_valid :=
repeat (inv_ok; match goal with
| H : invalid_if _ _ = Ok _ |- _ => apply invalid_if_Ok in H
| H : record _ _ = Ok _ |- _ => apply evidence_record_Ok in H
| H : invalid _ = Ok _ |- _ => discriminate H
end); inv_ok.

Lemma sha_Ok value label u : sha value label = Ok u → ∃ s, value = Str s.
Proof. unfold sha. intros H%invalid_if_Ok%negb_false_iff%string_with_spec. naive_solver. Qed.

Lemma nonEmpty_Ok value label u : nonEmpty value label = Ok u → ∃ s, value = Str s.
Proof. unfold nonEmpty, nonblank_string. intros H%invalid_if_Ok%negb_false_iff%string_with_spec. naive_solver. Qed.

Lemma matches_Ok projection expected field expectedField message u :
matches projection expected field expectedField message = Ok u → (∃ s, get expected expectedField = Str s) →
get projection field = get expected expectedField.
Proof.
unfold matches. intros H%invalid_if_Ok%negb_false_iff [s Hs]. rewrite Hs in *.
destruct (get projection field); cbn in H; try done. by apply String.eqb_eq in H as ->.
Qed.

(** What the host expects, once accepted. *)
Record expectation (value : js) (expected : fields) : Prop := {
expected_value : value = Obj expected;
expected_capture : ∃ s, get expected "captureId" = Str s;
expected_source : ∃ s, get expected "sourceSha256" = Str s;
expected_runtime : ∃ s, get expected "runtimeVersion" = Str s;
expected_contract : ∃ s, get expected "contractSha256" = Str s;
expected_status : ∃ s, get expected "terminalStatus" = Str s;
expected_worker : ∃ s, get expected "workerSha256" = Str s
}.

Lemma validateExpectedIdentity_Ok value expected :
validateExpectedIdentity value = Ok expected → expectation value expected.
Proof.
unfold validateExpectedIdentity. intros H. inv_valid.
constructor; eauto using sha_Ok, nonEmpty_Ok.
destruct (is_str (get expected "terminalStatus") "completed") eqn:E; [apply is_str_spec in E; eauto|].
destruct (is_str (get expected "terminalStatus") "failed") eqn:E'; [apply is_str_spec in E'; eauto|done].
Qed.

(** What an accepted projection has in common with the expectation, and its pages. *)
Record accepted (value : js) (expected projection : fields) (pages : list js) : Prop := {
accepted_value : value = Obj projection;
accepted_capture : get projection "captureId" = get expected "captureId";
accepted_status : get projection "status" = get expected "terminalStatus";
accepted_runtime : get projection "runtimeVersion" = get expected "runtimeVersion";
accepted_contract : get projection "contractSha256" = get expected "contractSha256";
accepted_pages : get projection "pages" = Arr pages;
accepted_count : strict_eqb (js_Z (Z.of_nat (length pages))) (get projection "pageCount") = true;
accepted_limit : num_ltb (num_of_Z MAX_PAGES) (num_or_nan (get projection "pageCount")) = false;
accepted_each : ∃ prov, validateProvenance (get projection "provenance") = Ok prov ∧
  (∀ i page, pages !! i = Some page → validatePage prov i page = Ok tt) ∧
  validateOutcome projection prov pages = Ok tt
}.

Lemma validateProjection_Ok original value expected projection :
expectation original expected → validateProjection value expected = Ok projection →
∃ pages, accepted value expected projection pages.
Proof.
intros [] H. unfold validateProjection in H. inv_valid. subst.
destruct (get projection "pages") as [| | | | |pages|] eqn:Hpages; cbn in *; try discriminate.
inv_valid. match goal with H : get projection _ = Arr ?l |- _ => exists l end.
repeat match goal with H : matches _ _ _ _ _ = Ok _ |- _ => apply matches_Ok in H; [|by eauto] end.
match goal with H : (_ || _) = false |- _ => apply orb_false_iff in H as [_ ?] end.
constructor; try done.
- by apply negb_false_iff.
- eexists. split; [done|]. split; [|done].
  match goal with H : forM_from 0 ?f ?l = Ok _ |- _ => exact (proj1 (forM_from_Ok 0 f l tt) H) end.
Qed.

(** ** Content *)

(** Two boxes with the same confidence: texts and polygons may differ. *)
Definition box_alike (a b : js) : Prop :=
∃ r k, a = Obj r ∧ b = Obj k ∧ get r "confidence" = get k "confidence".

(** Two failures with the same code, stage and retry advice: messages may differ. *)
Definition failure_alike (a b : js) : Prop :=
a = b ∨ ∃ r k, a = Obj r ∧ b = Obj k ∧
  ∀ field, field ∈ ["code"; "stage"; "retryable"] → get r field = get k field.

(** Two pages that agree on everything but content: the texts have the same
  number of characters, and the boxes the same confidences. *)
Definition page_alike (a b : js) : Prop :=
∃ r k, a = Obj r ∧ b = Obj k ∧
  (∀ field, field ∈ ["page"; "status"; "raster"; "confidence"] → get r field = get k field) ∧
  normalizedCodePointCount (text (get r "text")) = normalizedCodePointCount (text (get k "text")) ∧
  Forall2 box_alike (list_or_empty (get r "boxes")) (list_or_empty (get k "boxes")) ∧
  failure_alike (get r "failure") (get k "failure").

(** Two projections that agree on everything but content; the source's file
  name, type and size, the warnings and the creation time may differ too. *)
Definition projection_alike (a b : js) : Prop :=
∃ r k, a = Obj r ∧ b = Obj k ∧
  (∀ field, field ∈ ["captureId"; "status"; "pageCount"; "runtimeVersion"; "contractSha256"; "provenance"] →
    get r field = get k field) ∧
  Forall2 page_alike (list_or_empty (get r "pages")) (list_or_empty (get k "pages")) ∧
  failure_alike (get r "failure") (get k "failure").

Lemma mapM_idx_alike {E A B} (R : A → A → Prop) (f : A → result E B) l k :
Forall2 R l k → (∀ x y, R x y → f x = f y) → mapM_idx (λ _, f) l = mapM_idx (λ _, f) k.
Proof.
intros HR Hf. unfold mapM_idx. generalize 0%nat. induction HR as [|x y l k Hxy _ IH]; intros i; cbn; [done|].
by rewrite (Hf x y Hxy), IH.
Qed.

Lemma toEvidenceFailure_alike a b : failure_alike a b → toEvidenceFailure a = toEvidenceFailure b ∧ truthy a = truthy b.
Proof.
intros [->|(r & k & -> & -> & H)]; [done|]. split; [|done]. unfold toEvidenceFailure. cbn [record mbind result_bind].
by rewrite !(H "code"), (H "stage"), (H "retryable") by set_solver.
Qed.

Lemma toInternalEvidencePage_alike a b : page_alike a b → toInternalEvidencePage a = toInternalEvidencePage b.
Proof.
intros (r & k & -> & -> & H & Hcount & Hboxes & Hfail). unfold toInternalEvidencePage. cbn [record mbind result_bind].
rewrite (H "page"), (H "status"), (H "raster"), (H "confidence"), Hcount by set_solver.
rewrite (Forall2_length _ _ _ Hboxes), (proj1 (toEvidenceFailure_alike _ _ Hfail)).
erewrite mapM_idx_alike; [reflexivity|exact Hboxes|].
intros x y (rx & ry & -> & -> & Hc). cbn. by rewrite Hc.
Qed.

Lemma evidence_payload_alike a b expected p q :
projection_alike a b → evidence_payload a expected = Ok p → evidence_payload b expected = Ok q → p = q.
Proof.
intros (r & k & -> & -> & H & Hpages & Hfail) Hp Hq.
destruct (toEvidenceFailure_alike _ _ Hfail) as [Hf Ht].
unfold evidence_payload in *. destruct (validateExpectedIdentity expected) as [x|] eqn:Hx; [|done].
apply validateExpectedIdentity_Ok in Hx. cbn [mbind result_bind] in Hp, Hq.
destruct (validateProjection (Obj r) x) as [r'|] eqn:Hr; [|done].
destruct (validateProjection (Obj k) x) as [k'|] eqn:Hk; [|done].
destruct (validateProjection_Ok _ _ _ _ Hx Hr) as [? []], (validateProjection_Ok _ _ _ _ Hx Hk) as [? []].
simplify_eq. cbn [mbind result_bind] in Hp, Hq. unfold toEvidenceProvenance in *.
rewrite !(H "provenance"), (H "runtimeVersion"), (H "contractSha256"), (H "captureId"), (H "status"),
  (H "pageCount"), Ht, Hf in Hp by set_solver.
rewrite (mapM_idx_alike _ toInternalEvidencePage _ _ Hpages toInternalEvidencePage_alike) in Hp. congruence.
Qed.

(** C34: The evidence holds no content: two accepted projections of one expected
  capture that agree on everything but content give the same evidence.
  Content is the recognised text beyond its number of characters, the text
  and polygon of every box, the messages of failures, the warnings and the
  description of the source file. *)
Theorem evidence_is_content_free a b expected p q :
projection_alike a b → buildOcrEvidence a expected = Ok p → buildOcrEvidence b expected = Ok q → p = q.
Proof.
intros Hab Hp Hq. unfold buildOcrEvidence in *.
destruct (evidence_payload a expected) as [pp|] eqn:Ha; [|done].
destruct (evidence_payload b expected) as [pq|] eqn:Hb; [|done].
rewrite (evidence_payload_alike a b expected pp pq Hab Ha Hb) in Hp. congruence.
Qed.

Lemma buildOcrEvidence_capture projection expected v :
buildOcrEvidence projection expected = Ok v →
∃ x r, expected = Obj x ∧ v = Obj r ∧ get r "captureId" = get x "captureId".
Proof.
unfold buildOcrEvidence, sha256, evidence_payload. intros H. inv_valid.
match goal with H : validateExpectedIdentity _ = Ok _ |- _ => apply validateExpectedIdentity_Ok in H as Hx end.
match goal with H : validateProjection _ _ = Ok _ |- _ => destruct (validateProjection_Ok _ _ _ _ Hx H) as [? []] end.
destruct Hx. do 2 eexists. split; [done|]. split; [done|]. cbn. congruence.
Qed.

(** The evidence is bound and sealed: accepted evidence names the capture,
  the source, the status, the runtime, the contract and the worker its host
  expects, and ends with the digest of the canonical text of the rest. *)
Lemma evidence_is_bound_and_sealed projection expected v :
buildOcrEvidence projection expected = Ok v →
∃ x r prov digest,
  expected = Obj x ∧ subtle = Some digest ∧
  v = Obj (r ++ [("digest", Str (String.concat "" (map hex_byte (digest (default "undefined" (canonicalJson (Obj r)))))))]) ∧
  get r "captureId" = get x "captureId" ∧ get r "sourceSha256" = get x "sourceSha256" ∧
  get r "status" = get x "terminalStatus" ∧ get r "provenance" = Obj prov ∧
  get prov "runtimeVersion" = get x "runtimeVersion" ∧ get prov "contractSha256" = get x "contractSha256" ∧
  get prov "workerSha256" = get x "workerSha256".
Proof.
unfold buildOcrEvidence, sha256. intros H. inv_valid. unfold evidence_payload, toEvidenceProvenance in *.
destruct subtle as [digest|]; [|discriminate]. inv_valid.
match goal with H : validateExpectedIdentity _ = Ok _ |- _ => apply validateExpectedIdentity_Ok in H as Hx end.
match goal with H : validateProjection _ _ = Ok _ |- _ => destruct (validateProjection_Ok _ _ _ _ Hx H) as [? []] end.
destruct Hx. do 4 eexists. repeat (split; [done|]). cbn. by repeat split.
Qed.

(** ** Completed evidence *)

Lemma validatePage_Ok prov i value :
validatePage prov i value = Ok tt →
∃ r, value = Obj r ∧ strict_eqb (get r "page") (js_Z (Z.of_nat (S i))) = true ∧
  (get r "status" = Str "recognized" ∨ get r "status" = Str "empty" ∨ get r "status" = Str "failed").
Proof.
unfold validatePage. destruct (record value _) as [r|] eqn:Hr; [|done]. apply evidence_record_Ok in Hr as ->.
cbn [mbind result_bind]. destruct (requireExactKeys _ _ _ _); [|done]. cbn [mbind result_bind].
destruct (strict_eqb (get r "page") _) eqn:Hp; [|done]. cbn [negb invalid_if mbind result_bind].
destruct (is_str (get r "status") "recognized") eqn:H1; [apply is_str_spec in H1; eauto 6|].
destruct (is_str (get r "status") "empty") eqn:H2; [apply is_str_spec in H2; eauto 6|].
destruct (is_str (get r "status") "failed") eqn:H3; [apply is_str_spec in H3; eauto 6|done].
Qed.

Lemma toInternalEvidencePage_Ok value page :
toInternalEvidencePage value = Ok page →
∃ r, value = Obj r ∧ get (evidence page) "page" = get r "page" ∧ get (evidence page) "status" = get r "status".
Proof. unfold toInternalEvidencePage. intros H. inv_valid. subst. eexists. split; [done|]. by split. Qed.

Lemma validateOutcome_completed projection prov pages :
validateOutcome projection prov pages = Ok tt → get projection "status" = Str "completed" →
(∀ value, value ∈ pages → page_status value ≠ Str "failed") ∧
∃ value, value ∈ pages ∧ page_status value = Str "recognized".
Proof.
unfold validateOutcome. intros H Hs. rewrite Hs in H. cbn in H. inv_valid. split.
- match goal with H : existsb _ pages = false |- _ => apply existsb_false in H; rewrite Forall_forall in H end.
  intros value Hin. apply is_str_false. auto.
- match goal with H : negb (existsb _ pages) = false |- _ => apply negb_false_iff, existsb_true in H as (value & ? & Hrec) end.
  apply is_str_spec in Hrec. eauto.
Qed.

(** A count that equals a page count below a limit is below it. *)
Lemma count_limit n v limit :
strict_eqb (js_Z (Z.of_nat n)) v = true → num_ltb (num_of_Z limit) (num_or_nan v) = false → Z.of_nat n ≤ limit.
Proof.
destruct v as [| | |[| |q]| | |]; try done. cbn [strict_eqb js_Z num_or_nan]. unfold num_of_Z.
intros Heq%num_eqb_Fin Hlt. assert (Hle : (q <= inject_Z limit)%Q).
{ apply Qnot_lt_le. intros H%num_ltb_Fin. congruence. }
rewrite <-Heq in Hle. by rewrite <-Zle_Qle in Hle.
Qed.

(** Completed evidence is complete: it has between 1 and 500 pages, numbered
  from 1 in order, every one recognised or empty and at least one recognised. *)
Lemma completed_evidence_pages projection expected r :
buildOcrEvidence projection expected = Ok (Obj r) → get r "status" = Str "completed" →
∃ pages, get r "pages" = Arr pages ∧ (0 < length pages)%nat ∧ Z.of_nat (length pages) ≤ 500 ∧
  (∀ i page, pages !! i = Some page → ∃ fs, page = Obj fs ∧
     strict_eqb (get fs "page") (js_Z (Z.of_nat (S i))) = true ∧
     (get fs "status" = Str "recognized" ∨ get fs "status" = Str "empty")) ∧
  ∃ fs, Obj fs ∈ pages ∧ get fs "status" = Str "recognized".
Proof.
unfold buildOcrEvidence. intros H Hs. inv_valid. injection H as <-. unfold evidence_payload in *. inv_valid.
match goal with H : validateExpectedIdentity _ = Ok _ |- _ => apply validateExpectedIdentity_Ok in H as Hx end.
match goal with H : validateProjection _ _ = Ok ?p |- _ =>
  destruct (validateProjection_Ok _ _ _ _ Hx H) as (pages & [? ? ? ? ? Hp Hn Hl (prov & Hprov & Hpages & Hout)]) end.
match goal with H : mapM_idx _ _ = Ok ?l |- _ => rename l into internal; rewrite Hp in H; cbn in H;
  apply mapM_idx_Ok in H as Hmap end.
cbn in Hs. destruct (validateOutcome_completed _ _ _ Hout Hs) as [Hnf (value & Hin & Hrec)].
destruct Hmap as [Hlen Hmap]. exists (map (λ page, Obj (evidence page)) internal). split; [done|].
assert (Heach : ∀ i page, internal !! i = Some page → ∃ r, pages !! i = Some (Obj r) ∧
  get (evidence page) "page" = get r "page" ∧ get (evidence page) "status" = get r "status").
{ intros i page Hi. destruct (lookup_lt_is_Some_2 pages i) as [x Hx'].
  { rewrite Hlen. by eapply lookup_lt_Some. }
  destruct (toInternalEvidencePage_Ok _ _ (Hmap i x page Hx' Hi)) as (r & -> & ? & ?). by exists r. }
rewrite length_map, <-Hlen. split; [by destruct pages; [apply elem_of_nil in Hin|cbn; lia]|].
split; [by apply (count_limit (length pages) _ MAX_PAGES Hn)|]. split.
- intros i page (y & -> & Hi)%list_lookup_fmap_Some. eexists. split; [done|].
  destruct (Heach i y Hi) as (r & Hr & -> & ->).
  destruct (validatePage_Ok _ _ _ (Hpages i _ Hr)) as (r' & [= <-] & ? & Hst). split; [done|].
  destruct Hst as [?|[?|Hst]]; [by left|by right|].
  exfalso. apply (Hnf (Obj r)); [by eapply list_elem_of_lookup_2|done].
- apply list_elem_of_lookup in Hin as [i Hi]. destruct (lookup_lt_is_Some_2 internal i) as [y Hy].
  { rewrite <-Hlen. by eapply lookup_lt_Some. }
  destruct (Heach i y Hy) as (r & Hr & _ & Hst). rewrite Hi in Hr. injection Hr as ->.
  exists (evidence y). split; [|by rewrite Hst].
  apply list_elem_of_fmap. exists y. split; [done|]. by eapply list_elem_of_lookup_2.
Qed.
End evidence.

(** ** Sample evidence *)

Definition sample_sha : string := "00112233445566778899aabbccddeeff00112233445566778899aabbccddeeff".

Definition sample_expected : js :=
  Obj [("captureId", Str "c1"); ("sourceSha256", Str sample_sha); ("runtimeVersion", Str "0.9.0");
       ("contractSha256", Str sample_sha); ("terminalStatus", Str "completed"); ("workerSha256", Str sample_sha)].

Definition sample_provenance : js :=
  Obj [("status", Str "resolved"); ("engine", Str "windowsml-ocr"); ("model", Str "m1");
       ("modelDigest", Str ("sha256:" +:+ sample_sha)); ("device", Str "cpu"); ("profileId", Str "p1");
       ("profileSpecSha256", Str sample_sha)].

Definition sample_point (x y : Z) : js := Obj [("x", js_Z x); ("y", js_Z y)].

(** One page with one box; the content is the argument. *)
Definition sample_projection (content : string) (corner : Z) (fileName : string) : js :=
  Obj [("apiVersion", Str "2.0"); ("schemaVersion", Str "3"); ("captureId", Str "c1"); ("status", Str "completed");
       ("pages", Arr [Obj [("page", js_Z 1); ("status", Str "recognized");
         ("raster", Obj [("width", js_Z 100); ("height", js_Z 100); ("scale", js_Z 1); ("coordinateSystem", Str "pixel")]);
         ("provenance", sample_provenance); ("text", Str content);
         ("boxes", Arr [Obj [("polygon", Arr [sample_point 0 0; sample_point corner 0; sample_point corner corner;
           sample_point 0 corner]); ("text", Str content); ("confidence", Num (Fin (1 # 2)))]]);
         ("confidence", Num (Fin (1 # 2)))]]);
       ("pageCount", js_Z 1); ("runtimeVersion", Str "0.9.0"); ("contractSha256", Str sample_sha);
       ("provenance", sample_provenance); ("createdAt", Str "2026-01-01T00:00:00Z");
       ("source", Obj [("sha256", Str sample_sha); ("fileName", Str fileName); ("mediaType", Str "image/png");
         ("bytes", js_Z 10)])].

Definition sample_build (projection : js) : result string js :=
  buildOcrEvidence (λ s, s) (λ _, num_of_Z 0) (Some (λ s, [slen s mod 256])) projection sample_expected.

Definition sample_evidence : js :=
  match sample_build (sample_projection "secret" 10 "a.png") with Ok v => v | Err _ => Undefined end.

Lemma sample_accepted : sample_build (sample_projection "secret" 10 "a.png") = Ok sample_evidence.
Proof. vm_compute. reflexivity. Qed.

Lemma evidence_is_content_free_witness :
  sample_build (sample_projection "public" 20 "b.png") = Ok sample_evidence.
Proof.
  assert (H : is_ok (sample_build (sample_projection "public" 20 "b.png")) = true) by (vm_compute; reflexivity).
destruct (sample_build (sample_projection "public" 20 "b.png")) as [v|e] eqn:E; [|discriminate H].
  f_equal. symmetry.
  refine (evidence_is_content_free _ _ _ _ _ sample_expected _ _ _ sample_accepted E).
  eexists _, _. split; [reflexivity|]. split; [reflexivity|]. split; [|split; [|left; reflexivity]].
  - intros field Hf. repeat (apply elem_of_cons in Hf as [->|Hf]; [reflexivity|]). inversion Hf.
  - constructor; [|constructor]. eexists _, _. split; [reflexivity|]. split; [reflexivity|]. split; [|split; [|split]].
    + intros field Hf. repeat (apply elem_of_cons in Hf as [->|Hf]; [reflexivity|]). inversion Hf.
    + vm_compute. reflexivity.
    + constructor; [|constructor]. eexists _, _. split; [reflexivity|]. split; reflexivity.
    + left. reflexivity.
Defined.

Lemma evidence_is_bound_and_sealed_witness :
  ∃ r digest, sample_evidence = Obj (r ++ [("digest", Str digest)]) ∧ get r "captureId" = Str "c1".
Proof.
  destruct (evidence_is_bound_and_sealed _ _ _ _ _ _ sample_accepted)
    as (x & r & prov & digest & Hx & _ & Hv & Hc & _). injection Hx as <-.
  eexists r, _. split; [exact Hv|exact Hc].
Defined.

Lemma completed_evidence_pages_witness :
  match sample_evidence with
  | Obj r => ∃ pages, get r "pages" = Arr pages ∧ (0 < length pages)%nat
  | _ => False
  end.
Proof.
  destruct sample_evidence as [| | | | | |r] eqn:E; try (vm_compute in E; discriminate E).
  pose proof sample_accepted as H. rewrite E in H.
  destruct (completed_evidence_pages _ _ _ _ _ r H) as (pages & Hp & Hn & _).
  - vm_compute in E. injection E as <-. reflexivity.
  - exists pages. split; [exact Hp|exact Hn].
Defined.
