(* ===== verification/Observable.v ===== *)
(** * Single-valued observables as resumptions

    The capture workflow is written with RxJS observables that emit at most one
    value: calls to the runtime, chained, with error handlers and an abort
    signal.  [proc A] is such an observable as a tree: it reads and updates the
    shared state at once, and waits at a call for the reply, or at an event
    stream for its events.  Between two waits other code runs, so the state a
    continuation finds is any state. *)

From S2P Require Import Prelude.

Section proc.
(** The shared state, the calls with the types of their replies, the stream events, the errors. *)
Context {State Call Event Error : Type} {reply_of : Call → Type}.

Inductive proc (A : Type) : Type :=
| Return (a : A)
| Empty
| Throw (error : Error)
| Read (k : State → proc A)
| Update (f : State → State) (p : proc A)
| Ask (call : Call) (abortable : bool) (k : result Error (reply_of call) → proc A)
| Listen (call : Call) (abortable : bool) (last : option Event)
(on_event : Event → State → State) (stop : Event → bool)
(k : result Error (option Event) → proc A).

Arguments Return {A} _.
Arguments Empty {A}.
Arguments Throw {A} _.
Arguments Read {A} _.
Arguments Update {A} _ _.
Arguments Ask {A} _ _ _.
Arguments Listen {A} _ _ _ _ _ _.

(** [concatMap] and [switchMap] on at most one value: completion without a
value and errors pass through. *)
Fixpoint then_ {A B} (f : A → proc B) (p : proc A) : proc B :=
match p with
| Return a => f a
| Empty => Empty
| Throw e => Throw e
| Read k => Read (λ s, then_ f (k s))
| Update g p' => Update g (then_ f p')
| Ask c ab k => Ask c ab (λ r, then_ f (k r))
| Listen c ab l on stop k => Listen c ab l on stop (λ r, then_ f (k r))
end.

(** [catchError(h)] *)
Fixpoint catchError {A} (h : Error → proc A) (p : proc A) : proc A :=
match p with
| Return a => Return a
| Empty => Empty
| Throw e => h e
| Read k => Read (λ s, catchError h (k s))
| Update g p' => Update g (catchError h p')
| Ask c ab k => Ask c ab (λ r, catchError h (k r))
| Listen c ab l on stop k => Listen c ab l on stop (λ r, catchError h (k r))
end.

(** [takeUntil(fromEvent(signal, 'abort'))]: every wait inside completes
without a value when the abort event fires. *)
Fixpoint until_abort {A} (p : proc A) : proc A :=
match p with
| Return a => Return a
| Empty => Empty
| Throw e => Throw e
| Read k => Read (λ s, until_abort (k s))
| Update g p' => Update g (until_abort p')
| Ask c _ k => Ask c true (λ r, until_abort (k r))
| Listen c _ l on stop k => Listen c true l on stop (λ r, until_abort (k r))
end.

Definition of_result {A} (r : result Error A) : proc A :=
match r with Ok a => Return a | Err e => Throw e end.

(** Subscribe to a call and emit its reply. *)
Definition ask (call : Call) : proc (reply_of call) := Ask call false of_result.

(** Subscribe to a stream, apply its events up to the first that stops it, and
emit the last one. *)
Definition listen (call : Call) (on_event : Event → State → State) (stop : Event → bool)
: proc (option Event) :=
Listen call false None on_event stop of_result.

Definition update (f : State → State) : proc unit := Update f (Return tt).

(** ** Running *)

(** Run to the next wait or to the end. *)
Fixpoint advance {A} (p : proc A) (s : State) : State * proc A :=
match p with
| Read k => advance (k s) s
| Update f p' => advance p' (f s)
| _ => (s, p)
end.

(** The observable has completed or failed. *)
Definition ended {A} (p : proc A) : bool :=
match p with Return _ | Empty | Throw _ => true | _ => false end.

(** The call a waiting process waits at. *)
Definition waits_at {A} (p : proc A) : option Call :=
match p with Ask c _ _ | Listen c _ _ _ _ _ => Some c | _ => None end.

(** The abort event: only waits under [takeUntil] react. *)
Definition on_abort {A} (p : proc A) : proc A :=
match p with Ask _ true _ | Listen _ true _ _ _ _ => Empty | _ => p end.

(** ** Reasoning *)

Inductive ending (A : Type) : Type :=
| Value (a : A)
| Completed
| Failed (error : Error).
Arguments Value {A} _.
Arguments Completed {A}.
Arguments Failed {A} _.

(** [wp calls Q p s]: started in [s], whatever the replies and whatever states
the waits end in, every call satisfies [calls] and every ending satisfies [Q]. *)
Fixpoint wp {A} (Q : ending A → State → Prop) (p : proc A) (s : State) : Prop :=
match p with
| Return a => Q (Value a) s
| Empty => Q Completed s
| Throw e => Q (Failed e) s
| Read k => wp Q (k s) s
| Update f p' => wp Q p' (f s)
| Ask _ _ k => ∀ r s', wp Q (k r) s'
| Listen _ _ _ _ _ k => ∀ r s', wp Q (k r) s'
end.

Lemma wp_mono {A} (Q Q' : ending A → State → Prop) p s :
(∀ e s', Q e s' → Q' e s') → wp Q p s → wp Q' p s.
Proof.
intros HQ. revert s. induction p as [a| |e|k IH|f p IH|c ab k IH|c ab l on stop k IH]; intros s; cbn; eauto.
Qed.

Lemma wp_then {A B} (f : A → proc B) Q p s :
wp (λ e s', match e with
          | Value a => wp Q (f a) s'
          | Completed => Q Completed s'
          | Failed x => Q (Failed x) s'
          end) p s →
wp Q (then_ f p) s.
Proof.
revert s. induction p as [a| |e|k IH|g p IH|c ab k IH|c ab l on stop k IH]; intros s; cbn; eauto.
Qed.

Lemma wp_catch {A} (h : Error → proc A) Q p s :
wp (λ e s', match e with Failed x => wp Q (h x) s' | _ => Q e s' end) p s →
wp Q (catchError h p) s.
Proof.
revert s. induction p as [a| |e|k IH|g p IH|c ab k IH|c ab l on stop k IH]; intros s; cbn; eauto.
Qed.

Lemma wp_until_abort {A} Q (p : proc A) s : wp Q p s → wp Q (until_abort p) s.
Proof.
revert s. induction p as [a| |e|k IH|g p IH|c ab k IH|c ab l on stop k IH]; intros s; cbn; eauto.
Qed.

Lemma wp_advance {A} Q (p : proc A) s : wp Q p s → wp Q (advance p s).2 (advance p s).1.
Proof.
revert s. induction p as [a| |e|k IH|g p IH|c ab k IH|c ab l on stop k IH]; intros s; cbn; eauto.
Qed.

(** After [advance] a process has ended or waits. *)
Lemma advance_waits {A} (p : proc A) s :
ended (advance p s).2 = true ∨ is_Some (waits_at (advance p s).2).
Proof.
revert s. induction p as [a| |e|k IH|g p IH|c ab k IH|c ab l on stop k IH]; intros s; cbn; eauto.
Qed.

(** What a waiting process does next does not depend on the present state. *)
Lemma wp_waiting {A} (Q : ending A → State → Prop) p s s' : is_Some (waits_at p) → wp Q p s → wp Q p s'.
Proof. destruct p; cbn; by intros []. Qed.

(** [within R p]: every state change of [p] is one of [R]. *)
Fixpoint within {A} (R : State → State → Prop) (p : proc A) : Prop :=
match p with
| Return _ | Empty | Throw _ => True
| Read k => ∀ s, within R (k s)
| Update f p' => (∀ s, R s (f s)) ∧ within R p'
| Ask _ _ k => ∀ r, within R (k r)
| Listen _ _ _ on _ k => (∀ e s, R s (on e s)) ∧ ∀ r, within R (k r)
end.

Lemma within_then {A B} R (f : A → proc B) p :
within R p → (∀ a, within R (f a)) → within R (then_ f p).
Proof.
intros Hp Hf. induction p as [a| |e|k IH|g p IH|c ab k IH|c ab l on stop k IH]; cbn in *; naive_solver.
Qed.

Lemma within_catch {A} R (h : Error → proc A) p :
within R p → (∀ e, within R (h e)) → within R (catchError h p).
Proof.
intros Hp Hh. induction p as [a| |e|k IH|g p IH|c ab k IH|c ab l on stop k IH]; cbn in *; naive_solver.
Qed.

Lemma within_until_abort {A} R (p : proc A) : within R p → within R (until_abort p).
Proof.
intros Hp. induction p as [a| |e|k IH|g p IH|c ab k IH|c ab l on stop k IH]; cbn in *; naive_solver.
Qed.

Lemma within_mono {A} (R R' : State → State → Prop) (p : proc A) :
(∀ s s', R s s' → R' s s') → within R p → within R' p.
Proof.
intros HR Hp. induction p as [a| |e|k IH|g p IH|c ab k IH|c ab l on stop k IH]; cbn in *; naive_solver.
Qed.

Lemma within_ask R call : within R (ask call).
Proof. by intros [a|e]. Qed.

Lemma within_advance {A} R (p : proc A) s :
(∀ x, R x x) → (∀ x y z, R x y → R y z → R x z) → within R p →
R s (advance p s).1 ∧ within R (advance p s).2.
Proof.
intros Hr Ht. revert s.
induction p as [a| |e|k IH|g p IH|c ab k IH|c ab l on stop k IH]; intros s; cbn; try naive_solver.
Qed.

(** [never_empty p]: whatever happens in between, [p] emits a value or fails. *)
Definition never_empty {A} (p : proc A) : Prop :=
∀ (Q : ending A → State → Prop) s,
  (∀ a s', Q (Value a) s') → (∀ e s', Q (Failed e) s') → wp Q p s.

Lemma never_empty_then {A B} (f : A → proc B) p :
never_empty p → (∀ a, never_empty (f a)) → never_empty (then_ f p).
Proof.
intros Hp Hf Q s HV HF. apply wp_then, Hp; [|done]. intros a s'. by apply Hf.
Qed.

Lemma never_empty_catch {A} (h : Error → proc A) p :
never_empty p → (∀ e, never_empty (h e)) → never_empty (catchError h p).
Proof.
intros Hp Hh Q s HV HF. apply wp_catch, Hp; [done|]. intros e s'. by apply Hh.
Qed.

Lemma never_empty_ask call : never_empty (ask call).
Proof. intros Q s HV HF [a|e] s'; cbn; auto. Qed.

Lemma never_empty_until_abort {A} (p : proc A) : never_empty p → never_empty (until_abort p).
Proof. intros Hp Q s HV HF. by apply wp_until_abort, Hp. Qed.

Lemma never_empty_return {A} (a : A) : never_empty (Return a).
Proof. intros Q s HV HF. apply HV. Qed.

Lemma never_empty_throw {A} e : never_empty (@Throw A e).
Proof. intros Q s HV HF. apply HF. Qed.
End proc.

Arguments proc : clear implicits.
Arguments Return {State Call Event Error reply_of A} _.
Arguments Empty {State Call Event Error reply_of A}.
Arguments Throw {State Call Event Error reply_of A} _.
Arguments Read {State Call Event Error reply_of A} _.
Arguments Update {State Call Event Error reply_of A} _ _.
Arguments Ask {State Call Event Error reply_of A} _ _ _.
Arguments Listen {State Call Event Error reply_of A} _ _ _ _ _ _.
Arguments ending {Error} A.
Arguments Value {Error A} _.
Arguments Completed {Error A}.
Arguments Failed {Error A} _.

(** ** Rely and guarantee *)

Section rely_guarantee.
(** Per state: the calls a process may make, the changes it may make, the
changes it may find after a wait, the replies a call can have, and what a
reply does to the state before the process goes on. *)
Context {State Call Event Error : Type} {reply_of : Call → Type}.
Variables (allowed : State → Call → Prop) (guarantee rely : State → State → Prop).
Variable possible : ∀ call, result Error (reply_of call) → Prop.
Variable arrive : ∀ call, result Error (reply_of call) → State → State.

(** [obeys Q p s]: from [s] the process [p] keeps to this, whatever the replies
and the others do, and ends with [Q].  It follows no event stream. *)
Fixpoint obeys {A} (Q : ending (Error:=Error) A → State → Prop) (p : proc State Call Event Error reply_of A) (s : State)
  : Prop :=
match p with
| Return a => Q (Value a) s
| Empty => Q Completed s
| Throw e => Q (Failed e) s
| Read k => obeys Q (k s) s
| Update f p' => guarantee s (f s) ∧ obeys Q p' (f s)
| Ask call _ k =>
  allowed s call ∧ ∀ r s', possible call r → rely s s' → obeys Q (k r) (arrive call r s')
| Listen _ _ _ _ _ _ => False
end.

Lemma obeys_mono {A} (Q Q' : ending (Error:=Error) A → State → Prop) (p : proc State Call Event Error reply_of A) s :
obeys Q p s → (∀ e s', Q e s' → Q' e s') → obeys Q' p s.
Proof.
intros Hp HQ. revert s Hp. induction p as [a| |e|k IH|f p IH|c ab k IH|c ab l on stop k IH]; intros s; cbn; naive_solver.
Qed.

Lemma obeys_then {A B} (f : A → proc State Call Event Error reply_of B) Q (p : proc State Call Event Error reply_of A) s :
obeys (λ e s', match e with
               | Value a => obeys Q (f a) s'
               | Completed => Q Completed s'
               | Failed x => Q (Failed x) s'
               end) p s →
obeys Q (then_ f p) s.
Proof.
revert s. induction p as [a| |e|k IH|g p IH|c ab k IH|c ab l on stop k IH]; intros s; cbn; naive_solver.
Qed.

Lemma obeys_catch {A} (h : Error → proc State Call Event Error reply_of A) Q (p : proc State Call Event Error reply_of A) s :
obeys (λ e s', match e with Failed x => obeys Q (h x) s' | _ => Q e s' end) p s → obeys Q (catchError h p) s.
Proof.
revert s. induction p as [a| |e|k IH|g p IH|c ab k IH|c ab l on stop k IH]; intros s; cbn; naive_solver.
Qed.

Lemma obeys_ask call Q s :
allowed s call →
(∀ r s', possible call r → rely s s' →
   Q (match r with Ok a => Value a | Err e => Failed e end) (arrive call r s')) →
obeys Q (ask call : proc State Call Event Error reply_of _) s.
Proof. intros Ha HQ. split; [done|]. intros [a|e] s' Hp Hr; by apply (HQ _ _ Hp Hr). Qed.

Lemma obeys_update f Q s :
guarantee s (f s) → Q (Value tt) (f s) → obeys Q (update f : proc State Call Event Error reply_of unit) s.
Proof. done. Qed.

Lemma obeys_advance `{!PreOrder guarantee} {A} Q (p : proc State Call Event Error reply_of A) s :
obeys Q p s → guarantee s (advance p s).1 ∧ obeys Q (advance p s).2 (advance p s).1.
Proof.
revert s. induction p as [a| |e|k IH|g p IH|c ab k IH|c ab l on stop k IH]; intros s; cbn; try by auto.
intros [Hf Hp]. destruct (IH _ Hp). split; [by etrans|done].
Qed.

(** A waiting process finds what the others left. *)
Lemma obeys_waiting `{!PreOrder rely} {A} Q (p : proc State Call Event Error reply_of A) s s' :
(∀ call, rely s s' → allowed s call → allowed s' call) →
is_Some (waits_at p) → rely s s' → obeys Q p s → obeys Q p s'.
Proof.
intros Hmono [c Hw] Hr. destruct p as [a| |e|k|f p|d ab k|d ab l on stop k]; cbn in *; try done.
intros [Ha Hk]. split; [by apply Hmono|]. intros r s2 Hp Hr2. apply Hk; [done|by etrans].
Qed.
End rely_guarantee.

#[export] Instance proc_ret State Call Event Error reply_of : MRet (proc State Call Event Error reply_of) :=
  λ A a, Return a.
#[export] Instance proc_bind State Call Event Error reply_of : MBind (proc State Call Event Error reply_of) :=
  λ A B f p, then_ f p.

Create HintDb observables.
#[export] Hint Resolve never_empty_then never_empty_catch never_empty_ask never_empty_until_abort
  never_empty_return never_empty_throw within_then within_catch within_until_abort within_ask : observables.
