(* ===== verification/WorkflowModel.v ===== *)
(** * State of the capture workflow

    The data of packages/capture-workbench-ui/src/lib/capture-workflow: task
    views, the calls to the capture client, and the private state of
    CaptureWorkflowService with the operations on its task list.  Angular
    signals and the events subject are values of the state: the list of tasks
    and the log of emitted events. *)

From stdpp Require Import gmap.
From S2P Require Import Prelude JsString JsNum JsValue CaptureModel CaptureHelpers StoreHelpers Observable.

(** ** Data *)

(** The part of a [File] the workflow passes on. *)
Record File : Type := { File_name : string; File_bytes : string }.

Record CaptureOperation : Type := {
  op_captureId : string;
  op_status : string;
  op_progress : option num;
  op_lastEventSequence : num;
  op_error : option CaptureFailure
}.

Record CaptureEvent : Type := { event_eventType : string; event_stage : string }.

Record CaptureStreamingResult : Type := {
  result_raw : RawCapture;
  result_result : CaptureDocument
}.

(** [status] is one of queued, processing, awaiting_confirmation,
    reconciliation_required, completed, failed, canceled. *)
Record CaptureTaskView : Type := {
  task_id : string;
  task_captureId : option string;
  task_fileName : string;
  task_sourceKind : FileClass;
  task_status : string;
  task_stage : option string;
  task_progress : num;
  task_result : option CaptureDocument;
  task_raw : option RawCapture;
  task_review : option CaptureReview;
  task_error : option CaptureFailure
}.

Inductive WorkflowEvent : Type :=
| ReviewRequired (task : CaptureTaskView)
| TaskCompleted (taskId : string) (document : CaptureDocument) (review : option CaptureReview)
| TaskFailed (taskId : string) (captureId : option string) (fileName : string) (error : CaptureFailure)
    (raw : option RawCapture)
| TaskCanceled (task : CaptureTaskView)
| SpeakersNamed (taskId : string) (document : CaptureDocument)
| TaskChanged (task : CaptureTaskView).

Record StartStreamingCaptureRequest : Type := {
  start_clientRequestId : string;
  start_file : File;
  start_sourceKind : FileClass;
  start_structuringMode : string;
  start_targetLanguage : option string;
  start_identifySpeakers : bool;
  start_spokenLanguage : option string
}.

(** ** Calls *)

(** The calls a task waits at: the preprocessor, the runtime, the structuring
    provider, and the user's confirmation of a review. *)
Inductive Call : Type :=
| Preprocess (file : File) (sourceKind : FileClass)
| StartStreamingCapture (request : StartStreamingCaptureRequest)
| GetStreamingCapture (captureId : string)
| CaptureEvents (captureId : string) (lastEventId : num)
| GetStreamingPartial (captureId : string)
| GetStreamingRaw (captureId : string)
| GetStreamingResult (captureId : string)
| CancelStreamingCapture (captureId : string)
| CommitStreamingStructuredResult (captureId clientRequestId : string) (candidate : CaptureDocument)
| ReportStreamingStructuringFailure (captureId code message : string)
| DeleteStreamingCapture (captureId : string)
| Structure (raw : RawCapture) (review : CaptureReview) (targetLanguage : option string)
| AwaitReview (taskId : string).

Definition reply_of (call : Call) : Type :=
  match call with
  | Preprocess _ _ => File
  | StartStreamingCapture _ | GetStreamingCapture _ | CancelStreamingCapture _
  | CommitStreamingStructuredResult _ _ _ | ReportStreamingStructuringFailure _ _ _ => CaptureOperation
  | CaptureEvents _ _ => CaptureEvent
  | GetStreamingPartial _ => PartialCapture
  | GetStreamingRaw _ => RawCapture
  | GetStreamingResult _ => CaptureStreamingResult
  | DeleteStreamingCapture _ => unit
  | Structure _ _ _ => CaptureDocument
  | AwaitReview _ => CaptureReview
  end.

(** ** The service's state *)

Record InternalCaptureTask : Type := { internal_file : File; internal_clientRequestId : string }.

(** [aborted] are the tasks whose AbortController was aborted; [uuids] counts
    the calls of [crypto.randomUUID]; [events] lists the newest event first. *)
Record workflow : Type := {
  tasks : list CaptureTaskView;
  internalTasks : gmap string InternalCaptureTask;
  aborted : gset string;
  speakerSources : gmap string File;
  captureIds : gmap string string;
  reviewSubjects : gset string;
  runningTasks : Z;
  events : list WorkflowEvent;
  uuids : nat
}.

Abbreviation observable := (proc workflow Call CaptureEvent caught reply_of).

Definition set_tasks (f : list CaptureTaskView → list CaptureTaskView) (s : workflow) : workflow :=
  {| tasks := f (tasks s); internalTasks := internalTasks s; aborted := aborted s;
     speakerSources := speakerSources s; captureIds := captureIds s; reviewSubjects := reviewSubjects s;
     runningTasks := runningTasks s; events := events s; uuids := uuids s |}.

Definition set_internalTasks (f : gmap string InternalCaptureTask → gmap string InternalCaptureTask)
    (s : workflow) : workflow :=
  {| tasks := tasks s; internalTasks := f (internalTasks s); aborted := aborted s;
     speakerSources := speakerSources s; captureIds := captureIds s; reviewSubjects := reviewSubjects s;
     runningTasks := runningTasks s; events := events s; uuids := uuids s |}.

Definition set_aborted (f : gset string → gset string) (s : workflow) : workflow :=
  {| tasks := tasks s; internalTasks := internalTasks s; aborted := f (aborted s);
     speakerSources := speakerSources s; captureIds := captureIds s; reviewSubjects := reviewSubjects s;
     runningTasks := runningTasks s; events := events s; uuids := uuids s |}.

Definition set_speakerSources (f : gmap string File → gmap string File) (s : workflow) : workflow :=
  {| tasks := tasks s; internalTasks := internalTasks s; aborted := aborted s;
     speakerSources := f (speakerSources s); captureIds := captureIds s; reviewSubjects := reviewSubjects s;
     runningTasks := runningTasks s; events := events s; uuids := uuids s |}.

Definition set_captureIds (f : gmap string string → gmap string string) (s : workflow) : workflow :=
  {| tasks := tasks s; internalTasks := internalTasks s; aborted := aborted s;
     speakerSources := speakerSources s; captureIds := f (captureIds s); reviewSubjects := reviewSubjects s;
     runningTasks := runningTasks s; events := events s; uuids := uuids s |}.

Definition set_reviewSubjects (f : gset string → gset string) (s : workflow) : workflow :=
  {| tasks := tasks s; internalTasks := internalTasks s; aborted := aborted s;
     speakerSources := speakerSources s; captureIds := captureIds s; reviewSubjects := f (reviewSubjects s);
     runningTasks := runningTasks s; events := events s; uuids := uuids s |}.

Definition set_runningTasks (f : Z → Z) (s : workflow) : workflow :=
  {| tasks := tasks s; internalTasks := internalTasks s; aborted := aborted s;
     speakerSources := speakerSources s; captureIds := captureIds s; reviewSubjects := reviewSubjects s;
     runningTasks := f (runningTasks s); events := events s; uuids := uuids s |}.

(** [this.events.next(event)] *)
Definition emit (event : WorkflowEvent) (s : workflow) : workflow :=
  {| tasks := tasks s; internalTasks := internalTasks s; aborted := aborted s;
     speakerSources := speakerSources s; captureIds := captureIds s; reviewSubjects := reviewSubjects s;
     runningTasks := runningTasks s; events := event :: events s; uuids := uuids s |}.

Definition next_uuid (s : workflow) : workflow :=
  {| tasks := tasks s; internalTasks := internalTasks s; aborted := aborted s;
     speakerSources := speakerSources s; captureIds := captureIds s; reviewSubjects := reviewSubjects s;
     runningTasks := runningTasks s; events := events s; uuids := S (uuids s) |}.

(** [this.taskState().find((task) => task.id === taskId)] *)
Definition find_task (taskId : string) (s : workflow) : option CaptureTaskView :=
  List.find (λ task, String.eqb (task_id task) taskId) (tasks s).

(** ** Patches of a task view: one property replaced *)

Definition with_captureId (value : option string) (task : CaptureTaskView) : CaptureTaskView :=
  {| task_id := task_id task; task_captureId := value; task_fileName := task_fileName task;
     task_sourceKind := task_sourceKind task; task_status := task_status task; task_stage := task_stage
     task; task_progress := task_progress task; task_result := task_result task; task_raw := task_raw
     task; task_review := task_review task; task_error := task_error task |}.

Definition with_status (value : string) (task : CaptureTaskView) : CaptureTaskView :=
  {| task_id := task_id task; task_captureId := task_captureId task; task_fileName := task_fileName task;
     task_sourceKind := task_sourceKind task; task_status := value; task_stage := task_stage task;
     task_progress := task_progress task; task_result := task_result task; task_raw := task_raw task;
     task_review := task_review task; task_error := task_error task |}.

Definition with_stage (value : option string) (task : CaptureTaskView) : CaptureTaskView :=
  {| task_id := task_id task; task_captureId := task_captureId task; task_fileName := task_fileName task;
     task_sourceKind := task_sourceKind task; task_status := task_status task; task_stage := value;
     task_progress := task_progress task; task_result := task_result task; task_raw := task_raw task;
     task_review := task_review task; task_error := task_error task |}.

Definition with_progress (value : num) (task : CaptureTaskView) : CaptureTaskView :=
  {| task_id := task_id task; task_captureId := task_captureId task; task_fileName := task_fileName task;
     task_sourceKind := task_sourceKind task; task_status := task_status task; task_stage := task_stage
     task; task_progress := value; task_result := task_result task; task_raw := task_raw task;
     task_review := task_review task; task_error := task_error task |}.

Definition with_result (value : option CaptureDocument) (task : CaptureTaskView) : CaptureTaskView :=
  {| task_id := task_id task; task_captureId := task_captureId task; task_fileName := task_fileName task;
     task_sourceKind := task_sourceKind task; task_status := task_status task; task_stage := task_stage
     task; task_progress := task_progress task; task_result := value; task_raw := task_raw task;
     task_review := task_review task; task_error := task_error task |}.

Definition with_raw (value : option RawCapture) (task : CaptureTaskView) : CaptureTaskView :=
  {| task_id := task_id task; task_captureId := task_captureId task; task_fileName := task_fileName task;
     task_sourceKind := task_sourceKind task; task_status := task_status task; task_stage := task_stage
     task; task_progress := task_progress task; task_result := task_result task; task_raw := value;
     task_review := task_review task; task_error := task_error task |}.

Definition with_review (value : option CaptureReview) (task : CaptureTaskView) : CaptureTaskView :=
  {| task_id := task_id task; task_captureId := task_captureId task; task_fileName := task_fileName task;
     task_sourceKind := task_sourceKind task; task_status := task_status task; task_stage := task_stage
     task; task_progress := task_progress task; task_result := task_result task; task_raw := task_raw
     task; task_review := value; task_error := task_error task |}.

Definition with_error (value : option CaptureFailure) (task : CaptureTaskView) : CaptureTaskView :=
  {| task_id := task_id task; task_captureId := task_captureId task; task_fileName := task_fileName task;
     task_sourceKind := task_sourceKind task; task_status := task_status task; task_stage := task_stage
     task; task_progress := task_progress task; task_result := task_result task; task_raw := task_raw
     task; task_review := task_review task; task_error := value |}.

(** ** Operations on the task list *)

(** [updateTask]: the patched tasks, the change event, and the updated task. *)
Definition updateTask (id : string) (patch : CaptureTaskView → CaptureTaskView) (s : workflow)
    : workflow * option CaptureTaskView :=
  let patched := map (λ task, if String.eqb (task_id task) id then patch task else task) (tasks s) in
  let updated := last (map patch (List.filter (λ task, String.eqb (task_id task) id) (tasks s))) in
  let s' := set_tasks (λ _, patched) s in
  (match updated with Some task => emit (TaskChanged task) s' | None => s' end, updated).

(** [updateTask(id, patch);] *)
Definition patch_task (id : string) (patch : CaptureTaskView → CaptureTaskView) (s : workflow) : workflow :=
  (updateTask id patch s).1.

(** [const task = updateTask(id, patch); if (task) events.next(event(task));] *)
Definition patch_and_emit (id : string) (patch : CaptureTaskView → CaptureTaskView)
    (event : CaptureTaskView → WorkflowEvent) (s : workflow) : workflow :=
  match updateTask id patch s with
  | (s', Some task) => emit (event task) s'
  | (s', None) => s'
  end.

Definition failTask (taskId fileName : string) (error : CaptureFailure) (raw : option RawCapture)
    (stage : option string) (s : workflow) : workflow :=
  let safeError := redactFailure error in
  let patch task := with_raw raw (with_error (Some safeError)
    (match stage with
     | Some stage => with_stage (Some stage) (with_status "failed" task)
     | None => with_status "failed" task
     end)) in
  let '(s', failedTask) := updateTask taskId patch s in
  emit (TaskFailed taskId (failedTask ≫= task_captureId) fileName safeError raw) s'.

Definition requireReconciliation (taskId : string) (error : CaptureFailure) (raw : option RawCapture)
    (s : workflow) : workflow :=
  patch_task taskId (λ task, with_raw raw (with_error (Some (redactFailure error))
    (with_status "reconciliation_required" task))) s.

(** [updateTask(id, { status: 'canceled', stage: 'cancelled' })] and its event. *)
Definition mark_canceled (taskId : string) (s : workflow) : workflow :=
  patch_and_emit taskId (λ task, with_stage (Some "cancelled") (with_status "canceled" task)) TaskCanceled s.

Definition applyStreamingPartial (taskId : string) (partial : PartialCapture) (s : workflow) : workflow :=
  match partialCaptureToRaw partial with
  | Ok raw => patch_task taskId (with_raw (Some raw)) s
  | Err _ => s
  end.

Definition applyStreamingEvent (taskId : string) (event : CaptureEvent) (s : workflow) : workflow :=
  patch_task taskId (with_stage (Some (streamingStage (event_stage event)))) s.

Definition isResyncRequiredEvent (event : CaptureEvent) : bool :=
  String.eqb (event_eventType event) "resync_required".

(** The failure a failed operation reports. *)
Definition operation_failure (operation : CaptureOperation) : CaptureFailure :=
  match op_error operation with
  | Some error => error
  | None => {| failure_code := "capture_failed"; failure_message := "Capture failed.";
               failure_stage := Some "runtime"; failure_retryable := None |}
  end.

(** [new Error(message)] *)
Definition plain_error (message : string) : caught :=
  {| is_error := true; is_dom_exception := false; is_type_error := false; error_name := "Error";
     error_message := Str message; error_code := Undefined; error_status := Undefined |}.

Definition MAX_STREAMING_RESYNC_RECONNECTS : nat := 3.

Definition resync_limit_error : caught :=
  plain_error "Capture event stream exceeded the resync recovery limit.".

(** What the active client is: none, one without the streaming operations, or
    one with all of them. *)
Inductive ActiveClient : Type := NoClient | PlainClient | StreamingClient.

#[export] Instance ActiveClient_eq_dec : EqDecision ActiveClient.
Proof. solve_decision. Defined.

(** The inputs the store configures the workflow with. *)
Record WorkflowContext : Type := {
  enabledSources : list CaptureSourceKind;
  host_structuring : bool;
  component_owner : bool;
  multiple : bool;
  targetLanguage : option string;
  concurrency : Z;
  reviewBeforeCommit : bool;
  identifySpeakers : bool;
  spokenLanguage : option string;
  active_client : ActiveClient;
  has_provider : bool;
  has_preprocessor : bool
}.
