(* ===== verification/Reconciliation.v ===== *)
(** * Reconciliation with the runtime

    Models packages/capture-workbench-ui/src/lib/capture-workflow/
    capture-reconciliation.service.ts: committing a host result or reporting
    its failure with the terminal state confirmed, and settling a task whose
    terminal state is unknown.  [crypto.randomUUID] is a parameter.

    The client is one with all streaming operations: the workflow hands no
    other to these functions. *)

From S2P Require Import Prelude JsString JsNum JsValue CaptureModel CaptureHelpers StoreHelpers Observable WorkflowModel.

Section reconciliation.
Variable uuid : nat → string.

(** [crypto.randomUUID()] *)
Definition randomUUID : observable string := Read (λ s, Update next_uuid (Return (uuid (uuids s)))).

Definition unknownTerminalState (operation : CaptureOperation) : CaptureFailure :=
{| failure_code := HOST_RECONCILIATION_FAILURE_CODE;
   failure_message := "Capture runtime is still " +:+ op_status operation +:+ "; check again or cancel it.";
   failure_stage := Some (if String.eqb (op_status operation) "awaiting_structuring"
                          then "structuring" else "runtime");
   failure_retryable := Some true |}.

(** [applyStreamingOperation] of this service: no capture id, no default progress. *)
Definition apply_confirmed (taskId : string) (operation : CaptureOperation) (s : workflow) : workflow :=
patch_task taskId (λ task,
  let staged := with_stage (Some (streamingStage (op_status operation))) task in
  match op_progress operation with
  | Some progress => with_progress (runtimeProgressPercent progress) staged
  | None => staged
  end) s.

(** [if (taskId) f(taskId)] *)
Definition on_task (taskId : option string) (f : string → workflow → workflow) (s : workflow) : workflow :=
match taskId with Some id => f id s | None => s end.

(** A call whose failure, unless it is an abort, is answered by reading the capture. *)
Definition or_snapshot (captureId : string) (attempt : observable CaptureOperation)
  : observable CaptureOperation :=
catchError (λ error, if isAbortError error then Throw error else ask (GetStreamingCapture captureId)) attempt.

Definition reloadStreamingSnapshot (captureId : string) (taskId : option string) (includePartial : bool)
  : observable CaptureOperation :=
operation ← ask (GetStreamingCapture captureId);
update (on_task taskId (λ id, apply_confirmed id operation));;
match taskId with
| Some id =>
    if includePartial then
      catchError (λ _, Return operation)
        (partial ← ask (GetStreamingPartial captureId);
         update (applyStreamingPartial id partial);;
         Return operation)
    else Return operation
| None => Return operation
end.

(** [left] reconnects remain. *)
Fixpoint waitForTerminal (left : nat) (initial : CaptureOperation) (taskId : option string) (stopForHost : bool)
  : observable CaptureOperation :=
if isTerminalStreamingOperation (op_status initial) then Return initial else
until_abort (
  last ← listen (CaptureEvents (op_captureId initial) (op_lastEventSequence initial))
    (λ event, if isResyncRequiredEvent event then λ s, s
              else on_task taskId (λ id, applyStreamingEvent id event))
    (λ event, isResyncRequiredEvent event || isTerminalStreamingEvent (event_eventType event) ||
              stopForHost && String.eqb (event_stage event) "awaiting_structuring");
  let resyncRequired := match last with Some event => isResyncRequiredEvent event | None => false end in
  snapshot ← reloadStreamingSnapshot (op_captureId initial) taskId resyncRequired;
  if isTerminalStreamingOperation (op_status snapshot) ||
     stopForHost && String.eqb (op_status snapshot) "awaiting_structuring" then Return snapshot
  else if negb resyncRequired then Return snapshot
  else match left with
       | O => Throw resync_limit_error
       | S left' => waitForTerminal left' snapshot taskId stopForHost
       end).

(** [new HostReconciliationUnavailableError()] *)
Definition reconciliation_unavailable : caught :=
{| is_error := true; is_dom_exception := false; is_type_error := false;
   error_name := "HostReconciliationUnavailableError";
   error_message := Str "Host structuring failed and the runtime terminal state could not be confirmed.";
   error_code := Undefined; error_status := Undefined |}.

Definition cancelAndConfirm (captureId : string) : observable CaptureOperation :=
operation ← or_snapshot captureId (ask (CancelStreamingCapture captureId));
terminal ← waitForTerminal MAX_STREAMING_RESYNC_RECONNECTS operation None false;
if isTerminalStreamingOperation (op_status terminal) then Return terminal
else Throw reconciliation_unavailable.

Definition reportHostFailureAndReconcile (captureId message : string) : observable CaptureOperation :=
reported ← or_snapshot captureId
  (ask (ReportStreamingStructuringFailure captureId HOST_PROVIDER_FAILURE_CODE message));
if isTerminalStreamingOperation (op_status reported) then Return reported else cancelAndConfirm captureId.

(** Both attempts carry the same request. *)
Definition commitHostResultAndReconcile (captureId : string) (candidate : CaptureDocument)
  : observable CaptureOperation :=
clientRequestId ← randomUUID;
let commitAttempt := or_snapshot captureId
  (ask (CommitStreamingStructuredResult captureId clientRequestId candidate)) in
first ← commitAttempt;
second ← (if isAwaitingHostStructuring (op_status first) then commitAttempt else Return first);
if isAwaitingHostStructuring (op_status second)
then reportHostFailureAndReconcile captureId "Host structured result could not be committed."
else Return second.

Definition tryGetRaw (captureId : string) : observable (option RawCapture) :=
catchError (λ _, Return None) (raw ← ask (GetStreamingRaw captureId); Return (Some raw)).

(** ** A task whose terminal state is unknown *)

(** The end of both flows: give up silently on an abort, else ask again later. *)
Definition require_again (task : CaptureTaskView) (error : caught) : observable unit :=
if isAbortError error then Empty
else update (requireReconciliation (task_id task) (hostReconciliationFailure error) (task_raw task));; Empty.

Definition settle_completed (task : CaptureTaskView) (outcome : CaptureStreamingResult) (s : workflow) : workflow :=
match updateTask (task_id task) (λ t, with_result (Some (result_result outcome)) (with_raw (Some (result_raw outcome))
        (with_error None (with_progress (num_of_Z 100) (with_stage (Some "completed") (with_status "completed" t)))))) s with
| (s', Some completed) => emit (TaskCompleted (task_id task) (result_result outcome) (task_review completed)) s'
| (s', None) => s'
end.

Definition settleConfirmedOperation (task : CaptureTaskView) (operation : CaptureOperation) : observable unit :=
if String.eqb (op_status operation) "cancelled" then
  update (patch_and_emit (task_id task) (λ t, with_error None
    (with_stage (Some "cancelled") (with_status "canceled" t))) TaskCanceled)
else if String.eqb (op_status operation) "failed" then
  raw ← (match task_raw task with
         | Some raw => Return (Some raw)
         | None => tryGetRaw (op_captureId operation)
         end);
  update (failTask (task_id task) (task_fileName task) (operation_failure operation) raw
    (Some (if bool_decide ((op_error operation ≫= failure_stage) = Some "structuring")
           then "structuring" else "failed")))
else if negb (String.eqb (op_status operation) "completed") then Empty
else
  catchError (require_again task)
    (outcome ← ask (GetStreamingResult (op_captureId operation));
     update (settle_completed task outcome)).

Definition settleOrRequire (task : CaptureTaskView) (operation : CaptureOperation) : observable unit :=
if isTerminalStreamingOperation (op_status operation) then settleConfirmedOperation task operation
else update (requireReconciliation (task_id task) (unknownTerminalState operation) (task_raw task));; Empty.

Definition confirmOperation (captureId : string) (taskId : option string) : observable CaptureOperation :=
initial ← ask (GetStreamingCapture captureId);
waitForTerminal MAX_STREAMING_RESYNC_RECONNECTS initial taskId true.

(** The body of [reconcile] once its guards have passed. *)
Definition reconcile_body (task : CaptureTaskView) (captureId : string) : observable unit :=
catchError (require_again task)
  (operation ← confirmOperation captureId (Some (task_id task));
   settleOrRequire task operation).

(** The body of [cancelReconciliationRequiredTask] once its guards have passed. *)
Definition cancel_body (task : CaptureTaskView) (captureId : string) : observable unit :=
catchError (require_again task)
  (terminal ← cancelAndConfirm captureId; settleOrRequire task terminal).
End reconciliation.
