(* ===== verification/Workflow.v ===== *)
(** * The capture workflow

    Models packages/capture-workbench-ui/src/lib/capture-workflow/
    capture-workflow.service.ts: the queue of files, the life of a task from
    preprocessing to its settled result, and the user's commands.  A running
    task is an [observable] of [WorkflowModel]; the service interleaves the
    running tasks with each other and with the commands.

    The inputs ([WorkflowContext]) are those of one configuration.  Client
    calls, the preprocessor and the provider emit one value or an error;
    subscribers of the events subject do not call back. *)

From stdpp Require Import gmap.
From S2P Require Import Prelude JsString JsNum JsValue CaptureModel CaptureHelpers StoreHelpers Observable WorkflowModel Reconciliation.

Section workflow.
Variables (uuid : nat → string) (context : WorkflowContext).

Definition failure (code message stage : string) : CaptureFailure :=
{| failure_code := code; failure_message := message; failure_stage := Some stage; failure_retryable := None |}.

(** ** Task state during streaming *)

Definition applyStreamingOperation (taskId : string) (operation : CaptureOperation) (s : workflow) : workflow :=
patch_task taskId (λ task,
  with_progress (match op_progress operation with Some p => runtimeProgressPercent p | None => num_of_Z 0 end)
    (with_stage (Some (streamingStage (op_status operation)))
      (with_captureId (Some (op_captureId operation)) task))) s.

Definition reloadSnapshot (taskId captureId : string) (includePartial : bool) : observable CaptureOperation :=
operation ← ask (GetStreamingCapture captureId);
update (applyStreamingOperation taskId operation);;
if includePartial then
  catchError (λ _, Return operation)
    (partial ← ask (GetStreamingPartial captureId);
     update (applyStreamingPartial taskId partial);;
     Return operation)
else Return operation.

(** [left] reconnects remain. *)
Fixpoint waitForStreamingOperation (left : nat) (initial : CaptureOperation) (stopForHost : bool) (taskId : string)
  : observable CaptureOperation :=
if isTerminalStreamingOperation (op_status initial) ||
   stopForHost && String.eqb (op_status initial) "awaiting_structuring" then Return initial else
until_abort (
  last ← listen (CaptureEvents (op_captureId initial) (op_lastEventSequence initial))
    (λ event, if isResyncRequiredEvent event then λ s, s else applyStreamingEvent taskId event)
    (λ event, isResyncRequiredEvent event || isTerminalStreamingEvent (event_eventType event) ||
              stopForHost && String.eqb (event_stage event) "awaiting_structuring");
  let resyncRequired := match last with Some event => isResyncRequiredEvent event | None => false end in
  snapshot ← reloadSnapshot taskId (op_captureId initial) resyncRequired;
  if isTerminalStreamingOperation (op_status snapshot) ||
     stopForHost && String.eqb (op_status snapshot) "awaiting_structuring" then Return snapshot
  else if negb resyncRequired then Return snapshot
  else match left with
       | O => Throw resync_limit_error
       | S left' => waitForStreamingOperation left' snapshot stopForHost taskId
       end).

(** ** Host structuring *)

Definition empty_review : CaptureReview := {| reviewVersion := num_of_Z 1; review_edits := Some [] |}.

(** [Math.max(70, runtimeProgressPercent(progress))] *)
Definition structuring_progress (progress : num) : num :=
num_max (num_of_Z 70) (runtimeProgressPercent progress).

Definition awaitReview (taskId : string) (raw : RawCapture) (runtimeProgress : num) : observable CaptureReview :=
if negb (reviewBeforeCommit context) then
  update (patch_task taskId (λ task, with_progress (structuring_progress runtimeProgress)
    (with_stage (Some "structuring") (with_raw (Some raw) task))));;
  Return empty_review
else
  update (set_reviewSubjects (λ subjects, {[taskId]} ∪ subjects));;
  update (patch_and_emit taskId (λ task, with_error None (with_review (Some empty_review) (with_raw (Some raw)
    (with_progress (structuring_progress runtimeProgress) (with_stage (Some "awaiting_structuring")
      (with_status "awaiting_confirmation" task)))))) ReviewRequired);;
  review ← ask (AwaitReview taskId);
  update (set_reviewSubjects (λ subjects, subjects ∖ {[taskId]}));;
  Return review.

(** An error of the reconciliation ends the task's run with the question open. *)
Definition or_reconciliation (taskId : string) (raw : workflow → option RawCapture)
  (attempt : observable CaptureOperation) : observable CaptureOperation :=
catchError (λ error,
  if isAbortError error then Throw error
  else Read (λ s, update (requireReconciliation taskId (hostReconciliationFailure error) (raw s));; Empty)) attempt.

(** The candidate of the provider, checked against the raw capture. *)
Definition structured_candidate (raw : RawCapture) (review : CaptureReview) : observable CaptureDocument :=
candidate ← ask (Structure raw review (targetLanguage context));
let issues := validateStructuringCandidate candidate raw in
if (0 <? length issues)%nat
then Throw (plain_error ("Invalid structured capture: " +:+ join "; " issues))
else Return candidate.

(** The value of the inner [concatMap]: a candidate to commit, or the operation
  a reported failure ended in. *)
Definition structure_or_report (taskId captureId : string) (raw : RawCapture) (review : CaptureReview)
  : observable (CaptureDocument + CaptureOperation) :=
catchError (λ error,
  if isAbortError error then Throw error
  else
    let failure := failureFrom error (Some "structuring") "Host structuring failed." in
    operation ← or_reconciliation taskId (λ _, Some raw)
      (reportHostFailureAndReconcile captureId (normalizeHostFailureMessage (failure_message failure)));
    Return (inr operation))
  (candidate ← structured_candidate raw review; Return (inl candidate)).

Definition processStreamingHostStructuring (initial : CaptureOperation) (taskId : string)
  : observable CaptureOperation :=
operation ← waitForStreamingOperation MAX_STREAMING_RESYNC_RECONNECTS initial true taskId;
if negb (String.eqb (op_status operation) "awaiting_structuring") then Return operation else
raw ← ask (GetStreamingRaw (op_captureId operation));
review ← awaitReview taskId raw (default (num_of_Z 0) (op_progress operation));
outcome ← structure_or_report taskId (op_captureId operation) raw review;
match outcome with
| inr operation => Return operation
| inl candidate =>
    or_reconciliation taskId (λ s, find_task taskId s ≫= task_raw)
      (commitHostResultAndReconcile uuid (op_captureId operation) candidate)
end.

(** ** The end of a task *)

Definition settle_result (taskId : string) (outcome : CaptureStreamingResult) (s : workflow) : workflow :=
match updateTask taskId (λ task, with_result (Some (result_result outcome)) (with_raw (Some (result_raw outcome))
        (with_progress (num_of_Z 100) (with_stage (Some "completed") (with_status "completed" task))))) s with
| (s', Some completed) => emit (TaskCompleted taskId (result_result outcome) (task_review completed)) s'
| (s', None) => s'
end.

Definition settleStreaming (task : CaptureTaskView) (operation : CaptureOperation) (taskId : string)
  : observable unit :=
if String.eqb (op_status operation) "cancelled" then update (mark_canceled taskId)
else if String.eqb (op_status operation) "failed" then
  raw ← tryGetRaw (op_captureId operation);
  update (failTask taskId (task_fileName task) (operation_failure operation) raw None)
else if negb (String.eqb (op_status operation) "completed") then
  Throw (plain_error ("Capture ended in unexpected state: " +:+ op_status operation))
else
  outcome ← ask (GetStreamingResult (op_captureId operation));
  update (settle_result taskId outcome).

Definition handleProcessError (task : CaptureTaskView) (taskId : string) (error : caught) : observable unit :=
Read (λ s,
  if isAbortError error || bool_decide (taskId ∈ aborted s) then
    if bool_decide ((task_status <$> find_task taskId s) = Some "canceled") then Return tt
    else update (mark_canceled taskId)
  else
    raw ← (match captureIds s !! taskId with
           | Some captureId => if String.eqb captureId "" then Return None else tryGetRaw captureId
           | None => Return None
           end);
    update (failTask taskId (task_fileName task) (failureFrom error (Some "runtime") "Capture failed.") raw None)).

(** ** The run of a task *)

Definition start_request (internal : InternalCaptureTask) (task : CaptureTaskView) (file : File)
  : StartStreamingCaptureRequest :=
let is_audio := bool_decide (task_sourceKind task = Kind audio) in
{| start_clientRequestId := internal_clientRequestId internal; start_file := file;
   start_sourceKind := task_sourceKind task;
   start_structuringMode := if host_structuring context then "host" else "runtime";
   start_targetLanguage := targetLanguage context;
   start_identifySpeakers := identifySpeakers context && is_audio;
   start_spokenLanguage := if is_audio then spokenLanguage context else None |}.

(** [throwIfAborted(signal)] *)
Definition check_aborted (taskId : string) : observable unit :=
Read (λ s, if bool_decide (taskId ∈ aborted s) then Throw abort_exception else Return tt).

(** [retryUncertainResponse] over the start of the capture. *)
Definition start_capture (taskId : string) (request : StartStreamingCaptureRequest) : observable CaptureOperation :=
catchError (λ error,
  check_aborted taskId;;
  if isUncertainResponseFailure error then ask (StartStreamingCapture request) else Throw error)
  (ask (StartStreamingCapture request)).

Definition component_owns : bool := host_structuring context && component_owner context.

Definition processStreamingTask (internal : InternalCaptureTask) (task : CaptureTaskView) (taskId : string)
  : observable unit :=
file ← (if has_preprocessor context then ask (Preprocess (internal_file internal) (task_sourceKind task))
        else Return (internal_file internal));
check_aborted taskId;;
update (patch_task taskId (λ t, with_progress (num_of_Z 5) (with_stage (Some "uploading") t)));;
started ← start_capture taskId (start_request internal task file);
update (set_captureIds (<[taskId := op_captureId started]>));;
update (applyStreamingOperation taskId started);;
operation ← (if component_owns then
    if negb (has_provider context) then Throw (plain_error "Host structuring provider is not configured.")
    else processStreamingHostStructuring started taskId
  else if reviewBeforeCommit context then
    Throw (plain_error "Review confirmation is not supported by the v2 streaming contract.")
  else Return started);
final ← waitForStreamingOperation MAX_STREAMING_RESYNC_RECONNECTS operation false taskId;
settleStreaming task final taskId.

Definition processTask (taskId : string) : observable unit :=
Read (λ s,
  let refuse fileName code message stage := update (failTask taskId fileName (failure code message stage) None None) in
  match internalTasks s !! taskId, find_task taskId s, active_client context with
  | Some internal, Some task, (PlainClient | StreamingClient) =>
      if reviewBeforeCommit context && negb (host_structuring context) then
        refuse (task_fileName task) "review_requires_host_structuring"
          "OCR review requires host structuring mode." "structuring"
      else if component_owns && negb (has_provider context) then
        refuse (task_fileName task) "structuring_provider_not_configured"
          "Host structuring provider is not configured." "structuring"
      else if bool_decide (active_client context = PlainClient) then
        refuse (task_fileName task) "streaming_client_unavailable"
          "The capture client does not support streaming capture." "runtime"
      else
        catchError (handleProcessError task taskId) (processStreamingTask internal task taskId)
  | _, task, _ =>
      refuse (default "Unknown file" (task_fileName <$> task)) "client_not_configured"
        "Capture client is not configured." "runtime"
  end).

(** The subscription [drainQueue] makes: whatever still fails fails the task. *)
Definition task_run (taskId : string) : observable unit :=
catchError (λ error, Read (λ s,
  match find_task taskId s with
  | Some task => update (failTask taskId (task_fileName task) (failureFrom error (Some "runtime") "Capture failed.") None None);; Empty
  | None => Empty
  end)) (processTask taskId).

(** ** The service with its running observables *)

(** What happened at the edge of the service, the newest first. *)
Inductive Observation : Type :=
| Sent (call : Call)
| RawFetched (captureId : string) (raw : RawCapture).

Record system : Type := {
state : workflow;
running : gmap string (observable unit);
reconciling : gmap string (observable unit);
removing : list (string * observable unit);
observed : list Observation
}.

Definition with_state (f : workflow → workflow) (sys : system) : system :=
{| state := f (state sys); running := running sys; reconciling := reconciling sys;
   removing := removing sys; observed := observed sys |}.
Definition with_running (f : gmap string (observable unit) → gmap string (observable unit)) (sys : system) : system :=
{| state := state sys; running := f (running sys); reconciling := reconciling sys;
   removing := removing sys; observed := observed sys |}.
Definition with_reconciling (f : gmap string (observable unit) → gmap string (observable unit)) (sys : system)
  : system :=
{| state := state sys; running := running sys; reconciling := f (reconciling sys);
   removing := removing sys; observed := observed sys |}.
Definition with_removing (f : list (string * observable unit) → list (string * observable unit)) (sys : system)
  : system :=
{| state := state sys; running := running sys; reconciling := reconciling sys;
   removing := f (removing sys); observed := observed sys |}.
Definition observe (seen : list Observation) (sys : system) : system :=
{| state := state sys; running := running sys; reconciling := reconciling sys;
   removing := removing sys; observed := seen ++ observed sys |}.

(** The call a process has just made. *)
Definition sent_by (p : observable unit) : list Observation :=
match waits_at p with Some call => [Sent call] | None => [] end.

(** [task?.result?.speakers ?? []] *)
Definition task_speakers (taskId : string) (s : workflow) : list CaptureSpeaker :=
match find_task taskId s with
| Some task => match task_result task with Some document => default [] (doc_speakers document) | None => [] end
| None => []
end.

Definition keepSpeakerSource (taskId : string) (s : workflow) : workflow :=
match internalTasks s !! taskId, task_speakers taskId s with
| Some internal, _ :: _ => set_speakerSources (<[taskId := internal_file internal]>) s
| _, _ => s
end.

(** The [finalize] callback, up to its call of [drainQueue]. *)
Definition finish (taskId : string) (sys : system) : system :=
with_running (delete taskId)
  (with_state (λ s, set_internalTasks (delete taskId)
     (keepSpeakerSource taskId (set_runningTasks (λ n, n - 1) s))) sys).

(** [drainQueue] up to the subscription: the next task is taken off the queue. *)
Definition take_next (taskId : string) (s : workflow) : workflow :=
patch_task taskId (λ task, with_progress (num_of_Z 1) (with_stage (Some "uploading") (with_status "processing" task)))
  (set_runningTasks (λ n, n + 1) s).

Definition next_queued (s : workflow) : option CaptureTaskView :=
List.find (λ task, String.eqb (task_status task) "queued") (tasks s).

Definition queued (s : workflow) : nat :=
length (List.filter (λ task, String.eqb (task_status task) "queued") (tasks s)).

(** [drainQueue]; each turn takes a task off the queue, so [fuel] above their
  number is enough.  A run that ends at once finishes inside its subscription
  and drains the queue itself before the loop goes on. *)
Fixpoint drain (fuel : nat) (sys : system) : system :=
match fuel with
| O => sys
| S fuel' =>
    if runningTasks (state sys) <? concurrency context then
      match next_queued (state sys) with
      | None => sys
      | Some task =>
          let id := task_id task in
          let '(s, p) := advance (task_run id) (take_next id (state sys)) in
          if ended p then drain fuel' (drain fuel' (finish id (with_state (λ _, s) sys)))
          else drain fuel' (observe (sent_by p) (with_running (<[id := p]>) (with_state (λ _, s) sys)))
      end
    else sys
end.

Definition drainQueue (sys : system) : system := drain (S (queued (state sys))) sys.

(** Go on with the run of a task. *)
Definition continue_task (taskId : string) (p : observable unit) (sys : system) : system :=
let '(s, p') := advance p (state sys) in
if ended p' then drainQueue (finish taskId (with_state (λ _, s) sys))
else observe (sent_by p') (with_running (<[taskId := p']>) (with_state (λ _, s) sys)).

Definition continue_reconciliation (taskId : string) (p : observable unit) (sys : system) : system :=
let '(s, p') := advance p (state sys) in
if ended p' then with_reconciling (delete taskId) (with_state (λ _, s) sys)
else observe (sent_by p') (with_reconciling (<[taskId := p']>) (with_state (λ _, s) sys)).

(** ** Commands *)

Definition addRejectedTask (file : File) (sourceKind : FileClass) (s : workflow) : workflow :=
let id := uuid (uuids s) in
let error := failure "unsupported_source" ("Unsupported capture source: " +:+ File_name file) "input" in
let task := {| task_id := id; task_captureId := None; task_fileName := File_name file;
  task_sourceKind := sourceKind; task_status := "failed"; task_stage := None; task_progress := num_of_Z 0;
  task_result := None; task_raw := None; task_review := None; task_error := Some error |} in
emit (TaskFailed id None (File_name file) error None)
  (emit (TaskChanged task) (set_tasks (λ l, l ++ [task]) (next_uuid s))).

Definition add_queued_task (file : File) (sourceKind : FileClass) (s : workflow) : workflow :=
let id := uuid (uuids s) in
let internal := {| internal_file := file; internal_clientRequestId := uuid (S (uuids s)) |} in
let task := {| task_id := id; task_captureId := None; task_fileName := File_name file;
  task_sourceKind := sourceKind; task_status := "queued"; task_stage := Some "queued";
  task_progress := num_of_Z 0; task_result := None; task_raw := None; task_review := None;
  task_error := None |} in
emit (TaskChanged task) (set_tasks (λ l, l ++ [task])
  (set_internalTasks (<[id := internal]>) (next_uuid (next_uuid s)))).

(** The body of the loop over the files. *)
Definition enqueue (s : workflow) (file : File) : workflow :=
match classifyCaptureFile (File_name file) with
| Kind kind => if bool_decide (kind ∈ enabledSources context) then add_queued_task file (Kind kind) s
               else addRejectedTask file (Kind kind) s
| Unsupported => addRejectedTask file (Kind pdf) s
| Inherited name => addRejectedTask file (Inherited name) s
end.

Definition enqueueFiles (files : list File) (sys : system) : system :=
let taken := if multiple context then files else take 1 files in
drainQueue (with_state (λ s, fold_left enqueue taken s) sys).

(** A task of the reconciliation service is entered once. *)
Definition reconciliation_start (body : CaptureTaskView → string → observable unit) (task : CaptureTaskView)
  (sys : system) : system :=
match task_captureId task, active_client context with
| Some captureId, StreamingClient =>
    if String.eqb captureId "" || bool_decide (is_Some (reconciling sys !! task_id task)) then sys
    else continue_reconciliation (task_id task) (body task captureId) sys
| _, _ => sys
end.

Definition reconcile (taskId : string) (sys : system) : system :=
match find_task taskId (state sys) with
| Some task =>
    if String.eqb (task_status task) "reconciliation_required"
    then reconciliation_start reconcile_body task sys else sys
| None => sys
end.

(** [internal.controller.abort()]: waits under [takeUntil] end at once. *)
Definition abort_task (taskId : string) (sys : system) : system :=
let sys' := with_state (set_aborted (λ ids, {[taskId]} ∪ ids)) sys in
match running sys' !! taskId with
| Some p => if ended (on_abort p) then drainQueue (finish taskId sys') else sys'
| None => sys'
end.

Definition awaits_review (p : observable unit) : bool :=
match waits_at p with Some (AwaitReview _) => true | _ => false end.

(** [this.reviewSubjects.get(taskId)?.complete()] *)
Definition complete_review (taskId : string) (sys : system) : system :=
match running sys !! taskId with
| Some p =>
    if bool_decide (taskId ∈ reviewSubjects (state sys)) && awaits_review p
    then drainQueue (finish taskId (with_state (set_reviewSubjects (λ ids, ids ∖ {[taskId]})) sys))
    else sys
| None => sys
end.

(** The request to the runtime that [cancel] does not wait for. *)
Definition cancel_capture (taskId : string) (sys : system) : system :=
match captureIds (state sys) !! taskId, active_client context with
| Some captureId, StreamingClient =>
    if String.eqb captureId "" then sys else observe [Sent (CancelStreamingCapture captureId)] sys
| _, _ => sys
end.

Definition cancel (taskId : string) (sys : system) : system :=
match find_task taskId (state sys) with
| None => sys
| Some current =>
    if isTerminalTask (task_status current) then sys
    else if String.eqb (task_status current) "reconciliation_required"
    then reconciliation_start cancel_body current sys
    else match internalTasks (state sys) !! taskId with
    | None => sys
    | Some _ =>
        let sys' := with_state (mark_canceled taskId)
          (cancel_capture taskId (complete_review taskId (abort_task taskId sys))) in
        if String.eqb (task_status current) "queued"
        then drainQueue (with_state (set_internalTasks (delete taskId)) sys') else sys'
    end
end.

Definition updateReview (taskId segmentId reviewedText : string) (sys : system) : system :=
match find_task taskId (state sys) with
| Some task =>
    match String.eqb (task_status task) "awaiting_confirmation", task_raw task with
    | true, Some raw =>
        match List.find (λ segment, String.eqb (segment_id segment) segmentId) (raw_segments raw) with
        | None => sys
        | Some original =>
            let current := default [] (default empty_review (task_review task)).(review_edits) in
            let kept := List.filter (λ edit, negb (String.eqb (edit_segmentId edit) segmentId)) current in
            let edits := if negb (String.eqb reviewedText (segment_text original))
              then kept ++ [{| edit_segmentId := segmentId; edit_reviewedText := reviewedText |}] else kept in
            with_state (patch_task taskId (λ t, with_error None
              (with_review (Some {| reviewVersion := num_of_Z 1; review_edits := Some edits |}) t))) sys
        end
    | _, _ => sys
    end
| None => sys
end.

(** [subject.next(review)]: a run that awaits the review goes on with it. *)
Definition after_review (p : observable unit) (review : CaptureReview) : option (observable unit) :=
match p with
| Ask call _ k =>
    match call return (result caught (reply_of call) → observable unit) → option (observable unit) with
    | AwaitReview _ => λ k, Some (k (Ok review))
    | _ => λ _, None
    end k
| _ => None
end.

Definition next_review (taskId : string) (review : CaptureReview) (sys : system) : system :=
match running sys !! taskId ≫= λ p, after_review p review with
| Some p => continue_task taskId p sys
| None => sys
end.

Definition confirm (taskId : string) (sys : system) : system :=
match find_task taskId (state sys) with
| Some task =>
    match String.eqb (task_status task) "awaiting_confirmation", task_raw task with
    | true, Some raw =>
        let review := default empty_review (task_review task) in
        let issues := validateCaptureReview raw review in
        if (0 <? length issues)%nat then
          with_state (patch_task taskId (with_error (Some (failure "invalid_review" (join "; " issues) "structuring")))) sys
        else if bool_decide (taskId ∈ reviewSubjects (state sys)) then
          next_review taskId review
            (with_state (patch_task taskId (λ t, with_error None (with_progress (num_max (num_of_Z 72) (task_progress task))
              (with_stage (Some "structuring") (with_status "processing" t))))) sys)
        else sys
    | _, _ => sys
    end
| None => sys
end.

Definition removeTask (taskId : string) (s : workflow) : workflow :=
set_captureIds (delete taskId) (set_speakerSources (delete taskId) (set_internalTasks (delete taskId)
  (set_tasks (List.filter (λ task, negb (String.eqb (task_id task) taskId))) s))).

(** The deletion [remove] waits for: an error is shown on the task, and the
  completion that follows removes the task all the same. *)
Definition removal (taskId captureId : string) : observable unit :=
catchError (λ error, update (patch_task taskId (with_error (Some
    (failureFrom error (Some "runtime") "Unable to clear capture data."))));; Return tt)
  (ask (DeleteStreamingCapture captureId));;
update (removeTask taskId).

Definition remove (taskId : string) (sys : system) : system :=
match find_task taskId (state sys) with
| Some task =>
    if negb (isTerminalTask (task_status task)) then sys
    else match task_captureId task, active_client context with
    | Some captureId, StreamingClient =>
        if String.eqb captureId "" then with_state (removeTask taskId) sys
        else let p := removal taskId captureId in
             observe (sent_by p) (with_removing (λ l, l ++ [(taskId, p)]) sys)
    | _, _ => with_state (removeTask taskId) sys
    end
| None => sys
end.

(** [name.trim().slice(0, 100) || null] *)
Definition speaker_label (name : string) : option string :=
let label := take_str 100 (trim name) in if String.eqb label "" then None else Some label.

Definition nameSpeaker (taskId speakerId name : string) (sys : system) : system :=
match find_task taskId (state sys) ≫= task_result with
| Some document =>
    let speakers := default [] (doc_speakers document) in
    if existsb (λ speaker, String.eqb (speaker_id speaker) speakerId) speakers then
      let renamed := map (λ speaker, if String.eqb (speaker_id speaker) speakerId
        then {| speaker_id := speaker_id speaker; speaker_displayName := speaker_label name |}
        else speaker) speakers in
      let named := {| doc_schemaVersion := doc_schemaVersion document; doc_source := doc_source document;
        doc_sourceText := doc_sourceText document; doc_targetText := doc_targetText document;
        doc_blocks := doc_blocks document; doc_rawSegments := doc_rawSegments document;
        doc_extractionEngine := doc_extractionEngine document;
        doc_structuringEngine := doc_structuringEngine document; doc_warnings := doc_warnings document;
        doc_speakers := Some renamed; doc_createdAt := doc_createdAt document |} in
      with_state (λ s, emit (SpeakersNamed taskId named) (patch_task taskId (with_result (Some named)) s)) sys
    else sys
| None => sys
end.

Definition sourceFile (taskId : string) (sys : system) : option File := speakerSources (state sys) !! taskId.

(** ** Actions *)

(** What a waiting process can receive: the reply to its call, whatever the
  call is; an event of its stream; the end of its stream. *)
Inductive Input : Type :=
| Reply (answer : ∀ call, result caught (reply_of call))
| NextEvent (event : CaptureEvent)
| StreamEnd (error : option caught).

(** The process after an input, the state it is continued in, and what was
  seen; [None] when it does not wait for such an input.  A review arrives
  through [confirm] only. *)
Definition deliver (p : observable unit) (input : Input) (s : workflow)
  : option (observable unit * workflow * list Observation) :=
match p, input with
| Ask call _ k, Reply answer =>
    match call with
    | AwaitReview _ => None
    | GetStreamingRaw captureId =>
        Some (k (answer call), s, match answer (GetStreamingRaw captureId) with Ok raw => [RawFetched captureId raw] | Err _ => [] end)
    | _ => Some (k (answer call), s, [])
    end
| Listen call abortable _ on_event stop k, NextEvent event =>
    Some (if stop event then k (Ok (Some event)) else Listen call abortable (Some event) on_event stop k,
          on_event event s, [])
| Listen _ _ last _ _ k, StreamEnd None => Some (k (Ok last), s, [])
| Listen _ _ _ _ _ k, StreamEnd (Some error) => Some (k (Err error), s, [])
| _, _ => None
end.

Inductive Action : Type :=
| EnqueueFiles (files : list File)
| Cancel (taskId : string)
| UpdateReview (taskId segmentId reviewedText : string)
| Confirm (taskId : string)
| Reconcile (taskId : string)
| Remove (taskId : string)
| NameSpeaker (taskId speakerId name : string)
| ReportProgress (taskId : string) (progress : num)
| TaskInput (taskId : string) (input : Input)
| ReconciliationInput (taskId : string) (input : Input)
| RemovalInput (index : nat) (input : Input).

Definition task_input (taskId : string) (input : Input) (sys : system) : system :=
match running sys !! taskId ≫= λ p, deliver p input (state sys) with
| Some (p, s, seen) => continue_task taskId p (observe seen (with_state (λ _, s) sys))
| None => sys
end.

Definition reconciliation_input (taskId : string) (input : Input) (sys : system) : system :=
match reconciling sys !! taskId ≫= λ p, deliver p input (state sys) with
| Some (p, s, seen) => continue_reconciliation taskId p (observe seen (with_state (λ _, s) sys))
| None => sys
end.

(** A removal makes one call: its reply ends it. *)
Definition removal_input (index : nat) (input : Input) (sys : system) : system :=
match removing sys !! index ≫= λ entry, deliver entry.2 input (state sys) with
| Some (p, s, _) => with_removing (λ l, take index l ++ drop (S index) l) (with_state (λ _, (advance p s).1) sys)
| None => sys
end.

(** [reportProgress] of the structuring provider. *)
Definition reportProgress (taskId : string) (progress : num) : workflow → workflow :=
patch_task taskId (with_progress (num_add (num_of_Z 70) (num_mul (clampProgress progress) (round64 (2 # 10))))).

Definition act (sys : system) (action : Action) : system :=
match action with
| EnqueueFiles files => enqueueFiles files sys
| Cancel taskId => cancel taskId sys
| UpdateReview taskId segmentId text => updateReview taskId segmentId text sys
| Confirm taskId => confirm taskId sys
| Reconcile taskId => reconcile taskId sys
| Remove taskId => remove taskId sys
| NameSpeaker taskId speakerId name => nameSpeaker taskId speakerId name sys
| ReportProgress taskId progress => with_state (reportProgress taskId progress) sys
| TaskInput taskId input => task_input taskId input sys
| ReconciliationInput taskId input => reconciliation_input taskId input sys
| RemovalInput index input => removal_input index input sys
end.

Definition init : system :=
{| state := {| tasks := []; internalTasks := ∅; aborted := ∅; speakerSources := ∅; captureIds := ∅;
     reviewSubjects := ∅; runningTasks := 0; events := []; uuids := 0 |};
   running := ∅; reconciling := ∅; removing := []; observed := [] |}.

Inductive reachable : system → Prop :=
| reachable_init : reachable init
| reachable_act sys action : reachable sys → reachable (act sys action).
End workflow.
