(* ===== verification/WorkflowQueue.v ===== *)
(** * The queue of the capture workflow

    What holds in every state the service of [Workflow] can reach: at most as
    many runs as the configured concurrency, no file waiting while a slot is
    free, and no task left in progress without a run that will settle it.

    The proof follows the code: what one step of a run may change
    ([guarantee]), how every run ends ([settled_at]), and the invariant the
    commands, the replies and [drainQueue] keep. *)

From stdpp Require Import gmap.
From S2P Require Import Prelude JsString JsNum JsValue CaptureModel CaptureHelpers StoreHelpers Observable WorkflowModel Reconciliation Workflow.

(** ** What a step may change *)

(** The task is in progress: somebody has to bring it to an end. *)
Definition awake (task : CaptureTaskView) : bool :=
  includes ["processing"; "awaiting_confirmation"] (task_status task).

Definition is_queued (task : CaptureTaskView) : bool := String.eqb (task_status task) "queued".

(** A step on task [id]: it keeps the other tasks, never queues a task again,
    and wakes its own task only when [wakes]. *)
Definition task_step (wakes : bool) (id : string) (t t' : CaptureTaskView) : Prop :=
  task_id t' = task_id t ∧ (task_id t ≠ id → t' = t) ∧
  (is_queued t' = true → is_queued t = true) ∧ (wakes = false → awake t' = true → awake t = true).

Definition guarantee (wakes : bool) (id : string) (s s' : workflow) : Prop :=
  Forall2 (task_step wakes id) (tasks s) (tasks s') ∧ runningTasks s' = runningTasks s ∧
  (uuids s ≤ uuids s')%nat.

#[export] Instance task_step_preorder wakes id : PreOrder (task_step wakes id).
Proof.
  split; [by unfold Reflexive, task_step|].
  intros t u v (Hi & Ho & Hq & Ha) (Hi' & Ho' & Hq' & Ha'). unfold task_step.
  split; [congruence|]. split; [|split; auto]. intros Hne. rewrite Ho'; [auto|]. congruence.
Qed.

#[export] Instance guarantee_preorder wakes id : PreOrder (guarantee wakes id).
Proof.
  split; [by split|].
  intros s s' s'' (Ht & Hr & Hu) (Ht' & Hr' & Hu'). split; [by etrans|split; [congruence|lia]].
Qed.

(** Changes outside the task list. *)
Lemma guarantee_same_tasks wakes id s s' :
  tasks s' = tasks s → runningTasks s' = runningTasks s → (uuids s ≤ uuids s')%nat → guarantee wakes id s s'.
Proof. intros Ht Hr Hu. split; [|done]. by rewrite Ht. Qed.

(** A patch that keeps the id, and the status as [task_step] asks. *)
Definition patch_ok (wakes : bool) (f : CaptureTaskView → CaptureTaskView) : Prop :=
  ∀ t, task_id (f t) = task_id t ∧ (is_queued (f t) = true → is_queued t = true) ∧
       (wakes = false → awake (f t) = true → awake t = true).

Lemma updateTask_tasks id f s :
  tasks (updateTask id f s).1 = map (λ t, if String.eqb (task_id t) id then f t else t) (tasks s) ∧
  runningTasks (updateTask id f s).1 = runningTasks s ∧ uuids (updateTask id f s).1 = uuids s.
Proof. unfold updateTask. cbn. by destruct (last _). Qed.

Lemma guarantee_updateTask wakes id f s : patch_ok wakes f → guarantee wakes id s (updateTask id f s).1.
Proof.
  intros Hf. destruct (updateTask_tasks id f s) as (Ht & Hr & Hu). unfold guarantee.
  rewrite Ht, Hr, Hu. split; [|done]. clear Ht Hr Hu.
  induction (tasks s) as [|t l IH]; cbn; [done|]. constructor; [|done].
  destruct (String.eqb_spec (task_id t) id) as [E|E]; [|done].
  destruct (Hf t) as (? & ? & ?). by unfold task_step.
Qed.

Lemma guarantee_emit wakes id e s s' : guarantee wakes id s s' → guarantee wakes id s (emit e s').
Proof. done. Qed.

Lemma guarantee_patch wakes id f s : patch_ok wakes f → guarantee wakes id s (patch_task id f s).
Proof. apply guarantee_updateTask. Qed.

Lemma guarantee_patch_and_emit wakes id f e s :
  patch_ok wakes f → guarantee wakes id s (patch_and_emit id f e s).
Proof.
  intros Hf. unfold patch_and_emit. pose proof (guarantee_updateTask wakes id f s Hf) as H.
  by destruct (updateTask id f s) as [s' [t|]].
Qed.

Lemma guarantee_fail wakes id name error raw stage s : guarantee wakes id s (failTask id name error raw stage s).
Proof.
  unfold failTask.
  match goal with |- context [updateTask id ?f s] =>
    pose proof (guarantee_updateTask wakes id f s) as H; destruct (updateTask id f s) as [s' t] end.
  apply guarantee_emit, H. intros t'. by destruct stage.
Qed.

Lemma guarantee_require wakes id error raw s : guarantee wakes id s (requireReconciliation id error raw s).
Proof. by apply guarantee_patch. Qed.

Lemma guarantee_canceled wakes id s : guarantee wakes id s (mark_canceled id s).
Proof. by apply guarantee_patch_and_emit. Qed.

Lemma guarantee_partial wakes id partial s : guarantee wakes id s (applyStreamingPartial id partial s).
Proof.
  unfold applyStreamingPartial. destruct (partialCaptureToRaw partial); [by apply guarantee_patch|done].
Qed.

Lemma patch_ok_keeps wakes f :
  (∀ t, task_id (f t) = task_id t) → (∀ t, task_status (f t) = task_status t) → patch_ok wakes f.
Proof. intros Hi Hs t. unfold is_queued, awake. by rewrite Hi, Hs. Qed.

(** A status that is neither queued nor in progress. *)
Definition at_rest (status : string) : bool :=
  negb (includes ["queued"; "processing"; "awaiting_confirmation"] status).

Lemma patch_ok_status wakes f status :
  (∀ t, task_id (f t) = task_id t) → (∀ t, task_status (f t) = status) →
  (at_rest status || wakes) && negb (String.eqb status "queued") = true → patch_ok wakes f.
Proof.
  intros Hi Hs Hr t. unfold is_queued, awake. rewrite Hi, Hs.
  apply andb_true_iff in Hr as [Hr Hq]. apply negb_true_iff in Hq. rewrite Hq.
  split; [done|]. split; [done|]. intros ->. rewrite orb_false_r in Hr.
  apply negb_true_iff, includes_false in Hr. rewrite includes_spec. set_solver.
Qed.

#[export] Hint Resolve guarantee_patch guarantee_patch_and_emit guarantee_fail guarantee_require
  guarantee_canceled guarantee_partial guarantee_emit : workflow.

Ltac patch_tac :=
  first [ apply patch_ok_keeps; done
        | eapply patch_ok_status; [intros ?; reflexivity|intros ?; cbn; reflexivity|reflexivity] ].

(** Decompose a program; the remaining goals are its state changes. *)
Ltac within_tac :=
  repeat match goal with
  | |- within _ (_ ≫= _) => apply within_then
  | |- within _ (then_ _ _) => apply within_then
  | |- within _ (catchError _ _) => apply within_catch
  | |- within _ (until_abort _) => apply within_until_abort
  | |- within ?R ?p => lazymatch p with ask ?c => exact (within_ask R c) end
  | |- within _ (update _) => split; [|exact I]
  | |- within _ (listen _ _ _) => split; [|intros [?|?]; exact I]
  | |- within _ (Read _) => intros ?; cbv beta
  | |- within _ (Update _ _) => split
  | |- within _ (mret _) => exact I
  | |- within _ (Return _) => exact I
  | |- within _ Empty => exact I
  | |- within _ (Throw _) => exact I
  | |- within _ (if ?b then _ else _) => destruct b
  | |- within _ (match ?x with _ => _ end) => destruct x
  | |- within _ (let _ := _ in _) => cbv zeta
  | |- ∀ _, _ => intros ?; cbv beta
  end.

Ltac guarantee_tac :=
  try solve [ reflexivity | eauto with workflow
            | apply guarantee_patch; patch_tac | apply guarantee_patch_and_emit; patch_tac
            | apply guarantee_same_tasks; cbn; first [reflexivity|lia] ].

Section guarantees.
Variables (uuid : nat → string) (context : WorkflowContext).

Lemma within_or_snapshot wakes id c p :
within (guarantee wakes id) p → within (guarantee wakes id) (or_snapshot c p).
Proof. intros H. unfold or_snapshot. within_tac; done. Qed.

Lemma guarantee_confirmed wakes id op s : guarantee wakes id s (apply_confirmed id op s).
Proof. apply guarantee_patch. apply patch_ok_keeps; intros t; by destruct (op_progress op). Qed.

Lemma guarantee_on_task wakes id taskId f s :
(taskId = None ∨ taskId = Some id) → (∀ s, guarantee wakes id s (f id s)) → guarantee wakes id s (on_task taskId f s).
Proof. intros [->| ->] H; cbn; [done|apply H]. Qed.

Lemma within_waitForTerminal wakes id left op taskId stop :
(taskId = None ∨ taskId = Some id) → within (guarantee wakes id) (waitForTerminal left op taskId stop).
Proof.
intros Ht. revert op. induction left as [|left IH]; intros op; cbn [waitForTerminal];
unfold reloadStreamingSnapshot; within_tac; try apply IH.
all: try (destruct (isResyncRequiredEvent _); [done|]).
all: try (apply guarantee_on_task; [done|]; intros ?; first [apply guarantee_confirmed|apply guarantee_patch; patch_tac]).
all: destruct Ht as [Ht|Ht]; simplify_eq; apply guarantee_partial.
Qed.

Lemma within_cancelAndConfirm wakes id c : within (guarantee wakes id) (cancelAndConfirm c).
Proof.
unfold cancelAndConfirm. within_tac; [apply within_or_snapshot; within_tac|].
apply within_waitForTerminal. by left.
Qed.

Lemma within_report wakes id c m : within (guarantee wakes id) (reportHostFailureAndReconcile c m).
Proof.
unfold reportHostFailureAndReconcile. within_tac; [apply within_or_snapshot; within_tac|].
apply within_cancelAndConfirm.
Qed.

Lemma within_commit wakes id c d : within (guarantee wakes id) (commitHostResultAndReconcile uuid c d).
Proof.
unfold commitHostResultAndReconcile, randomUUID. within_tac; guarantee_tac.
all: first [apply within_report|apply within_or_snapshot; within_tac].
Qed.

Lemma within_tryGetRaw wakes id c : within (guarantee wakes id) (tryGetRaw c).
Proof. unfold tryGetRaw. within_tac. Qed.

(** The reconciliation of a task never puts it in progress. *)
Lemma guarantee_settle_completed wakes task outcome s :
guarantee wakes (task_id task) s (settle_completed task outcome s).
Proof.
unfold settle_completed.
match goal with |- context [updateTask ?id ?f s] =>
assert (guarantee wakes id s (updateTask id f s).1) by (apply guarantee_updateTask; patch_tac);
destruct (updateTask id f s) as [s' [t|]] end; [by apply guarantee_emit|done].
Qed.

Lemma within_settleOrRequire wakes task op :
within (guarantee wakes (task_id task)) (settleOrRequire task op).
Proof.
unfold settleOrRequire, settleConfirmedOperation, require_again. within_tac; guarantee_tac.
all: first [apply within_tryGetRaw|apply guarantee_settle_completed].
Qed.

Lemma within_reconcile_body wakes task c : within (guarantee wakes (task_id task)) (reconcile_body task c).
Proof.
unfold reconcile_body, confirmOperation, require_again. within_tac; guarantee_tac.
- apply within_waitForTerminal. by right.
- apply within_settleOrRequire.
Qed.

Lemma within_cancel_body wakes task c : within (guarantee wakes (task_id task)) (cancel_body task c).
Proof.
unfold cancel_body, require_again. within_tac; guarantee_tac.
- apply within_cancelAndConfirm.
- apply within_settleOrRequire.
Qed.

(** ** The run of a task *)

Lemma guarantee_apply id op s : guarantee true id s (applyStreamingOperation id op s).
Proof. apply guarantee_patch. patch_tac. Qed.

Lemma within_wait id left op stop : within (guarantee true id) (waitForStreamingOperation left op stop id).
Proof.
revert op. induction left as [|left IH]; intros op; cbn [waitForStreamingOperation];
unfold reloadSnapshot; within_tac; guarantee_tac; try apply IH.
all: try (destruct (isResyncRequiredEvent _); [done|apply guarantee_patch; patch_tac]).
all: apply guarantee_apply.
Qed.

Lemma within_awaitReview id raw p : within (guarantee true id) (awaitReview context id raw p).
Proof. unfold awaitReview. within_tac; guarantee_tac. Qed.

Lemma within_or_reconciliation id raw p :
within (guarantee true id) p → within (guarantee true id) (or_reconciliation id raw p).
Proof. intros H. unfold or_reconciliation. within_tac; guarantee_tac. Qed.

Lemma within_host id op : within (guarantee true id) (processStreamingHostStructuring uuid context op id).
Proof.
unfold processStreamingHostStructuring, structure_or_report, structured_candidate. within_tac; guarantee_tac.
- apply within_wait.
- apply within_awaitReview.
- apply within_or_reconciliation, within_report.
- apply within_or_reconciliation, within_commit.
Qed.

Lemma guarantee_settle_result id outcome s : guarantee true id s (settle_result id outcome s).
Proof.
unfold settle_result.
match goal with |- context [updateTask ?id ?f s] =>
assert (guarantee true id s (updateTask id f s).1) by (apply guarantee_updateTask; patch_tac);
destruct (updateTask id f s) as [s' [t|]] end; [by apply guarantee_emit|done].
Qed.

Lemma within_task_run id : within (guarantee true id) (task_run uuid context id).
Proof.
unfold task_run, processTask, handleProcessError, processStreamingTask, start_capture, check_aborted, settleStreaming.
within_tac; guarantee_tac.
all: first [apply within_tryGetRaw|apply within_host|apply within_wait|apply guarantee_settle_result
         |apply guarantee_apply].
Qed.

(** ** How a run ends *)

(** The task is not in progress. *)
Definition settled_at (id : string) (s : workflow) : Prop :=
∀ t, find_task id s = Some t → awake t = false.

(** [p] may end without a value only with the task settled. *)
Definition settles {A} (id : string) (p : observable A) : Prop :=
∀ (Q : ending A → workflow → Prop) s,
(∀ a s', Q (Value a) s') → (∀ e s', Q (Failed e) s') → (∀ s', settled_at id s' → Q Completed s') → wp Q p s.

(** Unless [p] fails, it ends with the task settled. *)
Definition finishes (id : string) (p : observable unit) : Prop :=
∀ s, wp (λ e s', match e with Failed _ => True | _ => settled_at id s' end) p s.

Lemma settles_never {A} id (p : observable A) : never_empty p → settles id p.
Proof. intros H Q s HV HF _. by apply H. Qed.

Lemma settles_then {A B} id (f : A → observable B) p :
settles id p → (∀ a, settles id (f a)) → settles id (then_ f p).
Proof. intros Hp Hf Q s HV HF HC. apply wp_then, Hp; [|done..]. intros a s'. by apply Hf. Qed.

Lemma settles_catch {A} id (h : caught → observable A) p :
settles id p → (∀ e, settles id (h e)) → settles id (catchError h p).
Proof. intros Hp Hh Q s HV HF HC. apply wp_catch, Hp; [done| |done]. intros e s'. by apply Hh. Qed.

Lemma finishes_then {A} id (f : A → observable unit) p :
settles id p → (∀ a, finishes id (f a)) → finishes id (then_ f p).
Proof. intros Hp Hf s. apply wp_then, Hp; [|done|done]. intros a s'. apply Hf. Qed.

Lemma finishes_catch id (h : caught → observable unit) p :
finishes id p → (∀ e, finishes id (h e)) → finishes id (catchError h p).
Proof.
intros Hp Hh s. apply wp_catch. eapply wp_mono; [|apply Hp]. intros [a| |e] s' H; cbn in *; [done..|]. apply Hh.
Qed.

Lemma finishes_update id f : (∀ s, settled_at id (f s)) → finishes id (update f).
Proof. intros H s. apply H. Qed.

Lemma find_task_Some id s t : find_task id s = Some t → t ∈ tasks s ∧ task_id t = id.
Proof.
unfold find_task. intros [Hin Hid]%find_some. apply String.eqb_eq in Hid. by rewrite list_elem_of_In.
Qed.

Lemma settled_updateTask id f s : (∀ t, awake (f t) = false) → settled_at id (updateTask id f s).1.
Proof.
intros Hf t [Hin Hid]%find_task_Some. destruct (updateTask_tasks id f s) as (Ht & _). rewrite Ht in Hin.
apply list_elem_of_fmap in Hin as (u & -> & _). destruct (String.eqb_spec (task_id u) id); [apply Hf|done].
Qed.

Lemma settled_fail id name error raw stage s : settled_at id (failTask id name error raw stage s).
Proof.
unfold failTask.
match goal with |- context [updateTask id ?f s] =>
assert (settled_at id (updateTask id f s).1) as H by (apply settled_updateTask; by destruct stage);
destruct (updateTask id f s) as [s' t] end. exact H.
Qed.

Lemma settled_require id error raw s : settled_at id (requireReconciliation id error raw s).
Proof. by apply settled_updateTask. Qed.

Lemma settled_canceled id s : settled_at id (mark_canceled id s).
Proof.
unfold mark_canceled, patch_and_emit.
match goal with |- context [updateTask id ?f s] =>
assert (settled_at id (updateTask id f s).1) as H by (by apply settled_updateTask);
destruct (updateTask id f s) as [s' [t|]] end; exact H.
Qed.

Lemma settled_result id outcome s : settled_at id (settle_result id outcome s).
Proof.
unfold settle_result.
match goal with |- context [updateTask id ?f s] =>
assert (settled_at id (updateTask id f s).1) as H by (by apply settled_updateTask);
destruct (updateTask id f s) as [s' [t|]] end; exact H.
Qed.

(** Programs that never end without a value. *)
Ltac never_tac :=
repeat match goal with
| |- never_empty (_ ≫= _) => apply never_empty_then
| |- never_empty (then_ _ _) => apply never_empty_then
| |- never_empty (catchError _ _) => apply never_empty_catch
| |- never_empty (until_abort _) => apply never_empty_until_abort
| |- never_empty ?p => lazymatch p with ask ?c => exact (never_empty_ask c) end
| |- never_empty (update _) => intros ? ? HV _; apply HV
| |- never_empty (listen _ _ _) => intros ? ? HV HF [?|?] ?; [apply HV|apply HF]
| |- never_empty (Return _) => apply never_empty_return
| |- never_empty (mret _) => apply never_empty_return
| |- never_empty (Throw _) => apply never_empty_throw
| |- never_empty (if ?b then _ else _) => destruct b
| |- never_empty (match ?x with _ => _ end) => destruct x
| |- ∀ _, _ => intros ?; cbv beta zeta
end.

Lemma never_or_snapshot c p : never_empty p → never_empty (or_snapshot c p).
Proof. intros H. unfold or_snapshot. by never_tac. Qed.

Lemma never_waitForTerminal left op taskId stop : never_empty (waitForTerminal left op taskId stop).
Proof.
revert op. induction left as [|left IH]; intros op; cbn [waitForTerminal]; unfold reloadStreamingSnapshot;
never_tac; apply IH.
Qed.

Lemma never_report c m : never_empty (reportHostFailureAndReconcile c m).
Proof.
unfold reportHostFailureAndReconcile, cancelAndConfirm. never_tac.
all: first [apply never_or_snapshot; never_tac|apply never_waitForTerminal].
Qed.

Lemma never_commit c d : never_empty (commitHostResultAndReconcile uuid c d).
Proof.
unfold commitHostResultAndReconcile, randomUUID. never_tac.
- intros Q s HV _. apply HV.
- apply never_or_snapshot. never_tac.
- apply never_or_snapshot. never_tac.
- apply never_report.
Qed.

Lemma never_wait left op stop id : never_empty (waitForStreamingOperation left op stop id).
Proof.
revert op. induction left as [|left IH]; intros op; cbn [waitForStreamingOperation]; unfold reloadSnapshot;
never_tac; apply IH.
Qed.

Lemma never_awaitReview id raw p : never_empty (awaitReview context id raw p).
Proof. unfold awaitReview. never_tac. Qed.

Lemma never_tryGetRaw c : never_empty (tryGetRaw c).
Proof. unfold tryGetRaw. never_tac. Qed.

Lemma never_check_aborted id : never_empty (check_aborted id).
Proof.
intros Q s HV HF. unfold check_aborted. cbn. destruct (bool_decide _); [apply HF|apply HV].
Qed.

Lemma never_start id request : never_empty (start_capture id request).
Proof. unfold start_capture. never_tac. apply never_check_aborted. Qed.

Lemma settles_or_reconciliation id raw p : never_empty p → settles id (or_reconciliation id raw p).
Proof.
intros Hp. unfold or_reconciliation. apply settles_catch; [by apply settles_never|]. intros e.
destruct (isAbortError e); [apply settles_never; never_tac|].
intros Q s _ _ HC. cbn. apply HC, settled_require.
Qed.

Lemma settles_host id op : settles id (processStreamingHostStructuring uuid context op id).
Proof.
unfold processStreamingHostStructuring.
apply settles_then; [apply settles_never, never_wait|]. intros op'.
destruct (negb _); [apply settles_never; never_tac|].
apply settles_then; [apply settles_never; never_tac|]. intros raw.
apply settles_then; [apply settles_never, never_awaitReview|]. intros review.
apply settles_then.
- unfold structure_or_report, structured_candidate. apply settles_catch; [apply settles_never; never_tac|].
intros e. destruct (isAbortError e); [apply settles_never; never_tac|].
apply settles_then; [apply settles_or_reconciliation, never_report|]. intros ?. apply settles_never. never_tac.
- intros [candidate|op'']; [|apply settles_never; never_tac].
apply settles_or_reconciliation, never_commit.
Qed.

Lemma finishes_settle task op id : finishes id (settleStreaming task op id).
Proof.
unfold settleStreaming.
destruct (String.eqb _ _); [apply finishes_update, settled_canceled|].
destruct (String.eqb _ _).
{ apply finishes_then; [apply settles_never, never_tryGetRaw|]. intros ?. apply finishes_update. intros ?.
apply settled_fail. }
destruct (negb _); [by intros s|].
apply finishes_then; [apply settles_never; never_tac|]. intros outcome.
apply finishes_update. intros ?. apply settled_result.
Qed.

Lemma finishes_error task id e : finishes id (handleProcessError task id e).
Proof.
intros s. unfold handleProcessError. cbn [wp]. destruct (isAbortError e || _) eqn:Ha.
- destruct (bool_decide (_ = Some "canceled")) eqn:Hc; [|apply settled_canceled].
apply bool_decide_eq_true in Hc. cbn. intros t Ht. rewrite Ht in Hc. cbn in Hc. injection Hc as Hc.
unfold awake. by rewrite Hc.
- revert s Ha. intros s _. revert s.
enough (H : ∀ s', finishes id (raw ← match captureIds s' !! id with
  | Some captureId => if String.eqb captureId "" then Return None else tryGetRaw captureId
  | None => Return None end;
  update (failTask id (task_fileName task) (failureFrom e (Some "runtime") "Capture failed.") raw None)))
  by (intros s; apply H).
intros s'. apply finishes_then.
+ apply settles_never. destruct (_ !! id); [destruct (String.eqb _ _)|]; never_tac. apply never_tryGetRaw.
+ intros raw. apply finishes_update. intros ?. apply settled_fail.
Qed.

Lemma finishes_streaming internal task id : finishes id (processStreamingTask uuid context internal task id).
Proof.
unfold processStreamingTask.
apply finishes_then; [apply settles_never; never_tac|]. intros file.
apply finishes_then; [apply settles_never, never_check_aborted|]. intros _.
apply finishes_then; [apply settles_never; never_tac|]. intros _.
apply finishes_then; [apply settles_never, never_start|]. intros started.
apply finishes_then; [apply settles_never; never_tac|]. intros _.
apply finishes_then; [apply settles_never; never_tac|]. intros _.
apply finishes_then.
{ destruct (component_owns context); [|apply settles_never; never_tac].
destruct (negb _); [apply settles_never; never_tac|apply settles_host]. }
intros op. apply finishes_then; [apply settles_never, never_wait|]. intros final. apply finishes_settle.
Qed.

Lemma finishes_processTask id : finishes id (processTask uuid context id).
Proof.
intros s. unfold processTask. cbn [wp].
destruct (internalTasks s !! id) as [internal|]; [|apply settled_fail].
destruct (find_task id s) as [task|]; [|apply settled_fail].
destruct (active_client context); [apply settled_fail|..].
all: destruct (reviewBeforeCommit context && _); [apply settled_fail|].
all: destruct (component_owns context && _); [apply settled_fail|].
all: destruct (bool_decide _); [apply settled_fail|].
all: apply finishes_catch; [apply finishes_streaming|apply finishes_error].
Qed.

(** Whatever happens, a run ends with its task settled, and never with an error. *)
Definition good_run (id : string) (p : observable unit) : Prop :=
within (guarantee true id) p ∧
∀ s, wp (λ e s', match e with Failed _ => False | _ => settled_at id s' end) p s.

Lemma good_task_run id : good_run id (task_run uuid context id).
Proof.
split; [apply within_task_run|]. intros s. unfold task_run. apply wp_catch.
eapply wp_mono; [|apply finishes_processTask]. intros [a| |e] s'; [done|done|]. intros _. cbn [wp].
destruct (find_task id s') as [task|] eqn:Hf.
- apply (settled_fail id (task_fileName task) _ None None s').
- intros t Ht. congruence.
Qed.

(** ** The invariant *)

Hypothesis uuid_inj : Inj (=) (=) uuid.

(** An identifier that was drawn. *)
Definition drawn (s : workflow) (id : string) : Prop := ∃ n, (n < uuids s)%nat ∧ id = uuid n.

(** [exempt]: tasks in progress whose run has just been taken away. *)
Record core (exempt : string → Prop) (sys : system) : Prop := {
core_ids : NoDup (map task_id (tasks (state sys)));
core_drawn : Forall (drawn (state sys)) (map task_id (tasks (state sys)));
core_running_drawn : ∀ id p, running sys !! id = Some p → drawn (state sys) id;
core_count : runningTasks (state sys) = Z.of_nat (size (running sys));
core_good : ∀ id p, running sys !! id = Some p → good_run id p;
core_queued : ∀ t, t ∈ tasks (state sys) → is_queued t = true → running sys !! task_id t = None;
core_awake : ∀ t, t ∈ tasks (state sys) → awake t = true → ¬ exempt (task_id t) →
is_Some (running sys !! task_id t);
core_reconciling : ∀ id p, reconciling sys !! id = Some p → within (guarantee false id) p;
core_removing : Forall (λ entry, ∃ captureId, entry.2 = removal entry.1 captureId) (removing sys)
}.

Lemma Forall2_elem_r {A} (R : A → A → Prop) l k y : Forall2 R l k → y ∈ k → ∃ x, x ∈ l ∧ R x y.
Proof.
intros H [i Hi]%list_elem_of_lookup. destruct (Forall2_lookup_r _ _ _ _ _ H Hi) as (x & Hx & HR).
exists x. split; [by eapply list_elem_of_lookup_2|done].
Qed.

Lemma guarantee_ids wakes id s s' : guarantee wakes id s s' → map task_id (tasks s') = map task_id (tasks s).
Proof.
intros (H & _). induction H as [|t t' l l' (Hi & _) _ IH]; [done|]. cbn. congruence.
Qed.

(** A step of task [id] keeps the invariant, when its run is still there. *)
Lemma core_guarantee exempt wakes id sys s' :
core exempt sys → guarantee wakes id (state sys) s' →
(wakes = true → is_Some (running sys !! id) ∨ exempt id) →
core exempt (with_state (λ _, s') sys).
Proof.
intros H Hg Hw. pose proof (guarantee_ids _ _ _ _ Hg) as Hids. destruct H as [H1 H2 H3 H4 H5 H6 H7 H8 H9].
destruct Hg as (Ht & Hr & Hu).
split; cbn; rewrite ?Hids, ?Hr; [done| | |done|done| | |done|done].
- eapply Forall_impl; [done|]. intros i (n & Hn & ->). exists n. split; [lia|done].
- intros i p Hp. destruct (H3 i p Hp) as (n & Hn & ->). exists n. split; [lia|done].
- intros t' Hin Hq. destruct (Forall2_elem_r _ _ _ _ Ht Hin) as (t & Hint & Hi & _ & Hqq & _).
rewrite Hi. auto.
- intros t' Hin Ha Hex. destruct (Forall2_elem_r _ _ _ _ Ht Hin) as (t & Hint & Hi & Hne & _ & Haw).
rewrite Hi in *. destruct (decide (task_id t = id)) as [E|E]; [|rewrite Hne in Ha; auto].
destruct wakes; [|auto]. rewrite E in *. destruct (Hw eq_refl); [done|by destruct Hex].
Qed.

(** Another good run in the place of one that is there. *)
Lemma core_replace exempt id p sys :
core exempt sys → is_Some (running sys !! id) → good_run id p →
core exempt (with_running (<[id := p]>) sys).
Proof.
intros [H1 H2 H3 H4 H5 H6 H7 H8 H9] Hid Hg. split; cbn; [done|done| | | | | |done|done].
- intros i q Hq. destruct Hid as [p0 Hp0]. destruct (decide (i = id)) as [->|]; [by eapply H3|].
rewrite lookup_insert_ne in Hq by done. by eapply H3.
- rewrite map_size_insert_Some by done. done.
- intros i q Hq. destruct (decide (i = id)) as [->|].
+ rewrite lookup_insert_eq in Hq. by simplify_eq.
+ rewrite lookup_insert_ne in Hq by done. by eapply H5.
- intros t Hin Hq. rewrite lookup_insert_None. split; [auto|]. intros E.
specialize (H6 t Hin Hq). rewrite <-E in H6. rewrite H6 in Hid. by destruct Hid.
- intros t Hin Ha Hex. rewrite lookup_insert_is_Some'. auto.
Qed.

Lemma finish_fields id sys :
tasks (state (finish id sys)) = tasks (state sys) ∧
runningTasks (state (finish id sys)) = runningTasks (state sys) - 1 ∧
uuids (state (finish id sys)) = uuids (state sys).
Proof.
unfold finish, keepSpeakerSource. cbn. destruct (internalTasks (state sys) !! id); [|done].
by destruct (task_speakers _ _).
Qed.

Lemma finish_settled id sys i : settled_at i (state sys) → settled_at i (state (finish id sys)).
Proof. unfold settled_at, find_task. by destruct (finish_fields id sys) as (-> & _). Qed.

(** A run ends: its task is exempt until it is seen to be settled. *)
Lemma core_finish exempt id sys :
core exempt sys → is_Some (running sys !! id) → core (λ i, exempt i ∨ i = id) (finish id sys).
Proof.
intros [H1 H2 H3 H4 H5 H6 H7 H8 H9] Hid.
destruct (finish_fields id sys) as (Ht & Hr & Hu). unfold drawn in *.
split; rewrite ?Ht, ?Hr; cbn [running reconciling removing finish with_running with_state];
[done|by unfold drawn; rewrite Hu| | | | | |done|done].
- intros i q [_ Hq]%lookup_delete_Some. unfold drawn. rewrite Hu. by eapply H3.
- rewrite map_size_delete, H4. destruct Hid as [p Hp]. rewrite Hp.
assert (size (running sys) ≠ 0)%nat; [|cbn; lia]. intros E%map_size_empty_inv. by rewrite E, lookup_empty in Hp.
- intros i q [_ Hq]%lookup_delete_Some. by eapply H5.
- intros t Hin Hq. rewrite lookup_delete_None. auto.
- intros t Hin Ha Hex. rewrite lookup_delete_is_Some. split; [naive_solver|]. apply H7; [done..|]. naive_solver.
Qed.

Lemma find_task_In id s t : NoDup (map task_id (tasks s)) → t ∈ tasks s → task_id t = id → find_task id s = Some t.
Proof.
unfold find_task. induction (tasks s) as [|u l IH]; cbn; [by intros _ ?%elem_of_nil|].
intros [Hu Hnd]%NoDup_cons Hin Hid. destruct (String.eqb_spec (task_id u) id) as [E|E].
- apply elem_of_cons in Hin as [->|Hin]; [done|]. destruct Hu. rewrite E, <-Hid.
by apply (list_elem_of_fmap_2 task_id).
- apply elem_of_cons in Hin as [->|Hin]; [done|]. auto.
Qed.

(** A settled task needs no exemption. *)
Lemma core_settled exempt id sys :
core (λ i, exempt i ∨ i = id) sys → settled_at id (state sys) → core exempt sys.
Proof.
intros [H1 H2 H3 H4 H5 H6 H7 H8 H9] Hs. split; try done.
intros t Hin Ha Hex. apply H7; [done..|]. intros [?|E]; [done|].
rewrite (Hs t) in Ha; [done|]. by apply find_task_In.
Qed.

(** ** The queue *)

Definition capacity (sys : system) : Prop := runningTasks (state sys) ≤ Z.max 0 (concurrency context).
Definition served (sys : system) : Prop :=
Exists (λ t, is_queued t = true) (tasks (state sys)) → concurrency context ≤ runningTasks (state sys).
Definition waiting (sys : system) : Prop := ∀ id p, running sys !! id = Some p → is_Some (waits_at p).

Lemma take_next_fields id s :
tasks (take_next id s) = map (λ t, if String.eqb (task_id t) id
then with_progress (num_of_Z 1) (with_stage (Some "uploading") (with_status "processing" t)) else t) (tasks s) ∧
runningTasks (take_next id s) = runningTasks s + 1 ∧ uuids (take_next id s) = uuids s.
Proof.
unfold take_next, patch_task.
match goal with |- context [updateTask id ?f ?s'] => destruct (updateTask_tasks id f s') as (Ht & Hr & Hu) end.
by rewrite Ht, Hr, Hu.
Qed.

Lemma next_queued_Some s t : next_queued s = Some t → t ∈ tasks s ∧ is_queued t = true.
Proof. unfold next_queued. intros [Hin Hq]%find_some. by rewrite list_elem_of_In. Qed.

(** Taking a task off the queue. *)
Lemma core_take exempt sys t :
core exempt sys → next_queued (state sys) = Some t →
core exempt (with_running (<[task_id t := task_run uuid context (task_id t)]>)
(with_state (take_next (task_id t)) sys)).
Proof.
intros [H1 H2 H3 H4 H5 H6 H7 H8 H9] [Hin Hq]%next_queued_Some.
destruct (take_next_fields (task_id t) (state sys)) as (Ht & Hr & Hu).
pose proof (H6 t Hin Hq) as Hnone.
assert (Hids : map task_id (tasks (take_next (task_id t) (state sys))) = map task_id (tasks (state sys))).
{ rewrite Ht, map_map. apply map_ext. intros u. by destruct (String.eqb _ _). }
unfold drawn in *.
split; cbn [state running reconciling removing with_running with_state]; unfold drawn; rewrite ?Hids, ?Hu, ?Hr;
[done..| | | | | |done|done].
- intros i p Hp. destruct (decide (i = task_id t)) as [->|].
+ rewrite Forall_forall in H2. apply H2. by apply (list_elem_of_fmap_2 task_id).
+ rewrite lookup_insert_ne in Hp by done. by eapply H3.
- rewrite map_size_insert_None by done. lia.
- intros i p Hp. destruct (decide (i = task_id t)) as [->|].
+ rewrite lookup_insert_eq in Hp. simplify_eq. apply good_task_run.
+ rewrite lookup_insert_ne in Hp by done. by eapply H5.
- rewrite Ht. intros u (v & -> & Hv)%list_elem_of_fmap Hqu.
destruct (String.eqb_spec (task_id v) (task_id t)) as [E|E]; [done|].
rewrite lookup_insert_ne by done. auto.
- rewrite Ht. intros u (v & -> & Hv)%list_elem_of_fmap Hau Hex.
destruct (String.eqb_spec (task_id v) (task_id t)) as [E|E].
+ cbn in *. rewrite E. by rewrite lookup_insert_eq.
+ rewrite lookup_insert_ne by done. auto.
Qed.

(** Steps of runs do not lengthen the queue. *)
Lemma queued_guarantee wakes id s s' : guarantee wakes id s s' → (queued s' ≤ queued s)%nat.
Proof.
intros (H & _). unfold queued. induction H as [|t t' l l' (_ & _ & Hq & _) _ IH]; cbn; [lia|].
unfold is_queued in Hq. destruct (String.eqb (task_status t') "queued"); [rewrite (Hq eq_refl); cbn; lia|].
destruct (String.eqb (task_status t) "queued"); cbn; lia.
Qed.

Lemma queued_take s t : next_queued s = Some t → (queued (take_next (task_id t) s) < queued s)%nat.
Proof.
unfold queued, next_queued. destruct (take_next_fields (task_id t) s) as (-> & _).
set (f := λ u : CaptureTaskView, if String.eqb (task_id u) (task_id t) then
with_progress (num_of_Z 1) (with_stage (Some "uploading") (with_status "processing" u)) else u).
assert (Hle : ∀ l, (length (List.filter (λ u, String.eqb (task_status u) "queued") (map f l)) ≤
                  length (List.filter (λ u, String.eqb (task_status u) "queued") l))%nat).
{ induction l as [|u l IH]; cbn; [lia|]. unfold f at 1. destruct (String.eqb (task_id u) (task_id t)); cbn.
- destruct (String.eqb (task_status u) "queued"); cbn; lia.
- destruct (String.eqb (task_status u) "queued"); cbn; lia. }
induction (tasks s) as [|u l IH]; cbn; [done|]. destruct (String.eqb (task_status u) "queued") eqn:E.
- intros [= ->]. unfold f at 1. rewrite String.eqb_refl. cbn. specialize (Hle l). lia.
- intros H. specialize (IH H). unfold f at 1. destruct (String.eqb (task_id u) (task_id t)); cbn; [|rewrite E]; lia.
Qed.

Lemma no_queued s : next_queued s = None → ¬ Exists (λ t, is_queued t = true) (tasks s).
Proof.
unfold next_queued. intros H%find_none_iff. rewrite Forall_forall in H.
intros (t & Hin & Hq)%Exists_exists. unfold is_queued in Hq. by rewrite (H t Hin) in Hq.
Qed.

(** The part of a run up to its first wait. *)
Lemma core_advance exempt id p sys :
core exempt sys → is_Some (running sys !! id) → good_run id p →
let after := advance p (state sys) in
core exempt (with_state (λ _, after.1) sys) ∧ guarantee true id (state sys) after.1 ∧
(if ended after.2 then settled_at id after.1 else good_run id after.2).
Proof.
intros H Hid [Hw Hwp] after.
destruct (within_advance (guarantee true id) p (state sys)) as [Hg Hw']; [by intros x| |done|].
{ intros x y z Hxy Hyz. by etrans. }
pose proof (wp_advance _ p (state sys) (Hwp (state sys))) as Hend. fold after in Hend, Hg, Hw'.
split; [|split; [done|]].
- eapply core_guarantee; [done|done|]. intros _. by left.
- destruct (advance_waits p (state sys)) as [He|Hwait].
+ unfold after in *. rewrite He. by destruct (advance p (state sys)).2.
+ unfold after in *. destruct (ended (advance p (state sys)).2) eqn:He; [by destruct (advance p (state sys)).2|].
  split; [done|]. intros s. by eapply wp_waiting.
Qed.

(** Subscribing to the run of the next task, up to its first wait or its end. *)
Lemma core_start exempt sys t :
core exempt sys → next_queued (state sys) = Some t →
let id := task_id t in
let after := advance (task_run uuid context id) (take_next id (state sys)) in
guarantee true id (take_next id (state sys)) after.1 ∧
(if ended after.2
then core exempt (finish id (with_state (λ _, after.1) sys))
else core exempt (with_running (<[id := after.2]>) (with_state (λ _, after.1) sys))).
Proof.
intros H Hn id after. pose proof (core_take exempt sys t H Hn) as H1. fold id in H1.
set (sys1 := with_running (<[id := task_run uuid context id]>) (with_state (take_next id) sys)) in *.
destruct (core_advance exempt id (task_run uuid context id) sys1) as (H2 & Hg & Hend).
{ done. } { cbn. by rewrite lookup_insert_eq. } { apply good_task_run. }
cbn [state sys1 with_running with_state] in Hg, Hend, H2. fold after in Hg, Hend, H2. clearbody after. split; [done|].
destruct (ended after.2) eqn:He.
- apply (core_finish _ id) in H2; [|by cbn; rewrite lookup_insert_eq].
apply core_settled in H2.
+ replace (finish id (with_state (λ _, after.1) sys)) with (finish id (with_state (λ _, after.1) sys1)); [done|].
  unfold finish, with_running, with_state. cbn. f_equal. destruct (next_queued_Some _ _ Hn) as [Hin Hq].
  by rewrite delete_insert_eq, delete_id by (by apply (core_queued _ _ H t)).
+ by apply finish_settled.
- apply (core_replace _ id after.2) in H2; [|by cbn; rewrite lookup_insert_eq|done].
replace (with_running (<[id := after.2]>) (with_state (λ _, after.1) sys))
  with (with_running (<[id := after.2]>) (with_state (λ _, after.1) sys1)); [done|].
unfold with_running, with_state. cbn. f_equal. apply insert_insert_eq.
Qed.

(** What [drainQueue] keeps. *)
Definition drained (exempt : string → Prop) (sys : system) : Prop :=
core exempt sys ∧ capacity sys ∧ waiting sys.

Lemma waiting_finish id sys : waiting sys → waiting (finish id sys).
Proof.
intros H i p Hp. change (delete id (running sys) !! i = Some p) in Hp.
apply lookup_delete_Some in Hp as [_ Hp]. by eapply H.
Qed.

Lemma waiting_insert id p sys : is_Some (waits_at p) → waiting sys → waiting (with_running (<[id := p]>) sys).
Proof.
intros Hp H i q Hq. change (<[id := p]> (running sys) !! i = Some q) in Hq.
apply lookup_insert_Some in Hq as [[<- <-]|[_ Hq]]; [done|]. by eapply H.
Qed.

Lemma core_observe exempt seen sys : core exempt sys → core exempt (observe seen sys).
Proof. by intros []. Qed.

Lemma queued_finish id sys : queued (state (finish id sys)) = queued (state sys).
Proof. unfold queued. by destruct (finish_fields id sys) as (-> & _). Qed.

Lemma drain_drained exempt n sys :
drained exempt sys →
drained exempt (drain uuid context n sys) ∧
(queued (state (drain uuid context n sys)) ≤ queued (state sys))%nat ∧
((queued (state sys) < n)%nat → served (drain uuid context n sys)).
Proof.
revert sys. induction n as [|n IH]; intros sys Hd; cbn [drain]; [split; [done|split; [done|lia]]|].
destruct Hd as (Hcore & Hcap & Hwait).
destruct (Z.ltb_spec (runningTasks (state sys)) (concurrency context)) as [Hlt|Hge].
2: { split; [done|]. split; [done|]. intros _ _. lia. }
destruct (next_queued (state sys)) as [t|] eqn:Hn.
2: { split; [done|]. split; [done|]. intros _ Hq. by destruct (no_queued _ Hn). }
pose proof (core_start exempt sys t Hcore Hn) as [Hg Hstart].
pose proof (queued_take _ _ Hn) as Hq1. pose proof (queued_guarantee _ _ _ _ Hg) as Hq2.
destruct (take_next_fields (task_id t) (state sys)) as (_ & Hr1 & _). destruct Hg as (_ & Hr2 & _).
pose proof (advance_waits (task_run uuid context (task_id t)) (take_next (task_id t) (state sys))) as Hwaits.
destruct (advance (task_run uuid context (task_id t)) (take_next (task_id t) (state sys))) as [s p].
cbn [fst snd] in *. destruct (ended p) eqn:Hp; [|destruct Hwaits as [Hwaits|Hwaits]; [done|]].
- destruct (finish_fields (task_id t) (with_state (λ _, s) sys)) as (_ & Hr3 & _). cbn [state with_state] in Hr3.
pose proof (queued_finish (task_id t) (with_state (λ _, s) sys)) as Hq3. cbn [state with_state] in Hq3.
set (done_ := finish (task_id t) (with_state (λ _, s) sys)) in *.
destruct (IH done_) as (Hd1 & Hle1 & _).
{ split; [done|]. split; [unfold capacity; lia|]. by apply waiting_finish. }
destruct (IH (drain uuid context n done_) Hd1) as (Hd2 & Hle2 & Hs2).
split; [done|]. split; [lia|]. intros Hlt'. apply Hs2. lia.
- set (started := observe (sent_by p) (with_running (<[task_id t := p]>) (with_state (λ _, s) sys))).
destruct (IH started) as (Hd1 & Hle1 & Hs1).
{ split; [by apply core_observe|]. split; [unfold capacity; cbn; lia|]. by apply waiting_insert. }
cbn [state started observe with_running with_state] in *. split; [done|]. split; [lia|].
intros Hlt'. apply Hs1. lia.
Qed.

(** Every command and every input leaves this. *)
Definition stable (sys : system) : Prop := drained (λ _, False) sys ∧ served sys.

Lemma drainQueue_stable sys : drained (λ _, False) sys → stable (drainQueue uuid context sys).
Proof.
intros H. unfold drainQueue. destruct (drain_drained _ (S (queued (state sys))) sys H) as (Hd & _ & Hs).
split; [done|]. apply Hs. lia.
Qed.

Lemma served_guarantee wakes id sys s' :
guarantee wakes id (state sys) s' → served sys → served (with_state (λ _, s') sys).
Proof.
unfold served. cbn. intros (Ht & -> & _) H (t' & Hin & Hq)%Exists_exists. apply H.
destruct (Forall2_elem_r _ _ _ _ Ht Hin) as (t & Hint & _ & _ & Hqq & _).
apply Exists_exists. eauto.
Qed.

(** A step on a task outside its run. *)
Lemma stable_guarantee id sys s' :
stable sys → guarantee false id (state sys) s' → stable (with_state (λ _, s') sys).
Proof.
intros ((Hc & Hcap & Hw) & Hs) Hg. split; [split; [|split; [|done]]|].
- by eapply core_guarantee.
- unfold capacity. cbn. by rewrite (proj1 (proj2 Hg)).
- by eapply served_guarantee.
Qed.

Lemma continue_task_stable exempt id p sys :
core exempt sys → capacity sys → waiting sys → served sys → (∀ i, exempt i → i = id) →
is_Some (running sys !! id) → good_run id p → stable (continue_task uuid context id p sys).
Proof.
intros Hc Hcap Hw Hs Hex Hid Hp. unfold continue_task.
pose proof (core_advance exempt id p sys Hc Hid Hp) as (Hc' & Hg & Hend).
pose proof (advance_waits p (state sys)) as Hwaits.
destruct (advance p (state sys)) as [s p']. cbn [fst snd] in *.
destruct (ended p') eqn:He; [|destruct Hwaits as [Hwaits|Hwaits]; [done|]].
- apply drainQueue_stable. split; [|split; [|by apply waiting_finish]].
+ apply (core_settled _ id); [|by apply finish_settled].
  apply (core_finish _ id) in Hc'; [|done]. destruct Hc'. split; try done.
  intros t Hin Ha Hne. apply core_awake0; [done..|]. naive_solver.
+ unfold capacity. destruct (finish_fields id (with_state (λ _, s) sys)) as (_ & -> & _). cbn.
  rewrite (proj1 (proj2 Hg)). unfold capacity in Hcap. lia.
- apply (core_replace _ id p') in Hc'; [|done..]. split.
+ split; [|split; [|by apply waiting_insert]].
  * apply core_observe. destruct Hc'. split; try done.
    intros t Hin Ha _. destruct (decide (task_id t = id)) as [->|Hne].
    { cbn. by rewrite lookup_insert_eq. }
    apply core_awake0; [done..|]. intros Hx%Hex. done.
  * unfold capacity. cbn. by rewrite (proj1 (proj2 Hg)).
+ unfold served. cbn. by apply (served_guarantee _ _ _ _ Hg).
Qed.

(** ** Inputs *)

Lemma deliver_within (R : workflow → workflow → Prop) p input s p' s' seen :
(∀ x, R x x) → within R p → deliver p input s = Some (p', s', seen) → R s s' ∧ within R p'.
Proof.
intros HR Hp Hd. destruct p as [a| |e|k|f p|call ab k|call ab l on stop k], input as [answer|event|[e'|]]; try done.
- cbn in Hp. destruct call; cbn in Hd; simplify_eq; eauto.
- cbn in Hp, Hd. destruct Hp as [Hon Hk]. destruct (stop event); simplify_eq; split; auto. by split.
- cbn in Hp, Hd. destruct Hp as [Hon Hk]. simplify_eq. auto.
- cbn in Hp, Hd. destruct Hp as [Hon Hk]. simplify_eq. auto.
Qed.

Lemma deliver_wp (Q : ending unit → workflow → Prop) p input s p' s' seen :
(∀ x, wp Q p x) → deliver p input s = Some (p', s', seen) → ∀ x, wp Q p' x.
Proof.
intros Hp Hd. destruct p as [a| |e|k|f p|call ab k|call ab l on stop k], input as [answer|event|[e'|]]; try done.
- destruct call; cbn in Hd; simplify_eq; intros x; by apply Hp.
- cbn in Hd. intros x. specialize (Hp x). cbn in Hp. destruct (stop event); simplify_eq; cbn; auto.
- cbn in Hd. simplify_eq. intros x. by apply Hp.
- cbn in Hd. simplify_eq. intros x. by apply Hp.
Qed.

Lemma deliver_good id p input s p' s' seen :
good_run id p → deliver p input s = Some (p', s', seen) → guarantee true id s s' ∧ good_run id p'.
Proof.
intros [Hw Hwp] Hd. destruct (deliver_within _ _ _ _ _ _ _ (reflexivity (R := guarantee true id)) Hw Hd) as [Hg Hw'].
split; [done|]. split; [done|]. by eapply deliver_wp.
Qed.

Lemma after_review_good id p review p' : good_run id p → after_review p review = Some p' → good_run id p'.
Proof.
intros [Hw Hwp] H. destruct p as [a| |e|k|f p|call ab k|call ab l on stop k]; try done.
destruct call; cbn in H; try done. simplify_eq. split; [apply Hw|]. intros s. by apply Hwp.
Qed.

Lemma task_input_stable id input sys : stable sys → stable (task_input uuid context id input sys).
Proof.
intros Hst. pose proof Hst as ((Hc & Hcap & Hw) & Hs). unfold task_input.
destruct (running sys !! id) as [p|] eqn:Hp; [|done]. cbn.
destruct (deliver p input (state sys)) as [[[p' s'] seen]|] eqn:Hd; [|done].
destruct (deliver_good _ _ _ _ _ _ _ (core_good _ _ Hc id p Hp) Hd) as [Hg Hgood].
apply (continue_task_stable (λ _, False)); [| |done| |done|by eexists|done].
- apply core_observe. eapply core_guarantee; [done|done|]. intros _. left. by eexists.
- unfold capacity. cbn. by rewrite (proj1 (proj2 Hg)).
- unfold served. cbn. by apply (served_guarantee _ _ _ _ Hg).
Qed.

(** ** Reconciliations *)

Lemma continue_reconciliation_stable id p sys :
stable sys → within (guarantee false id) p → stable (continue_reconciliation id p sys).
Proof.
intros Hst Hp. unfold continue_reconciliation.
destruct (within_advance (guarantee false id) p (state sys)) as [Hg Hw']; [by intros x| |done|].
{ intros x y z Hxy Hyz. by etrans. }
destruct (advance p (state sys)) as [s p']. cbn [fst snd] in *.
apply (stable_guarantee id _ s Hst) in Hg as [(Hc & Hcap & Hw) Hs].
assert (Hrec : ∀ f : gmap string (observable unit) → gmap string (observable unit),
(∀ i q, f (reconciling sys) !! i = Some q → within (guarantee false i) q) →
stable (with_reconciling f (with_state (λ _, s) sys))).
{ intros f Hf. split; [|done]. split; [|done]. destruct Hc. by split. }
destruct (ended p').
- apply Hrec. intros i q [_ Hq]%lookup_delete_Some. by apply (core_reconciling _ _ Hc).
- destruct (Hrec (<[id := p']>)) as [(Hc' & ? & ?) Hs'].
{ intros i q [[<- <-]|[_ Hq]]%lookup_insert_Some; [done|]. by apply (core_reconciling _ _ Hc). }
split; [|done]. split; [by apply core_observe|done].
Qed.

Lemma reconciliation_start_stable body task sys :
(∀ c, within (guarantee false (task_id task)) (body task c)) →
stable sys → stable (reconciliation_start context body task sys).
Proof.
intros Hb Hst. unfold reconciliation_start. destruct (task_captureId task); [|done].
destruct (active_client context); [done..|]. destruct (_ || _); [done|].
by apply continue_reconciliation_stable.
Qed.

Lemma reconciliation_input_stable id input sys : stable sys → stable (reconciliation_input id input sys).
Proof.
intros Hst. unfold reconciliation_input. pose proof Hst as ((Hc & _ & _) & _).
destruct (reconciling sys !! id) as [p|] eqn:Hp; [|done]. cbn.
destruct (deliver p input (state sys)) as [[[p' s'] seen]|] eqn:Hd; [|done].
destruct (deliver_within _ _ _ _ _ _ _ (reflexivity (R := guarantee false id)) (core_reconciling _ _ Hc id p Hp) Hd)
as [Hg Hw']. apply continue_reconciliation_stable; [|done].
apply (stable_guarantee id _ s' Hst) in Hg as [(Hc' & ? & ?) ?]. split; [|done]. split; [by apply core_observe|done].
Qed.

(** ** Commands *)

Lemma core_add exempt sys s' t :
core exempt sys → tasks s' = tasks (state sys) ++ [t] → runningTasks s' = runningTasks (state sys) →
task_id t = uuid (uuids (state sys)) → (uuids (state sys) < uuids s')%nat → awake t = false →
core exempt (with_state (λ _, s') sys).
Proof.
intros [H1 H2 H3 H4 H5 H6 H7 H8 H9] Ht Hr Hid Hu Hawake.
assert (Hfresh : ¬ drawn (state sys) (task_id t)).
{ intros (n & Hn & E). rewrite Hid in E. apply uuid_inj in E. lia. }
assert (Hgrow : ∀ i, drawn (state sys) i → drawn s' i).
{ intros i (n & Hn & ->). exists n. split; [lia|done]. }
split; cbn [state running reconciling removing with_state]; rewrite ?Ht, ?map_app, ?Hr; cbn [map];
[| | |done|done| | |done|done].
- apply NoDup_app. split; [done|]. split; [|apply NoDup_singleton].
intros i Hi Ht'%list_elem_of_singleton. subst i. rewrite Forall_forall in H2. by apply Hfresh, H2.
- apply Forall_app. split; [by eapply Forall_impl|]. constructor; [|done]. exists (uuids (state sys)). split; [lia|done].
- intros i p Hp. by eapply Hgrow, H3.
- intros u [Hu'|Hu'%list_elem_of_singleton]%elem_of_app Hq; [auto|]. subst u.
destruct (running sys !! task_id t) eqn:E; [|done]. destruct Hfresh. by eapply H3.
- intros u [Hu'|Hu'%list_elem_of_singleton]%elem_of_app Ha Hex; [auto|congruence].
Qed.

Lemma core_enqueue exempt sys file :
core exempt sys → core exempt (with_state (λ s, enqueue uuid context s file) sys).
Proof.
intros H.
assert (Hrej : ∀ kind, core exempt (with_state (λ s, addRejectedTask uuid file kind s) sys)).
{ intros kind. eapply (core_add _ _ (addRejectedTask uuid file kind (state sys))); [done|reflexivity..|cbn; lia|done]. }
change (core exempt (with_state (λ _, enqueue uuid context (state sys) file) sys)). unfold enqueue.
destruct (classifyCaptureFile (File_name file)) as [|kind|name]; [apply Hrej| |apply Hrej].
destruct (bool_decide _); [|apply Hrej].
eapply (core_add _ _ (add_queued_task uuid file (Kind kind) (state sys))); [done|reflexivity..|cbn; lia|done].
Qed.

Lemma enqueue_running s file : runningTasks (enqueue uuid context s file) = runningTasks s.
Proof.
unfold enqueue. destruct (classifyCaptureFile (File_name file)); [done| |done]. by destruct (bool_decide _).
Qed.

Lemma enqueueFiles_stable files sys : stable sys → stable (enqueueFiles uuid context files sys).
Proof.
intros ((Hc & Hcap & Hw) & _). unfold enqueueFiles. apply drainQueue_stable.
generalize (if multiple context then files else take 1 files). intros l. clear files.
revert sys Hc Hcap Hw. induction l as [|file l IH]; intros sys Hc Hcap Hw.
- cbn. split; [by destruct Hc; split|done].
- apply (IH (with_state (λ s, enqueue uuid context s file) sys)); [by apply core_enqueue| |done].
unfold capacity. cbn. by rewrite enqueue_running.
Qed.

(** The task [id] may have lost its run. *)
Definition loose (id : string) (sys : system) : Prop := drained (λ i, i = id) sys ∧ served sys.

Lemma core_weaken (ex ex' : string → Prop) sys : (∀ i, ex i → ex' i) → core ex sys → core ex' sys.
Proof. intros H []. split; try done. eauto. Qed.

Lemma finish_loose id sys :
drained (λ i, i = id) sys → is_Some (running sys !! id) → loose id (drainQueue uuid context (finish id sys)).
Proof.
intros (Hc & Hcap & Hw) Hid. unfold drainQueue.
destruct (drain_drained (λ i, i = id) (S (queued (state (finish id sys)))) (finish id sys)) as (Hd & _ & Hs).
- split; [|split; [|by apply waiting_finish]].
+ apply (core_finish _ id) in Hc; [|done]. eapply core_weaken; [|done]. naive_solver.
+ unfold capacity in *. destruct (finish_fields id sys) as (_ & -> & _). lia.
- split; [done|]. apply Hs. lia.
Qed.

Lemma loose_state id sys s' :
tasks s' = tasks (state sys) → runningTasks s' = runningTasks (state sys) → uuids s' = uuids (state sys) →
loose id sys → loose id (with_state (λ _, s') sys).
Proof.
intros Ht Hr Hu ((Hc & Hcap & Hw) & Hs). split; [split; [|split; [|done]]|].
- eapply (core_guarantee _ false id); [done| |done]. apply guarantee_same_tasks; [done..|lia].
- unfold capacity. cbn. by rewrite Hr.
- unfold served. cbn. by rewrite Ht, Hr.
Qed.

Lemma abort_loose id sys : loose id sys → loose id (abort_task uuid context id sys).
Proof.
intros H. unfold abort_task.
apply (loose_state id sys (set_aborted (λ ids, {[id]} ∪ ids) (state sys))) in H; [|done..].
change (with_state (λ _, set_aborted (λ ids, {[id]} ∪ ids) (state sys)) sys)
with (with_state (set_aborted (λ ids, {[id]} ∪ ids)) sys) in H.
set (sys' := with_state (set_aborted (λ ids, {[id]} ∪ ids)) sys) in *.
destruct (running sys' !! id) as [p|] eqn:Hp; [|done]. destruct (ended _); [|done].
apply finish_loose; [apply H|by eexists].
Qed.

Lemma complete_loose id sys : loose id sys → loose id (complete_review uuid context id sys).
Proof.
intros H. unfold complete_review. destruct (running sys !! id) as [p|] eqn:Hp; [|done].
destruct (_ && _); [|done]. apply finish_loose; [|by eexists].
apply (loose_state id sys (set_reviewSubjects (λ ids, ids ∖ {[id]}) (state sys))); [done..|exact H].
Qed.

Lemma canceled_stable id sys : loose id sys → stable (with_state (mark_canceled id) sys).
Proof.
intros ((Hc & Hcap & Hw) & Hs). pose proof (guarantee_canceled false id (state sys)) as Hg.
change (with_state (mark_canceled id) sys) with (with_state (λ _, mark_canceled id (state sys)) sys).
split; [split; [|split; [|done]]|].
- apply (core_settled _ id); [|apply settled_canceled].
eapply (core_guarantee _ false id) in Hc; [|done|done]. eapply core_weaken; [|exact Hc]. naive_solver.
- unfold capacity. cbn [state with_state]. by rewrite (proj1 (proj2 Hg)).
- by eapply served_guarantee.
Qed.

Lemma cancel_stable id sys : stable sys → stable (cancel uuid context id sys).
Proof.
intros Hst. unfold cancel. destruct (find_task id (state sys)) as [current|]; [|done].
destruct (isTerminalTask _); [done|].
destruct (String.eqb (task_status current) "reconciliation_required").
{ apply reconciliation_start_stable; [|done]. intros c. apply within_cancel_body. }
destruct (internalTasks (state sys) !! id); [|done].
set (sys1 := with_state (mark_canceled id)
(cancel_capture context id (complete_review uuid context id (abort_task uuid context id sys)))).
assert (H1 : stable sys1).
{ apply canceled_stable. assert (Hl : loose id (complete_review uuid context id (abort_task uuid context id sys))).
{ apply complete_loose, abort_loose. destruct Hst as ((Hc & ? & ?) & ?). split; [|done]. split; [|done].
  eapply core_weaken; [|done]. done. }
unfold cancel_capture. destruct (captureIds _ !! id); [|done].
destruct (active_client context); [done..|]. destruct (String.eqb _ _); [done|].
destruct Hl as ((? & ? & ?) & ?). split; [|done]. split; [by apply core_observe|done]. }
destruct (String.eqb _ _); [|done]. apply drainQueue_stable.
apply (stable_guarantee id sys1 (set_internalTasks (delete id) (state sys1)) H1).
by apply guarantee_same_tasks.
Qed.

Lemma stable_patch id f sys : patch_ok false f → stable sys → stable (with_state (patch_task id f) sys).
Proof.
intros Hf Hst. change (stable (with_state (λ _, patch_task id f (state sys)) sys)).
eapply (stable_guarantee id); [done|]. by apply guarantee_patch.
Qed.

Lemma updateReview_stable id segment text sys : stable sys → stable (updateReview id segment text sys).
Proof.
intros Hst. unfold updateReview. destruct (find_task id (state sys)) as [task|]; [|done].
destruct (String.eqb _ _), (task_raw task) as [raw|]; try done.
destruct (List.find _ _); [|done]. cbv zeta. apply stable_patch; [patch_tac|done].
Qed.

Lemma confirm_stable id sys : stable sys → stable (confirm uuid context id sys).
Proof.
intros Hst. unfold confirm. destruct (find_task id (state sys)) as [task|] eqn:Hf; [|done].
destruct (String.eqb_spec (task_status task) "awaiting_confirmation") as [Ha|]; [|by destruct (task_raw task)].
destruct (task_raw task) as [raw|]; [|done]. cbv zeta.
destruct (0 <? _)%nat; [apply stable_patch; [patch_tac|done]|].
destruct (bool_decide _); [|done]. destruct (find_task_Some _ _ _ Hf) as [Hin Hid].
destruct Hst as ((Hc & Hcap & Hw) & Hs).
destruct (core_awake _ _ Hc task Hin) as [p Hp]; [unfold awake; by rewrite Ha|by intros []|]. rewrite Hid in Hp.
match goal with |- stable (next_review _ _ _ _ (with_state (patch_task id ?f) sys)) =>
assert (Hg : guarantee true id (state sys) (patch_task id f (state sys))) by (apply guarantee_patch; patch_tac);
set (s' := patch_task id f (state sys)) in *;
change (with_state (patch_task id f) sys) with (with_state (λ _, s') sys) end.
clearbody s'.
assert (Hst' : stable (with_state (λ _, s') sys)).
{ split; [split; [|split; [|done]]|].
- eapply core_guarantee; [done..|]. intros _. left. by eexists.
- unfold capacity. cbn. by rewrite (proj1 (proj2 Hg)).
- by eapply served_guarantee. }
unfold next_review. cbn [running with_state]. rewrite Hp. cbn.
destruct (after_review p _) as [p'|] eqn:Hp'; [|done].
destruct Hst' as ((? & ? & ?) & ?). apply (continue_task_stable (λ _, False)); [done..| |].
- by eexists.
- eapply after_review_good; [|done]. by apply (core_good _ _ Hc).
Qed.

Lemma reconcile_stable id sys : stable sys → stable (reconcile context id sys).
Proof.
intros Hst. unfold reconcile. destruct (find_task id (state sys)); [|done]. destruct (String.eqb _ _); [|done].
apply reconciliation_start_stable; [|done]. intros ?. apply within_reconcile_body.
Qed.

(** Removing a task from the list. *)
Lemma removeTask_stable id sys : stable sys → stable (with_state (removeTask id) sys).
Proof.
intros (([H1 H2 H3 H4 H5 H6 H7 H8 H9] & Hcap & Hw) & Hs).
assert (Hin : ∀ t, t ∈ List.filter (λ task, negb (String.eqb (task_id task) id)) (tasks (state sys)) →
            t ∈ tasks (state sys)).
{ intros t. rewrite !list_elem_of_In. intros [? _]%filter_In. done. }
assert (Hsub : map task_id (List.filter (λ task, negb (String.eqb (task_id task) id)) (tasks (state sys)))
             `sublist_of` map task_id (tasks (state sys))).
{ clear. induction (tasks (state sys)) as [|t l IH]; cbn; [done|].
destruct (negb _); cbn; [by apply sublist_skip|by apply sublist_cons]. }
split; [split; [|by split]|].
- split; cbn [state running reconciling removing with_state removeTask set_captureIds set_speakerSources
  set_internalTasks set_tasks tasks runningTasks uuids]; try done.
+ by eapply sublist_NoDup.
+ unfold drawn in *. cbn. rewrite Forall_forall in *. intros i Hi. apply H2. by eapply elem_of_sublist.
+ auto.
+ auto.
- unfold served. cbn. intros (t & Ht & Hq)%Exists_exists. apply Hs. apply Exists_exists. eauto.
Qed.

Lemma stable_with_removing f sys :
(∀ l, Forall (λ entry : string * observable unit, ∃ captureId, entry.2 = removal entry.1 captureId) l →
Forall (λ entry, ∃ captureId, entry.2 = removal entry.1 captureId) (f l)) →
stable sys → stable (with_removing f sys).
Proof.
intros Hf ((Hc & Hcap & Hw) & Hs). split; [|done]. split; [|done]. destruct Hc. split; cbn; try done. auto.
Qed.

Lemma remove_stable id sys : stable sys → stable (remove context id sys).
Proof.
intros Hst. unfold remove. destruct (find_task id (state sys)) as [task|]; [|done].
destruct (negb _); [done|].
destruct (task_captureId task) as [c|]; [|by apply removeTask_stable].
destruct (active_client context); [by apply removeTask_stable..|].
destruct (String.eqb _ _); [by apply removeTask_stable|]. cbv zeta.
apply (stable_with_removing (λ l, l ++ [(id, removal id c)])) in Hst as ((? & ? & ?) & ?).
{ split; [|done]. split; [by apply core_observe|done]. }
intros l Hl. apply Forall_app. split; [done|]. constructor; [by exists c|done].
Qed.

Lemma removal_input_stable index input sys : stable sys → stable (removal_input index input sys).
Proof.
intros Hst. unfold removal_input. destruct (removing sys !! index) as [[id p]|] eqn:Hp; [|done]. cbn.
pose proof Hst as ((Hc & _ & _) & _). pose proof (core_removing _ _ Hc) as Hrem.
destruct (Forall_lookup_1 _ _ _ _ Hrem Hp) as (c & Hc'). cbn in Hc'. subst p.
destruct input as [answer| |]; cbn [deliver removal]; [|done..].
apply stable_with_removing.
{ intros l Hl. apply Forall_app. split; [by apply Forall_take|by apply Forall_drop]. }
destruct (answer (DeleteStreamingCapture c)) as [[]|e].
- by apply removeTask_stable.
- apply (removeTask_stable id (with_state (patch_task id (with_error (Some
  (failureFrom e (Some "runtime") "Unable to clear capture data.")))) sys)).
apply stable_patch; [patch_tac|done].
Qed.

Lemma nameSpeaker_stable id speaker name sys : stable sys → stable (nameSpeaker id speaker name sys).
Proof.
intros Hst. unfold nameSpeaker. destruct (find_task id (state sys) ≫= task_result) as [document|]; [|done].
cbv zeta. destruct (existsb _ _); [|done].
match goal with |- stable (with_state (λ s, emit ?e (patch_task id ?f s)) sys) =>
apply (stable_guarantee id sys (emit e (patch_task id f (state sys)))); [done|] end.
apply guarantee_emit, guarantee_patch. patch_tac.
Qed.

Lemma reachable_stable sys : reachable uuid context sys → stable sys.
Proof.
induction 1 as [|sys action _ IH].
- split; [split; [|split]|].
+ split; cbn; try done; try constructor; try (by intros ? ?; rewrite lookup_empty);
    try (by intros ? ?%elem_of_nil).
+ unfold capacity. cbn. lia.
+ intros i p. cbn. by rewrite lookup_empty.
+ intros H. cbn in H. by inversion H.
- destruct action; cbn [act].
+ by apply enqueueFiles_stable.
+ by apply cancel_stable.
+ by apply updateReview_stable.
+ by apply confirm_stable.
+ by apply reconcile_stable.
+ by apply remove_stable.
+ by apply nameSpeaker_stable.
+ apply stable_patch; [patch_tac|done].
+ by apply task_input_stable.
+ by apply reconciliation_input_stable.
+ by apply removal_input_stable.
Qed.

(** The queue: in every state the service can reach, whatever the commands,
the replies and their order, the counter of running tasks is the number of
runs and never exceeds the configured concurrency; a file waits only while
every slot is taken, and has no run; and no two tasks share an identifier. *)
Lemma queue_is_served sys :
reachable uuid context sys →
runningTasks (state sys) = Z.of_nat (size (running sys)) ∧
runningTasks (state sys) ≤ Z.max 0 (concurrency context) ∧
(∀ t, t ∈ tasks (state sys) → task_status t = "queued" →
concurrency context ≤ runningTasks (state sys) ∧ running sys !! task_id t = None) ∧
NoDup (map task_id (tasks (state sys))).
Proof.
intros (([H1 H2 H3 H4 H5 H6 H7 H8 H9] & Hcap & _) & Hs)%reachable_stable.
split; [done|]. split; [done|]. split; [|done]. intros t Hin Hq. apply String.eqb_eq in Hq.
split; [|by apply H6]. apply Hs, Exists_exists. by exists t.
Qed.

End guarantees.

(** ** A sample service *)

Fixpoint sample_uuid (n : nat) : string :=
  match n with O => "" | S n' => String "x" (sample_uuid n') end.

Lemma length_sample_uuid n : String.length (sample_uuid n) = n.
Proof. induction n as [|n IH]; cbn; [done|by rewrite IH]. Qed.

#[export] Instance sample_uuid_inj : Inj (=) (=) sample_uuid.
Proof. intros n m H. by rewrite <-(length_sample_uuid n), H, length_sample_uuid. Qed.

Definition sample_context : WorkflowContext :=
  {| enabledSources := [pdf; audio]; host_structuring := false; component_owner := false; multiple := true;
     targetLanguage := None; concurrency := 1; reviewBeforeCommit := false; identifySpeakers := false;
     spokenLanguage := None; active_client := StreamingClient; has_provider := false; has_preprocessor := false |}.

Definition run (actions : list Action) : system := fold_left (act sample_uuid sample_context) actions init.

Lemma run_reachable actions : reachable sample_uuid sample_context (run actions).
Proof.
  unfold run. assert (H : reachable sample_uuid sample_context init) by constructor. revert H.
  generalize init. induction actions as [|a actions IH]; intros sys H; cbn; [done|].
  apply IH. by constructor.
Qed.

Definition two_files : list File :=
  [{| File_name := "a.pdf"; File_bytes := "" |}; {| File_name := "b.wav"; File_bytes := "" |}].

Definition statuses (sys : system) : list (string * string) :=
  map (λ t, (task_fileName t, task_status t)) (tasks (state sys)).

Example two_files_one_slot :
  statuses (run [EnqueueFiles two_files]) = [("a.pdf", "processing"); ("b.wav", "queued")].
Proof. vm_compute. reflexivity. Qed.

Lemma queue_is_served_witness :
  runningTasks (state (run [EnqueueFiles two_files])) = Z.of_nat (size (running (run [EnqueueFiles two_files]))).
Proof.
  exact (proj1 (queue_is_served sample_uuid sample_context _ (run [EnqueueFiles two_files]) (run_reachable _))).
Defined.

