(* ===== verification/WorkflowSafety.v ===== *)
(** * What the capture workflow sends and shows

    Safety of the service of [Workflow]: a structured candidate is committed to
    the runtime only after it was checked against the raw capture the runtime
    delivered for the same capture.  Two concrete runs show states the code
    reaches although it means to avoid them. *)

From stdpp Require Import gmap.
From S2P Require Import Prelude JsString JsNum JsValue Discovery CaptureModel CaptureHelpers StoreHelpers Observable WorkflowModel Reconciliation Workflow WorkflowQueue.

(** ** Calls backed by evidence *)

(** What a reply adds to the observations. *)
Definition learn (call : Call) : result caught (reply_of call) → list Observation :=
  match call return result caught (reply_of call) → list Observation with
  | GetStreamingRaw captureId => λ r, match r with Ok raw => [RawFetched captureId raw] | Err _ => [] end
  | _ => λ _, []
  end.

(** A commit needs a raw capture fetched before, which its candidate agrees with. *)
Definition backed (log : list Observation) (call : Call) : Prop :=
  match call with
  | CommitStreamingStructuredResult captureId _ candidate =>
      ∃ raw, RawFetched captureId raw ∈ log ∧ validateStructuringCandidate candidate raw = []
  | _ => True
  end.

(** [backs log Q p]: with [log] observed so far, every call [p] goes on to make
    is backed, and its value satisfies [Q] with what is observed by then. *)
Fixpoint backs {A} (log : list Observation) (Q : list Observation → A → Prop) (p : observable A) : Prop :=
  match p with
  | Return a => Q log a
  | Empty | Throw _ => True
  | Read k => ∀ s, backs log Q (k s)
  | Update _ p' => backs log Q p'
  | Ask call _ k => backed log call ∧ ∀ r log', log ⊆ log' → learn call r ⊆ log' → backs log' Q (k r)
  | Listen call _ _ _ _ k => backed log call ∧ ∀ r log', log ⊆ log' → backs log' Q (k r)
  end.

Definition anything {A} (log : list Observation) (a : A) : Prop := True.

Lemma backed_more log log' call : log ⊆ log' → backed log call → backed log' call.
Proof. destruct call; cbn; try done. intros Hl (raw & Hin & Hv). exists raw. auto. Qed.

Lemma backs_mono {A} log (Q Q' : list Observation → A → Prop) p :
  backs log Q p → (∀ log' a, log ⊆ log' → Q log' a → Q' log' a) → backs log Q' p.
Proof.
  revert log. induction p as [a| |e|k IH|f p IH|c ab k IH|c ab l on stop k IH]; intros log; cbn; auto.
  - intros [Hc Hk] HQ. split; [done|]. intros r log' Hl Hr. apply IH; [by apply Hk|].
    intros log2 a Hl2. apply HQ. by etrans.
  - intros [Hc Hk] HQ. split; [done|]. intros r log' Hl. apply IH; [by apply Hk|].
    intros log2 a Hl2. apply HQ. by etrans.
Qed.

Lemma backs_then {A B} log (Q : list Observation → B → Prop) (f : A → observable B) p :
  backs log (λ log' a, backs log' Q (f a)) p → backs log Q (then_ f p).
Proof.
  revert log. induction p as [a| |e|k IH|g p IH|c ab k IH|c ab l on stop k IH]; intros log; cbn; naive_solver.
Qed.

Lemma backs_catch {A} log (Q : list Observation → A → Prop) h p :
  backs log Q p → (∀ log' e, log ⊆ log' → backs log' Q (h e)) → backs log Q (catchError h p).
Proof.
  revert log. induction p as [a| |e|k IH|g p IH|c ab k IH|c ab l on stop k IH]; intros log; cbn; auto.
  - intros [Hc Hk] Hh. split; [done|]. intros r log' Hl Hr. apply IH; [by apply Hk|].
    intros log2 e Hl2. apply Hh. by etrans.
  - intros [Hc Hk] Hh. split; [done|]. intros r log' Hl. apply IH; [by apply Hk|].
    intros log2 e Hl2. apply Hh. by etrans.
Qed.

Lemma backs_until_abort {A} log (Q : list Observation → A → Prop) p : backs log Q p → backs log Q (until_abort p).
Proof.
  revert log. induction p as [a| |e|k IH|g p IH|c ab k IH|c ab l on stop k IH]; intros log; cbn; naive_solver.
Qed.

Lemma backs_advance {A} log (Q : list Observation → A → Prop) p s : backs log Q p → backs log Q (advance p s).2.
Proof.
  revert s. induction p as [a| |e|k IH|g p IH|c ab k IH|c ab l on stop k IH]; intros s; cbn; auto.
Qed.

(** A process that waits can wait on while more is observed. *)
Lemma backs_waiting {A} log log' (Q : list Observation → A → Prop) p :
  is_Some (waits_at p) → log ⊆ log' → backs log Q p → backs log' Q p.
Proof.
  intros [c Hw] Hl. destruct p as [a| |e|k|f p|d ab k|d ab l on stop k]; cbn in *; try done.
  - intros [Hc Hk]. split; [by eapply backed_more|]. intros r log2 Hl2. apply Hk. by etrans.
  - intros [Hc Hk]. split; [by eapply backed_more|]. intros r log2 Hl2. apply Hk. by etrans.
Qed.

(** Programs that commit nothing. *)
Definition is_commit (call : Call) : bool :=
  match call with CommitStreamingStructuredResult _ _ _ => true | _ => false end.

Fixpoint commitless {A} (p : observable A) : Prop :=
  match p with
  | Return _ | Empty | Throw _ => True
  | Read k => ∀ s, commitless (k s)
  | Update _ p' => commitless p'
  | Ask call _ k => is_commit call = false ∧ ∀ r, commitless (k r)
  | Listen call _ _ _ _ k => is_commit call = false ∧ ∀ r, commitless (k r)
  end.

Lemma commitless_backs {A} log (Q : list Observation → A → Prop) p :
  commitless p → (∀ log' a, log ⊆ log' → Q log' a) → backs log Q p.
Proof.
  revert log. induction p as [a| |e|k IH|f p IH|c ab k IH|c ab l on stop k IH]; intros log Hp HQ; cbn in *; auto.
  - destruct Hp as [Hc Hk]. split; [by destruct c|]. intros r log' Hl _. apply IH; [done|].
    intros log2 a Hl2. apply HQ. by etrans.
  - destruct Hp as [Hc Hk]. split; [by destruct c|]. intros r log' Hl. apply IH; [done|].
    intros log2 a Hl2. apply HQ. by etrans.
Qed.

Lemma commitless_then {A B} (f : A → observable B) p :
  commitless p → (∀ a, commitless (f a)) → commitless (then_ f p).
Proof. intros Hp Hf. induction p as [a| |e|k IH|g p IH|c ab k IH|c ab l on stop k IH]; cbn in *; naive_solver. Qed.

Lemma commitless_catch {A} (h : caught → observable A) p :
  commitless p → (∀ e, commitless (h e)) → commitless (catchError h p).
Proof. intros Hp Hh. induction p as [a| |e|k IH|g p IH|c ab k IH|c ab l on stop k IH]; cbn in *; naive_solver. Qed.

Lemma commitless_until_abort {A} (p : observable A) : commitless p → commitless (until_abort p).
Proof. intros Hp. induction p as [a| |e|k IH|g p IH|c ab k IH|c ab l on stop k IH]; cbn in *; naive_solver. Qed.

Lemma commitless_ask call : is_commit call = false → commitless (ask call : observable (reply_of call)).
Proof. intros Hc. split; [done|]. by intros [a|e]. Qed.

(** Take a program apart that does not commit. *)
Ltac commitless_tac :=
  repeat match goal with
  | |- commitless (_ ≫= _) => apply commitless_then
  | |- commitless (then_ _ _) => apply commitless_then
  | |- commitless (catchError _ _) => apply commitless_catch
  | |- commitless (until_abort _) => apply commitless_until_abort
  | |- commitless ?p => lazymatch p with ask ?c => exact (commitless_ask c eq_refl) end
  | |- commitless (update _) => exact I
  | |- commitless (listen _ _ _) => split; [reflexivity|intros [?|?]; exact I]
  | |- commitless (Read _) => intros ?; cbv beta
  | |- commitless (Update _ ?p) => change (commitless p)
  | |- commitless (mret _) => exact I
  | |- commitless (Return _) => exact I
  | |- commitless Empty => exact I
  | |- commitless (Throw _) => exact I
  | |- commitless (if ?b then _ else _) => destruct b
  | |- commitless (match ?x with _ => _ end) => destruct x
  | |- commitless (let _ := _ in _) => cbv zeta
  | |- ∀ _, _ => intros ?; cbv beta
  end; auto with committing.

Create HintDb committing.

(** ** The programs of the workflow *)

Section safety.
Variables (uuid : nat → string) (context : WorkflowContext).

Lemma commitless_or_snapshot c p : commitless p → commitless (or_snapshot c p).
Proof. intros H. unfold or_snapshot. commitless_tac. Qed.

Lemma commitless_waitForTerminal left op taskId stop : commitless (waitForTerminal left op taskId stop).
Proof.
revert op. induction left as [|left IH]; intros op; cbn [waitForTerminal];
  unfold reloadStreamingSnapshot; commitless_tac; apply IH.
Qed.

Lemma commitless_wait left op stop id : commitless (waitForStreamingOperation left op stop id).
Proof.
revert op. induction left as [|left IH]; intros op; cbn [waitForStreamingOperation];
  unfold reloadSnapshot; commitless_tac; apply IH.
Qed.

Lemma commitless_tryGetRaw c : commitless (tryGetRaw c).
Proof. unfold tryGetRaw. commitless_tac. Qed.

Hint Resolve commitless_or_snapshot commitless_waitForTerminal commitless_wait commitless_tryGetRaw : committing.

Lemma commitless_cancelAndConfirm c : commitless (cancelAndConfirm c).
Proof. unfold cancelAndConfirm. commitless_tac. apply commitless_or_snapshot. commitless_tac. Qed.

Hint Resolve commitless_cancelAndConfirm : committing.

Lemma commitless_report c m : commitless (reportHostFailureAndReconcile c m).
Proof. unfold reportHostFailureAndReconcile. commitless_tac. apply commitless_or_snapshot. commitless_tac. Qed.

Hint Resolve commitless_report : committing.

Lemma commitless_or_reconciliation id raw p : commitless p → commitless (or_reconciliation id raw p).
Proof. intros H. unfold or_reconciliation. commitless_tac. Qed.

Lemma commitless_settleOrRequire task op : commitless (settleOrRequire task op).
Proof. unfold settleOrRequire, settleConfirmedOperation, require_again. commitless_tac. Qed.

Hint Resolve commitless_settleOrRequire commitless_or_reconciliation : committing.

Lemma commitless_reconcile_body task c : commitless (reconcile_body task c).
Proof. unfold reconcile_body, confirmOperation, require_again. commitless_tac. Qed.

Lemma commitless_cancel_body task c : commitless (cancel_body task c).
Proof. unfold cancel_body, require_again. commitless_tac. Qed.

Lemma commitless_awaitReview id raw p : commitless (awaitReview context id raw p).
Proof. unfold awaitReview. commitless_tac. Qed.

Lemma commitless_settle task op id : commitless (settleStreaming task op id).
Proof. unfold settleStreaming. commitless_tac. Qed.

Lemma commitless_error task id e : commitless (handleProcessError task id e).
Proof. unfold handleProcessError. commitless_tac. Qed.

Lemma commitless_start id request : commitless (start_capture id request).
Proof. unfold start_capture, check_aborted. commitless_tac. Qed.

Lemma commitless_removal id c : commitless (removal id c).
Proof. unfold removal. commitless_tac. Qed.

(** ** The commit of a candidate *)

Lemma backs_raw log c : backs log (λ log' raw, RawFetched c raw ∈ log') (ask (GetStreamingRaw c)).
Proof. split; [done|]. intros [raw|e] log' _ Hr; cbn in *; [|done]. apply Hr. left. Qed.

Lemma backs_or_snapshot log c p : backs log anything p → backs log anything (or_snapshot c p).
Proof.
intros Hp. unfold or_snapshot. apply backs_catch; [done|]. intros log' e _.
apply commitless_backs; [commitless_tac|done].
Qed.

Lemma backs_attempt log c rid candidate raw :
RawFetched c raw ∈ log → validateStructuringCandidate candidate raw = [] →
backs log anything (or_snapshot c (ask (CommitStreamingStructuredResult c rid candidate))).
Proof. intros Hin Hv. apply backs_or_snapshot. split; [by exists raw|]. by intros [op|e]. Qed.

Lemma backs_commit log c candidate raw :
RawFetched c raw ∈ log → validateStructuringCandidate candidate raw = [] →
backs log anything (commitHostResultAndReconcile uuid c candidate).
Proof.
intros Hin Hv. unfold commitHostResultAndReconcile. apply backs_then. unfold randomUUID. cbn [backs]. intros s.
apply backs_then. eapply backs_mono; [by eapply backs_attempt|]. intros log1 first Hl _.
apply backs_then. apply backs_mono with (Q := anything).
{ destruct (isAwaitingHostStructuring _); [|done]. eapply backs_attempt; [by apply Hl|done]. }
intros log2 second _ _.
destruct (isAwaitingHostStructuring _); [|done]. apply commitless_backs; [apply commitless_report|done].
Qed.

Lemma backs_structured log raw review :
backs log (λ _ candidate, validateStructuringCandidate candidate raw = []) (structured_candidate context raw review).
Proof.
unfold structured_candidate. apply backs_then, commitless_backs; [commitless_tac|].
intros log' candidate _. cbv zeta.
by destruct (validateStructuringCandidate candidate raw) eqn:E.
Qed.

Lemma backs_structure_or_report log id c raw review :
backs log (λ _ outcome, match outcome with
                        | inl candidate => validateStructuringCandidate candidate raw = []
                        | inr _ => True
                        end) (structure_or_report context id c raw review).
Proof.
unfold structure_or_report. apply backs_catch.
- apply backs_then. eapply backs_mono; [apply backs_structured|]. by intros log' candidate _ H.
- intros log' e _. destruct (isAbortError e); [done|]. cbv zeta.
  apply backs_then, commitless_backs; [|done]. apply commitless_or_reconciliation, commitless_report.
Qed.

Lemma backs_host log op id : backs log anything (processStreamingHostStructuring uuid context op id).
Proof.
unfold processStreamingHostStructuring. apply backs_then, commitless_backs; [apply commitless_wait|].
intros log1 operation _. destruct (negb _); [done|].
apply backs_then. eapply backs_mono; [apply backs_raw|]. intros log2 raw _ Hin.
apply backs_then, commitless_backs; [apply commitless_awaitReview|]. intros log3 review Hl3.
apply backs_then. eapply backs_mono; [apply backs_structure_or_report|].
intros log4 [candidate|reported] Hl4 Hv; [|done]. unfold or_reconciliation.
apply backs_catch.
- eapply backs_commit; [apply Hl4, Hl3, Hin|exact Hv].
- intros log5 e _. apply commitless_backs; [commitless_tac|done].
Qed.

Lemma backs_streaming log internal task id : backs log anything (processStreamingTask uuid context internal task id).
Proof.
unfold processStreamingTask.
apply backs_then, commitless_backs; [destruct (has_preprocessor context); commitless_tac|]. intros log1 file _.
apply backs_then, commitless_backs; [unfold check_aborted; commitless_tac|]. intros log2 [] _.
apply backs_then, commitless_backs; [commitless_tac|]. intros log3 [] _.
apply backs_then, commitless_backs; [apply commitless_start|]. intros log4 started _.
apply backs_then, commitless_backs; [commitless_tac|]. intros log5 [] _.
apply backs_then, commitless_backs; [commitless_tac|]. intros log6 [] _.
apply backs_then, backs_mono with (Q := anything).
{ destruct (component_owns context); [|by apply commitless_backs; [commitless_tac|]].
  destruct (negb _); [done|apply backs_host]. }
intros log7 operation _ _.
apply commitless_backs; [commitless_tac; apply commitless_settle|done].
Qed.

Lemma backs_task_run log id : backs log anything (task_run uuid context id).
Proof.
unfold task_run. apply backs_catch; [|intros log' e _; apply commitless_backs; [commitless_tac|done]].
unfold processTask. cbn [backs]. intros s. cbv zeta.
destruct (internalTasks s !! id) as [internal|], (find_task id s) as [task|], (active_client context).
all: repeat match goal with |- backs _ _ (if ?b then _ else _) => destruct b end.
all: first [ apply backs_catch; [apply backs_streaming|]; intros log' e _;
             apply commitless_backs; [apply commitless_error|done]
           | apply commitless_backs; [commitless_tac|done] ].
Qed.
(** ** The service *)

(** Whatever else is observed meanwhile, [p] makes backed calls only. *)
Definition backs_on (log : list Observation) (p : observable unit) : Prop :=
∀ log', log ⊆ log' → backs log' anything p.

Record well_backed (sys : system) : Prop := {
sent_backed : ∀ call, Sent call ∈ observed sys → backed (observed sys) call;
running_backed : ∀ id p, running sys !! id = Some p → backs_on (observed sys) p;
reconciling_backed : ∀ id p, reconciling sys !! id = Some p → backs_on (observed sys) p
}.

Lemma backs_on_more log log' p : log ⊆ log' → backs_on log p → backs_on log' p.
Proof. intros Hl Hp log2 Hl2. apply Hp. by etrans. Qed.

Lemma backs_on_commitless log p : commitless p → backs_on log p.
Proof. intros Hp log' _. by apply commitless_backs. Qed.

Lemma backs_on_advance log p s : backs_on log p → backs_on log (advance p s).2.
Proof. intros Hp log' Hl. by apply backs_advance, Hp. Qed.

Lemma backs_on_sent log p call : backs_on log p → Sent call ∈ sent_by p → backed log call.
Proof.
intros Hp. specialize (Hp log (reflexivity log)). unfold sent_by.
destruct p as [a| |e|k|f p|d ab k|d ab l on stop k]; cbn; try set_solver.
all: destruct Hp as [Hc _]; intros Hin; apply list_elem_of_singleton in Hin; by injection Hin as ->.
Qed.

(** What is observed stays observed. *)
Lemma well_backed_observe seen sys :
(∀ call, Sent call ∈ seen → backed (observed sys) call) → well_backed sys → well_backed (observe seen sys).
Proof.
intros Hseen [Hs Hr Hc].
assert (Hl : observed sys ⊆ observed (observe seen sys)) by (cbn; set_solver).
constructor.
- intros call [Hin|Hin]%elem_of_app; eapply backed_more; eauto.
- intros id p Hp. eapply backs_on_more; [exact Hl|by eapply Hr].
- intros id p Hp. eapply backs_on_more; [exact Hl|by eapply Hc].
Qed.

Lemma well_backed_run id p sys :
backs_on (observed sys) p → well_backed sys → well_backed (with_running (<[id := p]>) sys).
Proof.
intros Hp [Hs Hr Hc]. constructor; cbn; [done| |done].
intros i q [[_ <-]|[_ Hq]]%lookup_insert_Some; [done|by eapply Hr].
Qed.

Lemma well_backed_reconciliation id p sys :
backs_on (observed sys) p → well_backed sys → well_backed (with_reconciling (<[id := p]>) sys).
Proof.
intros Hp [Hs Hr Hc]. constructor; cbn; [done|done|].
intros i q [[_ <-]|[_ Hq]]%lookup_insert_Some; [done|by eapply Hc].
Qed.

Lemma well_backed_finish id sys : well_backed sys → well_backed (finish id sys).
Proof.
intros [Hs Hr Hc]. constructor; [done| |done].
intros i q Hq. change (delete id (running sys) !! i = Some q) in Hq.
apply lookup_delete_Some in Hq as [_ Hq]. by eapply Hr.
Qed.

Lemma well_backed_released id sys : well_backed sys → well_backed (with_reconciling (delete id) sys).
Proof.
intros [Hs Hr Hc]. constructor; cbn; [done|done|].
intros i q [_ Hq]%lookup_delete_Some. by eapply Hc.
Qed.

Lemma well_backed_state f sys : well_backed sys → well_backed (with_state f sys).
Proof. by intros []. Qed.

Lemma well_backed_drain n sys : well_backed sys → well_backed (drain uuid context n sys).
Proof.
revert sys. induction n as [|n IH]; intros sys H; cbn [drain]; [done|].
destruct (runningTasks (state sys) <? concurrency context); [|done].
destruct (next_queued (state sys)) as [task|]; [|done]. cbv zeta.
assert (Hp : backs_on (observed sys)
  (advance (task_run uuid context (task_id task)) (take_next (task_id task) (state sys))).2)
  by (apply backs_on_advance; intros log' _; apply backs_task_run).
destruct (advance _ _) as [s p]. cbn [snd] in Hp. destruct (ended p).
- by apply IH, IH, well_backed_finish, well_backed_state.
- apply IH, well_backed_observe; [intros call; by apply backs_on_sent|].
  by apply well_backed_run, well_backed_state.
Qed.

Lemma well_backed_drainQueue sys : well_backed sys → well_backed (drainQueue uuid context sys).
Proof. apply well_backed_drain. Qed.

Lemma well_backed_continue id p sys :
backs_on (observed sys) p → well_backed sys → well_backed (continue_task uuid context id p sys).
Proof.
intros Hp H. unfold continue_task. pose proof (backs_on_advance _ _ (state sys) Hp) as Hp'.
destruct (advance p (state sys)) as [s p']. cbn [snd] in Hp'. destruct (ended p').
- by apply well_backed_drainQueue, well_backed_finish, well_backed_state.
- apply well_backed_observe; [intros call; by apply backs_on_sent|].
  by apply well_backed_run, well_backed_state.
Qed.

Lemma well_backed_continue_reconciliation id p sys :
backs_on (observed sys) p → well_backed sys → well_backed (continue_reconciliation id p sys).
Proof.
intros Hp H. unfold continue_reconciliation. pose proof (backs_on_advance _ _ (state sys) Hp) as Hp'.
destruct (advance p (state sys)) as [s p']. cbn [snd] in Hp'. destruct (ended p').
- by apply well_backed_released, well_backed_state.
- apply well_backed_observe; [intros call; by apply backs_on_sent|].
  by apply well_backed_reconciliation, well_backed_state.
Qed.

(** A reply counts as evidence for what comes next. *)
Lemma deliver_backs log p input s p' s' seen :
deliver p input s = Some (p', s', seen) → backs_on log p →
backs_on (seen ++ log) p' ∧ ∀ call, Sent call ∉ seen.
Proof.
intros Hd Hp. destruct p as [a| |e|k|f p|c ab k|c ab l on stop k]; try by destruct input.
- destruct input as [answer| |]; [|by destruct c..].
  assert (Hk : seen = learn c (answer c) ∧ p' = k (answer c)).
  { destruct c; cbn in Hd; try done; injection Hd as <- <- <-; (split; [|done]); try done. }
  destruct Hk as [-> ->]. split.
  + intros log' Hl. apply Hp with log'; set_solver.
  + intros call. destruct c; cbn; try set_solver. destruct (answer _); set_solver.
- assert (Hk : seen = [] ∧ (p' = Listen c ab l on stop k ∨ (∃ l', p' = Listen c ab l' on stop k) ∨ ∃ r, p' = k r)).
  { destruct input as [answer|event|[error|]]; cbn in Hd; [done| | |]; injection Hd as <- <- <-;
      (split; [done|]); [destruct (stop event)|..]; eauto. }
  destruct Hk as [-> Hk]. split; [|set_solver].
  destruct Hk as [->|[[l' ->]|[r ->]]]; [done|exact Hp|].
  intros log' Hl. by apply (Hp log' Hl).
Qed.

Lemma after_review_backs log p review p' : after_review p review = Some p' → backs_on log p → backs_on log p'.
Proof.
intros Ha Hp. destruct p as [a| |e|k|f p|c ab k|]; cbn in Ha; try done.
destruct c; try done. injection Ha as <-. intros log' Hl. apply (Hp log' Hl); [done|apply list_subseteq_nil].
Qed.
Lemma well_backed_reconciliation_start body task sys :
(∀ t c, commitless (body t c)) → well_backed sys → well_backed (reconciliation_start context body task sys).
Proof.
intros Hb H. unfold reconciliation_start. destruct (task_captureId task) as [c|]; [|done].
destruct (active_client context); [done..|]. destruct (_ || _); [done|].
apply well_backed_continue_reconciliation; [|done]. by apply backs_on_commitless.
Qed.

Lemma well_backed_cancel id sys : well_backed sys → well_backed (cancel uuid context id sys).
Proof.
intros H. unfold cancel. destruct (find_task id (state sys)) as [current|]; [|done].
destruct (isTerminalTask _); [done|]. destruct (String.eqb _ "reconciliation_required").
{ apply well_backed_reconciliation_start; [apply commitless_cancel_body|done]. }
destruct (internalTasks (state sys) !! id); [|done]. cbv zeta.
assert (H1 : well_backed (abort_task uuid context id sys)).
{ unfold abort_task. cbv zeta. destruct (running _ !! id); [|by apply well_backed_state].
  destruct (ended _); [apply well_backed_drainQueue, well_backed_finish|]; by apply well_backed_state. }
assert (H2 : well_backed (complete_review uuid context id (abort_task uuid context id sys))).
{ unfold complete_review. destruct (running _ !! id); [|done]. destruct (_ && _); [|done].
  by apply well_backed_drainQueue, well_backed_finish, well_backed_state. }
set (sys2 := complete_review uuid context id (abort_task uuid context id sys)) in *. clearbody sys2.
assert (H3 : well_backed (with_state (mark_canceled id) (cancel_capture context id sys2))).
{ apply well_backed_state. unfold cancel_capture. destruct (captureIds _ !! id); [|done].
  destruct (active_client context); [done..|]. destruct (String.eqb _ _); [done|].
  apply well_backed_observe; [|done]. intros call Hin. apply list_elem_of_singleton in Hin. by injection Hin as ->. }
destruct (String.eqb _ "queued"); [|done]. by apply well_backed_drainQueue, well_backed_state.
Qed.

Lemma well_backed_confirm id sys : well_backed sys → well_backed (confirm uuid context id sys).
Proof.
intros H. unfold confirm. destruct (find_task id (state sys)) as [task|]; [|done].
destruct (String.eqb _ _), (task_raw task) as [raw|]; try done. cbv zeta.
destruct (0 <? _)%nat; [by apply well_backed_state|]. destruct (bool_decide _); [|done].
unfold next_review. cbn [running with_state]. destruct (running sys !! id) as [p|] eqn:Hp; cbn; [|by apply well_backed_state].
destruct (after_review p _) as [p'|] eqn:Ha; [|by apply well_backed_state].
apply well_backed_continue; [|by apply well_backed_state].
eapply after_review_backs; [exact Ha|]. exact (running_backed _ H _ _ Hp).
Qed.

Lemma well_backed_task_input id input sys : well_backed sys → well_backed (task_input uuid context id input sys).
Proof.
intros H. unfold task_input. destruct (running sys !! id) as [p|] eqn:Hp; [|done]. cbn.
destruct (deliver p input (state sys)) as [[[p' s'] seen]|] eqn:Hd; [|done].
destruct (deliver_backs (observed sys) _ _ _ _ _ _ Hd) as [Hp' Hs]; [by eapply running_backed|].
apply well_backed_continue; [exact Hp'|]. apply well_backed_observe; [|by apply well_backed_state].
intros call Hin. by destruct (Hs call).
Qed.

Lemma well_backed_reconciliation_input id input sys :
well_backed sys → well_backed (reconciliation_input id input sys).
Proof.
intros H. unfold reconciliation_input. destruct (reconciling sys !! id) as [p|] eqn:Hp; [|done]. cbn.
destruct (deliver p input (state sys)) as [[[p' s'] seen]|] eqn:Hd; [|done].
destruct (deliver_backs (observed sys) _ _ _ _ _ _ Hd) as [Hp' Hs]; [by eapply reconciling_backed|].
apply well_backed_continue_reconciliation; [exact Hp'|]. apply well_backed_observe; [|by apply well_backed_state].
intros call Hin. by destruct (Hs call).
Qed.

Lemma well_backed_remove id sys : well_backed sys → well_backed (remove context id sys).
Proof.
intros H. unfold remove. destruct (find_task id (state sys)) as [task|]; [|done]. destruct (negb _); [done|].
destruct (task_captureId task) as [c|], (active_client context); try by apply well_backed_state.
destruct (String.eqb _ _); [by apply well_backed_state|]. cbv zeta.
apply well_backed_observe; [|by destruct H].
intros call. apply backs_on_sent, backs_on_commitless, commitless_removal.
Qed.

Lemma well_backed_act sys action : well_backed sys → well_backed (act uuid context sys action).
Proof.
intros H. destruct action; cbn [act].
- by apply well_backed_drainQueue, well_backed_state.
- by apply well_backed_cancel.
- unfold updateReview. destruct (find_task _ _) as [task|]; [|done].
  destruct (String.eqb _ _), (task_raw task); try done. destruct (List.find _ _); [by apply well_backed_state|done].
- by apply well_backed_confirm.
- unfold reconcile. destruct (find_task _ _); [|done]. destruct (String.eqb _ _); [|done].
  apply well_backed_reconciliation_start; [apply commitless_reconcile_body|done].
- by apply well_backed_remove.
- unfold nameSpeaker. destruct (_ ≫= task_result); [|done]. cbv zeta.
  destruct (existsb _ _); [by apply well_backed_state|done].
- by apply well_backed_state.
- by apply well_backed_task_input.
- by apply well_backed_reconciliation_input.
- unfold removal_input. destruct (_ ≫= _) as [[[p s] seen]|]; [|done]. by destruct H.
Qed.

Lemma reachable_well_backed sys : reachable uuid context sys → well_backed sys.
Proof.
induction 1 as [|sys action _ IH]; [|by apply well_backed_act].
constructor; cbn; [set_solver|intros ? ?; by rewrite lookup_empty..].
Qed.

(** C7: Committed candidates are validated: in every state the service can
reach, whatever the files, commands, replies and their interleaving, a
structured result it has sent to the runtime was checked before without an
issue against a raw capture that the runtime had delivered for the very
capture it is committed to. *)
Theorem committed_candidates_are_validated sys captureId clientRequestId candidate :
reachable uuid context sys →
Sent (CommitStreamingStructuredResult captureId clientRequestId candidate) ∈ observed sys →
∃ raw, RawFetched captureId raw ∈ observed sys ∧ validateStructuringCandidate candidate raw = [].
Proof. intros Hr Hin. exact (sent_backed _ (reachable_well_backed sys Hr) _ Hin). Qed.

(** A failed deletion still removes the task: in every state the service
can reach, whatever error the runtime answers a pending deletion with, the
task is gone from the list afterwards, and with it the message the handler
has just put on it. *)
Lemma failed_deletion_removes_task sys index taskId p answer :
Inj (=) (=) uuid → reachable uuid context sys → removing sys !! index = Some (taskId, p) →
(∀ captureId, ∃ error, answer (DeleteStreamingCapture captureId) = Err error) →
find_task taskId (state (removal_input index (Reply answer) sys)) = None.
Proof.
intros Hu ((Hc & _) & _)%reachable_stable Hi He; [|exact Hu]. pose proof (core_removing _ _ _ Hc) as Hrem.
destruct (Forall_lookup_1 _ _ _ _ Hrem Hi) as (c & Hp). cbn in Hp. subst p. destruct (He c) as [error Ha].
unfold removal_input. rewrite Hi. cbn [mbind option_bind snd removal].
unfold removal. cbn [deliver then_ ask catchError mbind proc_bind]. rewrite Ha. cbn.
unfold find_task. cbn. apply find_none_iff, Forall_forall. intros t Hin.
apply list_elem_of_In, filter_In in Hin as [_ Hn]. by apply negb_true_iff.
Qed.
End safety.

(** ** Sample runs *)

Definition sample_operation (status : string) : CaptureOperation :=
  {| op_captureId := "c1"; op_status := status; op_progress := None; op_lastEventSequence := num_of_Z 0;
     op_error := None |}.

(** A runtime that answers every call about its one capture with [status]. *)
Definition sample_answer (status : string) (call : Call) : result caught (reply_of call) :=
  match call return result caught (reply_of call) with
  | Preprocess file _ => Ok file
  | StartStreamingCapture _ | GetStreamingCapture _ | CancelStreamingCapture _
  | CommitStreamingStructuredResult _ _ _ | ReportStreamingStructuringFailure _ _ _ => Ok (sample_operation status)
  | CaptureEvents _ _ => Ok {| event_eventType := "completed"; event_stage := "completed" |}
  | GetStreamingRaw _ => Ok sample_raw
  | GetStreamingResult _ => Ok {| result_raw := sample_raw; result_result := sample_candidate |}
  | Structure _ _ _ => Ok sample_candidate
  | GetStreamingPartial _ | DeleteStreamingCapture _ | AwaitReview _ => Err (plain_error "unused")
  end.

Definition host_context : WorkflowContext :=
  {| enabledSources := [pdf; audio]; host_structuring := true; component_owner := true; multiple := true;
     targetLanguage := None; concurrency := 1; reviewBeforeCommit := false; identifySpeakers := false;
     spokenLanguage := None; active_client := StreamingClient; has_provider := true; has_preprocessor := false |}.

Definition run_in (context : WorkflowContext) (actions : list Action) : system :=
  fold_left (act sample_uuid context) actions init.

Lemma run_in_reachable context actions : reachable sample_uuid context (run_in context actions).
Proof.
  unfold run_in. assert (H : reachable sample_uuid context init) by constructor. revert H.
  generalize init. induction actions as [|a actions IH]; intros sys H; cbn; [done|].
  apply IH. by constructor.
Qed.

(** One file up to the commit of its structured result. *)
Definition committing_run : list Action :=
  let reply := TaskInput "" (Reply (sample_answer "awaiting_structuring")) in
  [EnqueueFiles (take 1 two_files); reply; reply; reply].

Lemma committed_candidates_are_validated_witness :
  ∃ rid, Sent (CommitStreamingStructuredResult "c1" rid sample_candidate) ∈ observed (run_in host_context committing_run) ∧
  ∃ raw, RawFetched "c1" raw ∈ observed (run_in host_context committing_run) ∧
         validateStructuringCandidate sample_candidate raw = [].
Proof.
  exists (sample_uuid 2).
  assert (H : Sent (CommitStreamingStructuredResult "c1" (sample_uuid 2) sample_candidate)
              ∈ observed (run_in host_context committing_run)) by (vm_compute; left).
  split; [exact H|].
  exact (committed_candidates_are_validated sample_uuid host_context _ _ _ _ (run_in_reachable _ _) H).
Defined.

(** A task is canceled by the user while the run reads the raw capture of a
    failed operation; the aborted read is swallowed and the task fails. *)
Definition aborted_answer (call : Call) : result caught (reply_of call) := Err abort_exception.

Definition canceled_run : list Action :=
  [EnqueueFiles (take 1 two_files); TaskInput "" (Reply (sample_answer "failed")); Cancel ""].

(** A canceled task can fail afterwards: a task canceled by its user while
    the run reads the raw capture of a failed operation is shown as canceled,
    and as failed once the aborted read has returned. *)
Lemma canceled_task_can_fail :
  statuses (run_in sample_context canceled_run) = [("a.pdf", "canceled")] ∧
  statuses (run_in sample_context (canceled_run ++ [TaskInput "" (Reply aborted_answer)])) = [("a.pdf", "failed")].
Proof. split; vm_compute; reflexivity. Qed.

(** A completed task is removed. *)
Definition removing_run : list Action :=
  let reply := TaskInput "" (Reply (sample_answer "completed")) in
  [EnqueueFiles (take 1 two_files); reply; reply; Remove ""].

Lemma failed_deletion_removes_task_witness :
  find_task "" (state (run_in sample_context removing_run)) <> None ∧
  find_task "" (state (removal_input 0 (Reply aborted_answer) (run_in sample_context removing_run))) = None.
Proof.
  split; [vm_compute; intros H; discriminate H|].
  assert (Hid : fst <$> removing (run_in sample_context removing_run) !! 0%nat = Some "") by (vm_compute; reflexivity).
  destruct (removing (run_in sample_context removing_run) !! 0%nat) as [[i p]|] eqn:Hp; [|discriminate Hid].
  injection Hid as ->.
  apply (failed_deletion_removes_task sample_uuid sample_context _ 0 "" p aborted_answer _ (run_in_reachable _ _) Hp).
  intros c. exists abort_exception. reflexivity.
Defined.
