(* ===== verification/Installation.v ===== *)
(** * Installing runtime components

    Models src/packages/capture-workbench-ui/src/lib/installation/capture-runtime-installation.service.ts:
    one user action installs the missing requirements one after the other,
    polling each until it ends; the user may cancel.  The requirements are those
    of capture-workflow/capture-workbench-store.ts.

    The run of an action is a process that waits for the client, for the delay
    between two polls and for the reload of the requirements.  Polling has no
    bound: as in [DesktopCapture] a run ends at each poll with its [phase], and
    [resume] goes on from there. *)

From stdpp Require Import gmap.
From S2P Require Import Prelude JsString JsNum JsValue CaptureModel CaptureHelpers StoreHelpers Observable.

(** ** Requirements *)

Definition INSTALLATION_ORDER : list (string * Z) :=
  [("windowsml-ocr", 0); ("speech-recognition", 1); ("speaker-diarization", 2); ("vertical-japanese-reader", 3);
   ("ollama-runtime", 4); ("capture-ollama-model", 5)].

Definition installation_order (requirement : RuntimeRequirement) : Z :=
  default MAX_SAFE_INTEGER (table_find INSTALLATION_ORDER (requirementId requirement)).
#[local] Arguments installation_order : simpl never.

(** [sort] by that order; requirements of the same order stay in place. *)
Fixpoint insert_requirement (requirement : RuntimeRequirement) (l : list RuntimeRequirement)
    : list RuntimeRequirement :=
  match l with
  | [] => [requirement]
  | x :: l' => if installation_order x <? installation_order requirement
               then x :: insert_requirement requirement l' else requirement :: x :: l'
  end.

Definition is_installable (requirement : RuntimeRequirement) : bool :=
  String.eqb (requirement_status requirement) "installable".

Definition installable (requirements : list RuntimeRequirement) : list RuntimeRequirement :=
  foldr insert_requirement [] (List.filter is_installable requirements).

(** [requirementIsNeeded] of the store, for its resolved configuration. *)
Definition requirementIsNeeded (enabledSources : list CaptureSourceKind) (identifySpeakers : bool)
    (structuringMode : string) (requirement : RuntimeRequirement) : bool :=
  if String.eqb (requirementId requirement) "windowsml-ocr"
  then bool_decide (pdf ∈ enabledSources) || bool_decide (image ∈ enabledSources)
  else if String.eqb (requirementId requirement) "speech-recognition" then bool_decide (audio ∈ enabledSources)
  else if String.eqb (requirementId requirement) "speaker-diarization"
  then identifySpeakers && bool_decide (audio ∈ enabledSources)
  else if requirement_optional requirement then false
  else String.eqb structuringMode "runtime".

(** ** State *)

Inductive InstallCall : Type :=
| StartInstallation (clientRequestId requirementId : string)
| GetInstallation (installationId : string)
| Delay
| Reload
| CancelInstallation (installationId : string).

Definition install_reply (call : InstallCall) : Type :=
  match call with
  | StartInstallation _ _ | GetInstallation _ | CancelInstallation _ => RuntimeInstallation
  | Delay | Reload => unit
  end.

(** [controller] is the AbortController of the run, with its aborted flag;
    [requirements] is what [options.requirements()] returns at the moment.  The
    ghost field [started] lists the requirements the run has started, the
    newest first, each with the requirements it was chosen from. *)
Record installer : Type := {
  installation : option RuntimeInstallation;
  shown_error : option string;
  controller : option bool;
  requirements : list RuntimeRequirement;
  completedRequirementIds : list string;
  requestIds : gmap string string;
  installationsStarted : nat;
  installer_uuids : nat;
  started : list (string * list RuntimeRequirement)
}.

Inductive phase : Type :=
| Done
| Polling (requirementId : string) (current : RuntimeInstallation).

Abbreviation action := (proc installer InstallCall Empty_set caught install_reply).

Definition MAX_INSTALLATIONS_PER_USER_ACTION : nat := 16.

Definition set_installation (i : option RuntimeInstallation) (s : installer) : installer :=
  {| installation := i; shown_error := shown_error s; controller := controller s; requirements := requirements s;
     completedRequirementIds := completedRequirementIds s; requestIds := requestIds s;
     installationsStarted := installationsStarted s; installer_uuids := installer_uuids s; started := started s |}.

Definition set_error (e : option string) (s : installer) : installer :=
  {| installation := installation s; shown_error := e; controller := controller s; requirements := requirements s;
     completedRequirementIds := completedRequirementIds s; requestIds := requestIds s;
     installationsStarted := installationsStarted s; installer_uuids := installer_uuids s; started := started s |}.

Definition set_controller (c : option bool) (s : installer) : installer :=
  {| installation := installation s; shown_error := shown_error s; controller := c; requirements := requirements s;
     completedRequirementIds := completedRequirementIds s; requestIds := requestIds s;
     installationsStarted := installationsStarted s; installer_uuids := installer_uuids s; started := started s |}.

Definition set_requirements (l : list RuntimeRequirement) (s : installer) : installer :=
  {| installation := installation s; shown_error := shown_error s; controller := controller s; requirements := l;
     completedRequirementIds := completedRequirementIds s; requestIds := requestIds s;
     installationsStarted := installationsStarted s; installer_uuids := installer_uuids s; started := started s |}.

(** The variables of a new run. *)
Definition new_run (s : installer) : installer :=
  {| installation := installation s; shown_error := shown_error s; controller := Some false;
     requirements := requirements s; completedRequirementIds := []; requestIds := ∅; installationsStarted := 0;
     installer_uuids := installer_uuids s; started := [] |}.

(** [completedRequirementIds.add(id)] and [this.installation.set(null)]. *)
Definition complete (id : string) (s : installer) : installer :=
  {| installation := None; shown_error := shown_error s; controller := controller s; requirements := requirements s;
     completedRequirementIds := id :: completedRequirementIds s; requestIds := requestIds s;
     installationsStarted := installationsStarted s; installer_uuids := installer_uuids s; started := started s |}.

Definition sanitizeInstallation (i : RuntimeInstallation) : RuntimeInstallation :=
  {| installationId := installationId i; installation_requirementId := installation_requirementId i;
     installation_status := installation_status i; installation_progress := installation_progress i;
     installation_error := redactFailure <$> installation_error i |}.

(** [this.installation.set(this.sanitizeInstallation(i))] *)
Definition show (i : RuntimeInstallation) : installer → installer := set_installation (Some (sanitizeInstallation i)).

Definition aborted (s : installer) : bool := bool_decide (controller s = Some true).

Section install.
Variable uuid : nat → string.

(** ** One run *)

Definition not_completed (s : installer) (requirement : RuntimeRequirement) : bool :=
negb (includes (completedRequirementIds s) (requirementId requirement)).

Definition limit_error : caught :=
{| is_error := true; is_dom_exception := false; is_type_error := false; error_name := "Error";
 error_message := Str "Runtime installation stopped after reaching the safety limit.";
 error_code := Undefined; error_status := Undefined |}.

Definition client_request_id (id : string) (s : installer) : string :=
default (uuid (installer_uuids s)) (requestIds s !! id).

(** The request is remembered and counted. *)
Definition begin_installation (id : string) (s : installer) : installer :=
{| installation := installation s; shown_error := shown_error s; controller := controller s;
 requirements := requirements s; completedRequirementIds := completedRequirementIds s;
 requestIds := <[id := client_request_id id s]> (requestIds s);
 installationsStarted := S (installationsStarted s);
 installer_uuids := match requestIds s !! id with Some _ => installer_uuids s | None => S (installer_uuids s) end;
 started := (id, requirements s) :: started s |}.

(** [retryUncertainResponse(() => client.startInstallation(request, signal), signal)] *)
Definition start_or_retry (call : InstallCall) : action (install_reply call) :=
catchError (λ error, Read (λ s,
  if aborted s then Throw abort_exception
  else if isUncertainResponseFailure error then ask call else Throw error))
(ask call).

(** [installNext] up to the first poll. *)
Definition installNext : action phase :=
Read (λ s,
if aborted s then Throw abort_exception
else match List.find (not_completed s) (installable (requirements s)) with
| None =>
    if Nat.eqb (installationsStarted s) MAX_INSTALLATIONS_PER_USER_ACTION &&
       existsb (not_completed s) (installable (requirements s))
    then Throw limit_error else Return Done
| Some requirement =>
    if (MAX_INSTALLATIONS_PER_USER_ACTION <=? installationsStarted s)%nat then Throw limit_error
    else
      let id := requirementId requirement in
      let clientRequestId := client_request_id id s in
      Update (begin_installation id)
        (current ← start_or_retry (StartInstallation clientRequestId id);
         update (show current);;
         Return (Polling id current))
end).

Definition in_progress (i : RuntimeInstallation) : bool := includes ["queued"; "running"] (installation_status i).

(** [abortableDelay(pollIntervalMs(), signal)] *)
Definition abortableDelay : action unit :=
Read (λ s, if aborted s then Throw abort_exception else ask Delay).

(** One round of [pollInstallation], or what follows its last one. *)
Definition poll (id : string) (current : RuntimeInstallation) : action phase :=
if in_progress current then
abortableDelay;;
next ← (ask (GetInstallation (installationId current)) : action RuntimeInstallation);
update (show next);;
Return (Polling id next)
else if String.eqb (installation_status current) "completed" then
update (complete id);;
(ask Reload : action unit);;
installNext
else Empty.

(** [catchError] of the run. *)
Definition handled (p : action phase) : action phase :=
catchError (λ error,
if isAbortError error then Return Done
else update (set_error (Some (errorMessage error "Runtime installation failed.")));; Return Done) p.

Definition go_on (p : phase) : action phase :=
match p with Done => Return Done | Polling id current => handled (poll id current) end.

(** [finalize] of the run. *)
Definition finalize (s : installer) : installer :=
let s' := set_controller None s in
if bool_decide ((installation_status <$> installation s) = Some "completed") then set_installation None s' else s'.

(** ** The service *)

(** The run under way, the cancellations the client has not answered, and the
requests sent, newest first. *)
Record service : Type := {
state : installer;
run_of : option (action phase);
cancelling : list string;
sent : list InstallCall
}.

Definition with_state (f : installer → installer) (sys : service) : service :=
{| state := f (state sys); run_of := run_of sys; cancelling := cancelling sys; sent := sent sys |}.

(** Run to the next wait or to the end. *)
Definition resume (p : action phase) (s : installer) : installer * action phase :=
match advance p s with
| (s', Return ph) => advance (go_on ph) s'
| r => r
end.

Definition run (p : action phase) (sys : service) : service :=
let '(s, p') := resume p (state sys) in
match waits_at p' with
| Some call => {| state := s; run_of := Some p'; cancelling := cancelling sys; sent := call :: sent sys |}
| None => {| state := finalize s; run_of := None; cancelling := cancelling sys; sent := sent sys |}
end.

(** [this.installSubscription?.unsubscribe()]: a run under way is dropped. *)
Definition unsubscribe (sys : service) : service :=
match run_of sys with
| Some _ => {| state := finalize (state sys); run_of := None; cancelling := cancelling sys; sent := sent sys |}
| None => sys
end.

Definition install (has_client : bool) (sys : service) : service :=
if negb has_client || bool_decide (is_Some (installation (state sys))) then sys
else match installable (requirements (state sys)) with
| [] => sys
| _ => run (handled installNext) (with_state new_run (unsubscribe sys))
end.

(** The listener of [abortableDelay]: a run in its delay fails at once. *)
Definition fail_delay (p : action phase) : option (action phase) :=
match p with
| Ask call _ k =>
  match call return (result caught (install_reply call) → action phase) → option (action phase) with
  | Delay => λ k, Some (k (Err abort_exception))
  | _ => λ _, None
  end k
| _ => None
end.

(** [this.controller?.abort()] *)
Definition abort (sys : service) : service :=
match controller (state sys) with
| Some _ =>
  let sys' := with_state (set_controller (Some true)) sys in
  match run_of sys' ≫= fail_delay with Some p => run p sys' | None => sys' end
| None => sys
end.

Definition cancel (has_client : bool) (sys : service) : service :=
match installation (state sys) with
| Some current =>
  if has_client then
    let sys' := abort sys in
    {| state := state sys'; run_of := run_of sys'; cancelling := cancelling sys' ++ [installationId current];
       sent := CancelInstallation (installationId current) :: sent sys' |}
  else sys
| None => sys
end.

(** [onDestroy] *)
Definition destroy (sys : service) : service := unsubscribe (abort sys).

Inductive Action : Type :=
| Install (has_client : bool)
| Cancel (has_client : bool)
| ClearError
| Reply (answer : ∀ call, result caught (install_reply call))
| CancelReply (index : nat) (answer : result caught RuntimeInstallation)
| SetRequirements (l : list RuntimeRequirement)
| Destroy.

(** The run's call is answered; a delay does not fail by itself. *)
Definition reply (answer : ∀ call, result caught (install_reply call)) (sys : service) : service :=
match run_of sys with
| Some (Ask call _ k) => run (k (match call with Delay => Ok tt | call => answer call end)) sys
| _ => sys
end.

Definition cancel_reply (index : nat) (answer : result caught RuntimeInstallation) (sys : service) : service :=
match cancelling sys !! index with
| Some _ =>
  {| state := match answer with
              | Ok canceled => show canceled (state sys)
              | Err error => set_error (Some (errorMessage error "Unable to cancel runtime installation.")) (state sys)
              end;
     run_of := run_of sys; cancelling := take index (cancelling sys) ++ drop (S index) (cancelling sys);
     sent := sent sys |}
| None => sys
end.

Definition act (sys : service) (a : Action) : service :=
match a with
| Install has_client => install has_client sys
| Cancel has_client => cancel has_client sys
| ClearError => with_state (set_error None) sys
| Reply answer => reply answer sys
| CancelReply index answer => cancel_reply index answer sys
| SetRequirements l => with_state (set_requirements l) sys
| Destroy => destroy sys
end.

Definition init : service :=
{| state := {| installation := None; shown_error := None; controller := None; requirements := [];
   completedRequirementIds := []; requestIds := ∅; installationsStarted := 0; installer_uuids := 0; started := [] |};
 run_of := None; cancelling := []; sent := [] |}.

Inductive reachable : service → Prop :=
| reachable_init : reachable init
| reachable_act sys a : reachable sys → reachable (act sys a).
End install.

(** ** The order of installations *)

Lemma insert_requirement_elem r x l : x ∈ insert_requirement r l ↔ x = r ∨ x ∈ l.
Proof.
  induction l as [|y l IH]; cbn; [by rewrite list_elem_of_singleton, elem_of_nil; naive_solver|].
  destruct (_ <? _); rewrite ?elem_of_cons, ?IH; naive_solver.
Qed.

Definition order_le (a b : RuntimeRequirement) : Prop := installation_order a ≤ installation_order b.

Lemma insert_requirement_sorted r l :
  StronglySorted order_le l → StronglySorted order_le (insert_requirement r l).
Proof.
  induction 1 as [|y l Hl IH Hy]; cbn; [by repeat constructor|].
  destruct (Z.ltb_spec (installation_order y) (installation_order r)).
  - constructor; [done|]. apply Forall_forall. intros x. rewrite insert_requirement_elem.
    intros [->|Hx]; [unfold order_le; lia|]. by apply (proj1 (Forall_forall _ _) Hy).
  - repeat constructor; [done..| |]; [unfold order_le; lia|].
    eapply Forall_impl; [exact Hy|]. unfold order_le. intros. lia.
Qed.

Lemma installable_elem x l : x ∈ installable l ↔ x ∈ l ∧ is_installable x = true.
Proof.
  unfold installable. rewrite (list_elem_of_In l x), <-(List.filter_In is_installable x l), <-list_elem_of_In.
  induction (List.filter is_installable l) as [|y ys IH]; cbn; [done|].
  by rewrite insert_requirement_elem, elem_of_cons, IH.
Qed.

Lemma installable_sorted l : StronglySorted order_le (installable l).
Proof.
  unfold installable. induction (List.filter is_installable l); cbn; [constructor|by apply insert_requirement_sorted].
Qed.

Lemma find_sorted p l x :
  StronglySorted order_le l → List.find p l = Some x →
  x ∈ l ∧ p x = true ∧ ∀ y, y ∈ l → p y = true → order_le x y.
Proof.
  induction 1 as [|y l Hl IH Hy]; cbn; [done|]. destruct (p y) eqn:Hp.
  - intros [= ->]. split; [left|]. split; [done|]. intros z [->|Hz]%elem_of_cons _; [unfold order_le; lia|].
    by apply (proj1 (Forall_forall _ _) Hy).
  - intros (Hx & Hpx & Hmin)%IH. split; [by right|]. split; [done|].
    intros z [->|Hz]%elem_of_cons Hz'; [congruence|auto].
Qed.

(** [id] is the first installable requirement that was not installed before. *)
Definition chosen (id : string) (available : list RuntimeRequirement) (before : list string) : Prop :=
  ∃ requirement, requirement ∈ available ∧ requirementId requirement = id ∧ is_installable requirement = true ∧
    id ∉ before ∧
    ∀ other, other ∈ available → is_installable other = true → requirementId other ∉ before →
      installation_order requirement ≤ installation_order other.

Fixpoint in_order (l : list (string * list RuntimeRequirement)) : Prop :=
  match l with [] => True | (id, available) :: before => chosen id available (map fst before) ∧ in_order before end.

Lemma in_order_distinct l : in_order l → NoDup (map fst l).
Proof.
  induction l as [|[id available] l IH]; cbn; [constructor|]. intros [(r & _ & _ & _ & Hid & _) Hl].
  constructor; auto.
Qed.

Lemma next_is_chosen s requirement :
  List.find (not_completed s) (installable (requirements s)) = Some requirement →
  chosen (requirementId requirement) (requirements s) (completedRequirementIds s).
Proof.
  intros (Hin & Hnew & Hmin)%find_sorted; [|apply installable_sorted]. apply installable_elem in Hin as [Hin Hst].
  unfold not_completed in Hnew. apply negb_true_iff, includes_false in Hnew.
  exists requirement. split_and!; [done..|]. intros other Ho Hi Hb. apply Hmin; [by apply installable_elem|].
  unfold not_completed. by apply negb_true_iff, includes_false.
Qed.

(** ** The invariant of a run *)

Section invariant.
Variable uuid : nat → string.

(** What every state satisfies. *)
Definition fair (s : installer) : Prop :=
in_order (started s) ∧ (length (started s) ≤ MAX_INSTALLATIONS_PER_USER_ACTION)%nat.

Definition counted (s : installer) : Prop := installationsStarted s = length (started s).

(** Between two installations, and during one. *)
Definition all_completed (s : installer) : Prop := counted s ∧ completedRequirementIds s = map fst (started s).
Definition one_running (id : string) (s : installer) : Prop :=
counted s ∧ id :: completedRequirementIds s = map fst (started s).

Definition keeps_fair (s s' : installer) : Prop := fair s → fair s'.

(** What the others may change while the run waits. *)
Definition others (s s' : installer) : Prop :=
started s' = started s ∧ installationsStarted s' = installationsStarted s ∧
completedRequirementIds s' = completedRequirementIds s.

#[local] Instance keeps_fair_preorder : PreOrder keeps_fair.
Proof. split; unfold keeps_fair; [by intros s|]. intros x y z. tauto. Qed.

#[local] Instance others_preorder : PreOrder others.
Proof. split; [by repeat split|]. intros x y z (? & ? & ?) (? & ? & ?). unfold others. split_and!; congruence. Qed.

Abbreviation follows := (obeys (Event:=Empty_set) (reply_of:=install_reply) (λ _ _, True) keeps_fair others (λ _ _, True) (λ _ _ st, st)).

Definition run_post (e : ending (Error:=caught) phase) (s : installer) : Prop :=
match e with Value (Polling id _) => one_running id s | _ => True end.

Lemma all_completed_others s s' : others s s' → all_completed s → all_completed s'.
Proof. unfold all_completed, counted. intros (-> & -> & ->). done. Qed.

Lemma one_running_others id s s' : others s s' → one_running id s → one_running id s'.
Proof. unfold one_running, counted. intros (-> & -> & ->). done. Qed.

Lemma follows_ask call (Q : ending (Error:=caught) (install_reply call) → installer → Prop) s :
(∀ r s', others s s' → Q (match r with Ok a => Value a | Err e => Failed e end) s') → follows Q (ask call) s.
Proof. intros HQ. apply obeys_ask; [done|]. intros r s' _. apply HQ. Qed.

Lemma follows_start call (Q : ending (Error:=caught) (install_reply call) → installer → Prop) s :
(∀ e s', others s s' → Q e s') → follows Q (start_or_retry call) s.
Proof.
intros HQ. unfold start_or_retry. apply obeys_catch, follows_ask. intros [a|e] s1 H1; [by apply HQ|].
cbn [obeys]. destruct (aborted s1); [by apply HQ|]. destruct (isUncertainResponseFailure e); [|by apply HQ].
apply follows_ask. intros [a|e'] s2 H2; apply HQ; by etrans.
Qed.

Lemma follows_installNext s : all_completed s → follows run_post (installNext uuid) s.
Proof.
intros [Hn Hc]. unfold installNext. cbn [obeys]. destruct (aborted s); [done|].
destruct (List.find _ _) as [requirement|] eqn:Hf; [|destruct (_ && _); exact I].
destruct (Nat.leb_spec MAX_INSTALLATIONS_PER_USER_ACTION (installationsStarted s)) as [|Hlt]; [done|].
apply next_is_chosen in Hf. cbv zeta. rewrite Hc in Hf. split.
- intros [Ho Hl]. split; [by split|]. unfold counted in Hn. cbn. lia.
- apply obeys_then, follows_start. intros [current| |e] s1 (Hst & Hin & Hco); [|done..].
apply obeys_then, obeys_update; [by intros ?|]. cbn. split.
+ unfold counted. cbn. rewrite Hst, Hin. cbn. by rewrite Hn.
+ cbn. rewrite Hst, Hco. cbn. by rewrite Hc.
Qed.

Lemma follows_poll id current s : one_running id s → follows run_post (poll uuid id current) s.
Proof.
intros H. unfold poll, abortableDelay. destruct (in_progress current).
- apply obeys_then. cbn [obeys]. destruct (aborted s); [done|].
apply (follows_ask Delay). intros [[]|e] s1 H1; [|done].
apply obeys_then, (follows_ask (GetInstallation _)). intros [next|e] s2 H2; [|done].
apply obeys_then, obeys_update; [by intros ?|]. cbn.
change (one_running id s2). by eapply one_running_others, one_running_others.
- destruct (String.eqb _ _); [|done]. apply obeys_then, obeys_update; [by intros ?|].
apply obeys_then, (follows_ask Reload). intros [[]|e] s1 H1; [|done].
apply follows_installNext. eapply all_completed_others; [done|].
destruct H as [Hn Hc]. by split.
Qed.

Lemma follows_handled p s : follows run_post p s → follows run_post (handled p) s.
Proof.
intros H. unfold handled. apply obeys_catch. eapply obeys_mono; [exact H|]. intros [ph| |e] s1 H1; [done..|].
destruct (isAbortError e); [done|]. apply obeys_then. apply obeys_update; [by intros ?|done].
Qed.

Lemma follows_go_on ph s : run_post (Value ph) s → follows run_post (go_on uuid ph) s.
Proof. destruct ph; [done|]. intros H. by apply follows_handled, follows_poll. Qed.

(** A run stops only where it waits or is over, never between two polls. *)
Lemma resume_ends p s s' id current : resume uuid p s ≠ (s', Return (Polling id current)).
Proof.
unfold resume. destruct (advance p s) as [s1 p1]. destruct p1 as [[|id1 i1]| | | | | |]; try done.
cbn [go_on]. unfold poll, abortableDelay. destruct (in_progress i1).
- unfold handled. cbn [advance then_ catchError mbind proc_bind]. destruct (aborted s1); [|done]. by cbn [advance then_ catchError].
- by destruct (String.eqb _ _).
Qed.

(** A run that waits keeps to this; every state is fair. *)
Definition well_run (sys : service) : Prop :=
fair (state sys) ∧
match run_of sys with Some p => is_Some (waits_at p) ∧ follows run_post p (state sys) | None => True end.

Lemma fair_finalize s : fair s → fair (finalize s).
Proof. unfold finalize. cbv zeta. by destruct (bool_decide _). Qed.

Lemma resume_follows p s s' p' :
follows run_post p s → resume uuid p s = (s', p') → keeps_fair s s' ∧ follows run_post p' s'.
Proof.
intros Hp. destruct (obeys_advance _ _ _ _ _ _ _ _ Hp) as [Hf Ha]. unfold resume.
destruct (advance p s) as [s1 p1]. cbn [fst snd] in *.
destruct p1; try by intros [= <- <-].
intros Hr. destruct (obeys_advance _ _ _ _ _ _ _ _ (follows_go_on _ _ Ha)) as [Hf' Ha']. rewrite Hr in *.
split; [by etrans|done].
Qed.

Lemma well_run_run p sys :
fair (state sys) → follows run_post p (state sys) → well_run (run uuid p sys).
Proof.
intros Hf Hp. unfold run. destruct (resume uuid p (state sys)) as [s' p'] eqn:Hr.
destruct (resume_follows _ _ _ _ Hp Hr) as [Hk Hp'].
destruct (waits_at p') eqn:Hw; split; cbn; [by apply Hk| |by apply fair_finalize, Hk|done].
split; [by eexists|done].
Qed.

Lemma well_run_run_of sys p :
well_run sys → run_of sys = Some p → is_Some (waits_at p) ∧ follows run_post p (state sys).
Proof. intros [_ H] Hp. by rewrite Hp in H. Qed.

(** Changes that keep what the run counts on. *)
Lemma well_run_same sys sys' :
others (state sys) (state sys') → run_of sys' = run_of sys → well_run sys → well_run sys'.
Proof.
intros Ho Hr [Hf Hp]. split.
- destruct Ho as (Hs & _ & _). unfold fair. by rewrite Hs.
- rewrite Hr. destruct (run_of sys) as [p|]; [|done]. destruct Hp as [Hw Hp]. split; [done|].
eapply obeys_waiting; [apply others_preorder|done|done|exact Ho|exact Hp].
Qed.

Lemma unsubscribe_run_of sys : run_of (unsubscribe sys) = None.
Proof. unfold unsubscribe. by destruct (run_of sys) eqn:E. Qed.

Lemma well_run_unsubscribe sys : well_run sys → fair (state (unsubscribe sys)).
Proof. intros [Hf _]. unfold unsubscribe. destruct (run_of sys); [by apply fair_finalize|done]. Qed.

Lemma well_run_answer call ab k r sys :
well_run sys → run_of sys = Some (Ask call ab k) → well_run (run uuid (k r) sys).
Proof.
intros Hw Hp. destruct (well_run_run_of _ _ Hw Hp) as [_ [_ Hk]]. apply well_run_run; [apply Hw|]. by apply Hk.
Qed.

Lemma well_run_abort sys : well_run sys → well_run (abort uuid sys).
Proof.
intros Hw. unfold abort. destruct (controller (state sys)); [|done]. cbv zeta.
assert (well_run (with_state (set_controller (Some true)) sys)) as Hw'.
{ by apply (well_run_same sys). }
destruct (run_of _) as [p|] eqn:Hp; cbn [mbind option_bind]; [|done].
destruct p as [| | | | |call ab k|]; try done. destruct call; try done. by eapply well_run_answer.
Qed.

Lemma reachable_well_run sys : reachable uuid sys → well_run sys.
Proof.
induction 1 as [|sys a _ IH]; [split; [by split; [|cbn; lia]|done]|].
destruct a as [has|has| |answer|index answer|l|]; cbn [act].
- unfold install. destruct (_ || _); [done|]. destruct (installable _); [done|].
apply well_run_run.
+ by split; [|cbn; lia].
+ apply follows_handled, follows_installNext. by split.
- unfold cancel. destruct (installation (state sys)) as [current|]; [|done]. destruct has; [|done]. cbv zeta.
apply (well_run_same (abort uuid sys)); [done|done|by apply well_run_abort].
- by apply (well_run_same sys).
- unfold reply. destruct (run_of sys) as [[| | | | |call ab k|]|] eqn:Hp; try done. by eapply well_run_answer.
- unfold cancel_reply. destruct (cancelling sys !! index); [|done].
apply (well_run_same sys); [|done|exact IH]. by destruct answer.
- by apply (well_run_same sys).
- split; [by apply well_run_unsubscribe, well_run_abort|]. unfold destroy. by rewrite unsubscribe_run_of.
Qed.

(** One action installs in order, within its limit: of the requirements a
run has started, at most sixteen, none is started twice, and each was
installable and the first in the installation order among those installable
at that moment that the run had not installed before. *)
Lemma one_action_installs_in_order sys :
reachable uuid sys →
NoDup (map fst (started (state sys))) ∧ (length (started (state sys)) ≤ 16)%nat ∧
∀ later id available earlier, started (state sys) = later ++ (id, available) :: earlier →
chosen id available (map fst earlier).
Proof.
intros [[Ho Hl] _]%reachable_well_run. split; [by apply in_order_distinct|]. split; [done|].
intros later id available earlier Hs. rewrite Hs in Ho. clear Hs.
induction later as [|[] later IH]; cbn in Ho; [by destruct Ho|]. apply IH, Ho.
Qed.

(** ** After a cancellation *)

Definition is_start (call : InstallCall) : bool := match call with StartInstallation _ _ => true | _ => false end.

Definition starts (sys : service) : list InstallCall := List.filter is_start (sent sys).

(** The run starts nothing while its signal is aborted. *)
Abbreviation careful := (obeys (Event:=Empty_set) (reply_of:=install_reply)
(λ st call, is_start call = true → aborted st = false) (λ st st', aborted st' = aborted st) (λ _ _, True)
(λ _ _, True) (λ _ _ st, st) (λ _ _, True)).

#[local] Instance same_aborted_preorder : PreOrder (λ st st' : installer, aborted st' = aborted st).
Proof. split; [by intros s|]. intros x y z. congruence. Qed.

Lemma careful_installNext s : careful (installNext uuid) s.
Proof.
unfold installNext. cbn [obeys]. destruct (aborted s) eqn:Ha; [done|].
destruct (List.find _ _) as [requirement|]; [|destruct (_ && _); exact I].
destruct (_ <=? _)%nat; [done|]. cbv zeta. split; [done|].
apply obeys_then, obeys_catch, obeys_ask; [by intros _|]. intros [current|e] s1 _ _; [by split|].
cbn [obeys]. destruct (aborted s1) eqn:Ha1; [done|]. destruct (isUncertainResponseFailure e); [|done].
apply obeys_ask; [done|]. intros [current|e'] s2 _ _; [by split|done].
Qed.

Lemma careful_poll id current s : careful (poll uuid id current) s.
Proof.
unfold poll, abortableDelay. destruct (in_progress current).
- apply obeys_then. cbn [obeys]. destruct (aborted s); [done|]. split; [done|]. intros [[]|e] s1 _ _; [|done].
split; [done|]. intros [next|e] s2 _ _; [by split|done].
- destruct (String.eqb _ _); [|done]. split; [done|]. split; [done|]. intros [[]|e] s1 _ _; [|done].
apply careful_installNext.
Qed.

Lemma careful_handled p s : careful p s → careful (handled p) s.
Proof.
intros H. apply obeys_catch. eapply obeys_mono; [exact H|]. intros [ph| |e] s1 _; [done..|].
destruct (isAbortError e); [done|]. by split.
Qed.

Lemma careful_resume p s s' p' :
careful p s → resume uuid p s = (s', p') → aborted s' = aborted s ∧ careful p' s'.
Proof.
intros Hp. destruct (obeys_advance _ _ _ _ _ _ _ _ Hp) as [Hf Ha]. unfold resume.
destruct (advance p s) as [s1 p1]. cbn [fst snd] in *.
destruct p1 as [ph| | | | | |]; try by intros [= <- <-].
intros Hr. assert (careful (go_on uuid ph) s1) as Hg.
{ destruct ph; [done|]. apply careful_handled, careful_poll. }
destruct (obeys_advance _ _ _ _ _ _ _ _ Hg) as [Hf' Ha']. rewrite Hr in *. split; [|done].
cbn in Hf'. congruence.
Qed.

(** The continuations of the run that waits. *)
Definition careful_run (sys : service) : Prop :=
match run_of sys with Some (Ask _ _ k) => ∀ r s, careful (k r) s | _ => True end.

Lemma careful_run_run p sys :
careful p (state sys) →
careful_run (run uuid p sys) ∧
(aborted (state sys) = true → starts (run uuid p sys) = starts sys).
Proof.
intros Hp. unfold run. destruct (resume uuid p (state sys)) as [s' p'] eqn:Hr.
destruct (careful_resume _ _ _ _ Hp Hr) as [Ha Hp'].
destruct p' as [| | | | |call ab k|]; cbn [waits_at]; try by split.
destruct Hp' as [Hs Hk]. split; [intros r s; by apply Hk|].
intros Hab. unfold starts. cbn [sent List.filter]. destruct (is_start call) eqn:Hc; [|done].
cbn in Hs, Hab. specialize (Hs eq_refl). congruence.
Qed.

Lemma careful_abort sys :
careful_run sys → careful_run (abort uuid sys) ∧ starts (abort uuid sys) = starts sys.
Proof.
intros Hw. unfold abort. destruct (controller (state sys)); [|done]. cbv zeta.
destruct (run_of _) as [p|] eqn:Hp; cbn [mbind option_bind]; [|by split; [unfold careful_run; rewrite Hp|]].
unfold careful_run in Hw. cbn [with_state run_of] in Hp. rewrite Hp in Hw.
assert (careful_run (with_state (set_controller (Some true)) sys)) as Hw'.
{ unfold careful_run. cbn. by rewrite Hp. }
destruct p as [| | | | |call ab k|]; try done. destruct call; try done. cbn [fail_delay].
destruct (careful_run_run (k (Err abort_exception)) (with_state (set_controller (Some true)) sys)) as [H1 H2];
[by apply Hw|]. split; [done|by apply H2].
Qed.

Lemma reachable_careful sys : reachable uuid sys → careful_run sys.
Proof.
induction 1 as [|sys a _ IH]; [done|]. destruct a as [has|has| |answer|index answer|l|]; cbn [act]; try done.
- unfold install. destruct (_ || _); [done|]. destruct (installable _); [done|].
apply careful_run_run, careful_handled, careful_installNext.
- unfold cancel. destruct (installation (state sys)) as [current|]; [|done]. destruct has; [|done].
by apply careful_abort.
- unfold reply. unfold careful_run in IH. destruct (run_of sys) as [[| | | | |call ab k|]|] eqn:Hp;
  try by unfold careful_run; rewrite Hp. by apply careful_run_run.
- unfold cancel_reply. by destruct (cancelling sys !! index).
- unfold careful_run, destroy. by rewrite unsubscribe_run_of.
Qed.

Lemma unsubscribe_starts sys : starts (unsubscribe sys) = starts sys.
Proof. unfold unsubscribe. by destruct (run_of sys). Qed.

(** A cancelled run starts nothing more: once its signal is aborted, no
reply, no cancellation, no change of the requirements and no tear-down makes it send a
request to install, not even to repeat one whose answer was lost. *)
Lemma cancelled_run_starts_nothing sys a :
reachable uuid sys → aborted (state sys) = true → (∀ has_client, a ≠ Install has_client) →
starts (act uuid sys a) = starts sys.
Proof.
intros Hr%reachable_careful Ha Hne. destruct a as [has|has| |answer|index answer|l|]; cbn [act]; try done.
- by destruct (Hne has).
- unfold cancel. destruct (installation (state sys)) as [current|]; [|done]. destruct has; [|done].
by apply careful_abort.
- unfold reply. unfold careful_run in Hr. destruct (run_of sys) as [[| | | | |call ab k|]|] eqn:Hp; try done.
by apply careful_run_run.
- unfold cancel_reply. by destruct (cancelling sys !! index).
- unfold destroy. rewrite unsubscribe_starts. by apply careful_abort.
Qed.

(** ** After a failure *)

(** A stopped installation blocks the next one: when a run has ended and an
installation is still shown, which is so after a failure and after a
cancellation, no sequence of actions clears it or installs anything. *)
Lemma stopped_installation_blocks_installing sys actions :
run_of sys = None → installation (state sys) ≠ None →
let sys' := fold_left (act uuid) actions sys in
run_of sys' = None ∧ installation (state sys') ≠ None ∧ starts sys' = starts sys.
Proof.
cbv zeta. revert sys. induction actions as [|a actions IH]; intros sys Hr Hi; cbn [fold_left]; [done|].
assert (run_of (act uuid sys a) = None ∧ installation (state (act uuid sys a)) ≠ None ∧
      starts (act uuid sys a) = starts sys) as (Hr' & Hi' & Hs').
{ destruct a as [has|has| |answer|index answer|l|]; cbn [act].
- unfold install. by rewrite bool_decide_eq_true_2, orb_true_r by by apply not_eq_None_Some.
- unfold cancel. destruct (installation (state sys)) as [current|] eqn:E; [|done]. destruct has; [|by rewrite E].
  unfold abort. destruct (controller (state sys)); cbn; rewrite Hr; cbn; by rewrite E.
- done.
- unfold reply. by rewrite Hr.
- unfold cancel_reply. destruct (cancelling sys !! index); [|done]. destruct answer; by split_and!.
- done.
- unfold destroy, abort. destruct (controller (state sys)); cbn; unfold unsubscribe; cbn; rewrite Hr; cbn; by rewrite ?Hr. }
destruct (IH _ Hr' Hi') as (? & ? & ?). split_and!; congruence.
Qed.
End invariant.

(** ** Runs *)

Lemma reachable_actions uuid actions : reachable uuid (fold_left (act uuid) actions init).
Proof.
  induction actions as [|a actions IH] using rev_ind; [constructor|]. rewrite fold_left_app. by constructor.
Qed.

Definition sample_requirement (id : string) : RuntimeRequirement :=
  {| requirementId := id; requirement_status := "installable"; requirement_optional := false |}.

Definition sample_requirements : list RuntimeRequirement :=
  [sample_requirement "speech-recognition"; sample_requirement "windowsml-ocr"].

Definition sample_installation (status : string) : RuntimeInstallation :=
  {| installationId := "i1"; installation_requirementId := "windowsml-ocr"; installation_status := status;
     installation_progress := num_of_Z 0; installation_error := None |}.

Definition sample_answer (status : string) (call : InstallCall) : result caught (install_reply call) :=
  match call with
  | StartInstallation _ _ | GetInstallation _ | CancelInstallation _ => Ok (sample_installation status)
  | Delay | Reload => Ok tt
  end.

Definition sample_uuid (n : nat) : string := String (Ascii.ascii_of_nat (97 + n)) EmptyString.

Definition sample_run (actions : list Action) : service :=
  fold_left (act sample_uuid) (SetRequirements sample_requirements :: Install true :: actions) init.

(** The first is installed, which takes one poll; then the second is started. *)
Definition sample_installed : service :=
  sample_run [Reply (sample_answer "running"); Reply (sample_answer "running"); Reply (sample_answer "completed");
              Reply (sample_answer "completed")].

Lemma one_action_installs_in_order_witness :
  map fst (started (state sample_installed)) = ["speech-recognition"; "windowsml-ocr"] ∧
  NoDup (map fst (started (state sample_installed))) ∧ (length (started (state sample_installed)) ≤ 16)%nat ∧
  ∀ later id available earlier, started (state sample_installed) = later ++ (id, available) :: earlier →
    chosen id available (map fst earlier).
Proof.
  split; [by vm_compute|]. apply (one_action_installs_in_order sample_uuid), reachable_actions.
Defined.

Lemma cancelled_run_starts_nothing_witness :
  let sys := sample_run [Reply (sample_answer "running"); Reply (sample_answer "running"); Cancel true] in
  let sys' := act sample_uuid sys (Reply (sample_answer "completed")) in
  aborted (state sys) = true ∧ length (starts sys) = 1%nat ∧ starts sys' = starts sys.
Proof.
  cbv zeta. split; [by vm_compute|]. split; [by vm_compute|].
  apply cancelled_run_starts_nothing; [apply reachable_actions|by vm_compute|done].
Defined.

Lemma stopped_installation_blocks_installing_witness :
  let sys := sample_run [Reply (sample_answer "failed")] in
  let sys' := fold_left (act sample_uuid) [ClearError; Install true] sys in
  run_of sys' = None ∧ installation (state sys') ≠ None ∧ starts sys' = starts sys.
Proof.
  apply stopped_installation_blocks_installing; [by vm_compute|by vm_compute].
Defined.
