(* ===== verification/Store.v ===== *)
(** * The workbench store

    Models packages/capture-workbench-ui/src/lib/capture-workflow/capture-workbench-store.ts:
    what the component shows of the runtime, which requirements it offers, when
    captures are enabled, the installation it starts, and the object URLs of
    speaker samples.  An Angular resource is a parameter of the code: here it is
    the snapshot the store reads of it. *)

From stdpp Require Import gmap.
From S2P Require Import Prelude JsString JsNum JsValue JsMath JsCoerce Stringify RuntimeErrors Codec Effects Discovery Client CaptureModel CaptureHelpers StoreHelpers HttpClient WorkflowModel Installation.

(** ** Configuration *)

(** The part of [ResolvedCaptureWorkbenchConfig] the store decides with. *)
Record ResolvedConfig : Type := {
  enabledSources : list CaptureSourceKind;
  structuringMode : string;
  outputMode : string;
  pollIntervalMs : num;
  hostManagedHandshake : bool;
  identifySpeakers : bool;
  compatibleRuntimeMajor : num;
  compatibleRuntimeMinor : num
}.

(** [Math.max(1, Math.floor(concurrency ?? 1))] *)
Definition resolved_concurrency (configured : option num) : num :=
  num_max (num_of_Z 1) (math_floor (default (num_of_Z 1) configured)).

(** [Math.max(0, pollIntervalMs ?? 750)] *)
Definition resolved_pollInterval (configured : option num) : num :=
  num_max (num_of_Z 0) (default (num_of_Z 750) configured).

(** ** The runtime as shown *)

Record RuntimeHandshake : Type := {
  handshake_ready : RuntimeReady;
  handshake_requirements : list RuntimeRequirement
}.

Record RuntimeViewState : Type := {
  view_status : string;
  view_ready : option RuntimeReady;
  view_requirements : list RuntimeRequirement;
  view_error : option string
}.

(** [status()], [value()] where [hasValue()] holds, and [error()]. *)
Record resource : Type := {
  resource_status : string;
  resource_value : option RuntimeHandshake;
  resource_error : caught
}.

(** [new CaptureCompatibilityError(message)] of capture-helpers.ts *)
Definition CaptureCompatibilityError (message : string) : caught :=
  {| is_error := true; is_dom_exception := false; is_type_error := false;
     error_name := "CaptureCompatibilityError"; error_message := Str message;
     error_code := Str "runtime_incompatible"; error_status := Undefined |}.

(** The [map] of the resource's stream, for what the client delivered. *)
Definition handshake (config : ResolvedConfig) (ready : RuntimeReady) (requirements : list RuntimeRequirement) :
    result caught RuntimeHandshake :=
  match assertCaptureRuntimeCompatible ready (compatibleRuntimeMajor config) (Some (structuringMode config))
          (compatibleRuntimeMinor config) with
  | Ok _ => Ok {| handshake_ready := ready; handshake_requirements := requirements |}
  | Err message => Err (CaptureCompatibilityError message)
  end.

Definition is_needed (config : ResolvedConfig) : RuntimeRequirement → bool :=
  requirementIsNeeded (enabledSources config) (identifySpeakers config) (structuringMode config).

Definition is_ready (requirement : RuntimeRequirement) : bool := String.eqb (requirement_status requirement) "ready".

Definition needsSetup (config : ResolvedConfig) (requirements : list RuntimeRequirement) : bool :=
  existsb (λ requirement, is_needed config requirement && negb (is_ready requirement)) requirements.

Definition view (status : string) (handshake : option RuntimeHandshake) (error : option string) : RuntimeViewState :=
  {| view_status := status; view_ready := handshake_ready <$> handshake;
     view_requirements := default [] (handshake_requirements <$> handshake); view_error := error |}.

(** [runtime]; the error of the installation service is the truthy string. *)
Definition runtime (config : ResolvedConfig) (r : resource) (installationError : option string) : RuntimeViewState :=
  let status := resource_status r in
  if String.eqb status "idle" then view "idle" None None
  else if String.eqb status "loading" || String.eqb status "reloading" then view "checking" (resource_value r) None
  else if String.eqb status "error" then
    let error := resource_error r in
    let incompatible := is_error error && String.eqb (error_name error) "CaptureCompatibilityError" in
    view (if incompatible then "incompatible" else "error") None
      (Some (errorMessage error "Unable to check the capture runtime."))
  else match resource_value r with
  | None => view "idle" None None
  | Some hs =>
      match installationError with
      | Some message => if String.eqb message "" then
            view (if ready_ready (handshake_ready hs) && negb (needsSetup config (handshake_requirements hs))
                  then "ready" else "needs-setup") (Some hs) None
          else view "error" (Some hs) (Some message)
      | None =>
          view (if ready_ready (handshake_ready hs) && negb (needsSetup config (handshake_requirements hs))
                then "ready" else "needs-setup") (Some hs) None
      end
  end.

Definition requiredRequirements (config : ResolvedConfig) (shown : RuntimeViewState) : list RuntimeRequirement :=
  List.filter (is_needed config) (view_requirements shown).

Definition installableRequirements (config : ResolvedConfig) (shown : RuntimeViewState) : list RuntimeRequirement :=
  List.filter is_installable (requiredRequirements config shown).

Definition captureDisabled (config : ResolvedConfig) (shown : RuntimeViewState) : bool :=
  negb (hostManagedHandshake config) && negb (String.eqb (view_status shown) "ready").

(** ** Installing *)

(** [install(options)] with [options.requirements()] as it is at the moment;
    the requirements of a run under way change only when a new one replaces it. *)
Definition install_from (uuid : nat → string) (requirements : list RuntimeRequirement) (has_client : bool)
    (sys : service) : service :=
  if bool_decide (is_Some (installation (state sys))) then sys
  else match installable requirements with
  | [] => sys
  | _ => install uuid has_client (if has_client then with_state (set_requirements requirements) sys else sys)
  end.

(** [installMissingRequirements()] *)
Definition installMissingRequirements (uuid : nat → string) (config : ResolvedConfig) (shown : RuntimeViewState)
    (has_client : bool) (sys : service) : service :=
  if negb (String.eqb (view_status shown) "needs-setup") ||
     negb (default false (ready_ready <$> view_ready shown)) then sys
  else install_from uuid (installableRequirements config shown) has_client sys.

(** [installUnit(requirementId)] *)
Definition installUnit (uuid : nat → string) (shown : RuntimeViewState) (id : string)
    (has_client : bool) (sys : service) : service :=
  install_from uuid (List.filter (λ requirement, String.eqb (requirementId requirement) id) (view_requirements shown))
    has_client sys.

(** ** Reviews *)

Definition segment_of (task : CaptureTaskView) (segmentId : string) : option RawCaptureSegment :=
  raw ← task_raw task; List.find (λ segment, String.eqb (segment_id segment) segmentId) (raw_segments raw).

Definition edits_of (task : CaptureTaskView) : list CaptureReviewEdit :=
  default [] (task_review task ≫= review_edits).

Definition edits_segment (segmentId : string) (edit : CaptureReviewEdit) : bool :=
  String.eqb (edit_segmentId edit) segmentId.

Definition reviewedText (task : CaptureTaskView) (segmentId : string) : string :=
  let original := from_option segment_text "" (segment_of task segmentId) in
  from_option edit_reviewedText original (List.find (edits_segment segmentId) (edits_of task)).

Definition isReviewed (task : CaptureTaskView) (segmentId : string) : bool :=
  existsb (edits_segment segmentId) (edits_of task).

(** ** Speaker samples *)

(** The object URLs the store creates: a URL is the number of its creation. *)
Module SpeakerSamples.
Record state : Type := {
sampleUrls : gmap string nat;
created : nat;
revoked : list nat;
destroyed : bool
}.

Definition init : state := {| sampleUrls := ∅; created := 0; revoked := []; destroyed := false |}.

(** [speakerSampleUrl(task, speaker)]: the URL played, if any. *)
Definition speakerSampleUrl (taskId : string) (has_sample has_file : bool) (s : state) : option nat * state :=
if negb has_sample then (None, s)
else match sampleUrls s !! taskId with
| Some url => (Some url, s)
| None =>
    if has_file then
      (Some (created s),
       {| sampleUrls := <[taskId := created s]> (sampleUrls s); created := S (created s); revoked := revoked s;
          destroyed := destroyed s |})
    else (None, s)
end.

(** [releaseSampleUrl(taskId)], which [remove] calls first *)
Definition releaseSampleUrl (taskId : string) (s : state) : state :=
match sampleUrls s !! taskId with
| Some url =>
    {| sampleUrls := delete taskId (sampleUrls s); created := created s; revoked := url :: revoked s;
       destroyed := destroyed s |}
| None => s
end.

(** [onDestroy]: the keys are those of the map when it starts. *)
Definition onDestroy (s : state) : state :=
let s' := fold_left (λ s taskId, releaseSampleUrl taskId s) (map fst (map_to_list (sampleUrls s))) s in
{| sampleUrls := sampleUrls s'; created := created s'; revoked := revoked s'; destroyed := true |}.

(** [`${url}#t=${startMs / 1000},${endMs / 1000}`] *)
Definition fragment (url : string) (startMs endMs : num) : string :=
url +:+ "#t=" +:+ show_num (num_div startMs (num_of_Z 1000)) +:+ "," +:+ show_num (num_div endMs (num_of_Z 1000)).

(** A store that was destroyed is not used any more. *)
Inductive step : state → state → Prop :=
| step_sample taskId has_sample has_file s :
  destroyed s = false → step s (speakerSampleUrl taskId has_sample has_file s).2
| step_release taskId s : destroyed s = false → step s (releaseSampleUrl taskId s)
| step_destroy s : destroyed s = false → step s (onDestroy s).

Definition reachable : state → Prop := rtc step init.

Definition live (s : state) : list nat := map snd (map_to_list (sampleUrls s)).

(** Every URL created is either live or revoked, once. *)
Definition accounted (s : state) : Prop := live s ++ revoked s ≡ₚ seq 0 (created s).

Lemma accounted_sample taskId has_sample has_file s :
accounted s → accounted (speakerSampleUrl taskId has_sample has_file s).2.
Proof.
unfold speakerSampleUrl. destruct has_sample; [cbn [negb]|done].
destruct (sampleUrls s !! taskId) eqn:Hl; [done|]. destruct has_file; [|done].
unfold accounted, live. cbn [snd sampleUrls revoked created]. intros H.
rewrite map_to_list_insert by done. cbn [map snd app]. rewrite H.
rewrite seq_S. apply Permutation_cons_append.
Qed.

Lemma accounted_release taskId s : accounted s → accounted (releaseSampleUrl taskId s).
Proof.
unfold releaseSampleUrl. destruct (sampleUrls s !! taskId) as [url|] eqn:Hl; [|done].
unfold accounted, live. cbn [sampleUrls revoked created]. intros H. rewrite <-H.
rewrite <-(map_to_list_delete _ _ _ Hl). cbn [map snd app]. symmetry. apply Permutation_middle.
Qed.

Lemma released_all keys s :
accounted s → let s' := fold_left (λ s taskId, releaseSampleUrl taskId s) keys s in
accounted s' ∧ created s' = created s ∧ ∀ k, sampleUrls s' !! k = if bool_decide (k ∈ keys) then None else sampleUrls s !! k.
Proof.
cbv zeta. revert s. induction keys as [|key keys IH]; intros s H; cbn [fold_left]; [done|].
destruct (IH _ (accounted_release key s H)) as (H1 & H2 & H3). split; [done|].
assert (created (releaseSampleUrl key s) = created s ∧ ∀ k, sampleUrls (releaseSampleUrl key s) !! k =
  if bool_decide (k = key) then None else sampleUrls s !! k) as [Hc Hk].
{ unfold releaseSampleUrl. destruct (sampleUrls s !! key) as [url|] eqn:Hl; cbn; (split; [done|]); intros k.
  - case_bool_decide as Hd; [subst; by rewrite lookup_delete_eq|by rewrite lookup_delete_ne].
  - case_bool_decide as Hd; by subst. }
split; [congruence|]. intros k. rewrite H3, Hk. rewrite (bool_decide_ext (k ∈ key :: keys) (k = key ∨ k ∈ keys))
  by apply elem_of_cons.
destruct (decide (k = key)), (decide (k ∈ keys)); repeat case_bool_decide; naive_solver.
Qed.

(** After the tear-down no URL is left. *)
Definition released (s : state) : Prop := accounted s ∧ (destroyed s = true → live s = []).

Lemma released_destroy s : accounted s → released (onDestroy s).
Proof.
intros H. destruct (released_all (map fst (map_to_list (sampleUrls s))) s H) as (Ha & _ & Hk).
unfold onDestroy. set (s' := fold_left _ _ s) in *. cbv zeta in Ha, Hk. split; [done|]. intros _.
unfold live. cbn [sampleUrls]. assert (sampleUrls s' = ∅) as ->; [|done].
apply map_empty. intros k. rewrite Hk. case_bool_decide as Hin; [done|].
destruct (sampleUrls s !! k) as [url|] eqn:Hl; [|done]. exfalso. apply Hin.
apply list_elem_of_fmap. exists (k, url). split; [done|]. by apply elem_of_map_to_list.
Qed.

Lemma reachable_released s : reachable s → released s.
Proof.
intros H. apply (rtc_ind_r (R:=step) released init); [by split; [apply Permutation_refl|]| |exact H].
intros x y _ Hxy [Ha _]. destruct Hxy; [| |by apply released_destroy].
- split; [by apply accounted_sample|]. unfold speakerSampleUrl.
  destruct (negb has_sample), (sampleUrls s0 !! taskId), has_file; cbn; congruence.
- split; [by apply accounted_release|]. unfold releaseSampleUrl.
  destruct (sampleUrls s0 !! taskId); cbn; congruence.
Qed.

(** Object URLs do not leak: the URLs that still play and those revoked are
  together exactly the ones created, none twice, so no URL is revoked twice
  or while it plays; and when the store is destroyed none is left. *)
Lemma sample_urls_are_released s :
reachable s →
NoDup (live s ++ revoked s) ∧
(∀ url, url ∈ live s ++ revoked s ↔ (url < created s)%nat) ∧
(destroyed s = true → live s = []).
Proof.
intros [Ha Hd]%reachable_released. unfold accounted in Ha. split; [rewrite Ha; apply NoDup_seq|].
split; [|exact Hd]. intros url. rewrite Ha, elem_of_seq. lia.
Qed.

Lemma sample_urls_are_released_witness :
let s := onDestroy (releaseSampleUrl "a" (speakerSampleUrl "b" true true (speakerSampleUrl "a" true true init).2).2) in
revoked s = [1%nat; 0%nat] ∧ NoDup (live s ++ revoked s) ∧
(∀ url, url ∈ live s ++ revoked s ↔ (url < created s)%nat) ∧ (destroyed s = true → live s = []).
Proof.
split; [by vm_compute|]. apply sample_urls_are_released.
eapply rtc_l; [by apply (step_sample "a" true true)|]. eapply rtc_l; [by apply (step_sample "b" true true)|].
eapply rtc_l; [by apply (step_release "a")|]. eapply rtc_l; [by apply step_destroy|]. apply rtc_refl.
Defined.
End SpeakerSamples.

(** ** What the user is shown *)

Lemma status_of_error config r installationError :
  resource_status r = "error" →
  view_status (runtime config r installationError) =
    if is_error (resource_error r) && String.eqb (error_name (resource_error r)) "CaptureCompatibilityError"
    then "incompatible" else "error".
Proof. intros Hs. unfold runtime. rewrite Hs. cbn [String.eqb Ascii.eqb Bool.eqb orb]. by destruct (_ && _). Qed.

(** A refused runtime is not shown as incompatible: the check of the UI
    library shows it, but whatever refuses the runtime inside the HTTP client,
    its negotiation with the [CaptureCompatibilityError] of the runtime client
    included, is shown as an error like a lost connection. *)
Lemma refused_runtime_is_shown_as_error config sha256 Date_parse engine_message w error w' installationError :
  HttpCaptureClient.getReady sha256 Date_parse engine_message http_runtime w = (Err error, w') →
  view_status (runtime config
    {| resource_status := "error"; resource_value := None; resource_error := error |} installationError) = "error" ∧
  ∀ message, view_status (runtime config
    {| resource_status := "error"; resource_value := None; resource_error := CaptureCompatibilityError message |}
    installationError) = "incompatible".
Proof.
  intros H. split; [|intros message; by rewrite status_of_error]. rewrite status_of_error by done.
  unfold HttpCaptureClient.getReady, fromRuntime in H.
  destruct ((disc_ready <$> discover sha256 Date_parse http_runtime) w) as [[ready|e] w1]; [done|].
  injection H as <- _. by destruct e.
Qed.

(** A runtime of another API version. *)
Definition other_api : World :=
  let text := default "" (JSON_stringify (Obj [("ready", Bool true); ("service", Str "capture-runtime");
    ("apiVersion", Str "3.0"); ("runtimeVersion", Str "1.0.0"); ("captureDocumentSchemaVersion", Str "2");
    ("capabilities", Obj [("structuringModes", Arr [Str "host"])])])) in
  world_of [Ok {| resp_status := 200; resp_headers := []; resp_bytes := text; resp_body := text; resp_stream := None |}].

Definition refusal : caught :=
  match (HttpCaptureClient.getReady (λ _, "") (λ _, NaN) "" http_runtime other_api).1 with
  | Err error => error
  | Ok _ => abort_exception
  end.

Definition sample_config : ResolvedConfig :=
  {| enabledSources := [pdf; image; audio]; structuringMode := "runtime"; outputMode := "json";
     pollIntervalMs := num_of_Z 750; hostManagedHandshake := false; identifySpeakers := false;
     compatibleRuntimeMajor := num_of_Z 1; compatibleRuntimeMinor := num_of_Z 0 |}.

Lemma refused_runtime_is_shown_as_error_witness :
  error_code refusal = Str "incompatible_runtime" ∧
  view_status (runtime sample_config
    {| resource_status := "error"; resource_value := None; resource_error := refusal |} None) = "error".
Proof.
  split; [by vm_compute|].
  refine (proj1 (refused_runtime_is_shown_as_error sample_config (λ _, "") (λ _, NaN) "" other_api refusal
    (HttpCaptureClient.getReady (λ _, "") (λ _, NaN) "" http_runtime other_api).2 None _)).
  vm_compute. reflexivity.
Defined.

Lemma needsSetup_false config requirements :
  needsSetup config requirements = false ↔
  ∀ requirement, requirement ∈ requirements → is_needed config requirement = true →
    requirement_status requirement = "ready".
Proof.
  unfold needsSetup. rewrite existsb_false, Forall_forall. split.
  - intros H x Hx Hn. specialize (H x Hx). cbv beta in H. rewrite Hn in H.
    by apply negb_false_iff, String.eqb_eq in H.
  - intros H x Hx. destruct (is_needed config x) eqn:Hn; [|done]. unfold is_ready. by rewrite (H x Hx Hn).
Qed.

(** The runtime is ready and nothing the configuration needs is missing. *)
Definition complete (config : ResolvedConfig) (hs : RuntimeHandshake) : Prop :=
  ready_ready (handshake_ready hs) = true ∧
  ∀ requirement, requirement ∈ handshake_requirements hs → is_needed config requirement = true →
    requirement_status requirement = "ready".

Lemma status_of_handshake config hs :
  view_status (view (if ready_ready (handshake_ready hs) && negb (needsSetup config (handshake_requirements hs))
    then "ready" else "needs-setup") (Some hs) None) = "ready" ↔ complete config hs.
Proof.
  unfold complete. rewrite <-needsSetup_false. cbn [view view_status].
  destruct (ready_ready _), (needsSetup _ _); cbn; naive_solver.
Qed.

(** Captures are enabled only on a complete runtime: the status is ready
    exactly when the resource delivered a handshake with a ready runtime in
    which every requirement the configuration needs is ready, and the last
    installation left no error; and unless the host manages the handshake,
    captures are enabled exactly then. *)
Lemma captures_need_a_complete_runtime config r installationError :
  let shown := runtime config r installationError in
  (view_status shown = "ready" ↔
   resource_status r ∉ ["idle"; "loading"; "reloading"; "error"] ∧ default "" installationError = "" ∧
   ∃ hs, resource_value r = Some hs ∧ complete config hs) ∧
  (hostManagedHandshake config = false → captureDisabled config shown = false ↔ view_status shown = "ready").
Proof.
  cbv zeta. split.
  - unfold runtime. rewrite !not_elem_of_cons.
    destruct (String.eqb_spec (resource_status r) "idle") as [|H1]; [cbn; naive_solver|].
    destruct (String.eqb_spec (resource_status r) "loading") as [|H2]; [cbn; naive_solver|].
    destruct (String.eqb_spec (resource_status r) "reloading") as [|H3]; [cbn; naive_solver|]. cbn [orb].
    destruct (String.eqb_spec (resource_status r) "error") as [|H4]; [cbn; destruct (_ && _); naive_solver|].
    assert (resource_status r ∉ []) by apply not_elem_of_nil.
    destruct (resource_value r) as [hs|]; [|cbn; naive_solver].
    destruct installationError as [m|]; [destruct (String.eqb_spec m "") as [->|Hm]|];
      rewrite ?status_of_handshake; cbn [default from_option view view_status id]; naive_solver.
  - unfold captureDisabled. intros ->. cbn [negb andb]. by rewrite negb_false_iff, String.eqb_eq.
Qed.

Definition sample_handshake : RuntimeHandshake :=
  {| handshake_ready := {| ready_service := "capture-runtime"; ready_apiVersion := "2.0"; ready_runtimeVersion := "1.0.0";
       ready_schemaVersion := "2"; ready_structuringModes := Arr [Str "runtime"]; ready_ready := true |};
     handshake_requirements := [
       {| requirementId := "windowsml-ocr"; requirement_status := "ready"; requirement_optional := false |};
       {| requirementId := "vertical-japanese-reader"; requirement_status := "installable"; requirement_optional := true |}] |}.

(** The optional requirement that is missing is not needed. *)
Lemma captures_need_a_complete_runtime_witness :
  let shown := runtime sample_config {| resource_status := "resolved"; resource_value := Some sample_handshake;
                                        resource_error := refusal |} None in
  view_status shown = "ready" ∧ (captureDisabled sample_config shown = false ↔ view_status shown = "ready").
Proof.
  cbv zeta. split; [by vm_compute|]. apply captures_need_a_complete_runtime. reflexivity.
Defined.
