(* ===== verification/DesktopModel.v ===== *)
(** * State of the desktop app's captures

    The data of src/apps/capture-workbench/src/app: library documents and
    updates (contracts/desktop-library.ts), runtime operations, the selectors
    the capture service uses (services/desktop-workspace.selectors.ts), the
    calls it makes over the desktop bridge, and its state
    (services/desktop-workspace-capture.service.ts).

    The bridge is Tauri's [invoke]: its replies are inputs of the model.  The
    ghost field [history] records what the library answered. *)

From stdpp Require Import gmap.
From S2P Require Import Prelude JsString JsNum JsValue RuntimeErrors CaptureModel StoreHelpers Observable.

(** ** Errors *)

(** A rejection: an [Error] with its message, or another value with its [String]. *)
Inductive rejection : Type :=
| ErrorObject (message : string)
| OtherValue (text : string).

Definition errorMessage (error : rejection) : string :=
  redactSensitiveMessage (match error with ErrorObject message => message | OtherValue text => text end).

(** An error of the runtime client library as a rejection. *)
Definition rejection_of (error : thrown) : rejection :=
  ErrorObject match error with
              | Runtime e => err_message e
              | AbortError => "The operation was aborted."
              | TypeErr => ""
              | OtherError message => message
              end.

(** ** Library *)

Record DesktopLibrarySummary : Type := {
  doc_documentId : string;
  doc_mediaType : string;
  doc_status : string;
  doc_stage : option string;
  doc_captureId : option string;
  doc_errorCode : option string;
  doc_errorMessage : option string;
  doc_recoveryCode : option string
}.

(** The argument of [updateCapture]. *)
Record CaptureUpdate : Type := {
  upd_documentId : string;
  upd_status : string;
  upd_captureId : option string;
  upd_clearCaptureId : bool;
  upd_stage : option string;
  upd_raw : option RawCapture;
  upd_result : option CaptureDocument;
  upd_errorCode : option string;
  upd_errorMessage : option string;
  upd_recoveryCode : option string;
  upd_recoveryMessage : option string;
  upd_ocrEvidence : option js
}.

(** [{ documentId, status, stage }] *)
Definition plain_update (documentId status : string) (stage : option string) : CaptureUpdate :=
  {| upd_documentId := documentId; upd_status := status; upd_captureId := None; upd_clearCaptureId := false;
     upd_stage := stage; upd_raw := None; upd_result := None; upd_errorCode := None; upd_errorMessage := None;
     upd_recoveryCode := None; upd_recoveryMessage := None; upd_ocrEvidence := None |}.

Definition for_capture (captureId : string) (u : CaptureUpdate) : CaptureUpdate :=
  {| upd_documentId := upd_documentId u; upd_status := upd_status u; upd_captureId := Some captureId;
     upd_clearCaptureId := upd_clearCaptureId u; upd_stage := upd_stage u; upd_raw := upd_raw u;
     upd_result := upd_result u; upd_errorCode := upd_errorCode u; upd_errorMessage := upd_errorMessage u;
     upd_recoveryCode := upd_recoveryCode u; upd_recoveryMessage := upd_recoveryMessage u;
     upd_ocrEvidence := upd_ocrEvidence u |}.

Definition clearing (u : CaptureUpdate) : CaptureUpdate :=
  {| upd_documentId := upd_documentId u; upd_status := upd_status u; upd_captureId := upd_captureId u;
     upd_clearCaptureId := true; upd_stage := upd_stage u; upd_raw := upd_raw u; upd_result := upd_result u;
     upd_errorCode := upd_errorCode u; upd_errorMessage := upd_errorMessage u;
     upd_recoveryCode := upd_recoveryCode u; upd_recoveryMessage := upd_recoveryMessage u;
     upd_ocrEvidence := upd_ocrEvidence u |}.

Definition keeping (raw : option RawCapture) (result : option CaptureDocument) (ocrEvidence : option js)
    (u : CaptureUpdate) : CaptureUpdate :=
  {| upd_documentId := upd_documentId u; upd_status := upd_status u; upd_captureId := upd_captureId u;
     upd_clearCaptureId := upd_clearCaptureId u; upd_stage := upd_stage u; upd_raw := raw; upd_result := result;
     upd_errorCode := upd_errorCode u; upd_errorMessage := upd_errorMessage u;
     upd_recoveryCode := upd_recoveryCode u; upd_recoveryMessage := upd_recoveryMessage u;
     upd_ocrEvidence := ocrEvidence |}.

Definition failing (errorCode errorMessage : option string) (u : CaptureUpdate) : CaptureUpdate :=
  {| upd_documentId := upd_documentId u; upd_status := upd_status u; upd_captureId := upd_captureId u;
     upd_clearCaptureId := upd_clearCaptureId u; upd_stage := upd_stage u; upd_raw := upd_raw u;
     upd_result := upd_result u; upd_errorCode := errorCode; upd_errorMessage := errorMessage;
     upd_recoveryCode := upd_recoveryCode u; upd_recoveryMessage := upd_recoveryMessage u;
     upd_ocrEvidence := upd_ocrEvidence u |}.

Definition recovering (recoveryCode recoveryMessage : string) (u : CaptureUpdate) : CaptureUpdate :=
  {| upd_documentId := upd_documentId u; upd_status := upd_status u; upd_captureId := upd_captureId u;
     upd_clearCaptureId := upd_clearCaptureId u; upd_stage := upd_stage u; upd_raw := upd_raw u;
     upd_result := upd_result u; upd_errorCode := upd_errorCode u; upd_errorMessage := upd_errorMessage u;
     upd_recoveryCode := Some recoveryCode; upd_recoveryMessage := Some recoveryMessage;
     upd_ocrEvidence := upd_ocrEvidence u |}.

(** ** Runtime operations *)

(** A streaming operation is one without a [stage]. *)
Record DesktopCaptureOperation : Type := {
  job_captureId : string;
  job_status : string;
  job_stage : option string;
  job_sourceSha256 : option string;
  job_error : option CaptureFailure
}.

Record StreamingEvent : Type := { stream_sequence : num; stream_stage : string }.

Record OcrCompute : Type := {
  compute_runtimeVersion : string;
  compute_contractSha256 : string;
  compute_workerSha256 : option string
}.

Definition job_errorCode (job : DesktopCaptureOperation) : option string := failure_code <$> job_error job.
Definition job_errorMessage (job : DesktopCaptureOperation) : option string := failure_message <$> job_error job.

(** ** Selectors *)

Definition FEATURE_REQUIREMENTS (feature : string) : list string :=
  if String.eqb feature "ocr" then ["windowsml-ocr"]
  else if String.eqb feature "asr" then ["speech-recognition"]
  else ["speaker-diarization"].

Definition isFeatureReady (requirements : list RuntimeRequirement) (feature : string) : bool :=
  forallb (λ id, existsb (λ requirement, String.eqb (requirementId requirement) id &&
    String.eqb (requirement_status requirement) "ready") requirements) (FEATURE_REQUIREMENTS feature).

Definition selectFeatureMissing (requirements : list RuntimeRequirement) (feature : string)
    : list RuntimeRequirement :=
  List.filter (λ requirement, includes (FEATURE_REQUIREMENTS feature) (requirementId requirement) &&
    negb (String.eqb (requirement_status requirement) "ready")) requirements.

Definition isAudioMediaType (mediaType : string) : bool :=
  starts_with "audio/" mediaType || starts_with "video/" mediaType.

Definition isPdfMediaType (mediaType : string) : bool := String.eqb mediaType "application/pdf".

Definition isActiveJob (job : DesktopCaptureOperation) : bool :=
  includes ["queued"; "running"; "created"; "waiting_input"; "extracting"; "awaiting_structuring"; "structuring"]
    (job_status job).

Definition isOcrCheckpoint (job : DesktopCaptureOperation) : bool :=
  String.eqb (job_status job) "awaiting_structuring".

Definition captureJobStage (job : DesktopCaptureOperation) : string := default (job_status job) (job_stage job).

Definition isActiveStreaming (operation : DesktopCaptureOperation) : bool :=
  includes ["created"; "waiting_input"; "extracting"; "awaiting_structuring"; "structuring"] (job_status operation).

Definition terminalLibraryStatus (job : DesktopCaptureOperation) : string :=
  if String.eqb (job_status job) "completed" then "completed"
  else if String.eqb (job_status job) "cancelled" then "canceled"
  else "failed".

Definition terminalStatusFromStage (stage : option string) : string :=
  if bool_decide (stage = Some "cancelled") then "canceled"
  else if bool_decide (stage = Some "failed") then "failed"
  else if bool_decide (stage = Some "awaiting_structuring") then "awaiting_confirmation"
  else "completed".

Definition hasCommittedTerminalData (document : DesktopLibrarySummary) : bool :=
  bool_decide (doc_recoveryCode document = Some "runtime_cleanup_failed") ||
  includes ["completed"; "failed"; "canceled"] (doc_status document).

Definition committedTerminalStatus (document : DesktopLibrarySummary) : string :=
  if includes ["completed"; "failed"; "canceled"] (doc_status document) then doc_status document
  else terminalStatusFromStage (doc_stage document).

Definition terminalStage (status : option string) : string :=
  if bool_decide (status = Some "canceled") then "cancelled"
  else if bool_decide (status = Some "failed") then "failed"
  else if bool_decide (status = Some "awaiting_confirmation") then "awaiting_structuring"
  else "completed".

(** ** Calls over the bridge *)

(** One arm of the race between the poll timer and the user's cancellation. *)
Inductive Wake (A : Type) : Type :=
| Woken
| Settled (a : A).
Arguments Woken {A}.
Arguments Settled {A} _.

(** What a capture waits at.  The [Await] calls are the states of the race in
    [advanceCapture$]: the timer may have fired, so that [getCapture] is
    pending, and the user may have cancelled, so that [cancelCapture] is. *)
Inductive BridgeCall : Type :=
| CreateSource (sourcePath : string)
| UpdateCapture (update : CaptureUpdate)
| CreateCapture (documentId clientRequestId : string) (pdfPageNumbers : option (list num))
| CancelCapture (captureId : string)
| GetCapture (captureId : string)
| AwaitTimerOrWake (captureId : string)
| AwaitGetOrWake (captureId : string)
| AwaitCancelOrTimer (captureId : string)
| AwaitGetOrCancel (captureId : string)
| GetRaw (captureId : string)
| GetOcr (captureId : string)
| BuildOcrEvidence (projection expected : js)
| GetResult (captureId : string)
| DeleteCapture (captureId : string)
| StartStreamingCapture (documentId clientRequestId : string) (identifySpeakers : bool)
| GetStreamingCapture (captureId : string)
| GetStreamingEvents (captureId : string) (lastEventId : num)
| GetStreamingPartial (captureId : string)
| GetStreamingResult (captureId : string)
| CancelStreamingCapture (captureId : string)
| DeleteStreamingCapture (captureId : string)
| Timer.

Definition bridge_reply (call : BridgeCall) : Type :=
  match call with
  | CreateSource _ => DesktopLibrarySummary
  | UpdateCapture _ | DeleteCapture _ | DeleteStreamingCapture _ | Timer => unit
  | CreateCapture _ _ _ | CancelCapture _ | GetCapture _ | AwaitGetOrCancel _
  | StartStreamingCapture _ _ _ | GetStreamingCapture _ | CancelStreamingCapture _ => DesktopCaptureOperation
  | AwaitTimerOrWake _ => Wake unit
  | AwaitGetOrWake _ => Wake DesktopCaptureOperation
  | AwaitCancelOrTimer _ => option DesktopCaptureOperation
  | GetRaw _ => option RawCapture
  | GetOcr _ | BuildOcrEvidence _ _ => js
  | GetResult _ => CaptureDocument
  | GetStreamingEvents _ _ => list StreamingEvent
  | GetStreamingPartial _ => option PartialCapture
  | GetStreamingResult _ => (RawCapture * CaptureDocument)%type
  end.

(** ** The service's state *)

Record ActiveCapture : Type := {
  active_captureId : option string;
  streaming : bool;
  lastEventSequence : num;
  rawPersisted : bool;
  cancelRequested : bool;
  cancelSent : bool;
  lastStage : option string;
  terminalCommitted : bool;
  terminalStatus : option string;
  terminalErrorCode : option string;
  terminalErrorMessage : option string;
  active_ocrCompute : option OcrCompute;
  active_sourceSha256 : option string
}.

(** What the host and the runtime client show at a moment. *)
Record Environment : Type := {
  runtime_ready : bool;
  runtime_ocrCompute : option OcrCompute;
  runtime_pdfPageNumbers : option (list num);
  host_requirements : list RuntimeRequirement;
  host_documents : list DesktopLibrarySummary;
  host_selected : option DesktopLibrarySummary;
  host_identifySpeakers : bool
}.

(** What the service sets on the host; [reloads] are its requests to reload,
    of the document list or of one document. *)
Record Host : Type := {
  selectedId : option string;
  requestedRequirements : gset string;
  message : string;
  reloads : list (option string)
}.

(** The library's answers, the calls made, and the documents found with
    committed data when they were retried. *)
Inductive HistoryEntry : Type :=
| Saved (update : CaptureUpdate)
| Refused (update : CaptureUpdate)
| Called (call : BridgeCall)
| Recovered (document : DesktopLibrarySummary).

Record desktop : Type := {
  activeCaptures : gmap string ActiveCapture;
  busyIds : gset string;
  streamingPartials : gmap string PartialCapture;
  environment : Environment;
  host : Host;
  desktop_uuids : nat;
  history : list HistoryEntry
}.

Definition set_activeCaptures (f : gmap string ActiveCapture → gmap string ActiveCapture) (s : desktop) : desktop :=
  {| activeCaptures := f (activeCaptures s); busyIds := busyIds s; streamingPartials := streamingPartials s;
     environment := environment s; host := host s; desktop_uuids := desktop_uuids s; history := history s |}.

Definition markBusy (documentId : string) (busy : bool) (s : desktop) : desktop :=
  {| activeCaptures := activeCaptures s;
     busyIds := if busy then {[documentId]} ∪ busyIds s else busyIds s ∖ {[documentId]};
     streamingPartials := streamingPartials s; environment := environment s; host := host s;
     desktop_uuids := desktop_uuids s; history := history s |}.

Definition set_streamingPartials (f : gmap string PartialCapture → gmap string PartialCapture) (s : desktop)
    : desktop :=
  {| activeCaptures := activeCaptures s; busyIds := busyIds s; streamingPartials := f (streamingPartials s);
     environment := environment s; host := host s; desktop_uuids := desktop_uuids s; history := history s |}.

Definition set_environment (environment : Environment) (s : desktop) : desktop :=
  {| activeCaptures := activeCaptures s; busyIds := busyIds s; streamingPartials := streamingPartials s;
     environment := environment; host := host s; desktop_uuids := desktop_uuids s; history := history s |}.

Definition set_host (f : Host → Host) (s : desktop) : desktop :=
  {| activeCaptures := activeCaptures s; busyIds := busyIds s; streamingPartials := streamingPartials s;
     environment := environment s; host := f (host s); desktop_uuids := desktop_uuids s; history := history s |}.

Definition next_uuid (s : desktop) : desktop :=
  {| activeCaptures := activeCaptures s; busyIds := busyIds s; streamingPartials := streamingPartials s;
     environment := environment s; host := host s; desktop_uuids := S (desktop_uuids s); history := history s |}.

Definition note (entries : list HistoryEntry) (s : desktop) : desktop :=
  {| activeCaptures := activeCaptures s; busyIds := busyIds s; streamingPartials := streamingPartials s;
     environment := environment s; host := host s; desktop_uuids := desktop_uuids s;
     history := entries ++ history s |}.

(** ** The host's callbacks *)

Definition setMessage (text : string) : desktop → desktop := set_host (λ h,
  {| selectedId := selectedId h; requestedRequirements := requestedRequirements h; message := text;
     reloads := reloads h |}).

Definition reloadDocumentState (documentId : string) : desktop → desktop := set_host (λ h,
  {| selectedId := selectedId h; requestedRequirements := requestedRequirements h; message := message h;
     reloads := Some documentId :: reloads h |}).

(** [host.selectedId.set(documentId); host.refreshDocuments()] *)
Definition select_created (documentId : string) : desktop → desktop := set_host (λ h,
  {| selectedId := Some documentId; requestedRequirements := requestedRequirements h; message := message h;
     reloads := None :: reloads h |}).

(** A requirement is asked for, with the message that says why. *)
Definition request_requirement (id text : string) : desktop → desktop := set_host (λ h,
  {| selectedId := selectedId h; requestedRequirements := {[id]} ∪ requestedRequirements h; message := text;
     reloads := reloads h |}).

(** ** Assignments to an active capture *)

Definition with_captureId (captureId : string) (a : ActiveCapture) : ActiveCapture :=
  {| active_captureId := Some captureId; streaming := streaming a; lastEventSequence := lastEventSequence a;
     rawPersisted := rawPersisted a; cancelRequested := cancelRequested a; cancelSent := cancelSent a;
     lastStage := lastStage a; terminalCommitted := terminalCommitted a; terminalStatus := terminalStatus a;
     terminalErrorCode := terminalErrorCode a; terminalErrorMessage := terminalErrorMessage a;
     active_ocrCompute := active_ocrCompute a; active_sourceSha256 := active_sourceSha256 a |}.

Definition with_lastStage (stage : option string) (a : ActiveCapture) : ActiveCapture :=
  {| active_captureId := active_captureId a; streaming := streaming a; lastEventSequence := lastEventSequence a;
     rawPersisted := rawPersisted a; cancelRequested := cancelRequested a; cancelSent := cancelSent a;
     lastStage := stage; terminalCommitted := terminalCommitted a; terminalStatus := terminalStatus a;
     terminalErrorCode := terminalErrorCode a; terminalErrorMessage := terminalErrorMessage a;
     active_ocrCompute := active_ocrCompute a; active_sourceSha256 := active_sourceSha256 a |}.

(** [applyStreamingEvent] *)
Definition applyStreamingEvent (a : ActiveCapture) (event : StreamingEvent) : ActiveCapture :=
  {| active_captureId := active_captureId a; streaming := streaming a;
     lastEventSequence := num_max (lastEventSequence a) (stream_sequence event); rawPersisted := rawPersisted a;
     cancelRequested := cancelRequested a; cancelSent := cancelSent a; lastStage := Some (stream_stage event);
     terminalCommitted := terminalCommitted a; terminalStatus := terminalStatus a;
     terminalErrorCode := terminalErrorCode a; terminalErrorMessage := terminalErrorMessage a;
     active_ocrCompute := active_ocrCompute a; active_sourceSha256 := active_sourceSha256 a |}.

Definition with_rawPersisted (a : ActiveCapture) : ActiveCapture :=
  {| active_captureId := active_captureId a; streaming := streaming a; lastEventSequence := lastEventSequence a;
     rawPersisted := true; cancelRequested := cancelRequested a; cancelSent := cancelSent a;
     lastStage := lastStage a; terminalCommitted := terminalCommitted a; terminalStatus := terminalStatus a;
     terminalErrorCode := terminalErrorCode a; terminalErrorMessage := terminalErrorMessage a;
     active_ocrCompute := active_ocrCompute a; active_sourceSha256 := active_sourceSha256 a |}.

Definition with_cancelRequested (a : ActiveCapture) : ActiveCapture :=
  {| active_captureId := active_captureId a; streaming := streaming a; lastEventSequence := lastEventSequence a;
     rawPersisted := rawPersisted a; cancelRequested := true; cancelSent := cancelSent a;
     lastStage := lastStage a; terminalCommitted := terminalCommitted a; terminalStatus := terminalStatus a;
     terminalErrorCode := terminalErrorCode a; terminalErrorMessage := terminalErrorMessage a;
     active_ocrCompute := active_ocrCompute a; active_sourceSha256 := active_sourceSha256 a |}.

Definition with_cancelSent (a : ActiveCapture) : ActiveCapture :=
  {| active_captureId := active_captureId a; streaming := streaming a; lastEventSequence := lastEventSequence a;
     rawPersisted := rawPersisted a; cancelRequested := cancelRequested a; cancelSent := true;
     lastStage := lastStage a; terminalCommitted := terminalCommitted a; terminalStatus := terminalStatus a;
     terminalErrorCode := terminalErrorCode a; terminalErrorMessage := terminalErrorMessage a;
     active_ocrCompute := active_ocrCompute a; active_sourceSha256 := active_sourceSha256 a |}.

Definition with_terminal (committed : bool) (status code text : option string) (a : ActiveCapture) : ActiveCapture :=
  {| active_captureId := active_captureId a; streaming := streaming a; lastEventSequence := lastEventSequence a;
     rawPersisted := rawPersisted a; cancelRequested := cancelRequested a; cancelSent := cancelSent a;
     lastStage := lastStage a; terminalCommitted := committed; terminalStatus := status; terminalErrorCode := code;
     terminalErrorMessage := text; active_ocrCompute := active_ocrCompute a;
     active_sourceSha256 := active_sourceSha256 a |}.

Definition with_sourceSha256 (sha256 : string) (a : ActiveCapture) : ActiveCapture :=
  {| active_captureId := active_captureId a; streaming := streaming a; lastEventSequence := lastEventSequence a;
     rawPersisted := rawPersisted a; cancelRequested := cancelRequested a; cancelSent := cancelSent a;
     lastStage := lastStage a; terminalCommitted := terminalCommitted a; terminalStatus := terminalStatus a;
     terminalErrorCode := terminalErrorCode a; terminalErrorMessage := terminalErrorMessage a;
     active_ocrCompute := active_ocrCompute a; active_sourceSha256 := Some sha256 |}.

