(* ===== verification/DesktopCapture.v ===== *)
(** * Captures of the desktop app

    Models src/apps/capture-workbench/src/app/services/desktop-workspace-capture.service.ts:
    how a document of the library is captured, followed, saved, cleaned up in
    the runtime, cancelled and recovered.

    A capture's polling has no bound.  Its process is cut at each poll: it ends
    with the [phase] it reached, and [resume] goes on with that phase until a
    call has to be waited for.  Every phase waits, so one step is enough.

    Parameters: [crypto.randomUUID], [Date.parse], the NFKC normalisation,
    WebCrypto's SHA-256 and the texts of the language in use. *)

From stdpp Require Import gmap.
From S2P Require Import Prelude JsString JsNum JsValue RuntimeErrors CodecFields Codec CaptureModel StoreHelpers Observable OcrEvidence DesktopModel.

(** The texts the service shows. *)
Record DesktopMessages : Type := {
  whisperNeeded : string;
  speakerUnitNeeded : string;
  needsSetup : string;
  missingRawResult : string
}.

(** [value] when it is a non-empty string. *)
Definition truthy_string (value : option string) : option string :=
  match value with Some s => if String.eqb s "" then None else Some s | None => None end.

(** Where a capture stands between two polls. *)
Inductive phase : Type :=
| Done
| PollJob (job : DesktopCaptureOperation)
| PollStreaming (operation : DesktopCaptureOperation).

Abbreviation action := (proc desktop BridgeCall Empty_set rejection bridge_reply).

Section capture.
Variables (uuid : nat → string) (normalize_nfkc : string → string) (Date_parse : string → num).
Variable subtle : option (string → list Z).
Variable desktopMessages : DesktopMessages.

(** ** The active capture *)

(** What [captureExisting$] sets up, up to the media type and the compute. *)
Definition new_active (captureId : option string) (streaming : bool) (lastStage : option string)
(compute : option OcrCompute) : ActiveCapture :=
{| active_captureId := captureId; streaming := streaming; lastEventSequence := num_of_Z 0; rawPersisted := false;
 cancelRequested := false; cancelSent := false; lastStage := lastStage; terminalCommitted := false;
 terminalStatus := None; terminalErrorCode := None; terminalErrorMessage := None;
 active_ocrCompute := compute; active_sourceSha256 := None |}.

(** The entry of a document; a running capture has one. *)
Definition active_of (documentId : string) (s : desktop) : ActiveCapture :=
default (new_active None false None None) (activeCaptures s !! documentId).

Definition patch_active (documentId : string) (f : ActiveCapture → ActiveCapture) : desktop → desktop :=
set_activeCaptures (alter f documentId).

Definition with_active {A} (documentId : string) (k : ActiveCapture → action A) : action A :=
Read (λ s, k (active_of documentId s)).

Definition randomUUID : action string := Read (λ s, Update next_uuid (Return (uuid (desktop_uuids s)))).

(** [{ documentId, captureId: job.captureId, status, stage: captureJobStage(job) }] *)
Definition job_update (documentId status : string) (job : DesktopCaptureOperation) : CaptureUpdate :=
for_capture (job_captureId job) (plain_update documentId status (Some (captureJobStage job))).

(** [commands.invoke] *)
Definition invoke (call : BridgeCall) : action (bridge_reply call) := ask call.

(** [settleOne$]: an observable that completes without a value fails. *)
Fixpoint settleOne {A} (p : action A) : action A :=
match p with
| Return a => Return a
| Empty => Throw (ErrorObject "Capture lifecycle source completed without a value.")
| Throw e => Throw e
| Read k => Read (λ s, settleOne (k s))
| Update f p' => Update f (settleOne p')
| Ask c ab k => Ask c ab (λ r, settleOne (k r))
| Listen c ab l on stop k => Listen c ab l on stop (λ r, settleOne (k r))
end.

Definition rememberSourceIdentity (documentId : string) (job : DesktopCaptureOperation) : action unit :=
match job_sourceSha256 job with
| None => Return tt
| Some sourceSha256 => with_active documentId (λ active,
  if match active_sourceSha256 active with Some known => negb (String.eqb known sourceSha256) | None => false end
  then Throw (ErrorObject "OCR evidence identity mismatch: capture source changed.")
  else update (patch_active documentId (with_sourceSha256 sourceSha256)))
end.

(** [getOcr] of the runtime client: the reply is parsed. *)
Definition getOcr (captureId : string) : action js :=
reply ← invoke (GetOcr captureId);
match parseCaptureOcrProjection Date_parse reply with
| Ok projection => Return projection
| Err error => Throw (rejection_of error)
end.

Definition expectedOcrIdentity (job : DesktopCaptureOperation) (active : ActiveCapture) (terminalStatus : string)
: result rejection js :=
match active_ocrCompute active with
| None => Err (ErrorObject "OCR evidence identity unavailable: runtime OCR readiness is missing.")
| Some compute =>
  match truthy_string (match active_sourceSha256 active with Some s => Some s | None => job_sourceSha256 job end) with
  | None => Err (ErrorObject "OCR evidence identity unavailable: capture source identity is missing.")
  | Some sourceSha256 =>
      match truthy_string (compute_workerSha256 compute) with
      | None => Err (ErrorObject "OCR evidence identity unavailable: OCR worker identity is missing.")
      | Some workerSha256 =>
          if negb (String.eqb terminalStatus "completed") && negb (String.eqb terminalStatus "failed")
          then Err (ErrorObject ("OCR evidence is unsupported for terminal status: " +:+ terminalStatus))
          else Ok (Obj [("captureId", Str (job_captureId job)); ("sourceSha256", Str sourceSha256);
                        ("runtimeVersion", Str (compute_runtimeVersion compute));
                        ("contractSha256", Str (compute_contractSha256 compute));
                        ("terminalStatus", Str terminalStatus); ("workerSha256", Str workerSha256)])
      end
  end
end.

(** [buildOcrEvidence({ projection, expected })] *)
Definition build_evidence (documentId : string) (job : DesktopCaptureOperation) (terminalStatus : string)
(projection : js) : action js :=
with_active documentId (λ active,
expected ← (of_result (expectedOcrIdentity job active terminalStatus) : action js);
invoke (BuildOcrEvidence projection expected)).

(** ** One-shot captures *)

Definition persistRawDuringExtraction (documentId : string) (job : DesktopCaptureOperation)
: action DesktopCaptureOperation :=
with_active documentId (λ active,
if rawPersisted active || negb (String.eqb (captureJobStage job) "structuring") then Return job
else
  raw ← invoke (GetRaw (job_captureId job));
  match raw with
  | None => Return job
  | Some raw =>
      invoke (UpdateCapture (keeping (Some raw) None None (job_update documentId "processing" job)));;
      update (λ s, reloadDocumentState documentId (patch_active documentId with_rawPersisted s));;
      Return job
  end).

Definition sendCancellation (documentId : string) (cancelCapture : BridgeCall) : action (bridge_reply cancelCapture) :=
update (patch_active documentId with_cancelSent);;
invoke cancelCapture.

(** [race(timer.pipe(getCapture), cancelWake.pipe(cancelCapture))]: the first
value wins; a timer that fired and a cancellation that was sent stay
pending until then. *)
Definition poll_or_cancel (documentId captureId : string) : action DesktopCaptureOperation :=
wake ← invoke (AwaitTimerOrWake captureId);
match wake with
| Settled _ =>
  wake ← invoke (AwaitGetOrWake captureId);
  match wake with
  | Settled job => Return job
  | Woken => sendCancellation documentId (AwaitGetOrCancel captureId)
  end
| Woken =>
  first ← sendCancellation documentId (AwaitCancelOrTimer captureId);
  match first with
  | Some job => Return job
  | None => invoke (AwaitGetOrCancel captureId)
  end
end.

Definition advanceCapture (documentId : string) (job : DesktopCaptureOperation) : action DesktopCaptureOperation :=
invoke (UpdateCapture (job_update documentId "processing" job));;
next ← with_active documentId (λ active,
if cancelRequested active && negb (cancelSent active)
then sendCancellation documentId (CancelCapture (job_captureId job))
else poll_or_cancel documentId (job_captureId job));
next ← persistRawDuringExtraction documentId next;
update (patch_active documentId (with_lastStage (job_stage next)));;
Return next.

(** The first step of [waitForTerminal$]; the polls follow in [poll_job]. *)
Definition waitForTerminal (documentId : string) (job : DesktopCaptureOperation) : action phase :=
job ← persistRawDuringExtraction documentId job;
update (patch_active documentId (with_lastStage (Some (captureJobStage job))));;
Return (PollJob job).

(** The terminal data of a job, saved with the evidence of its OCR. *)
Definition persist_data (documentId : string) (job : DesktopCaptureOperation) (evidence : option js) : action unit :=
if String.eqb (job_status job) "completed" then
with_active documentId (λ active,
  if rawPersisted active then
    result ← invoke (GetResult (job_captureId job));
    invoke (UpdateCapture (keeping None (Some result) evidence (job_update documentId "completed" job)))
  else
    raw ← invoke (GetRaw (job_captureId job));
    match raw with
    | None => Throw (ErrorObject (missingRawResult desktopMessages))
    | Some raw =>
        result ← invoke (GetResult (job_captureId job));
        with_active documentId (λ active,
          invoke (UpdateCapture (keeping (if rawPersisted active then None else Some raw) (Some result) evidence
            (job_update documentId "completed" job)));;
          update (patch_active documentId with_rawPersisted))
    end)
else if String.eqb (job_status job) "failed" || String.eqb (job_status job) "cancelled" then
let saved raw := failing (job_errorCode job) (job_errorMessage job)
  (keeping raw None evidence (job_update documentId (terminalLibraryStatus job) job)) in
with_active documentId (λ active,
  if rawPersisted active then invoke (UpdateCapture (saved None))
  else
    raw ← invoke (GetRaw (job_captureId job));
    with_active documentId (λ active,
      invoke (UpdateCapture (saved (if rawPersisted active then None else raw)));;
      match raw with
      | Some _ => update (patch_active documentId with_rawPersisted)
      | None => Return tt
      end))
else Throw (ErrorObject ("Capture Runtime returned unsupported terminal status: " +:+ job_status job)).

Definition persistTerminalData (documentId : string) (job : DesktopCaptureOperation) : action unit :=
if String.eqb (job_status job) "completed" || String.eqb (job_status job) "failed" then
rememberSourceIdentity documentId job;;
projection ← settleOne (getOcr (job_captureId job));
evidence ← build_evidence documentId job
  (if String.eqb (job_status job) "failed" then "failed" else "completed") projection;
persist_data documentId job (Some evidence)
else persist_data documentId job None.

(** [{ ..., status: 'recovery_required', recoveryCode: 'runtime_cleanup_failed', recoveryMessage }] *)
Definition cleanup_failed (error : rejection) (u : CaptureUpdate) : CaptureUpdate :=
recovering "runtime_cleanup_failed" (errorMessage error) u.

Definition cleanupAfterCommit (documentId : string) (job : DesktopCaptureOperation) : action unit :=
catchError (λ error, invoke (UpdateCapture (cleanup_failed error
  (failing (job_errorCode job) (job_errorMessage job) (job_update documentId "recovery_required" job)))))
(invoke (DeleteCapture (job_captureId job));;
 invoke (UpdateCapture (failing (job_errorCode job) (job_errorMessage job)
   (clearing (plain_update documentId (terminalLibraryStatus job) (Some (captureJobStage job))))))).

Definition persistTerminal (documentId : string) (job : DesktopCaptureOperation) : action unit :=
invoke (UpdateCapture (job_update documentId "persisting" job));;
persistTerminalData documentId job;;
update (patch_active documentId (with_terminal true (Some (terminalLibraryStatus job)) (job_errorCode job)
(job_errorMessage job)));;
cleanupAfterCommit documentId job.

Definition evidence_status (evidence : js) : string :=
match evidence with Obj r => text (get r "status") | _ => "" end.

(** [projection.status !== 'completed' || projection.pages.some((page) => page.status === 'failed')] *)
Definition incomplete_projection (projection : js) : bool :=
match projection with
| Obj r => negb (is_str (get r "status") "completed") ||
         array_with (existsb (λ page, is_str (page_status page) "failed")) (get r "pages")
| _ => true
end.

Definition persistOcrCheckpoint (documentId : string) (job : DesktopCaptureOperation) : action unit :=
let stage := captureJobStage job in
raw ← settleOne (invoke (GetRaw (job_captureId job)));
match raw with
| None => Throw (ErrorObject "Capture Runtime OCR checkpoint raw projection is unavailable.")
| Some raw =>
  projection ← settleOne (getOcr (job_captureId job));
  if incomplete_projection projection
  then Throw (ErrorObject "Capture Runtime OCR checkpoint is not complete.")
  else
    (* projection.status is 'completed' here *)
    evidence ← build_evidence documentId job "completed" projection;
    settleOne (invoke (UpdateCapture (keeping (Some raw) None (Some evidence)
      (job_update documentId (evidence_status evidence) job))));;
    update (λ s, reloadDocumentState documentId (patch_active documentId
      (λ a, with_lastStage (Some stage)
        (with_terminal true (Some "awaiting_confirmation") (terminalErrorCode a) (terminalErrorMessage a) a)) s));;
    settleOne (invoke (DeleteCapture (job_captureId job)));;
    settleOne (invoke (UpdateCapture (clearing (plain_update documentId "awaiting_confirmation" (Some stage)))))
end.

Definition persistOneShot (documentId : string) (job : DesktopCaptureOperation) : action unit :=
if isOcrCheckpoint job then persistOcrCheckpoint documentId job else persistTerminal documentId job.

(** ** Recordings *)

(** [advanceStreaming$] *)
Definition advanceStreaming (documentId : string) (operation : DesktopCaptureOperation)
: action DesktopCaptureOperation :=
let captureId := job_captureId operation in
with_active documentId (λ active,
(if negb (cancelRequested active) || cancelSent active then Return tt
 else sendCancellation documentId (CancelStreamingCapture captureId);; Return tt);;
events ← invoke (GetStreamingEvents captureId (lastEventSequence active));
update (patch_active documentId (λ a, fold_left applyStreamingEvent events a));;
partial ← invoke (GetStreamingPartial captureId);
match partial with
| Some partial => update (set_streamingPartials (<[documentId := partial]>))
| None => Return tt
end;;
invoke (GetStreamingCapture captureId)).

(** The first step of [waitForStreamingTerminal$]; the polls follow in [poll_streaming]. *)
Definition waitForStreamingTerminal (documentId : string) (operation : DesktopCaptureOperation) : action phase :=
operation ← advanceStreaming documentId operation;
Return (PollStreaming operation).

Definition streaming_status (operation : DesktopCaptureOperation) : string :=
if String.eqb (job_status operation) "completed" then "completed"
else if String.eqb (job_status operation) "cancelled" then "canceled" else "failed".

Definition persistStreamingTerminal (documentId : string) (operation : DesktopCaptureOperation) : action unit :=
let failed := failing (job_errorCode operation) (job_errorMessage operation) in
let update_of status := plain_update documentId status (Some (job_status operation)) in
update (patch_active documentId (λ a, with_terminal (terminalCommitted a) (Some (streaming_status operation))
(job_errorCode operation) (job_errorMessage operation) a));;
terminalData ← (if String.eqb (job_status operation) "completed"
              then data ← invoke (GetStreamingResult (job_captureId operation)); Return (Some data)
              else Return None);
with_active documentId (λ active,
invoke (UpdateCapture (failed (keeping (fst <$> terminalData) (snd <$> terminalData) None
  (for_capture (job_captureId operation) (update_of (default "failed" (terminalStatus active)))))));;
update (λ s, reloadDocumentState documentId (patch_active documentId
  (λ a, with_terminal true (terminalStatus a) (terminalErrorCode a) (terminalErrorMessage a) a) s));;
invoke (DeleteStreamingCapture (job_captureId operation));;
with_active documentId (λ active,
  invoke (UpdateCapture (failed (clearing (update_of (default "failed" (terminalStatus active)))))));;
update (set_streamingPartials (delete documentId))).

(** ** Failures of a capture *)

Definition persistLifecycleFailure (documentId : string) (error : rejection) : action unit :=
with_active documentId (λ active,
match truthy_string (active_captureId active) with
| Some captureId =>
    if terminalCommitted active then
      invoke (UpdateCapture (cleanup_failed error
        (failing (terminalErrorCode active) (terminalErrorMessage active)
          (for_capture captureId (plain_update documentId "recovery_required"
            (Some (default (terminalStage (terminalStatus active)) (lastStage active))))))))
    else
      invoke (UpdateCapture (recovering (if cancelSent active then "cancel_failed" else "capture_recovery_required")
        (errorMessage error)
        (for_capture captureId (plain_update documentId "recovery_required"
          (Some (default "recovery_required" (lastStage active)))))))
| None =>
    invoke (UpdateCapture (failing (Some "capture_failed") (Some (errorMessage error))
      (clearing (plain_update documentId "failed" (Some "failed")))))
end).

(** The error handling of [trackCaptureLifecycle$]; its [finalize] is [finish]. *)
Definition lifecycle (documentId : string) (work : action phase) : action phase :=
catchError (λ error,
  catchError (λ failureError, update (setMessage (errorMessage failureError));; Return Done)
    (persistLifecycleFailure documentId error;;
     update (reloadDocumentState documentId);;
     Return Done))
work.

(** The end of a lifecycle's work: its value reloads the document. *)
Definition finished (documentId : string) (work : action unit) : action phase :=
work;;
update (reloadDocumentState documentId);;
Return Done.

(** One round of [expand] in [waitForTerminal$], or what follows its last one. *)
Definition poll_job (documentId : string) (job : DesktopCaptureOperation) : action phase :=
if negb (isActiveJob job) || isOcrCheckpoint job then finished documentId (persistOneShot documentId job)
else next ← advanceCapture documentId job; Return (PollJob next).

(** The same for [waitForStreamingTerminal$]. *)
Definition poll_streaming (documentId : string) (operation : DesktopCaptureOperation) : action phase :=
if isActiveStreaming operation then
invoke Timer;;
next ← advanceStreaming documentId operation;
Return (PollStreaming next)
else finished documentId (persistStreamingTerminal documentId operation).

Definition go_on (documentId : string) (p : phase) : action phase :=
match p with
| Done => Return Done
| PollJob job => lifecycle documentId (poll_job documentId job)
| PollStreaming operation => lifecycle documentId (poll_streaming documentId operation)
end.

(** ** Starting a capture *)

Definition captureOneShot (documentId : string) (pdfPageNumbers : option (list num)) : action phase :=
clientRequestId ← randomUUID;
job ← invoke (CreateCapture documentId clientRequestId pdfPageNumbers);
update (patch_active documentId (with_captureId (job_captureId job)));;
rememberSourceIdentity documentId job;;
update (patch_active documentId (with_lastStage (Some (captureJobStage job))));;
invoke (UpdateCapture (job_update documentId "processing" job));;
update (reloadDocumentState documentId);;
waitForTerminal documentId job.

Definition captureStreaming (documentId : string) : action phase :=
clientRequestId ← randomUUID;
Read (λ s,
operation ← invoke (StartStreamingCapture documentId clientRequestId
  (host_identifySpeakers (environment s) && isFeatureReady (host_requirements (environment s)) "asr.speakers"));
update (patch_active documentId (λ a, with_lastStage (Some (job_status operation))
  (with_captureId (job_captureId operation) a)));;
invoke (UpdateCapture (for_capture (job_captureId operation)
  (plain_update documentId "processing" (Some (job_status operation)))));;
update (reloadDocumentState documentId);;
waitForStreamingTerminal documentId operation).

(** [documents().find(...) ?? (selected()?.documentId === documentId ? selected() : undefined)] *)
Definition find_document (documentId : string) (environment : Environment) : option DesktopLibrarySummary :=
match List.find (λ item, String.eqb (doc_documentId item) documentId) (host_documents environment) with
| Some document => Some document
| None => match host_selected environment with
        | Some document => if String.eqb (doc_documentId document) documentId then Some document else None
        | None => None
        end
end.

(** The media type a new import knows, or the library's. *)
Definition media_type (documentId : string) (environment : Environment) (mediaType : option string) : string :=
match mediaType with
| Some mediaType => mediaType
| None => default "" (doc_mediaType <$> find_document documentId environment)
end.

(** Neither capture starts twice, nor without a runtime. *)
Definition may_start (documentId : string) (s : desktop) : bool :=
runtime_ready (environment s) && negb (bool_decide (is_Some (activeCaptures s !! documentId))).

Definition begin_capture (documentId : string) (active : ActiveCapture) (s : desktop) : desktop :=
markBusy documentId true (set_activeCaptures (<[documentId := active]>) s).

(** [captureExisting$]: the state it leaves and its work, or [None] for [EMPTY]. *)
Definition captureExisting (documentId : string) (mediaType : option string) (s : desktop)
: option (desktop * action phase) :=
if may_start documentId s then
let media := media_type documentId (environment s) mediaType in
let streaming := isAudioMediaType media in
let pdfPageNumbers := if isPdfMediaType media then runtime_pdfPageNumbers (environment s) else None in
Some (begin_capture documentId (new_active None streaming None (runtime_ocrCompute (environment s))) s,
  lifecycle documentId
    (invoke (UpdateCapture (clearing (plain_update documentId "processing" (Some "uploading"))));;
     update (reloadDocumentState documentId);;
     if streaming then captureStreaming documentId else captureOneShot documentId pdfPageNumbers))
else None.

Definition retryRuntimeCleanup (document : DesktopLibrarySummary) (captureId : string) : action unit :=
let saved status := failing (doc_errorCode document) (doc_errorMessage document)
(plain_update (doc_documentId document) status (doc_stage document)) in
catchError (λ error, invoke (UpdateCapture (cleanup_failed error
  (for_capture captureId (saved "recovery_required")))))
((if isAudioMediaType (doc_mediaType document)
  then invoke (DeleteStreamingCapture captureId) else invoke (DeleteCapture captureId));;
 invoke (UpdateCapture (clearing (saved (committedTerminalStatus document))))).

(** [recoverCapture$] *)
Definition recoverCapture (document : DesktopLibrarySummary) (captureId : string) (s : desktop)
: option (desktop * action phase) :=
let documentId := doc_documentId document in
if may_start documentId s then
let committed := hasCommittedTerminalData document in
let streaming := isAudioMediaType (doc_mediaType document) in
let active := new_active (Some captureId) streaming (doc_stage document) (runtime_ocrCompute (environment s)) in
if committed then
  Some (note [Recovered document] (begin_capture documentId
      (with_terminal true (Some (committedTerminalStatus document)) (doc_errorCode document)
        (doc_errorMessage document) active) s),
    lifecycle documentId (finished documentId (retryRuntimeCleanup document captureId)))
else
  Some (begin_capture documentId active s,
    lifecycle documentId
      (if streaming then
         operation ← invoke (GetStreamingCapture captureId);
         update (patch_active documentId (with_lastStage (Some (job_status operation))));;
         waitForStreamingTerminal documentId operation
       else
         job ← invoke (GetCapture captureId);
         rememberSourceIdentity documentId job;;
         update (patch_active documentId (with_lastStage (Some (captureJobStage job))));;
         waitForTerminal documentId job))
else None.

(** [captureNewSource$] up to the capture: the document to capture, if any. *)
Definition captureNewSource (sourcePath : string) : action (option DesktopLibrarySummary) :=
catchError (λ error, update (setMessage (errorMessage error));; Return None)
(document ← invoke (CreateSource sourcePath);
 update (select_created (doc_documentId document));;
 Read (λ s,
   let audio := isAudioMediaType (doc_mediaType document) in
   let requirements := host_requirements (environment s) in
   if audio && negb (isFeatureReady requirements "asr") then
     update (request_requirement "speech-recognition" (whisperNeeded desktopMessages));; Return None
   else if audio && host_identifySpeakers (environment s) && negb (isFeatureReady requirements "asr.speakers") then
     update (request_requirement "speaker-diarization" (speakerUnitNeeded desktopMessages));; Return None
   else if negb audio && (0 <? length (selectFeatureMissing requirements "ocr"))%nat then
     update (request_requirement "windowsml-ocr" (needsSetup desktopMessages));; Return None
   else Return (Some document))).

(** ** The service *)

(** The running captures by document, each with the source paths that follow
it, and the imports under way. *)
Record service : Type := {
state : desktop;
captures : gmap string (action phase * list string);
imports : gmap nat (action (option DesktopLibrarySummary) * list string);
next_import : nat
}.

Definition with_state (f : desktop → desktop) (sys : service) : service :=
{| state := f (state sys); captures := captures sys; imports := imports sys; next_import := next_import sys |}.

Definition with_captures (f : gmap string (action phase * list string) → gmap string (action phase * list string))
(sys : service) : service :=
{| state := state sys; captures := f (captures sys); imports := imports sys; next_import := next_import sys |}.

Definition calls_of {A} (p : action A) : list HistoryEntry :=
match waits_at p with Some call => [Called call] | None => [] end.

(** [concatMap] over the paths: the next source is imported. *)
Definition next_source (paths : list string) (sys : service) : service :=
match paths with
| [] => sys
| path :: rest =>
  let '(s, p) := advance (captureNewSource path) (state sys) in
  {| state := note (calls_of p) s; captures := captures sys;
     imports := <[next_import sys := (p, rest)]> (imports sys); next_import := S (next_import sys) |}
end.

(** [finalize], then the sources that waited for this capture. *)
Definition finish (documentId : string) (rest : list string) (sys : service) : service :=
next_source rest (with_captures (delete documentId)
(with_state (λ s, markBusy documentId false (set_activeCaptures (delete documentId) s)) sys)).

(** Run a capture to its next wait or to its end. *)
Definition resume (documentId : string) (p : action phase) (s : desktop) : desktop * action phase :=
match advance p s with
| (s', Return ph) => advance (go_on documentId ph) s'
| r => r
end.

Definition run (documentId : string) (p : action phase) (rest : list string) (sys : service) : service :=
let '(s, p') := resume documentId p (state sys) in
let sys' := with_state (λ _, note (calls_of p') s) sys in
if ended p' then finish documentId rest sys' else with_captures (<[documentId := (p', rest)]>) sys'.

(** A capture that was let start runs; otherwise the sources that would follow it. *)
Definition start (documentId : string) (started : option (desktop * action phase)) (rest : list string)
(sys : service) : service :=
match started with
| Some (s, p) => run documentId p rest (with_state (λ _, s) sys)
| None => next_source rest sys
end.

Definition addSourcePaths (paths : list string) (sys : service) : service := next_source paths sys.

Definition retry (documentId : string) (sys : service) : service :=
let recoverable := document ← find_document documentId (environment (state sys));
                 captureId ← truthy_string (doc_captureId document);
                 Some (document, captureId) in
match recoverable with
| Some (document, captureId) =>
  start (doc_documentId document) (recoverCapture document captureId (state sys)) [] sys
| None => start documentId (captureExisting documentId None (state sys)) [] sys
end.

(** [active.cancelWake.next()]: a capture in the race of [poll_or_cancel] goes on with it. *)
Definition wake (p : action phase) : option (action phase) :=
match p with
| Ask call _ k =>
  match call return (result rejection (bridge_reply call) → action phase) → option (action phase) with
  | AwaitTimerOrWake _ | AwaitGetOrWake _ => λ k, Some (k (Ok Woken))
  | _ => λ _, None
  end k
| _ => None
end.

Definition cancel (documentId : string) (sys : service) : service :=
match activeCaptures (state sys) !! documentId with
| Some active =>
  if cancelRequested active then sys
  else
    let sys' := with_state (patch_active documentId with_cancelRequested) sys in
    match captures sys' !! documentId with
    | Some (p, rest) => match wake p with Some p' => run documentId p' rest sys' | None => sys' end
    | None => sys'
    end
| None => sys
end.

(** The reply to a call: the bridge's, or what this process computes itself. *)
Definition answered (answer : ∀ call, result rejection (bridge_reply call)) (call : BridgeCall)
: result rejection (bridge_reply call) :=
match call with
| Timer => Ok tt
| AwaitTimerOrWake _ => Ok (Settled tt)
| AwaitGetOrWake captureId =>
  match answer (GetCapture captureId) with Ok job => Ok (Settled job) | Err error => Err error end
| BuildOcrEvidence projection expected =>
  match buildOcrEvidence normalize_nfkc Date_parse subtle projection expected with
  | Ok evidence => Ok evidence
  | Err message => Err (ErrorObject message)
  end
| call => answer call
end.

(** What the library answered to an update. *)
Definition record_reply (call : BridgeCall) : result rejection (bridge_reply call) → desktop → desktop :=
match call with
| UpdateCapture u => λ r, match r with Ok _ => note [Saved u] | Err _ => note [Refused u] end
| _ => λ _, id
end.

Definition reply {A} (answer : ∀ call, result rejection (bridge_reply call)) (p : action A) (s : desktop)
: option (action A * desktop) :=
match p with
| Ask call _ k => let r := answered answer call in Some (k r, record_reply call r s)
| _ => None
end.

Definition capture_reply (documentId : string) (answer : ∀ call, result rejection (bridge_reply call))
(sys : service) : service :=
match captures sys !! documentId with
| Some (p, rest) =>
  match reply answer p (state sys) with
  | Some (p', s) => run documentId p' rest (with_state (λ _, s) sys)
  | None => sys
  end
| None => sys
end.

(** An import ends with its reply: its document is captured, or the next source follows. *)
Definition import_reply (id : nat) (answer : ∀ call, result rejection (bridge_reply call)) (sys : service) : service :=
match imports sys !! id with
| Some (p, rest) =>
  match reply answer p (state sys) with
  | Some (p', s) =>
      let '(s', p'') := advance p' s in
      let sys' := {| state := s'; captures := captures sys; imports := delete id (imports sys);
                     next_import := next_import sys |} in
      match p'' with
      | Return (Some document) => start (doc_documentId document)
          (captureExisting (doc_documentId document) (Some (doc_mediaType document)) s') rest sys'
      | _ => next_source rest sys'
      end
  | None => sys
  end
| None => sys
end.

Inductive Action : Type :=
| AddSources (paths : list string)
| Retry (documentId : string)
| Cancel (documentId : string)
| CaptureReply (documentId : string) (answer : ∀ call, result rejection (bridge_reply call))
| ImportReply (id : nat) (answer : ∀ call, result rejection (bridge_reply call))
| SetEnvironment (environment : Environment).

Definition act (sys : service) (a : Action) : service :=
match a with
| AddSources paths => addSourcePaths paths sys
| Retry documentId => retry documentId sys
| Cancel documentId => cancel documentId sys
| CaptureReply documentId answer => capture_reply documentId answer sys
| ImportReply id answer => import_reply id answer sys
| SetEnvironment environment => with_state (set_environment environment) sys
end.

Definition init (environment : Environment) : service :=
{| state := {| activeCaptures := ∅; busyIds := ∅; streamingPartials := ∅; environment := environment;
   host := {| selectedId := None; requestedRequirements := ∅; message := ""; reloads := [] |};
   desktop_uuids := 0; history := [] |};
 captures := ∅; imports := ∅; next_import := 0 |}.

Inductive reachable : service → Prop :=
| reachable_init environment : reachable (init environment)
| reachable_act sys a : reachable sys → reachable (act sys a).
End capture.
