(* ===== verification/DesktopSafety.v ===== *)
(** * What the desktop app saves before it deletes

    Safety of the service of [DesktopCapture], for every order of commands,
    replies and cancellations: what the library holds before the runtime's data
    is deleted, whose evidence it holds, and how a document is left.

    The proof is rely-guarantee: what a capture may do to the state
    ([frame]), what it may find changed after a wait ([rely]), and a logic
    for one capture ([obeys]) whose rules follow the combinators of
    [Observable]. *)

From stdpp Require Import gmap.
From S2P Require Import Prelude JsString JsNum JsValue RuntimeErrors CodecFields Codec CaptureModel CaptureHelpers StoreHelpers Observable OcrEvidence DesktopModel DesktopCapture.

(** ** What the history says *)

(** The library's last answer about a document. *)
Definition answers (documentId : string) (entry : HistoryEntry) : bool :=
  match entry with
  | Saved u | Refused u => String.eqb (upd_documentId u) documentId
  | _ => false
  end.

Definition last_answer (documentId : string) (h : list HistoryEntry) : option HistoryEntry :=
  List.find (answers documentId) h.

(** The library does not show the document as in progress, as far as its last answer says. *)
Definition settled (documentId : string) (h : list HistoryEntry) : Prop :=
  match last_answer documentId h with
  | Some (Saved u) => upd_status u ∉ ["processing"; "persisting"]
  | _ => True
  end.

Definition saved_raw (documentId : string) (h : list HistoryEntry) : Prop :=
  ∃ u, Saved u ∈ h ∧ upd_documentId u = documentId ∧ is_Some (upd_raw u).

(** The library holds all that is kept of a capture: it saved the capture's
    terminal update, with its data, or said so when the capture was recovered. *)
Definition kept (captureId : string) (h : list HistoryEntry) : Prop :=
  (∃ document, Recovered document ∈ h ∧ doc_captureId document = Some captureId ∧
     hasCommittedTerminalData document = true) ∨
  (∃ u, Saved u ∈ h ∧ upd_captureId u = Some captureId ∧
     (upd_status u ∈ ["failed"; "canceled"] ∨
      is_Some (upd_raw u) ∧ is_Some (upd_ocrEvidence u) ∨
      upd_status u = "completed" ∧ is_Some (upd_result u) ∧ saved_raw (upd_documentId u) h)).

Lemma saved_raw_more d h h' : h `suffix_of` h' → saved_raw d h → saved_raw d h'.
Proof. intros [l ->] (u & Hin & H). exists u. rewrite elem_of_app. auto. Qed.

Lemma kept_more c h h' : h `suffix_of` h' → kept c h → kept c h'.
Proof.
  intros Hs. pose proof Hs as [l ->]. intros [(doc & Hin & H)|(u & Hin & Hc & H)]; [left; exists doc|right; exists u];
    rewrite elem_of_app; (split; [auto|]); [done|]. split; [done|].
  destruct H as [H|[H|(H & Hr & Hw)]]; [auto..|]. right. right. split_and!; [done..|]. by eapply saved_raw_more.
Qed.

Lemma last_answer_called d l h :
  Forall (λ e, answers d e = false) l → last_answer d (l ++ h) = last_answer d h.
Proof. unfold last_answer. induction 1 as [|e l He Hl IH]; cbn; [done|]. by rewrite He. Qed.

Lemma calls_of_answers {A} d (p : action A) : Forall (λ e, answers d e = false) (calls_of p).
Proof. unfold calls_of. destruct (waits_at p); by repeat constructor. Qed.

Section safety.
Variables (uuid : nat → string) (normalize_nfkc : string → string) (Date_parse : string → num).
Variable subtle : option (string → list Z).
Variable desktopMessages : DesktopMessages.

Abbreviation build := (buildOcrEvidence normalize_nfkc Date_parse subtle).

(** Evidence is what [buildOcrEvidence] makes for the capture it is saved with. *)
Definition bound (u : CaptureUpdate) : Prop :=
∀ evidence, upd_ocrEvidence u = Some evidence →
∃ captureId projection expected r, upd_captureId u = Some captureId ∧
build projection expected = Ok evidence ∧ evidence = Obj r ∧ get r "captureId" = Str captureId.

(** ** The logic of one capture *)

Section logic.
Variable documentId : string.

(** The calls a capture may make. *)
Definition allowed (h : list HistoryEntry) (call : BridgeCall) : Prop :=
match call with
| UpdateCapture u => upd_documentId u = documentId ∧ bound u
| DeleteCapture captureId | DeleteStreamingCapture captureId => kept captureId h
| _ => True
end.

(** What a step of the capture leaves alone. *)
Definition frame (s s' : desktop) : Prop :=
history s' = history s ∧ busyIds s' = busyIds s ∧ dom (activeCaptures s') = dom (activeCaptures s) ∧
∀ other, other ≠ documentId → activeCaptures s' !! other = activeCaptures s !! other.

(** What the others leave alone: they may ask this capture to be cancelled. *)
Definition rely (s s' : desktop) : Prop :=
history s `suffix_of` history s' ∧
last_answer documentId (history s') = last_answer documentId (history s) ∧
with_cancelRequested <$> activeCaptures s' !! documentId = with_cancelRequested <$> activeCaptures s !! documentId.

(** Replies: evidence is computed, the rest is free. *)
Definition possible (call : BridgeCall) : result rejection (bridge_reply call) → Prop :=
match call with
| BuildOcrEvidence projection expected => λ r, ∀ evidence, r = Ok evidence → build projection expected = Ok evidence
| _ => λ _, True
end.

Abbreviation obeys := (Observable.obeys (λ st, allowed (history st)) frame rely possible record_reply).

Lemma allowed_more h h' call : h `suffix_of` h' → allowed h call → allowed h' call.
Proof. destruct call; cbn; eauto using kept_more. Qed.

#[export] Instance frame_preorder : PreOrder frame.
Proof.
split; [by repeat split|]. intros s s' s'' (? & ? & ? & Ho) (? & ? & ? & Ho'). unfold frame.
split_and!; [congruence..|]. intros other Hne. by rewrite Ho', Ho.
Qed.

#[export] Instance rely_preorder : PreOrder rely.
Proof.
split; [by repeat split|]. intros s s' s'' (? & ? & ?) (? & ? & ?). unfold rely.
split_and!; [by etrans|congruence..].
Qed.

Lemma obeys_settleOne {A} Q (p : action A) s :
obeys (λ e s', match e with Completed => ∀ x, Q (Failed x) s' | _ => Q e s' end) p s → obeys Q (settleOne p) s.
Proof.
revert s. induction p as [a| |e|k IH|g p IH|c ab k IH|c ab l on stop k IH]; intros s; cbn; naive_solver.
Qed.

(** A waiting capture finds what the others left. *)
Lemma obeys_later {A} Q (p : action A) s s' : is_Some (waits_at p) → rely s s' → obeys Q p s → obeys Q p s'.
Proof. apply obeys_waiting; [apply rely_preorder|]. intros call [Hh _]. by apply allowed_more. Qed.

(** Updates that touch no capture but this one. *)
Lemma frame_patch f s : frame s (patch_active documentId f s).
Proof.
unfold frame, patch_active. cbn. split_and!; [done..|apply set_eq; intros i; rewrite !elem_of_dom|].
- destruct (decide (i = documentId)) as [->|Hne].
+ rewrite lookup_alter_eq. by rewrite fmap_is_Some.
+ by rewrite lookup_alter_ne.
- intros other Hne. by rewrite lookup_alter_ne.
Qed.

(** ** Steps *)

Lemma obeys_invoke call (Q : ending (bridge_reply call) → desktop → Prop) s :
allowed (history s) call →
(∀ r s', possible call r → rely s s' →
Q (match r with Ok a => Value a | Err e => Failed e end) (record_reply call r s')) →
obeys Q (invoke call) s.
Proof. exact (obeys_ask (λ st, allowed (history st)) frame rely possible record_reply call Q s). Qed.

(** An update of the library: saved, or refused. *)
Lemma obeys_save (Q : ending unit → desktop → Prop) u s :
upd_documentId u = documentId → bound u →
(∀ s', rely s s' → Q (Value tt) (note [Saved u] s')) →
(∀ e s', rely s s' → Q (Failed e) (note [Refused u] s')) →
obeys Q (invoke (UpdateCapture u)) s.
Proof. intros Hd Hb Hs Hf. apply obeys_invoke; [done|]. intros [[]|e] s' _ Hr; [by apply Hs|by apply Hf]. Qed.

(** Once the raw capture counts as saved, the library has it. *)
Definition raw_ok (s : desktop) : Prop :=
rawPersisted (active_of documentId s) = true → saved_raw documentId (history s).

Lemma rely_active {B} (g : ActiveCapture → B) s s' :
(∀ a, g (with_cancelRequested a) = g a) → rely s s' → g (active_of documentId s') = g (active_of documentId s).
Proof.
intros Hg (_ & _ & Ha). unfold active_of.
destruct (activeCaptures s !! documentId) as [a|], (activeCaptures s' !! documentId) as [a'|]; cbn in *;
[|discriminate Ha..|done]. rewrite <-(Hg a), <-(Hg a'). congruence.
Qed.

Lemma record_reply_history call r s : history s `suffix_of` history (record_reply call r s).
Proof. destruct call; try done. destruct r; by eexists [_]. Qed.

Lemma record_reply_active call r s : activeCaptures (record_reply call r s) = activeCaptures s.
Proof. destruct call; try done. by destruct r. Qed.

Lemma raw_ok_reply call r s s' : raw_ok s → rely s s' → raw_ok (record_reply call r s').
Proof.
intros H Hr Hp. unfold active_of in Hp. rewrite record_reply_active in Hp.
eapply saved_raw_more; [apply record_reply_history|]. eapply saved_raw_more; [apply Hr|].
apply H. by rewrite <-(rely_active rawPersisted s s').
Qed.

Lemma raw_ok_rely s s' : rely s s' → raw_ok s → raw_ok s'.
Proof. intros Hr H. exact (raw_ok_reply Timer (Ok tt) s s' H Hr). Qed.

Lemma raw_ok_saved_update u s : raw_ok s → raw_ok (note [Saved u] s).
Proof. intros H. by apply (raw_ok_reply (UpdateCapture u) (Ok tt) s). Qed.

Lemma raw_ok_patch f s :
(∀ a, rawPersisted (f a) = rawPersisted a) → raw_ok s → raw_ok (patch_active documentId f s).
Proof.
unfold raw_ok, active_of, patch_active. cbn. rewrite lookup_alter_eq. intros Hf.
destruct (activeCaptures s !! documentId); cbn; [by rewrite Hf|done].
Qed.

Lemma raw_ok_saved f s : saved_raw documentId (history s) → raw_ok (patch_active documentId f s).
Proof. by intros H _. Qed.

Lemma bound_no_evidence u : upd_ocrEvidence u = None → bound u.
Proof. intros H v. by rewrite H. Qed.

(** Take a program apart step by step; [frame] and calls without a condition
are settled on the way. *)
Ltac frame_tac := first [ exact (frame_patch _ _) | by repeat split ].

Ltac obeys_step :=
lazymatch goal with
| |- obeys _ (_ ≫= _) _ => apply obeys_then
| |- obeys _ (then_ _ _) _ => apply obeys_then
| |- obeys _ (catchError _ _) _ => apply obeys_catch
| |- obeys _ (settleOne _) _ => apply obeys_settleOne
| |- obeys ?Q (with_active ?d ?k) ?s => change (obeys Q (k (active_of d s)) s); cbv beta
| |- obeys ?Q (Read ?k) ?s => change (obeys Q (k s) s); cbv beta
| |- obeys ?Q (update ?f) ?s => apply obeys_update; [frame_tac|cbv beta iota]
| |- obeys ?Q (Update ?f ?p) ?s => split; [frame_tac|change (obeys Q p (f s)); cbv beta]
| |- obeys ?Q (mret ?a) ?s => change (Q (Value a) s); cbv beta iota
| |- obeys ?Q (Return ?a) ?s => change (Q (Value a) s); cbv beta iota
| |- obeys ?Q (Throw ?e) ?s => change (Q (Failed e) s); cbv beta iota
| |- obeys _ (invoke (UpdateCapture _)) _ =>
apply obeys_save; [first [reflexivity|assumption]|try by apply bound_no_evidence|intros ? ?; cbv beta iota|intros ? ? ?; cbv beta iota]
| |- obeys ?Q (invoke ?call) ?s =>
refine (obeys_invoke call Q s _ _); [try exact I|intros [?|?] ? ? ?; cbn [record_reply]; unfold id; cbv beta iota]
| |- obeys _ (if ?b then _ else _) _ => destruct b eqn:?
| |- obeys _ (match ?x with _ => _ end) _ => destruct x eqn:?
end.

(** A post that asks nothing of failures. *)
Definition on_value {A} (Q : A → desktop → Prop) (e : @ending rejection A) (s : desktop) : Prop :=
match e with Value a => Q a s | Completed => False | Failed _ => True end.

Lemma obeys_remember job s :
raw_ok s → obeys (on_value (λ _, raw_ok)) (rememberSourceIdentity documentId job) s.
Proof.
intros H. unfold rememberSourceIdentity. repeat obeys_step; try done; by apply raw_ok_patch.
Qed.

Lemma obeys_getOcr captureId s :
raw_ok s → obeys (on_value (λ _, raw_ok)) (getOcr Date_parse captureId) s.
Proof.
intros H. unfold getOcr. repeat obeys_step; try done; by eapply raw_ok_rely.
Qed.

Lemma obeys_persistRaw job s :
raw_ok s → obeys (on_value (λ _, raw_ok)) (persistRawDuringExtraction documentId job) s.
Proof.
intros H. unfold persistRawDuringExtraction. repeat obeys_step; try done.
- apply raw_ok_saved. eexists. split; [left|]. split; [done|by eexists].
- by eapply raw_ok_rely.
Qed.

Hint Resolve raw_ok_rely raw_ok_saved_update : desktop.
Hint Extern 1 (raw_ok (patch_active _ _ _)) => apply raw_ok_patch; [intros ?; reflexivity|] : desktop.
Hint Extern 1 (raw_ok (reloadDocumentState _ ?s)) => change (raw_ok s) : desktop.
Hint Extern 1 (raw_ok (next_uuid ?s)) => change (raw_ok s) : desktop.

(** Run the steps of a program and keep [raw_ok]. *)
Ltac obeys_tac := repeat obeys_step; try done; cbn [on_value]; eauto with desktop.

Lemma obeys_poll captureId s :
raw_ok s → obeys (on_value (λ _, raw_ok)) (poll_or_cancel documentId captureId) s.
Proof. intros H. unfold poll_or_cancel, sendCancellation. obeys_tac. Qed.

Lemma obeys_advanceCapture job s :
raw_ok s → obeys (on_value (λ _, raw_ok)) (advanceCapture documentId job) s.
Proof.
intros H. unfold advanceCapture. obeys_step. obeys_step; [|done]. obeys_step.
apply obeys_mono with (Q := on_value (λ _, raw_ok)).
- obeys_step. obeys_step; [unfold sendCancellation; obeys_tac|apply obeys_poll; eauto with desktop].
- intros [next| |e] s2 Hn; cbn in Hn; [|done..]. obeys_step.
eapply obeys_mono; [by apply obeys_persistRaw|]. intros [job'| |e] s3 Hj; cbn in Hj; [|done..]. obeys_tac.
Qed.

Lemma obeys_waitForTerminal job s :
raw_ok s →
obeys (on_value (λ ph s', match ph with PollJob _ => raw_ok s' | _ => False end)) (waitForTerminal documentId job) s.
Proof.
intros H. unfold waitForTerminal. obeys_step.
eapply obeys_mono; [by apply obeys_persistRaw|]. intros [job'| |e] s3 Hj; cbn in Hj; [|done..]. obeys_tac.
Qed.

(** ** Evidence and terminal data *)

Definition evidence_of (captureId : string) (evidence : js) : Prop :=
∃ projection expected r, build projection expected = Ok evidence ∧ evidence = Obj r ∧ get r "captureId" = Str captureId.

Lemma bound_evidence captureId u :
upd_captureId u = Some captureId → (∀ v, upd_ocrEvidence u = Some v → evidence_of captureId v) → bound u.
Proof. intros Hc Hv v Hu. destruct (Hv v Hu) as (projection & expected & r & H). by exists captureId, projection, expected, r. Qed.

Lemma expectedOcrIdentity_capture job active status x :
expectedOcrIdentity job active status = Ok x → ∃ fs, x = Obj fs ∧ get fs "captureId" = Str (job_captureId job).
Proof. unfold expectedOcrIdentity. intros H. repeat case_match; simplify_eq; by eexists. Qed.

Lemma obeys_build job status projection s :
raw_ok s →
obeys (on_value (λ v s', raw_ok s' ∧ evidence_of (job_captureId job) v)) (build_evidence documentId job status projection) s.
Proof.
intros H. unfold build_evidence. obeys_step. obeys_step.
destruct (expectedOcrIdentity _ _ _) as [x|e] eqn:E; [|done]. cbn [of_result obeys].
apply expectedOcrIdentity_capture in E as (fs & -> & Hc).
obeys_step; [|done]. match goal with H : possible _ _ |- _ => specialize (H _ eq_refl) as Hb end.
split; [by eapply raw_ok_rely|].
destruct (buildOcrEvidence_capture _ _ _ _ _ _ Hb) as (x & r & [= <-] & -> & Hr).
eexists _, _, r. split; [done|]. split; [done|]. by rewrite Hr.
Qed.

(** The post of the programs that save terminal data. *)
Definition data_kept (job : DesktopCaptureOperation) : @ending rejection unit → desktop → Prop :=
on_value (λ _ s, kept (job_captureId job) (history s)).

Lemma kept_saved captureId u h :
upd_captureId u = Some captureId →
(upd_status u ∈ ["failed"; "canceled"] ∨ is_Some (upd_raw u) ∧ is_Some (upd_ocrEvidence u) ∨
upd_status u = "completed" ∧ is_Some (upd_result u) ∧ (is_Some (upd_raw u) ∨ saved_raw (upd_documentId u) h)) →
kept captureId (Saved u :: h).
Proof.
intros Hc H. right. exists u. split; [left|]. split; [done|].
destruct H as [H|[H|(Hs & Hr & [Hw|Hw])]]; [auto..| |]; right; right; (split; [done|]); (split; [done|]).
- exists u. by split; [left|].
- eapply saved_raw_more; [|exact Hw]. by exists [Saved u].
Qed.

Lemma terminal_failed job :
String.eqb (job_status job) "completed" = false → terminalLibraryStatus job ∈ ["failed"; "canceled"].
Proof. unfold terminalLibraryStatus. intros ->. destruct (String.eqb _ _); set_solver. Qed.

Lemma rawPersisted_saved s s' :
raw_ok s → rely s s' → rawPersisted (active_of documentId s) = true → saved_raw documentId (history s').
Proof. intros H Hr Hp. eapply saved_raw_more; [apply Hr|]. by apply H. Qed.

Lemma obeys_persist_data job evidence s :
raw_ok s → (∀ v, evidence = Some v → evidence_of (job_captureId job) v) →
obeys (data_kept job) (persist_data desktopMessages documentId job evidence) s.
Proof.
intros H He. unfold persist_data, data_kept. obeys_step; [|obeys_step; [|done]].
- repeat obeys_step; try done; try by apply (bound_evidence (job_captureId job)).
all: cbn; apply kept_saved; [done|]; right; right; split; [done|]; split; [by eexists|]; cbn.
+ right. eapply rawPersisted_saved; [exact H|etrans; eassumption|done].
+ match goal with |- context [if ?b then None else _] => destruct b eqn:Hp end; [right|left; by eexists].
eapply rawPersisted_saved; [|eassumption|exact Hp]. eauto with desktop.
- cbv zeta. repeat obeys_step; try done; try by apply (bound_evidence (job_captureId job)).
all: cbn; apply kept_saved; [done|left; by apply terminal_failed].
Qed.

Lemma obeys_persistTerminalData job s :
raw_ok s → obeys (data_kept job) (persistTerminalData Date_parse desktopMessages documentId job) s.
Proof.
intros H. unfold persistTerminalData. obeys_step; [|by apply obeys_persist_data].
obeys_step. eapply obeys_mono; [by apply obeys_remember|]. intros [[]| |e] s1 H1; cbn in H1; [|done..].
obeys_step. obeys_step. eapply obeys_mono; [by apply obeys_getOcr|].
intros [projection| |e] s2 H2; cbn in H2; [|done..].
obeys_step. eapply obeys_mono; [by apply obeys_build|]. intros [v| |e] s3 H3; cbn in H3; [|done..].
destruct H3 as [H3 Hv]. apply obeys_persist_data; [done|]. by intros v' [= <-].
Qed.

(** ** The end of a capture *)

(** The post of the programs that finish a capture. *)
Definition leaves_settled : @ending rejection unit → desktop → Prop :=
on_value (λ _ s, settled documentId (history s)).

Lemma settled_saved u h :
upd_documentId u = documentId → includes ["processing"; "persisting"] (upd_status u) = false →
settled documentId (Saved u :: h).
Proof.
intros Hd Hs. unfold settled, last_answer. cbn [List.find answers]. rewrite Hd, String.eqb_refl.
by apply includes_false.
Qed.

Lemma settled_refused u h : upd_documentId u = documentId → settled documentId (Refused u :: h).
Proof. intros Hd. unfold settled, last_answer. cbn [List.find answers]. by rewrite Hd, String.eqb_refl. Qed.

Lemma terminal_settles job : includes ["processing"; "persisting"] (terminalLibraryStatus job) = false.
Proof. unfold terminalLibraryStatus. by repeat case_match. Qed.

Lemma streaming_settles operation : includes ["processing"; "persisting"] (streaming_status operation) = false.
Proof. unfold streaming_status. by repeat case_match. Qed.

Lemma committed_settles document : includes ["processing"; "persisting"] (committedTerminalStatus document) = false.
Proof.
unfold committedTerminalStatus, terminalStatusFromStage.
destruct (includes _ (doc_status document)) eqn:E; [|by repeat case_match].
apply includes_spec in E. rewrite !elem_of_cons, elem_of_nil in E. by destruct E as [->|[->|[->|[]]]].
Qed.

Hint Extern 2 (settled _ (Saved _ :: _)) => apply settled_saved; [first [reflexivity|assumption]|
first [reflexivity|apply terminal_settles|apply streaming_settles|apply committed_settles]] : desktop.

Lemma obeys_cleanupAfterCommit job s :
kept (job_captureId job) (history s) → obeys leaves_settled (cleanupAfterCommit documentId job) s.
Proof. intros H. unfold cleanupAfterCommit, leaves_settled. repeat obeys_step; try done; cbn; eauto with desktop. Qed.

Lemma obeys_persistTerminal job s :
raw_ok s → obeys leaves_settled (persistTerminal Date_parse desktopMessages documentId job) s.
Proof.
intros H. unfold persistTerminal. obeys_step. obeys_step; [|done].
obeys_step. eapply obeys_mono; [apply obeys_persistTerminalData; eauto with desktop|].
intros [[]| |e] s2 H2; cbn in H2; [|done..].
obeys_step. obeys_step. by apply obeys_cleanupAfterCommit.
Qed.

Lemma obeys_retryCleanup document captureId s :
doc_documentId document = documentId → kept captureId (history s) →
obeys leaves_settled (retryRuntimeCleanup document captureId) s.
Proof.
intros Hd H. unfold retryRuntimeCleanup, leaves_settled. cbv zeta.
repeat obeys_step; try done; cbn; eauto with desktop.
Qed.

(** An OCR checkpoint is deleted once its raw capture and evidence are saved. *)
Lemma obeys_checkpoint job s :
raw_ok s → obeys leaves_settled (persistOcrCheckpoint Date_parse documentId job) s.
Proof.
intros H. unfold persistOcrCheckpoint, leaves_settled. cbv zeta.
obeys_step. obeys_step. obeys_step; [|done]. obeys_step; [|done]. obeys_step. obeys_step.
eapply obeys_mono; [apply obeys_getOcr; eauto with desktop|]. intros [projection| |e] s2 H2; cbn in H2; [|done..].
obeys_step; [done|]. obeys_step. eapply obeys_mono; [by apply obeys_build|].
intros [v| |e] s3 H3; cbn in H3; [|done..]. destruct H3 as [H3 Hv].
repeat obeys_step; try done; try (cbn; eauto with desktop; fail).
- apply (bound_evidence (job_captureId job)); [done|]. by intros v' [= <-].
- cbn. apply kept_saved; [done|]. right. left. split; by eexists.
Qed.

Lemma obeys_persistOneShot job s :
raw_ok s → obeys leaves_settled (persistOneShot Date_parse desktopMessages documentId job) s.
Proof.
intros H. unfold persistOneShot. destruct (isOcrCheckpoint job); [by apply obeys_checkpoint|by apply obeys_persistTerminal].
Qed.

(** ** Recordings *)

Lemma obeys_advanceStreaming operation s :
obeys (on_value (λ _ _, True)) (advanceStreaming documentId operation) s.
Proof. unfold advanceStreaming, sendCancellation. cbv zeta. repeat obeys_step; done. Qed.

(** The status a recording is saved with. *)
Definition status_ok (operation : DesktopCaptureOperation) (s : desktop) : Prop :=
let status := default "failed" (terminalStatus (active_of documentId s)) in
status = streaming_status operation ∨ status = "failed".

Lemma status_ok_patched operation code text s :
status_ok operation (patch_active documentId
(λ a, with_terminal (terminalCommitted a) (Some (streaming_status operation)) code text a) s).
Proof.
unfold status_ok, active_of, patch_active. cbn. rewrite lookup_alter_eq.
destruct (activeCaptures s !! documentId); cbn; auto.
Qed.

Lemma status_ok_rely operation s s' : rely s s' → status_ok operation s → status_ok operation s'.
Proof. unfold status_ok. cbv zeta. intros Hr. by rewrite (rely_active terminalStatus s s' ltac:(done) Hr). Qed.

Lemma status_ok_patch operation f s :
(∀ a, terminalStatus (f a) = terminalStatus a) → status_ok operation s → status_ok operation (patch_active documentId f s).
Proof.
unfold status_ok, active_of, patch_active. cbn. rewrite lookup_alter_eq. intros Hf.
destruct (activeCaptures s !! documentId); cbn; [by rewrite Hf|done].
Qed.

Hint Resolve status_ok_rely : desktop.

Lemma status_ok_settles operation s :
status_ok operation s →
includes ["processing"; "persisting"] (default "failed" (terminalStatus (active_of documentId s))) = false.
Proof. unfold status_ok. cbv zeta. intros [->| ->]; [apply streaming_settles|done]. Qed.

Lemma kept_recording operation data u s h :
upd_captureId u = Some (job_captureId operation) →
upd_status u = default "failed" (terminalStatus (active_of documentId s)) → status_ok operation s →
upd_raw u = fst <$> data → upd_result u = snd <$> data →
(job_status operation = "completed" → is_Some (data : option (RawCapture * CaptureDocument))) →
kept (job_captureId operation) (Saved u :: h).
Proof.
intros Hc Hu Hs Hraw Hres Hdata. apply kept_saved; [done|]. rewrite Hu. unfold status_ok in Hs. cbv zeta in Hs.
unfold streaming_status in Hs. destruct Hs as [Hs|Hs]; rewrite Hs; [|set_solver].
destruct (String.eqb_spec (job_status operation) "completed") as [E|E].
- destruct (Hdata E) as [d ->]. right. right. rewrite Hraw, Hres. split; [done|]. split; [by eexists|]. left. by eexists.
- destruct (String.eqb _ "cancelled"); set_solver.
Qed.

Lemma obeys_persistStreaming operation s :
obeys leaves_settled (persistStreamingTerminal documentId operation) s.
Proof.
unfold persistStreamingTerminal, leaves_settled. cbv zeta. obeys_step. obeys_step. obeys_step.
apply obeys_mono with (Q := on_value (λ data s',
status_ok operation s' ∧ (job_status operation = "completed" → is_Some data))).
{ pose proof (status_ok_patched operation (job_errorCode operation) (job_errorMessage operation) s) as Hs.
destruct (String.eqb_spec (job_status operation) "completed") as [E|E]; repeat obeys_step; try done;
(split; [by eauto with desktop|by eauto]). }
intros [data| |e] s2 H2; cbn in H2; [|done..]. destruct H2 as [H2 Hdata].
repeat obeys_step; try done.
- cbn. eapply kept_recording; [done..|exact Hdata].
- cbn. apply settled_saved; [done|]. apply (status_ok_settles operation).
eapply status_ok_rely; [eassumption|]. eapply (status_ok_patch operation); [done|]. exact (status_ok_rely _ _ _ H H2).
Qed.

(** ** The lifecycle *)

(** Where a capture stands when its process ends: between two polls, or done
with its document settled. *)
Definition lifecycle_post (e : @ending rejection phase) (s : desktop) : Prop :=
match e with
| Value Done => settled documentId (history s)
| Value (PollJob _) => raw_ok s
| Value (PollStreaming _) => True
| _ => False
end.

(** The same before errors are handled. *)
Definition work_post : @ending rejection phase → desktop → Prop :=
on_value (λ ph s, lifecycle_post (Value ph) s).

Lemma obeys_lifecycle work s : obeys work_post work s → obeys lifecycle_post (lifecycle documentId work) s.
Proof.
intros H. unfold lifecycle. obeys_step. eapply obeys_mono; [exact H|].
intros [ph| |error] s1 H1; cbn in H1; [done|done|]. clear H H1.
unfold persistLifecycleFailure. repeat obeys_step; cbn; eauto with desktop; by apply settled_refused.
Qed.

Lemma obeys_finished work s : obeys leaves_settled work s → obeys work_post (finished documentId work) s.
Proof.
intros H. unfold finished. obeys_step. eapply obeys_mono; [exact H|].
intros [[]| |e] s1 H1; cbn in H1; [|done..]. by repeat obeys_step.
Qed.

Lemma obeys_go_on ph s :
lifecycle_post (Value ph) s → obeys lifecycle_post (go_on Date_parse desktopMessages documentId ph) s.
Proof.
destruct ph as [|job|operation]; cbn [lifecycle_post go_on]; intros H; [done|apply obeys_lifecycle..].
- unfold poll_job. obeys_step; [by apply obeys_finished, obeys_persistOneShot|].
obeys_step. eapply obeys_mono; [by apply obeys_advanceCapture|].
intros [next| |e] s1 H1; cbn in H1; [done..|done].
- unfold poll_streaming. obeys_step; [|by apply obeys_finished, obeys_persistStreaming].
obeys_step. obeys_step; [|done]. obeys_step. eapply obeys_mono; [apply obeys_advanceStreaming|].
by intros [next| |e] s1 Hn; cbn in Hn.
Qed.

Lemma obeys_captureOneShot pages s :
raw_ok s → obeys work_post (captureOneShot uuid documentId pages) s.
Proof.
intros H. unfold captureOneShot, randomUUID. repeat obeys_step; try done.
eapply obeys_mono; [apply obeys_remember; eauto 6 with desktop|].
intros [[]| |e] s1 Hk; cbn in Hk; [|done..]. repeat obeys_step; try done.
eapply obeys_mono; [apply obeys_waitForTerminal; eauto 6 with desktop|].
by intros [[]| |e] s2 Hw; cbn in Hw.
Qed.

Lemma obeys_waitForStreaming operation s : obeys work_post (waitForStreamingTerminal documentId operation) s.
Proof.
unfold waitForStreamingTerminal. obeys_step. eapply obeys_mono; [apply obeys_advanceStreaming|].
by intros [op| |e] s1 H1; cbn in H1.
Qed.

Lemma obeys_captureStreaming s : obeys work_post (captureStreaming uuid documentId) s.
Proof.
unfold captureStreaming, randomUUID. repeat obeys_step; try done. apply obeys_waitForStreaming.
Qed.

(** ** Waiting *)

(** Every phase waits for something. *)
Lemma go_on_waits ph s :
ph ≠ Done → is_Some (waits_at (advance (go_on Date_parse desktopMessages documentId ph) s).2).
Proof.
intros Hne. destruct ph as [|job|operation]; [done|..]; cbn [go_on]; unfold lifecycle.
- unfold poll_job, finished, persistOneShot, persistOcrCheckpoint, persistTerminal, advanceCapture.
destruct (negb _ || _); [destruct (isOcrCheckpoint job)|]; cbn; eauto.
- unfold poll_streaming, finished, persistStreamingTerminal.
destruct (isActiveStreaming operation); [cbn; eauto|].
destruct (String.eqb (job_status operation) "completed"); cbn; eauto.
Qed.

(** A step of a capture: it waits, or it is done and its document settled. *)
Lemma resume_obeys p s s' p' :
obeys lifecycle_post p s → resume Date_parse desktopMessages documentId p s = (s', p') →
frame s s' ∧ obeys lifecycle_post p' s' ∧ (is_Some (waits_at p') ∨ p' = Return Done).
Proof.
intros Hp Hr. destruct (obeys_advance _ _ _ _ _ _ _ _ Hp) as [Hf Ha]. unfold resume in Hr.
pose proof (advance_waits p s) as Hw. destruct (advance p s) as [s1 p1]. cbn [fst snd] in *.
assert (s' = s1 ∧ p' = p1 ∧ is_Some (waits_at p1) ∨ ∃ ph, p1 = Return ph) as [(-> & -> & H)|[ph ->]].
{ destruct p1; simplify_eq/=; eauto; destruct Hw as [Hw|Hw]; eauto; done. }
{ auto. }
assert (lifecycle_post (Value ph) s1) as Hph by done.
destruct (obeys_advance _ _ _ _ _ _ _ _ (obeys_go_on _ _ Hph)) as [Hf' Ha'].
assert (ph = Done ∨ ph ≠ Done) as [->|Hne] by (destruct ph; auto); [by simplify_eq/=; auto|].
pose proof (go_on_waits ph s1 Hne) as Hw'. rewrite Hr in *. cbn [fst snd] in *.
split; [by etrans|auto].
Qed.

(** ** Starting *)

Lemma some_pair {A B} (a a' : A) (b b' : B) : Some (a, b) = Some (a', b') → a' = a ∧ b' = b.
Proof. by intros [= -> ->]. Qed.

(** What [captureExisting$] and [recoverCapture$] set up. *)
Definition starts (s s' : desktop) (p : action phase) : Prop :=
activeCaptures s !! documentId = None ∧
(∃ active l, Forall (λ e, ∃ document, e = Recovered document) l ∧ s' = note l (begin_capture documentId active s)) ∧
obeys lifecycle_post p s'.

Lemma may_start_inactive s : may_start documentId s = true → activeCaptures s !! documentId = None.
Proof.
unfold may_start. rewrite andb_true_iff, negb_true_iff, bool_decide_eq_false. intros [_ H]. by apply eq_None_not_Some.
Qed.

Lemma raw_ok_begin active l s :
rawPersisted active = false → raw_ok (note l (begin_capture documentId active s)).
Proof. unfold raw_ok, active_of. cbn. rewrite lookup_insert_eq. cbn. by intros ->. Qed.

Lemma captureExisting_starts media s s' p :
captureExisting uuid documentId media s = Some (s', p) → starts s s' p.
Proof.
unfold captureExisting. destruct (may_start documentId s) eqn:Hm; [|done]. intros [-> ->]%some_pair.
split; [by apply may_start_inactive|]. split; [by eexists _, []; split; [constructor|]|].
apply obeys_lifecycle. obeys_step. obeys_step; [|done]. obeys_step. obeys_step. obeys_step.
- apply obeys_captureStreaming.
- apply obeys_captureOneShot.
match goal with H : rely _ ?s1 |- _ => assert (raw_ok s1) as Hraw end.
{ eapply raw_ok_rely; [eassumption|]. by apply (raw_ok_begin _ []). }
eauto with desktop.
Qed.

Lemma truthy_string_Some v s : truthy_string v = Some s → v = Some s.
Proof. unfold truthy_string. intros. by repeat case_match; simplify_eq. Qed.

Lemma recoverCapture_starts document captureId s s' p :
doc_documentId document = documentId → truthy_string (doc_captureId document) = Some captureId →
recoverCapture document captureId s = Some (s', p) → starts s s' p.
Proof.
unfold recoverCapture. intros Hid Hc%truthy_string_Some. cbv zeta. rewrite Hid.
destruct (may_start _ s) eqn:Hm; [|done].
apply may_start_inactive in Hm. destruct (hasCommittedTerminalData document) eqn:Hd; intros [-> ->]%some_pair.
- split; [done|]. split; [eexists _, [_]; split; [by repeat econstructor|done]|].
apply obeys_lifecycle, obeys_finished, obeys_retryCleanup; [done|]. left. exists document. split; [left|done].
- split; [done|]. split; [by eexists _, []; split; [constructor|]|].
apply obeys_lifecycle. obeys_step.
+ repeat obeys_step; try done. apply obeys_waitForStreaming.
+ obeys_step. obeys_step; [|done].
match goal with H : rely _ ?s1 |- _ => assert (raw_ok s1) as Hraw end.
{ eapply raw_ok_rely; [eassumption|]. by apply (raw_ok_begin _ []). }
obeys_step. eapply obeys_mono; [by apply obeys_remember|]. intros [[]| |e] s2 Hk; cbn in Hk; [|done..].
repeat obeys_step. eapply obeys_mono; [apply obeys_waitForTerminal; eauto with desktop|].
by intros [[]| |e] s3 Hw; cbn in Hw.
Qed.
End logic.

(** [obeys] for a document. *)
Abbreviation obeys documentId :=
(Observable.obeys (λ st, allowed documentId (history st)) (frame documentId) (rely documentId) possible record_reply).

(** ** The service *)

(** The captured data a call deletes in the runtime. *)
Definition deletes (call : BridgeCall) : option string :=
match call with DeleteCapture captureId | DeleteStreamingCapture captureId => Some captureId | _ => None end.

Definition entry_ok (entry : HistoryEntry) (earlier : list HistoryEntry) : Prop :=
match entry with
| Saved u => bound u
| Called call => ∀ captureId, deletes call = Some captureId → kept captureId earlier
| _ => True
end.

Fixpoint lawful (h : list HistoryEntry) : Prop :=
match h with [] => True | entry :: earlier => entry_ok entry earlier ∧ lawful earlier end.

Record secure (sys : service) : Prop := {
secure_captures d p rest :
captures sys !! d = Some (p, rest) → is_Some (waits_at p) ∧ obeys d (lifecycle_post d) p (state sys);
secure_imports id p rest : imports sys !! id = Some (p, rest) → ∃ path, p = captureNewSource desktopMessages path;
secure_dom : dom (captures sys) = dom (activeCaptures (state sys));
secure_busy : busyIds (state sys) = dom (activeCaptures (state sys));
secure_settled d : activeCaptures (state sys) !! d = None → settled d (history (state sys));
secure_lawful : lawful (history (state sys))
}.

(** The same while the process [p] of [documentId] is about to go on. *)
Record secure_but (documentId : string) (p : action phase) (sys : service) : Prop := {
but_captures d q rest : d ≠ documentId →
captures sys !! d = Some (q, rest) → is_Some (waits_at q) ∧ obeys d (lifecycle_post d) q (state sys);
but_process : obeys documentId (lifecycle_post documentId) p (state sys);
but_imports id q rest : imports sys !! id = Some (q, rest) → ∃ path, q = captureNewSource desktopMessages path;
but_dom : dom (captures sys) ∪ {[documentId]} = dom (activeCaptures (state sys));
but_busy : busyIds (state sys) = dom (activeCaptures (state sys));
but_settled d : activeCaptures (state sys) !! d = None → settled d (history (state sys));
but_lawful : lawful (history (state sys))
}.

(** A step of one capture as the others see it. *)
Lemma frame_rely d other s s' : other ≠ d → frame d s s' → rely other s s'.
Proof. intros Hne (Hh & _ & _ & Ho). unfold rely. rewrite Hh, Ho by done. done. Qed.

Lemma rely_calls {A} d (p : action A) s : rely d s (note (calls_of p) s).
Proof.
split; [by eexists|]. split; [|done]. apply last_answer_called, calls_of_answers.
Qed.

Lemma settled_calls {A} d (p : action A) h : settled d (calls_of p ++ h) ↔ settled d h.
Proof. unfold settled. by rewrite last_answer_called by apply calls_of_answers. Qed.

Lemma lawful_calls d Q (p : action phase) s :
obeys d Q p s → lawful (history s) → lawful (calls_of p ++ history s).
Proof.
intros Hp Hl. unfold calls_of. destruct p; cbn in *; try done.
split; [|done]. intros captureId Hd. destruct Hp as [Ha _]. destruct call; simplify_eq/=; done.
Qed.

Lemma secure_next_source paths sys : secure sys → secure (next_source desktopMessages paths sys).
Proof.
intros []. destruct paths as [|path rest]; cbn [next_source]; [done|].
change (advance (captureNewSource desktopMessages path) (state sys))
with (state sys, captureNewSource desktopMessages path).
constructor; cbn [state captures imports].
- intros d p rest' Hp. destruct (secure_captures0 _ _ _ Hp). split; [done|].
eapply obeys_later; [done|apply rely_calls|done].
- intros id p rest'. rewrite lookup_insert_Some. intros [[<- [= <- <-]]|[_ Hi]]; eauto.
- done.
- done.
- intros d Hd. apply settled_calls. auto.
- done.
Qed.

Lemma secure_run d p rest sys :
secure_but d p sys → secure (run Date_parse desktopMessages d p rest sys).
Proof.
intros []. unfold run.
destruct (resume Date_parse desktopMessages d p (state sys)) as [s' p'] eqn:Hr.
destruct (resume_obeys _ _ _ _ _ but_process0 Hr) as (Hf & Hp' & Hw).
pose proof Hf as (Hh & Hb & Hdom & Ho).
destruct Hw as [Hw| ->].
- replace (ended p') with false by (destruct p'; done || by destruct Hw).
constructor; cbn.
+ intros d' q r. rewrite lookup_insert_Some. intros [[<- [= <- <-]]|[Hne Hq]].
  { split; [done|]. eapply obeys_later; [done|apply rely_calls|done]. }
  destruct (but_captures0 _ _ _ (not_eq_sym Hne) Hq). split; [done|].
  eapply obeys_later; [done| |done]. etrans; [by eapply frame_rely|apply rely_calls].
+ done.
+ rewrite dom_insert_L, Hdom, <-but_dom0. set_solver.
+ by rewrite Hb, Hdom.
+ intros d' Hd'. apply settled_calls. rewrite Hh. apply but_settled0.
  apply not_elem_of_dom. rewrite <-Hdom. by apply not_elem_of_dom.
+ eapply lawful_calls; [exact Hp'|by rewrite Hh].
- unfold finish. cbn [ended]. apply secure_next_source. cbn in Hp'. constructor; cbn.
+ intros d' q r. rewrite lookup_delete_Some. intros [Hne Hq].
  destruct (but_captures0 _ _ _ (not_eq_sym Hne) Hq). split; [done|].
  eapply obeys_later; [done| |done].
  destruct (frame_rely d d' _ _ (not_eq_sym Hne) Hf) as (H1 & H2 & H3).
  split; [done|]. split; [done|]. cbn. by rewrite lookup_delete_ne.
+ done.
+ rewrite !dom_delete_L, Hdom, <-but_dom0. set_solver.
+ rewrite Hb, dom_delete_L, Hdom, but_busy0. set_solver.
+ intros d' Hd'. destruct (decide (d' = d)) as [->|Hne]; [done|].
  rewrite lookup_delete_ne in Hd' by done. rewrite Hh. apply but_settled0.
  apply not_elem_of_dom. rewrite <-Hdom. by apply not_elem_of_dom.
+ by rewrite Hh.
Qed.

(** ** The invariant *)

Lemma recovered_answers d l :
Forall (λ e, ∃ document, e = Recovered document) l → Forall (λ e, answers d e = false) l.
Proof. intros H. eapply Forall_impl; [exact H|]. by intros e [document ->]. Qed.

Lemma recovered_lawful l h :
Forall (λ e, ∃ document, e = Recovered document) l → lawful h → lawful (l ++ h).
Proof. induction 1 as [|e l [document ->] Hl IH]; [done|]. intros Hh. split; [done|auto]. Qed.

Lemma secure_start d started rest sys :
secure sys → (∀ s p, started = Some (s, p) → starts d (state sys) s p) →
secure (start Date_parse desktopMessages d started rest sys).
Proof.
intros Hsec Hst. destruct started as [[s p]|]; cbn [start]; [|by apply secure_next_source].
destruct (Hst _ _ eq_refl) as (Hnone & (active & l & Hl & ->) & Hp). destruct Hsec.
apply secure_run. constructor; cbn; [|done|done| | | |].
- intros d' q r Hne Hq. destruct (secure_captures0 _ _ _ Hq). split; [done|].
eapply obeys_later; [done| |done].
split; [by eexists|]. split; [by apply last_answer_called, recovered_answers|]. cbn. by rewrite lookup_insert_ne.
- rewrite dom_insert_L, secure_dom0. set_solver.
- rewrite dom_insert_L, secure_busy0. set_solver.
- intros d' [Hd' Hne]%lookup_insert_None. unfold settled.
rewrite last_answer_called by by apply recovered_answers. by apply secure_settled0.
- by apply recovered_lawful.
Qed.

Lemma possible_answered answer call :
possible call (answered normalize_nfkc Date_parse subtle answer call).
Proof. destruct call; cbn; try done. intros v. destruct (buildOcrEvidence _ _ _ _ _); [by intros [= ->]|discriminate]. Qed.

Lemma record_reply_busy call r s : busyIds (record_reply call r s) = busyIds s.
Proof. destruct call; try done. by destruct r. Qed.

Lemma record_reply_rely d other call r s :
other ≠ d → allowed d (history s) call → rely other s (record_reply call r s).
Proof.
intros Hne Ha. split; [apply record_reply_history|]. split; [|by rewrite record_reply_active].
destruct call; try done. destruct Ha as [Hd _]. unfold last_answer.
destruct r; cbn [record_reply note history List.find app answers]; rewrite Hd;
by destruct (String.eqb_spec d other) as [->|].
Qed.

Lemma record_reply_lawful d call r s :
allowed d (history s) call → lawful (history s) → lawful (history (record_reply call r s)).
Proof. intros Ha Hl. destruct call; try done. destruct Ha as [_ Hb]. by destruct r. Qed.

(** A capture goes on with what it waited for. *)
Lemma secure_continue d p' rest call ab k r sys :
secure sys → captures sys !! d = Some (Ask call ab k, rest) → possible call r →
p' = k r → secure (run Date_parse desktopMessages d p' rest (with_state (record_reply call r) sys)).
Proof.
intros [] Hd Hr ->. destruct (secure_captures0 _ _ _ Hd) as [_ [Ha Hk]].
apply secure_run. constructor; cbn; try done.
- intros d' q r' Hne Hq. destruct (secure_captures0 _ _ _ Hq). split; [done|].
eapply obeys_later; [done|by eapply record_reply_rely|done].
- by apply Hk.
- rewrite record_reply_active, <-secure_dom0. apply elem_of_dom_2 in Hd. set_solver.
- by rewrite record_reply_busy, record_reply_active.
- rewrite record_reply_active. intros d' Hd'. destruct (decide (d' = d)) as [->|Hne].
{ apply not_elem_of_dom in Hd'. rewrite <-secure_dom0 in Hd'. by apply elem_of_dom_2 in Hd. }
pose proof (record_reply_rely d d' call r (state sys) Hne Ha) as (_ & Hl & _).
unfold settled. rewrite Hl. by apply secure_settled0.
- by eapply record_reply_lawful.
Qed.

Lemma secure_capture_reply d answer sys :
secure sys → secure (capture_reply normalize_nfkc Date_parse subtle desktopMessages d answer sys).
Proof.
intros Hsec. unfold capture_reply. destruct (captures sys !! d) as [[p rest]|] eqn:Hd; [|done].
unfold reply. destruct p as [| | | | |call ab k|]; try done.
exact (secure_continue _ _ _ _ _ _ _ _ Hsec Hd (possible_answered answer call) eq_refl).
Qed.

(** Changes of the state that keep the captures and the history. *)
Lemma secure_same f sys :
(∀ d, rely d (state sys) (f (state sys))) →
dom (activeCaptures (f (state sys))) = dom (activeCaptures (state sys)) →
busyIds (f (state sys)) = busyIds (state sys) → history (f (state sys)) = history (state sys) →
secure sys → secure (with_state f sys).
Proof.
intros Hr Hdom Hb Hh []. constructor; cbn; [|done|by rewrite Hdom|by rewrite Hb, Hdom| |by rewrite Hh].
- intros d p rest Hp. destruct (secure_captures0 _ _ _ Hp). split; [done|].
eapply obeys_later; [done|apply Hr|done].
- intros d Hd. rewrite Hh. apply secure_settled0. apply not_elem_of_dom. rewrite <-Hdom. by apply not_elem_of_dom.
Qed.

Lemma secure_cancel d sys : secure sys → secure (cancel Date_parse desktopMessages d sys).
Proof.
intros Hsec. unfold cancel. destruct (activeCaptures (state sys) !! d) as [active|] eqn:Ha; [|done].
destruct (cancelRequested active); [done|]. cbv zeta.
assert (secure (with_state (patch_active d with_cancelRequested) sys)) as Hsec'.
{ pose proof (frame_patch d with_cancelRequested (state sys)) as Hf. pose proof Hf as (Hh & Hb & Hdom & Ho).
apply secure_same; [|done..]. intros d'. destruct (decide (d' = d)) as [->|Hne]; [|exact (frame_rely _ _ _ _ Hne Hf)].
split; [done|]. split; [done|]. unfold patch_active. cbn. rewrite lookup_alter_eq, Ha. done. }
destruct (captures _ !! d) as [[p rest]|] eqn:Hd; [|done].
unfold wake. destruct p as [| | | | |call ab k|]; try done.
assert (∀ r, possible call r → record_reply call r = id → secure (run Date_parse desktopMessages d (k r) rest
(with_state (patch_active d with_cancelRequested) sys))) as Hgo.
{ intros r Hr Hid. pose proof (secure_continue _ _ _ _ _ _ r _ Hsec' Hd Hr eq_refl) as H. by rewrite Hid in H. }
destruct call; try done; by apply (Hgo (Ok Woken)).
Qed.

Lemma secure_retry d sys : secure sys → secure (retry uuid Date_parse desktopMessages d sys).
Proof.
intros Hsec. unfold retry. destruct (find_document d _ ≫= _) as [[document captureId]|] eqn:Hf.
- apply secure_start; [done|]. intros s p Hs.
destruct (find_document d _) as [doc|]; [|done]. cbn in Hf.
destruct (truthy_string (doc_captureId doc)) as [c|] eqn:Hc; [|done]. cbn in Hf.
apply some_pair in Hf as [-> ->]. by eapply recoverCapture_starts.
- apply secure_start; [done|]. intros s p. apply captureExisting_starts.
Qed.

(** Imports only select a document and ask for components. *)
Definition only_host (s s' : desktop) : Prop :=
activeCaptures s' = activeCaptures s ∧ busyIds s' = busyIds s ∧ history s' = history s.

Lemma captureNewSource_only_host path : within only_host (captureNewSource desktopMessages path).
Proof.
unfold captureNewSource. apply within_catch; [apply within_then|].
- exact (within_ask only_host (CreateSource path)).
- intros document. split; [done|]. intros s. cbv zeta. by repeat case_match.
- intros e. by split.
Qed.

Lemma import_step answer path s p' s' :
reply normalize_nfkc Date_parse subtle answer (captureNewSource desktopMessages path) s = Some (p', s') →
s' = s ∧ only_host s (advance p' s').1.
Proof.
pose proof (captureNewSource_only_host path) as Hw.
unfold reply. cbn [captureNewSource invoke ask catchError then_]. intros [-> ->]%some_pair. split; [done|].
refine (proj1 (within_advance only_host _ _ _ _ (Hw _))); [intros x; by repeat split|].
intros x y z (? & ? & ?) (? & ? & ?). split_and!; congruence.
Qed.

Lemma only_host_rely d s s' : only_host s s' → rely d s s'.
Proof. intros (Ha & _ & Hh). unfold rely. by rewrite Ha, Hh. Qed.

Lemma secure_drop_import id sys :
secure sys → secure {| state := state sys; captures := captures sys; imports := delete id (imports sys);
                     next_import := next_import sys |}.
Proof. intros []. constructor; cbn; try done. intros i p rest [_ Hi]%lookup_delete_Some. eauto. Qed.

Lemma secure_import_reply id answer sys :
secure sys → secure (import_reply uuid normalize_nfkc Date_parse subtle desktopMessages id answer sys).
Proof.
intros Hsec. unfold import_reply. destruct (imports sys !! id) as [[p rest]|] eqn:Hi; [|done].
destruct (secure_imports sys Hsec _ _ _ Hi) as [path ->].
destruct (reply _ _ _ _ _ _) as [[p' s]|] eqn:Hr; [|done].
apply import_step in Hr as [-> Hs]. destruct (advance p' (state sys)) as [s' p2]. cbn [fst] in Hs. cbv zeta.
assert (secure {| state := s'; captures := captures sys; imports := delete id (imports sys);
                next_import := next_import sys |}) as Hsec'.
{ pose proof Hs as (Ha & Hb & Hh).
refine (secure_same (λ _, s') {| state := state sys; captures := captures sys; imports := delete id (imports sys);
  next_import := next_import sys |} _ _ _ _ _); cbn; [|by rewrite Ha|done|done|by apply secure_drop_import].
intros d. by apply only_host_rely. }
destruct p2 as [[document|]| | | | | |]; try by apply secure_next_source.
apply secure_start; [done|]. intros s p. apply captureExisting_starts.
Qed.

Lemma secure_init environment : secure (init environment).
Proof. constructor; cbn; try done; intros; by rewrite ?dom_empty_L. Qed.

Lemma reachable_secure sys :
reachable uuid normalize_nfkc Date_parse subtle desktopMessages sys → secure sys.
Proof.
induction 1 as [environment|sys a _ IH]; [apply secure_init|].
destruct a as [paths|d|d|d answer|id answer|environment]; cbn [act].
- by apply secure_next_source.
- by apply secure_retry.
- by apply secure_cancel.
- by apply secure_capture_reply.
- by apply secure_import_reply.
- by apply secure_same.
Qed.

Lemma lawful_split later entry earlier : lawful (later ++ entry :: earlier) → entry_ok entry earlier.
Proof. induction later as [|e later IH]; cbn; [tauto|]. intros [_ H]. auto. Qed.

(** ** Properties *)

(** C8: Nothing is deleted before it is kept: when the data of a capture is
deleted in the runtime, the library has answered with success to an update
of that capture that says it failed or was canceled, or carries the raw
capture and the OCR evidence of a checkpoint, or says it completed and
carries the result, the raw capture being saved by it or before; or the
capture was recovered from a document that already held its terminal data. *)
Theorem runtime_data_is_kept_before_deletion sys later call captureId earlier :
reachable uuid normalize_nfkc Date_parse subtle desktopMessages sys →
history (state sys) = later ++ Called call :: earlier → deletes call = Some captureId → kept captureId earlier.
Proof.
intros Hr%reachable_secure Hh Hd. apply secure_lawful in Hr. rewrite Hh in Hr.
by apply (lawful_split _ _ _ Hr).
Qed.

(** The evidence saved with a document is what [buildOcrEvidence] made for
the capture the update names: no reply of the bridge and no order of
events puts another capture's evidence there. *)
Lemma saved_evidence_names_its_capture sys u evidence :
reachable uuid normalize_nfkc Date_parse subtle desktopMessages sys →
Saved u ∈ history (state sys) → upd_ocrEvidence u = Some evidence →
∃ captureId projection expected r, upd_captureId u = Some captureId ∧
buildOcrEvidence normalize_nfkc Date_parse subtle projection expected = Ok evidence ∧
evidence = Obj r ∧ get r "captureId" = Str captureId.
Proof.
intros Hr%reachable_secure Hu. apply secure_lawful in Hr.
apply list_elem_of_split in Hu as (later & earlier & Hh). rewrite Hh in Hr.
apply (lawful_split _ _ _ Hr).
Qed.


(** C9: No document is left in progress: when a document has no active capture,
the last update of it the library accepted, if it was not refused, does
not say "processing" or "persisting". *)
Theorem idle_documents_are_settled sys d :
reachable uuid normalize_nfkc Date_parse subtle desktopMessages sys →
activeCaptures (state sys) !! d = None → settled d (history (state sys)).
Proof. intros Hr%reachable_secure. by apply secure_settled. Qed.
End safety.

(** ** Sample runs *)

Definition sample_messages : DesktopMessages :=
  {| whisperNeeded := "Recordings need Taiwan speech-to-text (TEA-ASR 1.1) downloaded first.";
     speakerUnitNeeded := "Telling speakers apart needs one more component installed.";
     needsSetup := "Required components must be downloaded before processing.";
     missingRawResult := "The finished job returned no raw result." |}.

Definition sample_document (mediaType status : string) (stage captureId recoveryCode : option string)
    : DesktopLibrarySummary :=
  {| doc_documentId := "d1"; doc_mediaType := mediaType; doc_status := status; doc_stage := stage;
     doc_captureId := captureId; doc_errorCode := None; doc_errorMessage := None; doc_recoveryCode := recoveryCode |}.

Definition sample_environment (document : DesktopLibrarySummary) : Environment :=
  {| runtime_ready := true;
     runtime_ocrCompute := Some {| compute_runtimeVersion := "0.9.0"; compute_contractSha256 := sample_sha;
       compute_workerSha256 := Some sample_sha |};
     runtime_pdfPageNumbers := None; host_requirements := []; host_documents := [document];
     host_selected := None; host_identifySpeakers := false |}.

Definition sample_job (status : string) : DesktopCaptureOperation :=
  {| job_captureId := "c1"; job_status := status; job_stage := None; job_sourceSha256 := Some sample_sha;
     job_error := None |}.

(** A bridge whose runtime has its one capture in [status]; the deletion works or not. *)
Definition sample_answer (status : string) (deletion : bool) (call : BridgeCall) : result rejection (bridge_reply call) :=
  match call return result rejection (bridge_reply call) with
  | CreateSource _ => Ok (sample_document "image/png" "imported" None None None)
  | UpdateCapture _ | Timer => Ok tt
  | DeleteCapture _ | DeleteStreamingCapture _ => if deletion then Ok tt else Err (ErrorObject "offline")
  | CreateCapture _ _ _ | CancelCapture _ | GetCapture _ | AwaitGetOrCancel _
  | StartStreamingCapture _ _ _ | GetStreamingCapture _ | CancelStreamingCapture _ => Ok (sample_job status)
  | AwaitTimerOrWake _ => Ok (Settled tt)
  | AwaitGetOrWake _ => Ok (Settled (sample_job status))
  | AwaitCancelOrTimer _ => Ok None
  | GetRaw _ => Ok (Some sample_raw)
  | GetOcr _ | BuildOcrEvidence _ _ => Ok (OcrEvidence.sample_projection "text" 10 "a.png")
  | GetResult _ => Ok sample_candidate
  | GetStreamingEvents _ _ => Ok [{| stream_sequence := num_of_Z 1; stream_stage := "extracting" |}]
  | GetStreamingPartial _ => Ok None
  | GetStreamingResult _ => Ok (sample_raw, sample_candidate)
  end.

Definition sample_run (document : DesktopLibrarySummary) (actions : list Action) : service :=
  fold_left (act (λ _, "u1") (λ s, s) (λ _, num_of_Z 0) (Some (λ s, [slen s mod 256])) sample_messages) actions
    (init (sample_environment document)).

Abbreviation reachable_sample :=
  (reachable (λ _, "u1") (λ s, s) (λ _, num_of_Z 0) (Some (λ s, [slen s mod 256])) sample_messages).

Lemma sample_run_reachable document actions : reachable_sample (sample_run document actions).
Proof.
  unfold sample_run. assert (H : reachable_sample (init (sample_environment document))) by constructor. revert H.
  generalize (init (sample_environment document)).
  induction actions as [|a actions IH]; intros sys H; cbn; [done|]. apply IH. by constructor.
Qed.

Definition answers_with (status : string) (deletion : bool) : Action :=
  CaptureReply "d1" (sample_answer status deletion).

(** An image captured to the deletion of its data in the runtime. *)
Definition image : DesktopLibrarySummary := sample_document "image/png" "imported" None None None.
Definition image_run : list Action := Retry "d1" :: replicate 10 (answers_with "completed" true).

(** Status and stage of the updates the library accepted, oldest first. *)
Definition saved_statuses (sys : service) : list (string * option string) :=
  rev (omap (λ e, match e with Saved u => Some (upd_status u, upd_stage u) | _ => None end) (history (state sys))).

Lemma runtime_data_is_kept_before_deletion_witness :
  kept "c1" (drop 2 (history (state (sample_run image image_run)))).
Proof.
  apply (runtime_data_is_kept_before_deletion _ _ _ _ _ _ (take 1 (history (state (sample_run image image_run))))
    (DeleteCapture "c1") "c1" _ (sample_run_reachable image image_run)).
  - vm_compute. reflexivity.
  - reflexivity.
Defined.

Lemma saved_evidence_names_its_capture_witness :
  ∃ u evidence r, Saved u ∈ history (state (sample_run image image_run)) ∧
    upd_ocrEvidence u = Some evidence ∧ evidence = Obj r ∧ get r "captureId" = Str "c1".
Proof.
  destruct (history (state (sample_run image image_run)) !! 2%nat) as [[u| | |]|] eqn:E;
    try (vm_compute in E; discriminate E).
  assert (Hc : upd_captureId u = Some "c1") by (vm_compute in E; injection E as <-; reflexivity).
  assert (He : is_Some (upd_ocrEvidence u)) by (vm_compute in E; injection E as <-; eexists; reflexivity).
  destruct He as [evidence He]. apply list_elem_of_lookup_2 in E.
  destruct (saved_evidence_names_its_capture _ _ _ _ _ _ u evidence (sample_run_reachable image image_run) E He)
    as (captureId & projection & expected & r & Hu & _ & Hr & Hg).
  exists u, evidence, r. split; [exact E|]. split; [exact He|]. split; [exact Hr|]. congruence.
Defined.


Lemma idle_documents_are_settled_witness :
  settled "d1" (history (state (sample_run image (image_run ++ [answers_with "completed" true])))).
Proof.
  apply (idle_documents_are_settled _ _ _ _ _ _ "d1" (sample_run_reachable _ _)). vm_compute. reflexivity.
Defined.

(** A recording that is cancelled after its first poll and whose data cannot be
    deleted; then, with what the library saved, it is retried. *)
Definition recording : DesktopLibrarySummary := sample_document "audio/wav" "imported" None None None.

Definition canceled_run : list Action :=
  Retry "d1" :: replicate 5 (answers_with "extracting" true) ++
  [Cancel "d1"] ++ replicate 7 (answers_with "cancelled" false).

Definition left_behind : DesktopLibrarySummary :=
  sample_document "audio/wav" "recovery_required" (Some "extracting") (Some "c1") (Some "runtime_cleanup_failed").

Definition recovery_run : list Action :=
  [SetEnvironment (sample_environment left_behind); Retry "d1"] ++ replicate 2 (answers_with "cancelled" true).

(** A canceled recording can end as completed: the recording is saved as
    canceled, its data cannot be deleted, and recovery is required with the
    stage of the last event; when it is retried the status is derived from
    that stage, and the library is told it completed. *)
Lemma canceled_recording_recovers_as_completed :
  drop 2 (saved_statuses (sample_run recording canceled_run)) =
    [("canceled", Some "cancelled"); ("recovery_required", Some "extracting")] ∧
  drop 4 (saved_statuses (sample_run recording (canceled_run ++ recovery_run))) = [("completed", Some "extracting")].
Proof. split; vm_compute; reflexivity. Qed.
