(* ===== verification/ScopeLock.v ===== *)
(** * The acceptance scope lock

    [src/apps/capture-workbench-desktop/scripts/acceptance-scope.ts], functions
    [atomicWriteJson] to [withScopeLock].  The acceptance scope is a JSON file
    that several processes rewrite.  Each rewrite runs under an exclusive lock
    file next to it; a lock whose owner died is taken away under a second
    exclusive file, the reconcile gate.

    A contender is one call of [withScopeLock] in one process.  Its program
    counter [pc] says which file or process call it waits at; [resume] is the
    code between two waits and [exec] lets the calls of all contenders, the
    clock and process deaths interleave in any order.  A call may always fail
    with an I/O error.  The lock file's text is kept as the JSON value it denotes
    ([None] when it is no JSON), with the contender that created the file. *)

From stdpp Require Import functions relations.
From S2P Require Import Prelude JsString JsNum JsValue.

(** ** Storage errors *)

Definition storage_error (code : string) : string := "capture_acceptance_scope_storage_" +:+ code.

Definition SCOPE_LOCK_STALE_AFTER_MS : Z := 30000.
Definition SCOPE_LOCK_WAIT_TIMEOUT_MS : Z := 15000.

(** ** Lock records *)

#[local] Instance num_eq_dec : EqDecision num.
Proof. intros x y. unfold Decision. repeat decide equality. Defined.

Fixpoint js_dec (x y : js) {struct x} : {x = y} + {x ≠ y}.
Proof.
assert (∀ f g : string * js, {f = g} + {f ≠ g}) as member.
{ intros [k v] [k' v'].
  destruct (js_dec v v') as [->|]; [|right; congruence].
  destruct (decide (k = k')) as [->|]; [by left|right; congruence]. }
destruct x as [| |b|n|t|l|r], y as [| |b'|n'|t'|l'|r'].
all: try (right; discriminate); try (left; reflexivity).
- destruct (decide (b = b')) as [->|]; [by left|right; congruence].
- destruct (decide (n = n')) as [->|]; [by left|right; congruence].
- destruct (decide (t = t')) as [->|]; [by left|right; congruence].
- destruct (List.list_eq_dec js_dec l l') as [->|]; [by left|right; congruence].
- destruct (List.list_eq_dec member r r') as [->|]; [by left|right; congruence].
Defined.

#[local] Instance js_eq_dec : EqDecision js := js_dec.

Definition asPositivePid (value : js) : option Z :=
match value with
| Num n => z ← to_int n; if (0 <? z) && (z <=? MAX_SAFE_INTEGER) then Some z else None
| _ => None
end.

(** The fields of a valid record that are used: the owner's process and the
time of its call. *)
Definition validLockRecord (value : js) : option (Z * Z) :=
match value with
| Obj r =>
    if strict_eqb (get r "schemaVersion") (js_Z 1) && string_with (λ s, 0 <? slen s) (get r "token") then
      pid ← asPositivePid (get r "pid");
      created ← asPositivePid (get r "createdAtEpochMs");
      Some (pid, created)
    else None
| _ => None
end.

Definition lock_record (pid created : Z) (token : string) : js :=
Obj [("schemaVersion", js_Z 1); ("pid", js_Z pid); ("createdAtEpochMs", js_Z created); ("token", Str token)].

Inductive liveness : Type := Alive | Dead | Unknown.

(** What [reconcileStaleScopeLock] returns. *)
Inductive lock_state : Type := Removed | Held.

(** ** The contenders *)

(** The two files created with the flag [wx]. *)
Inductive exclusive : Type := LockFile | GateFile.

(** [writeFileExclusive] of the default adapter: open, fill, and close; a file
that cannot be filled is removed again. *)
Inductive stage : Type := Opening | Filling | Undoing | Closing (filled : bool).

Inductive pc : Type :=
| Idle
| Creating (file : exclusive) (s : stage) (gate_deadline : Z)
| GateWait (gate_deadline : Z)
| ReadLock
| AskAlive (pid : Z)
| Quarantine
| Discard
| ReleaseGate (outcome : result string lock_state)
| Wait
| ReadScope
| MakeDirectory (value : js)
| WriteTemporary (value : js)
| RenameTemporary (value : js)
| RemoveTemporary (primary : option string)
| Release (outcome : result string unit)
| Finished (outcome : result string unit).

(** What a contender reads once when it starts. *)
Record session := { created : Z; deadline : Z }.

(** Replies of the file system, the process table and the timer. *)
Inductive reply : Type :=
| Done
| AlreadyExists
| NotFound
| Fault
| Contents (text : option js)
| Liveness (l : liveness)
| Scope (value : js).

Section resume.
(** What the operation of a contender writes, from the scope it reads. *)
Variable operation : nat → js → result string (option js).

(** After [writeFileExclusive]. *)
Definition created_exclusively (file : exclusive) : pc :=
match file with LockFile => ReadScope | GateFile => ReadLock end.

Definition creation_failed (file : exclusive) : pc :=
Finished (Err (storage_error (match file with LockFile => "lock_create_failed" | GateFile => "lock_reconcile_failed" end))).

Definition resume_creating (s : session) (now : Z) (file : exclusive) (st : stage) (gate_deadline : Z) (r : reply) : pc :=
match st, r with
| Opening, Done => Creating file Filling gate_deadline
| Opening, AlreadyExists =>
  match file with
  | LockFile => Creating GateFile Opening (now + SCOPE_LOCK_WAIT_TIMEOUT_MS)
  | GateFile =>
      if gate_deadline <=? now then Finished (Err (storage_error "lock_reconcile_busy"))
      else GateWait gate_deadline
  end
| Opening, _ => creation_failed file
| Filling, Done => Creating file (Closing true) gate_deadline
| Filling, _ => Creating file Undoing gate_deadline
| Undoing, _ => Creating file (Closing false) gate_deadline
| Closing true, Done => created_exclusively file
| Closing _, _ => creation_failed file
end.

(** The operation under the gate, up to the liveness question. *)
Definition inspect_lock (now : Z) (text : option js) : pc :=
match text ≫= validLockRecord with
| None => ReleaseGate (Err (storage_error "lock_invalid"))
| Some (pid, created) =>
  if now - created <? SCOPE_LOCK_STALE_AFTER_MS then ReleaseGate (Ok Held) else AskAlive pid
end.

(** Back in [acquireScopeLock]. *)
Definition after_reconcile (s : session) (now : Z) (outcome : result string lock_state) : pc :=
match outcome with
| Err e => Finished (Err e)
| Ok Removed => Creating LockFile Opening 0
| Ok Held => if deadline s <=? now then Finished (Err (storage_error "lock_busy")) else Wait
end.

Definition run_operation (i : nat) (current : js) : pc :=
match operation i current with
| Err e => Release (Err e)
| Ok None => Release (Ok tt)
| Ok (Some value) => MakeDirectory value
end.

(** After the clean-up of [atomicWriteJson]. *)
Definition written (primary : option string) : pc :=
Release (match primary with Some e => Err e | None => Ok tt end).

(** The code from one wait to the next. *)
Definition resume (i : nat) (s : session) (now : Z) (c : pc) (r : reply) : pc :=
match c, r with
| Creating file st gate_deadline, _ => resume_creating s now file st gate_deadline r
| GateWait gate_deadline, _ => Creating GateFile Opening gate_deadline
| ReadLock, Contents text => inspect_lock now text
| ReadLock, NotFound => ReleaseGate (Ok Removed)
| ReadLock, _ => ReleaseGate (Err (storage_error "lock_read_failed"))
| AskAlive _, Liveness Dead => Quarantine
| AskAlive _, Liveness Alive => ReleaseGate (Ok Held)
| AskAlive _, _ => ReleaseGate (Err (storage_error "lock_owner_unknown"))
| Quarantine, Done => Discard
| Quarantine, NotFound => ReleaseGate (Ok Removed)
| Quarantine, _ => ReleaseGate (Err (storage_error "lock_reconcile_failed"))
| Discard, (Done | NotFound) => ReleaseGate (Ok Removed)
| Discard, _ => ReleaseGate (Err (storage_error "lock_release_failed"))
| ReleaseGate outcome, (Done | NotFound) => after_reconcile s now outcome
| ReleaseGate _, _ => Finished (Err (storage_error "lock_release_failed"))
| Wait, _ => Creating LockFile Opening 0
| ReadScope, Scope current => run_operation i current
| ReadScope, _ => Release (Err (storage_error "read_failed"))
| MakeDirectory value, Done => WriteTemporary value
| MakeDirectory _, _ => Release (Err (storage_error "mkdir_failed"))
| WriteTemporary value, Done => RenameTemporary value
| WriteTemporary _, _ => RemoveTemporary (Some (storage_error "write_failed"))
| RenameTemporary _, Done => RemoveTemporary None
| RenameTemporary _, _ => RemoveTemporary (Some (storage_error "rename_failed"))
| RemoveTemporary primary, (Done | NotFound) => written primary
| RemoveTemporary _, _ => Release (Err (storage_error "temp_cleanup_failed"))
| Release outcome, (Done | NotFound) => Finished outcome
| Release _, _ => Finished (Err (storage_error "lock_release_failed"))
| Idle, _ | Finished _, _ => c
end.
End resume.

(** ** The shared files *)

Record lock_file := { creator : nat; contents : option js }.

Record files := {
  lock : option lock_file;
  gate : option nat;
  scope : js;
}.

Definition set_lock (l : option lock_file) (fs : files) : files := {| lock := l; gate := gate fs; scope := scope fs |}.
Definition set_gate (g : option nat) (fs : files) : files := {| lock := lock fs; gate := g; scope := scope fs |}.
Definition set_scope (v : js) (fs : files) : files := {| lock := lock fs; gate := gate fs; scope := v |}.

(** Whether the file is there, its creation and its removal. *)
Definition present (file : exclusive) (fs : files) : bool :=
match file with
| LockFile => bool_decide (is_Some (lock fs))
| GateFile => bool_decide (is_Some (gate fs))
end.
Definition create (i : nat) (file : exclusive) (fs : files) : files :=
match file with
| LockFile => set_lock (Some {| creator := i; contents := None |}) fs
| GateFile => set_gate (Some i) fs
end.
Definition remove (file : exclusive) (fs : files) : files :=
match file with LockFile => set_lock None fs | GateFile => set_gate None fs end.
Definition fill (file : exclusive) (text : js) (fs : files) : files :=
match file with
| LockFile => set_lock ((λ l, {| creator := creator l; contents := Some text |}) <$> lock fs) fs
| GateFile => fs
end.

(** [unlink(path)]: removes the file, fails on a missing one, or fails. *)
Definition perform_unlink (file : exclusive) (r : reply) (fs : files) : option files :=
match r with
| Done => if present file fs then Some (remove file fs) else None
| NotFound => if present file fs then None else Some fs
| Fault => Some fs
| _ => None
end.

(** A call without effect on the three files. *)
Definition perform_other (allowed : reply → bool) (r : reply) (fs : files) : option files :=
if allowed r then Some fs else None.

Definition done_or_fault (r : reply) : bool := match r with Done | Fault => true | _ => false end.

(** [process.kill(pid, 0)]: a dead process may be reported alive, when its
number is in use again; a live one is never reported dead. *)
Definition liveness_reply (alive : Z → bool) (pid : Z) (r : reply) : bool :=
match r with Liveness Dead => negb (alive pid) | Liveness _ => true | _ => false end.

Section system.
Variable operation : nat → js → result string (option js).
(** The process a contender runs in, and its random token. *)
Variable process : nat → Z.
Variable token : nat → string.

(** The effect of the call contender [i] waits at, for a reply the outside
world may give; [None] when it may not. *)
Definition perform (alive : Z → bool) (i : nat) (s : session) (c : pc) (r : reply) (fs : files) : option files :=
match c with
| Creating file Opening _ =>
  match r with
  | Done => if present file fs then None else Some (create i file fs)
  | AlreadyExists => if present file fs then Some fs else None
  | Fault => Some fs
  | _ => None
  end
| Creating file Filling _ =>
  match r with
  | Done => Some (fill file (lock_record (process i) (created s) (token i)) fs)
  | Fault => Some fs
  | _ => None
  end
| Creating file Undoing _ => perform_unlink file r fs
| Creating _ (Closing _) _ | MakeDirectory _ | WriteTemporary _ => perform_other done_or_fault r fs
| GateWait _ | Wait => perform_other (λ r, match r with Done => true | _ => false end) r fs
| ReadLock =>
  match r, lock fs with
  | Contents text, Some l => if decide (text = contents l) then Some fs else None
  | NotFound, None => Some fs
  | Fault, _ => Some fs
  | _, _ => None
  end
| AskAlive pid => perform_other (liveness_reply alive pid) r fs
| Quarantine => perform_unlink LockFile r fs
| Discard | RemoveTemporary _ =>
  perform_other (λ r, match r with Done | NotFound | Fault => true | _ => false end) r fs
| ReleaseGate _ => perform_unlink GateFile r fs
| ReadScope =>
  match r with
  | Scope value => if decide (value = scope fs) then Some fs else None
  | Fault => Some fs
  | _ => None
  end
| RenameTemporary value =>
  match r with Done => Some (set_scope value fs) | Fault => Some fs | _ => None end
| Release _ => perform_unlink LockFile r fs
| Idle | Finished _ => None
end.

Record system := {
at_ : nat → pc;
sessions : nat → session;
shared : files;
clock : Z;
alive : Z → bool;
}.

Inductive event : Type :=
| Start (i : nat)
| Call (i : nat) (r : reply)
| SetClock (now : Z)
| Die (pid : Z).

Definition is_idle (c : pc) : bool := match c with Idle => true | _ => false end.

Definition exec (e : event) (sys : system) : option system :=
match e with
| Start i =>
  if alive sys (process i) && is_idle (at_ sys i) then
    Some {| at_ := <[i := Creating LockFile Opening 0]> (at_ sys);
            sessions := <[i := {| created := clock sys; deadline := clock sys + SCOPE_LOCK_WAIT_TIMEOUT_MS |}]> (sessions sys);
            shared := shared sys; clock := clock sys; alive := alive sys |}
  else None
| Call i r =>
  if alive sys (process i) then
    fs ← perform (alive sys) i (sessions sys i) (at_ sys i) r (shared sys);
    Some {| at_ := <[i := resume operation i (sessions sys i) (clock sys) (at_ sys i) r]> (at_ sys);
            sessions := sessions sys; shared := fs; clock := clock sys; alive := alive sys |}
  else None
| SetClock now =>
  Some {| at_ := at_ sys; sessions := sessions sys; shared := shared sys; clock := now; alive := alive sys |}
| Die pid =>
  Some {| at_ := at_ sys; sessions := sessions sys; shared := shared sys; clock := clock sys;
          alive := <[pid := false]> (alive sys) |}
end.

Fixpoint exec_all (es : list event) (sys : system) : option system :=
match es with [] => Some sys | e :: es' => sys' ← exec e sys; exec_all es' sys' end.

(** No contender has started, and neither file is there. *)
Definition initial (value : js) (now : Z) : system :=
{| at_ := λ _, Idle; sessions := λ _, {| created := 0; deadline := 0 |};
 shared := {| lock := None; gate := None; scope := value |};
 clock := now; alive := λ _, true |}.

(** ** What the contenders rely on *)

(** The contender has created the lock file and not yet removed it. *)
Definition owns (c : pc) : bool :=
match c with
| Creating LockFile (Filling | Undoing | Closing true) _ => true
| ReadScope | MakeDirectory _ | WriteTemporary _ | RenameTemporary _ | RemoveTemporary _ | Release _ => true
| _ => false
end.

(** It is inside the operation of [withScopeLock]. *)
Definition in_operation (c : pc) : bool :=
match c with
| ReadScope | MakeDirectory _ | WriteTemporary _ | RenameTemporary _ | RemoveTemporary _ => true
| _ => false
end.

(** It has created the gate file and not yet removed it. *)
Definition in_gate (c : pc) : bool :=
match c with
| Creating GateFile (Filling | Undoing | Closing true) _ => true
| ReadLock | AskAlive _ | Quarantine | Discard | ReleaseGate _ => true
| _ => false
end.

(** The value it is going to write. *)
Definition planned (c : pc) : option js :=
match c with
| MakeDirectory v | WriteTemporary v | RenameTemporary v => Some v
| _ => None
end.

(** Who created the lock file that is there, and in which process. *)
Definition owner (fs : files) : option nat := creator <$> lock fs.
Definition owner_process (fs : files) : option Z := process <$> owner fs.

(** A process does not die between the moment a reconciler has read the lock of
that process and its liveness question, unless the lock is still there. *)
Definition lawful (sys : system) (e : event) : Prop :=
match e with
| Die p => ∀ j, alive sys (process j) = true → at_ sys j = AskAlive p → owner_process (shared sys) = Some p
| _ => True
end.

Definition step (sys sys' : system) : Prop := ∃ e, lawful sys e ∧ exec e sys = Some sys'.

(** Any run, whenever processes die. *)
Definition free_step (sys sys' : system) : Prop := ∃ e, exec e sys = Some sys'.

Definition reachable (value : js) (now : Z) (sys : system) : Prop := rtc step (initial value now) sys.

(** ** Single calls *)

Lemma owner_fill text fs : owner (fill LockFile text fs) = owner fs.
Proof. unfold owner. cbn. by destruct (lock fs). Qed.

Lemma absent_lock fs : bool_decide (is_Some (lock fs)) = false → owner fs = None.
Proof. intros H%bool_decide_eq_false%eq_None_not_Some. unfold owner. by rewrite H. Qed.

Lemma absent_gate fs : bool_decide (is_Some (gate fs)) = false → gate fs = None.
Proof. by intros H%bool_decide_eq_false%eq_None_not_Some. Qed.

(** Open a call: its cases, with the replies that are not allowed discarded. *)
Local Ltac calls c r :=
destruct c as [|[] [| | |[]] ?| | | | | | | | | | | | | |], r;
cbn -[fill owner owner_process]; unfold perform_unlink, perform_other;
intros; simplify_eq;
repeat match goal with
| H : context [match ?x with _ => _ end] |- _ => destruct x eqn:?; try discriminate H; simplify_eq
end;
cbn -[fill owner owner_process] in *; simplify_eq.

Section one_call.
Context (al : Z → bool) (i : nat) (s : session) (now : Z) (c : pc) (r : reply) (fs fs' : files).
Hypothesis Hcall : perform al i s c r fs = Some fs'.

Lemma owner_moves :
owner fs' = owner fs ∨
(owner fs = None ∧ owner fs' = Some i) ∨
(owner fs' = None ∧ (owns c = true ∨ c = Quarantine)).
Proof. revert Hcall. calls c r; eauto using owner_fill, absent_lock. Qed.

Lemma gate_moves :
gate fs' = gate fs ∨
(gate fs = None ∧ gate fs' = Some i) ∨
(gate fs' = None ∧ in_gate c = true).
Proof. revert Hcall. calls c r; eauto using absent_gate. Qed.

Lemma contents_move l v :
lock fs' = Some l → contents l = Some v →
lock fs = Some l ∨ (owns c = true ∧ owner fs' = owner fs ∧ v = lock_record (process i) (created s) (token i)).
Proof.
revert Hcall. calls c r; eauto. right. split_and!; [done|apply owner_fill|].
cbn in *. destruct (lock fs); by simplify_eq/=.
Qed.

Lemma scope_moves : scope fs' = scope fs ∨ planned c = Some (scope fs') ∧ owns c = true.
Proof. revert Hcall. calls c r; eauto. Qed.

Local Ltac after :=
repeat match goal with
| H : context [inspect_lock] |- _ => revert H
| H : context [after_reconcile] |- _ => revert H
| H : context [run_operation] |- _ => revert H
| H : context [written] |- _ => revert H
| H : context [creation_failed] |- _ => revert H
| H : context [created_exclusively] |- _ => revert H
end;
unfold inspect_lock, after_reconcile, run_operation, written, creation_failed, created_exclusively; cbn;
repeat match goal with
| |- context [match ?x with _ => _ end] => destruct x eqn:?; cbn
end; intros; simplify_eq.

Lemma owns_after :
owns (resume operation i s now c r) = true → owner fs' = Some i ∨ (owns c = true ∧ owner fs' = owner fs).
Proof. revert Hcall. calls c r; eauto using owner_fill; after; eauto. Qed.

Lemma gate_after :
in_gate (resume operation i s now c r) = true → gate fs' = Some i ∨ (in_gate c = true ∧ gate fs' = gate fs).
Proof. revert Hcall. calls c r; eauto; after; eauto. Qed.

Lemma ask_after p :
resume operation i s now c r = AskAlive p →
∃ l v t, lock fs' = Some l ∧ contents l = Some v ∧ validLockRecord v = Some (p, t) ∧ in_gate c = true.
Proof.
revert Hcall. calls c r; after.
match goal with H : contents ?l ≫= _ = _ |- _ => destruct (contents l) eqn:?; cbn in H; [|discriminate H] end.
eauto 10.
Qed.

Lemma quarantine_after :
resume operation i s now c r = Quarantine → ∃ p, c = AskAlive p ∧ al p = false ∧ lock fs' = lock fs.
Proof. revert Hcall. calls c r; after; bsimp; eauto. Qed.

Lemma planned_after v :
planned (resume operation i s now c r) = Some v →
owns c = true ∧ scope fs' = scope fs ∧ (planned c = Some v ∨ operation i (scope fs) = Ok (Some v)).
Proof. revert Hcall. calls c r; after; eauto. Qed.
End one_call.

Lemma asPositivePid_Z z : asPositivePid (js_Z z) = if (0 <? z) && (z <=? MAX_SAFE_INTEGER) then Some z else None.
Proof. unfold asPositivePid, js_Z. by rewrite to_int_of_Z. Qed.

Lemma lock_record_process pid t k p t' : validLockRecord (lock_record pid t k) = Some (p, t') → p = pid.
Proof.
unfold validLockRecord, lock_record. cbn -[asPositivePid slen Z.ltb js_Z].
rewrite !asPositivePid_Z. destruct (_ && _); cbn; [|done].
intros (q & Hq & (c & Hc & [= <- <-])%bind_Some)%bind_Some. by destruct (_ && _) in Hq; simplify_eq.
Qed.

(** ** The invariant *)

Record inv (sys : system) : Prop := {
inv_owner i : alive sys (process i) = true → owns (at_ sys i) = true → owner (shared sys) = Some i;
inv_gate i : alive sys (process i) = true → in_gate (at_ sys i) = true → gate (shared sys) = Some i;
inv_contents l v : lock (shared sys) = Some l → contents l = Some v →
  ∃ t k, v = lock_record (process (creator l)) t k;
inv_ask i p : alive sys (process i) = true → at_ sys i = AskAlive p →
  alive sys p = true ∨ owner_process (shared sys) = Some p;
inv_quarantine i : alive sys (process i) = true → at_ sys i = Quarantine →
  ∃ p, owner_process (shared sys) = Some p ∧ alive sys p = false;
inv_planned i v : alive sys (process i) = true → planned (at_ sys i) = Some v →
  operation i (scope (shared sys)) = Ok (Some v);
}.

Lemma inv_initial value now : inv (initial value now).
Proof. split; cbn; try discriminate; done. Qed.

(** What one call does to the contenders that do not make it. *)
Section one_step.
Context (sys : system) (i : nat) (r : reply) (fs' : files).
Hypothesis Hinv : inv sys.
Hypothesis Hi : alive sys (process i) = true.
Hypothesis Hcall : perform (alive sys) i (sessions sys i) (at_ sys i) r (shared sys) = Some fs'.
Let c := at_ sys i.
Let c' := resume operation i (sessions sys i) (clock sys) c r.

Lemma owner_is_kept j :
j ≠ i → alive sys (process j) = true → owner (shared sys) = Some j → owner fs' = Some j.
Proof.
intros Hj Ha Ho. destruct (owner_moves _ _ _ _ _ _ _ Hcall) as [->|[[Hn _]|[_ [Hown|Hq]]]]; [done|congruence| |].
- pose proof (inv_owner _ Hinv i Hi Hown). congruence.
- destruct (inv_quarantine _ Hinv i Hi Hq) as (p & Hp & Hd). unfold owner_process in Hp.
rewrite Ho in Hp. cbn in Hp. congruence.
Qed.

Lemma gate_is_kept j :
j ≠ i → gate (shared sys) = Some j → gate fs' = Some j.
Proof.
intros Hj Hg. destruct (gate_moves _ _ _ _ _ _ _ Hcall) as [->|[[Hn _]|[_ Hin]]]; [done|congruence|].
pose proof (inv_gate _ Hinv i Hi Hin). congruence.
Qed.

(** A dead owner's lock file stays while another contender is in the gate. *)
Lemma dead_owner_is_kept j p :
j ≠ i → gate (shared sys) = Some j → owner_process (shared sys) = Some p → alive sys p = false →
owner_process fs' = Some p.
Proof.
intros Hj Hg Ho Hd. unfold owner_process in *.
destruct (owner_moves _ _ _ _ _ _ _ Hcall) as [->|[[Hn _]|[_ [Hown|Hq]]]]; [done| | |].
- by rewrite Hn in Ho.
- rewrite (inv_owner _ Hinv i Hi Hown) in Ho. cbn in Ho. congruence.
- assert (gate (shared sys) = Some i) by (apply (inv_gate _ Hinv i Hi); by rewrite Hq). congruence.
Qed.

Lemma scope_is_kept j :
j ≠ i → alive sys (process j) = true → owns (at_ sys j) = true → scope fs' = scope (shared sys).
Proof.
intros Hj Ha Ho. destruct (scope_moves _ _ _ _ _ _ _ Hcall) as [|[_ Hown]]; [done|].
pose proof (inv_owner _ Hinv i Hi Hown). pose proof (inv_owner _ Hinv j Ha Ho). congruence.
Qed.
End one_step.

Lemma planned_owns c v : planned c = Some v → owns c = true.
Proof. by destruct c. Qed.

Lemma inv_call sys i r sys' : inv sys → exec (Call i r) sys = Some sys' → inv sys'.
Proof.
intros Hinv. cbn. destruct (alive sys (process i)) eqn:Hi; [|done].
intros (fs' & Hcall & [= <-])%bind_Some. split; cbn.
- intros j Ha. destruct (decide (j = i)) as [->|Hj].
+ rewrite fn_lookup_insert. intros [|[Ho ->]]%(owns_after _ _ _ _ _ _ _ _ Hcall); [done|by apply Hinv].
+ rewrite fn_lookup_insert_ne by done. intros Ho. apply (owner_is_kept sys i r fs' Hinv Hi Hcall j Hj Ha). by apply Hinv.
- intros j Ha. destruct (decide (j = i)) as [->|Hj].
+ rewrite fn_lookup_insert. intros [|[Ho ->]]%(gate_after _ _ _ _ _ _ _ _ Hcall); [done|by apply Hinv].
+ rewrite fn_lookup_insert_ne by done. intros Ho. apply (gate_is_kept sys i r fs' Hinv Hi Hcall j Hj). by apply Hinv.
- intros l v Hl Hv. destruct (contents_move _ _ _ _ _ _ _ Hcall l v Hl Hv) as [|(Ho & Heq & ->)]; [by eapply Hinv|].
apply (inv_owner _ Hinv i Hi) in Ho. rewrite Ho in Heq. unfold owner in Heq. rewrite Hl in Heq.
cbn in Heq. simplify_eq. eauto.
- intros j p Ha. destruct (decide (j = i)) as [->|Hj].
+ rewrite fn_lookup_insert. intros (l & v & t & Hl & Hv & Hp & Hg)%(ask_after _ _ _ _ _ _ _ _ Hcall). right.
  destruct (contents_move _ _ _ _ _ _ _ Hcall l v Hl Hv) as [Hl'|(Ho & _ & _)]; [|by destruct (at_ sys i) as [|[] []| | | | | | | | | | | | | |]].
  destruct (inv_contents _ Hinv l v Hl' Hv) as (t' & k & ->). apply lock_record_process in Hp as ->.
  unfold owner_process, owner. by rewrite Hl.
+ rewrite fn_lookup_insert_ne by done. intros Hask. destruct (alive sys p) eqn:Hp; [by left|]. right.
  destruct (inv_ask _ Hinv j p Ha Hask) as [|Ho]; [congruence|].
  refine (dead_owner_is_kept sys i r fs' Hinv Hi Hcall j p Hj _ Ho Hp). apply Hinv; [done|]. by rewrite Hask.
- intros j Ha. destruct (decide (j = i)) as [->|Hj].
+ rewrite fn_lookup_insert. intros (p & Hc & Hp & Hl)%(quarantine_after _ _ _ _ _ _ _ _ Hcall).
  destruct (inv_ask _ Hinv i p Hi Hc) as [|Ho]; [congruence|]. exists p. split; [|done].
  unfold owner_process, owner in *. by rewrite Hl.
+ rewrite fn_lookup_insert_ne by done. intros Hq.
  destruct (inv_quarantine _ Hinv j Ha Hq) as (p & Ho & Hp). exists p. split; [|done].
  refine (dead_owner_is_kept sys i r fs' Hinv Hi Hcall j p Hj _ Ho Hp). apply Hinv; [done|]. by rewrite Hq.
- intros j v Ha. destruct (decide (j = i)) as [->|Hj].
+ rewrite fn_lookup_insert. intros (Ho & -> & [Hp|Hp])%(planned_after _ _ _ _ _ _ _ _ Hcall); [by apply Hinv|done].
+ rewrite fn_lookup_insert_ne by done. intros Hp.
  rewrite (scope_is_kept sys i r fs' Hinv Hi Hcall j Hj Ha (planned_owns _ _ Hp)). by apply Hinv.
Qed.

Lemma inv_step sys sys' : inv sys → step sys sys' → inv sys'.
Proof.
intros Hinv (e & Hlaw & He). destruct e as [i|i r|now|p].
- cbn in He. destruct (_ && _) in He; [|done]. simplify_eq.
destruct Hinv as [Ho Hg Hc Hk Hq Hp].
assert (∀ j, <[i := Creating LockFile Opening 0]> (at_ sys) j = at_ sys j ∨
  <[i := Creating LockFile Opening 0]> (at_ sys) j = Creating LockFile Opening 0) as Hat.
{ intros j. destruct (decide (j = i)) as [->|Hj]; [right; apply fn_lookup_insert|left; by apply fn_lookup_insert_ne]. }
split; cbn; [..|intros j v; destruct (Hat j) as [-> | ->]; [eauto|discriminate]].
all: try (intros j; destruct (Hat j) as [-> | ->]); try discriminate; eauto.
- by eapply inv_call.
- cbn in He. simplify_eq. by destruct Hinv.
- cbn in He. simplify_eq.
assert (∀ q, <[p := false]> (alive sys) q = true → q ≠ p ∧ alive sys q = true) as Hal.
{ intros q. destruct (decide (q = p)) as [->|Hq]; [by rewrite fn_lookup_insert|by rewrite fn_lookup_insert_ne]. }
destruct Hinv as [Ho Hg Hc Hk Hq Hp]. split; cbn; auto.
+ intros i [_ ?]%Hal. auto.
+ intros i [_ ?]%Hal. auto.
+ intros i q [_ Ha]%Hal Hask. destruct (decide (q = p)) as [->|Hne].
  * right. by apply (Hlaw i).
  * rewrite fn_lookup_insert_ne by done. eauto.
+ intros i [_ Ha]%Hal Hqu. destruct (Hq i Ha Hqu) as (q & Hown & Hd). exists q. split; [done|].
  destruct (decide (q = p)) as [->|Hne]; [by rewrite fn_lookup_insert|by rewrite fn_lookup_insert_ne].
+ intros i v [_ ?]%Hal. auto.
Qed.

Lemma reachable_inv value now sys : reachable value now sys → inv sys.
Proof. intros H. apply (rtc_ind_r inv _ (inv_initial value now) (λ x y _ Hs IH, inv_step _ _ IH Hs) _ H). Qed.

(** C13: Mutual exclusion: as long as no process dies between a reconciler's
reading of its lock and the liveness question about it, two live contenders
are never both inside the operation, whatever else interleaves, fails or dies. *)
Theorem operation_is_exclusive value now sys i j :
reachable value now sys →
alive sys (process i) = true → alive sys (process j) = true →
in_operation (at_ sys i) = true → in_operation (at_ sys j) = true → i = j.
Proof.
intros Hr Hi Hj Hoi Hoj. apply reachable_inv in Hr.
assert (∀ c, in_operation c = true → owns c = true) as Hop by (by intros []).
pose proof (inv_owner _ Hr i Hi (Hop _ Hoi)). pose proof (inv_owner _ Hr j Hj (Hop _ Hoj)). congruence.
Qed.

(** A value no operation replaces stays once it is written. *)
Lemma final_value_stays value now sys sys' (final : js → Prop) :
(∀ i current v, final current → operation i current ≠ Ok (Some v)) →
reachable value now sys → step sys sys' → final (scope (shared sys)) → scope (shared sys') = scope (shared sys).
Proof.
intros Hfinal Hr (e & _ & He) Hf. apply reachable_inv in Hr. destruct e as [i|i r|t|p]; cbn in He.
- destruct (_ && _) in He; [|done]. by simplify_eq.
- destruct (alive sys (process i)) eqn:Hi; [|done].
apply bind_Some in He as (fs' & Hcall & [= <-]). cbn.
destruct (scope_moves _ _ _ _ _ _ _ Hcall) as [|[Hp _]]; [done|].
destruct (Hfinal i _ _ Hf (inv_planned _ Hr i _ Hi Hp)).
- by simplify_eq.
- by simplify_eq.
Qed.

Lemma exec_all_runs es sys sys' :
forallb (λ e, match e with Die _ => false | _ => true end) es = true →
exec_all es sys = Some sys' → rtc step sys sys'.
Proof.
revert sys. induction es as [|e es IH]; cbn; intros sys.
- by intros _ [= ->].
- intros [He Hes]%andb_true_iff (mid & Hm & Hrest)%bind_Some.
apply rtc_l with mid; [|by apply IH]. exists e. split; [by destruct e|done].
Qed.
End system.

(** ** What the protocol does not give *)

Section blocked.
Context (operation : nat → js → result string (option js)) (process : nat → Z) (token : nat → string).

(** A dead process holds the lock file, and another dead process the gate. *)
Record blocked (sys : system) : Prop := {
blocked_lock : ∃ l, lock (shared sys) = Some l;
blocked_gate : ∃ g, gate (shared sys) = Some g;
blocked_all i : alive sys (process i) = true → owns (at_ sys i) = false ∧ in_gate (at_ sys i) = false;
}.

Lemma blocked_call al i s now c r fs fs' :
perform process token al i s c r fs = Some fs' →
owns c = false → in_gate c = false → (∃ l, lock fs = Some l) → (∃ g, gate fs = Some g) →
lock fs' = lock fs ∧ gate fs' = gate fs ∧
owns (resume operation i s now c r) = false ∧ in_gate (resume operation i s now c r) = false.
Proof.
intros Hcall Ho Hg [l Hl] [g Hgate].
destruct c as [|[] [| | |[]] ?| | | | | | | | | | | | | |], r; cbn in *; try discriminate; simplify_eq; auto;
rewrite ?Hl, ?Hgate in Hcall; cbn in Hcall; simplify_eq; auto.
by destruct (_ <=? _).
Qed.

(** A reconciler that dies inside the gate blocks the lock for good: no gate
file is ever taken away, so when the lock's owner is dead too, no contender
that is alive ever gets into the operation again, in any continuation. *)
Lemma dead_reconciler_blocks_the_lock sys sys' i :
blocked sys → rtc (free_step operation process token) sys sys' →
alive sys' (process i) = true → in_operation (at_ sys' i) = false.
Proof.
intros Hb Hr Hi. assert (blocked sys') as [_ _ Hall].
{ clear Hi. induction Hr as [|x y z [e He] _ IH]; [done|]. apply IH. clear IH.
destruct Hb as [Hl Hg Ha]. destruct e as [j|j r|t|p]; cbn in He.
- destruct (_ && _) in He; [|done]. simplify_eq. split; cbn; [done..|]. intros k Hk.
  destruct (decide (k = j)) as [->|]; [by rewrite fn_lookup_insert|rewrite fn_lookup_insert_ne by done; auto].
- destruct (alive x (process j)) eqn:Hj; [|done]. apply bind_Some in He as (fs' & Hcall & [= <-]).
  destruct (Ha j Hj) as [Ho Hin].
  destruct (blocked_call _ _ _ (clock x) _ _ _ _ Hcall Ho Hin Hl Hg) as (El & Eg & Ho' & Hin').
  split; cbn; [by rewrite El|by rewrite Eg|]. intros k Hk.
  destruct (decide (k = j)) as [->|]; [by rewrite fn_lookup_insert|rewrite fn_lookup_insert_ne by done; auto].
- by simplify_eq.
- simplify_eq. split; cbn; [done..|]. intros k Hk. apply Ha.
  destruct (decide (process k = p)) as [<-|]; [by rewrite fn_lookup_insert in Hk|by rewrite fn_lookup_insert_ne in Hk]. }
destruct (Hall i Hi) as [Ho _]. destruct (at_ sys' i); done.
Qed.
End blocked.

(** ** Runs *)

(** Contenders in processes of their own, numbered from 1. *)
Definition own_process (i : nat) : Z := Z.of_nat i + 1.
Definition one_token (_ : nat) : string := "token".

(** Create, fill and close a file. *)
Definition creates (i : nat) : list event := [Call i Done; Call i Done; Call i Done].

(** Run alone: nothing is written, and the lock is released. *)
Definition runs_alone (i : nat) : list event :=
Start i :: creates i ++ [Call i Fault; Call i Done].

(** Find the lock taken, enter the gate and read the record of [owner]. *)
Definition reads_lock (i owner : nat) (created : Z) : list event :=
[Start i; Call i AlreadyExists] ++ creates i ++
[Call i (Contents (Some (lock_record (own_process owner) created (one_token owner))))].

(** Learn that the owner is dead, take its lock away and lock again. *)
Definition takes_over (i : nat) : list event :=
[Call i (Liveness Dead); Call i Done; Call i Done; Call i Done] ++ creates i.

Section runs.
Context (operation : nat → js → result string (option js)) (value : js).

Definition run (es : list event) : option system :=
exec_all operation own_process one_token es (initial value 1).


(** A contender that arrives while the owner has created the lock file and not
yet filled it fails at once, instead of waiting. *)
Lemma half_written_lock_fails_contender :
∃ sys,
run ([Start 0%nat; Call 0 Done; Start 1%nat; Call 1 AlreadyExists] ++ creates 1 ++
     [Call 1 (Contents None); Call 1 Done; Call 0 Done; Call 0 Done]) = Some sys ∧
in_operation (at_ sys 0) = true ∧ at_ sys 1 = Finished (Err (storage_error "lock_invalid")).
Proof. eexists. split; [vm_compute; reflexivity|]. vm_compute. auto. Qed.
End runs.

Definition writes_nothing (_ : nat) (_ : js) : result string (option js) := Ok None.

(** One contender has run, the next is in the operation. *)
Definition second_owner : option system :=
run writes_nothing Undefined (runs_alone 0 ++ Start 1%nat :: creates 1).

Lemma operation_is_exclusive_witness :
∃ sys, second_owner = Some sys ∧ in_operation (at_ sys 1) = true ∧
  ∀ i, alive sys (own_process i) = true → in_operation (at_ sys i) = true → i = 1%nat.
Proof.
destruct second_owner as [sys|] eqn:Hs; [|by vm_compute in Hs]. exists sys. split; [done|].
assert (in_operation (at_ sys 1) = true ∧ alive sys (own_process 1) = true) as [H1 Ha].
{ vm_compute in Hs. injection Hs as <-. by vm_compute. }
split; [done|]. intros i Hi Ho.
apply (operation_is_exclusive writes_nothing own_process one_token Undefined 1 sys); [|done..].
by refine (exec_all_runs _ _ _ _ _ _ _ Hs).
Defined.

(** The owner has died, and so has the contender that looked into it. *)
Definition all_dead : option system :=
run writes_nothing Undefined
  (Start 0%nat :: creates 0 ++ SetClock 40000 :: reads_lock 1 0 1 ++ [Die (own_process 0); Die (own_process 1)]).

Lemma dead_reconciler_blocks_the_lock_witness :
∃ sys, all_dead = Some sys ∧
  ∀ sys' i, rtc (free_step writes_nothing own_process one_token) sys sys' →
    alive sys' (own_process i) = true → in_operation (at_ sys' i) = false.
Proof.
destruct all_dead as [sys|] eqn:Hs; [|by vm_compute in Hs]. exists sys. split; [done|].
intros sys' i. apply dead_reconciler_blocks_the_lock.
vm_compute in Hs. injection Hs as <-. split; cbn; [by eexists|by eexists|].
intros [|[|k]]; [by vm_compute..|]. intros _. done.
Defined.
