(* ===== verification/WindowsProbe.v ===== *)
(** * The Windows process probe

    [src/apps/capture-workbench-desktop/scripts/windows-acceptance-scope-probe.ts]:
    the snapshot of processes and listeners that the acceptance scope is derived
    from.  [parseWindowsSnapshot] reads what the operating system query printed;
    [assertWindowsAcceptanceScopeSnapshot] is what the scope owner demands of a
    snapshot.  Creation times are brought into one form by
    [canonicalCreationTime]; the calendar is that of ECMAScript's [Date].
    Spawning PowerShell is left out. *)

From S2P Require Import Prelude JsString JsNum JsValue ScopeLock.

(** ** Calendar of [Date], in days and milliseconds since 1970 *)

Definition DayFromYear (y : Z) : Z := 365 * (y - 1970) + (y - 1969) / 4 - (y - 1901) / 100 + (y - 1601) / 400.

Definition InLeapYear (y : Z) : bool := (y mod 4 =? 0) && (negb (y mod 100 =? 0) || (y mod 400 =? 0)).

(** The first day of a month within its year; months count from 0. *)
Definition month_start (leap : bool) (month : Z) : Z :=
nth (Z.to_nat month) [0; 31; 59; 90; 120; 151; 181; 212; 243; 273; 304; 334] 0
+ (if leap && (2 <=? month) then 1 else 0).

Definition MakeDay (year month date : Z) : Z :=
let y := year + month / 12 in
DayFromYear y + month_start (InLeapYear y) (month mod 12) + date - 1.

Definition YearFromDay (day : Z) : Z :=
let y := day * 400 / 146097 + 1970 in
if day <? DayFromYear y then y - 1 else if DayFromYear (y + 1) <=? day then y + 1 else y.

Definition DayWithinYear (day : Z) : Z := day - DayFromYear (YearFromDay day).

Fixpoint month_of (leap : bool) (within : Z) (n : nat) : Z :=
match n with
| O => 0
| S n' => if month_start leap (Z.of_nat n) <=? within then Z.of_nat n else month_of leap within n'
end.

Definition MonthFromDay (day : Z) : Z := month_of (InLeapYear (YearFromDay day)) (DayWithinYear day) 11.
Definition DateFromDay (day : Z) : Z :=
DayWithinYear day - month_start (InLeapYear (YearFromDay day)) (MonthFromDay day) + 1.

Definition msPerDay : Z := 86400000.
Definition MakeTime (hour minute second milliseconds : Z) : Z :=
hour * 3600000 + minute * 60000 + second * 1000 + milliseconds.

(** [Number.isFinite(new Date(time).getTime())] *)
Definition TimeClip (time : Z) : bool := Z.abs time <=? 8640000000000000.

(** Decimal digits. *)
Definition digit_char (z : Z) : ascii := ascii_of_N (Z.to_N (48 + z)).
Fixpoint pad (n : nat) (z : Z) : string :=
match n with O => "" | S n' => pad n' (z / 10) +:+ String (digit_char (z mod 10)) "" end.

Definition show_year (y : Z) : string :=
if (0 <=? y) && (y <=? 9999) then pad 4 y
else if y <? 0 then "-" +:+ pad 6 (- y) else "+" +:+ pad 6 y.

(** [date.toISOString()] *)
Definition toISOString (time : Z) : string :=
let day := time / msPerDay in
let ms := time mod msPerDay in
show_year (YearFromDay day) +:+ "-" +:+ pad 2 (MonthFromDay day + 1) +:+ "-" +:+ pad 2 (DateFromDay day)
+:+ "T" +:+ pad 2 (ms / 3600000) +:+ ":" +:+ pad 2 (ms / 60000 mod 60) +:+ ":" +:+ pad 2 (ms / 1000 mod 60)
+:+ "." +:+ pad 3 (ms mod 1000) +:+ "Z".

(** ** The patterns *)

Fixpoint fixed_digits (n : nat) (acc : Z) (s : string) : option (Z * string) :=
match n, s with
| O, _ => Some (acc, s)
| S n', String c s' => if is_digit c then fixed_digits n' (10 * acc + (code c - 48)) s' else None
| _, _ => None
end.

(** The longest prefix of at most [n] digits. *)
Fixpoint digit_prefix (n : nat) (s : string) : string * string :=
match n, s with
| S n', String c s' => if is_digit c then let '(d, rest) := digit_prefix n' s' in (String c d, rest) else ("", s)
| _, _ => ("", s)
end.

Fixpoint digits_value (acc : Z) (s : string) : Z :=
match s with EmptyString => acc | String c s' => digits_value (10 * acc + (code c - 48)) s' end.

Definition expect (c : ascii) (s : string) : option string :=
match s with String c' s' => if Ascii.eqb c c' then Some s' else None | EmptyString => None end.

Definition two_digits (max : Z) (s : string) : option (Z * string) :=
r ← fixed_digits 2 0 s; if r.1 <=? max then Some r else None.

(** The optional fraction, in milliseconds: [slice(0, 3).padEnd(3, '0')]. *)
Definition fraction (s : string) : option (Z * string) :=
match s with
| String "." s' =>
    let '(d, rest) := digit_prefix 9 s' in
    if String.eqb d "" then None
    else Some (digits_value 0 (take_str 3 (d +:+ "00")), rest)
| _ => Some (0, s)
end.

(** The time zone to the end of the text, in milliseconds. *)
Definition timezone (s : string) : option Z :=
match s with
| String "Z" "" => Some 0
| String sign s' =>
    if Ascii.eqb sign "+" || Ascii.eqb sign "-" then
      h ← two_digits 23 s';
      let s2 := match h.2 with String ":" s3 => s3 | s2 => s2 end in
      m ← two_digits 59 s2;
      if String.eqb m.2 "" then Some ((if Ascii.eqb sign "+" then 1 else -1) * (h.1 * 60 + m.1) * 60 * 1000) else None
    else None
| EmptyString => None
end.

Record iso_match := {
  iso_year : Z; iso_month : Z; iso_day : Z;
  iso_hour : Z; iso_minute : Z; iso_second : Z; iso_milliseconds : Z;
  iso_offset : Z;
}.

(** [ISO_CREATION_PATTERN.exec] *)
Definition iso_exec (s : string) : option iso_match :=
y ← fixed_digits 4 0 s; s ← expect "-" y.2;
mo ← fixed_digits 2 0 s; s ← expect "-" mo.2;
d ← fixed_digits 2 0 s; s ← expect "T" d.2;
h ← two_digits 23 s; s ← expect ":" h.2;
mi ← two_digits 59 s; s ← expect ":" mi.2;
sec ← two_digits 59 s;
ms ← fraction sec.2;
tz ← timezone ms.2;
Some {| iso_year := y.1; iso_month := mo.1; iso_day := d.1; iso_hour := h.1; iso_minute := mi.1;
        iso_second := sec.1; iso_milliseconds := ms.1; iso_offset := tz |}.

(** [WINDOWS_DATE_CREATION_PATTERN.exec] *)
Definition windows_date_exec (s : string) : option Z :=
if starts_with "/Date(" s then
  let '(d, rest) := digit_prefix (String.length s) (drop_str 6 s) in
  if negb (String.eqb d "") && String.eqb rest ")/" then Some (digits_value 0 d) else None
else None.

(** [DMTF_CREATION_PATTERN.test] *)
Definition dmtf_test (s : string) : bool :=
let '(d, rest) := digit_prefix 20 s in
(8 <=? slen d) &&
let sign_part :=
  match rest with
  | String "." r => let '(f, r') := digit_prefix (String.length r) r in if String.eqb f "" then "" else r'
  | _ => rest
  end in
match sign_part with
| String c r =>
    (Ascii.eqb c "+" || Ascii.eqb c "-") &&
    let '(z, e) := digit_prefix 4 r in (3 <=? slen z) && String.eqb e ""
| EmptyString => false
end.

(** The branch of the ISO form. *)
Definition canonical_iso (m : iso_match) : option string :=
let day := MakeDay (iso_year m) (iso_month m - 1) (iso_day m) in
if (YearFromDay day =? iso_year m) && (MonthFromDay day =? iso_month m - 1) && (DateFromDay day =? iso_day m) then
  let time := day * msPerDay + MakeTime (iso_hour m) (iso_minute m) (iso_second m) (iso_milliseconds m) in
  let canonical := time - iso_offset m in
  if TimeClip canonical then Some (toISOString canonical) else None
else None.

Definition canonicalCreationTime (value : js) : option string :=
match value with
| Str s =>
    let trimmed := trim s in
    match windows_date_exec trimmed with
    | Some ms => if (ms <=? MAX_SAFE_INTEGER) && TimeClip ms then Some (toISOString ms) else None
    | None =>
        match iso_exec trimmed with
        | Some m => canonical_iso m
        | None => if dmtf_test trimmed then Some trimmed else None
        end
    end
| _ => None
end.

Definition isCanonicalCreationTime (s : string) : bool := bool_decide (canonicalCreationTime (Str s) = Some s).

Example windows_date : canonicalCreationTime (Str "/Date(1709210096789)/") = Some "2024-02-29T12:34:56.789Z".
Proof. by vm_compute. Qed.
Example iso_with_offset : canonicalCreationTime (Str " 2024-03-01T00:04:56.7+01:30 ") = Some "2024-02-29T22:34:56.700Z".
Proof. by vm_compute. Qed.
Example no_such_day : canonicalCreationTime (Str "2023-02-29T12:34:56Z") = None.
Proof. by vm_compute. Qed.
Example dmtf : canonicalCreationTime (Str "20240229123456.789000+060") = Some "20240229123456.789000+060".
Proof. by vm_compute. Qed.

(** ** Snapshots *)

Record AcceptanceProcessIdentity := { pid : Z; creationTimeUtc : string; executable : string }.

Record Observation := {
  identity : AcceptanceProcessIdentity;
  parentPid : option Z;
  name : string;
  commandLine : option string;
}.

Record ListenerObservation := { host : string; port : Z; owningPid : Z }.

Record Snapshot := { processes : list Observation; listeners : list ListenerObservation }.

Definition invalid : string := "capture_acceptance_scope_probe_invalid".

(** [Number.isSafeInteger(value) && value > 0] on a number known to be an integer. *)
Definition positive_pid (z : Z) : bool := (0 <? z) && (z <=? MAX_SAFE_INTEGER).

Definition forward_slash (c : ascii) : ascii := if Ascii.eqb c "\" then "/"%char else c.

(** [value.trim().replaceAll('\\', '/').toLowerCase()] *)
Fixpoint replace_backslashes (s : string) : string :=
match s with EmptyString => "" | String c s' => String (forward_slash c) (replace_backslashes s') end.
Definition normalizePath (value : string) : string := lower (replace_backslashes (trim value)).

Definition isAbsoluteExecutable (value : string) : bool :=
match normalizePath value with
| String "/" _ => true
| String c (String ":" (String "/" _)) => is_lower c
| _ => false
end.

Definition isLoopbackHost (value : string) : bool := includes ["127.0.0.1"; "::1"] (lower (trim value)).

(** [typeof v === 'string' ? v.trim() : ''] *)
Definition trimmed_text (v : js) : string := match v with Str s => trim s | _ => "" end.

(** [isRecord] of this file also accepts arrays; they have none of the names read. *)
Definition record_fields (v : js) : option fields :=
match v with Obj r => Some r | Arr _ => Some [] | _ => None end.

Definition parseProcessObservation (item : fields) : option Observation :=
let executable := trimmed_text (get item "ExecutablePath") in
let name := trimmed_text (get item "Name") in
pid ← asPositivePid (get item "ProcessId");
creation ← canonicalCreationTime (get item "CreationDate");
if String.eqb executable "" || String.eqb name "" || negb (isAbsoluteExecutable executable) then None
else Some {|
  identity := {| pid := pid; creationTimeUtc := creation; executable := executable |};
  parentPid := asPositivePid (get item "ParentProcessId");
  name := name;
  commandLine := match get item "CommandLine" with Str s => Some s | _ => None end;
|}.

(** The loop over the processes, with [rootFound]. *)
Fixpoint parse_processes (expectedRootPid : Z) (rootFound : bool) (values : list js)
  : result string (bool * list Observation) :=
match values with
| [] => Ok (rootFound, [])
| value :: rest =>
    match record_fields value with
    | None => parse_processes expectedRootPid rootFound rest
    | Some item =>
        if negb (nullish (get item "ProcessId")) && negb (bool_decide (is_Some (canonicalCreationTime (get item "CreationDate"))))
        then Err invalid
        else
          let observation := parseProcessObservation item in
          let is_root := bool_decide (asPositivePid (get item "ProcessId") = Some expectedRootPid) in
          if is_root && negb (bool_decide (is_Some observation)) then Err invalid
          else
            found ← parse_processes expectedRootPid (rootFound || is_root) rest;
            Ok (found.1, match observation with Some o => o :: found.2 | None => found.2 end)
    end
end.

Fixpoint parse_listeners (values : list js) : result string (list ListenerObservation) :=
match values with
| [] => Ok []
| value :: rest =>
    match record_fields value with
    | None => Err invalid
    | Some item =>
        let host := trimmed_text (get item "LocalAddress") in
        if String.eqb host "" then Err invalid else
        match asPositivePid (get item "LocalPort"), asPositivePid (get item "OwningProcess") with
        | Some port, Some owningPid =>
            if 65535 <? port then Err invalid else
            ls ← parse_listeners rest;
            Ok (if isLoopbackHost host then {| host := host; port := port; owningPid := owningPid |} :: ls else ls)
        | _, _ => Err invalid
        end
    end
end.

Definition parseWindowsSnapshot (value : js) (expectedRootPid : Z) : result string Snapshot :=
match record_fields value with
| None => Err invalid
| Some r =>
    match get r "processes", get r "listeners" with
    | Arr processValues, Arr listenerValues =>
        found ← parse_processes expectedRootPid false processValues;
        reject_if (negb found.1) invalid;;
        ls ← parse_listeners listenerValues;
        Ok {| processes := found.2; listeners := ls |}
    | _, _ => Err invalid
    end
end.

Definition valid_process (item : Observation) : bool :=
positive_pid (pid (identity item)) && isAbsoluteExecutable (executable (identity item)) &&
isCanonicalCreationTime (creationTimeUtc (identity item)) && negb (blank (name item)).

Definition valid_listener (item : ListenerObservation) : bool :=
isLoopbackHost (host item) && positive_pid (port item) && (port item <=? 65535) && positive_pid (owningPid item).

(** On a snapshot of its declared type: the type tests hold. *)
Definition assertWindowsAcceptanceScopeSnapshot (value : Snapshot) (expectedRootPid : Z) : result string unit :=
reject_if (negb (forallb valid_process (processes value) && forallb valid_listener (listeners value))) invalid;;
reject_if (negb (existsb (λ item, (pid (identity item) =? expectedRootPid) && valid_process item) (processes value))) invalid.

(** ** The calendar is its own inverse *)

Lemma YearFromDay_spec d : DayFromYear (YearFromDay d) <= d < DayFromYear (YearFromDay d + 1).
Proof.
unfold YearFromDay. set (y := d * 400 / 146097 + 1970).
assert (DayFromYear (y - 1) <= d < DayFromYear (y + 2)) by (unfold DayFromYear, y; Z.div_mod_to_equations; lia).
destruct (d <? DayFromYear y) eqn:H1; [bsimp; replace (y - 1 + 1) with y by lia; lia|].
destruct (DayFromYear (y + 1) <=? d) eqn:H2; bsimp; [replace (y + 1 + 1) with (y + 2) by lia|]; lia.
Qed.

Definition days_in (leap : bool) : Z := if leap then 366 else 365.

Lemma DayFromYear_next y : DayFromYear (y + 1) = DayFromYear y + days_in (InLeapYear y).
Proof.
unfold days_in, InLeapYear, DayFromYear.
destruct (y mod 4 =? 0) eqn:H4, (y mod 100 =? 0) eqn:H100, (y mod 400 =? 0) eqn:H400; cbn; bsimp;
  Z.div_mod_to_equations; lia.
Qed.

Lemma DayWithinYear_bounds d : 0 <= DayWithinYear d < days_in (InLeapYear (YearFromDay d)).
Proof. pose proof (YearFromDay_spec d) as H. rewrite DayFromYear_next in H. unfold DayWithinYear. lia. Qed.

Definition month_ok (leap : bool) (within : Z) : bool :=
let m := month_of leap within 11 in
let date := within - month_start leap m + 1 in
(0 <=? m) && (m <? 12) && (1 <=? date) && (date <=? 31).

Lemma month_of_ok leap within :
0 <= within < days_in leap → month_ok leap within = true.
Proof.
intros Hw.
assert (forallb (λ leap, forallb (λ n, month_ok leap (Z.of_nat n)) (seq 0 (Z.to_nat (days_in leap)))) [true; false]
  = true) as Hall by (by vm_compute).
rewrite forallb_true in Hall. eapply (Forall_forall _ _) with (x := leap) in Hall; [|destruct leap; set_solver].
rewrite forallb_true in Hall.
assert (Z.to_nat within ∈ seq 0 (Z.to_nat (days_in leap))) as Hin by (apply elem_of_seq; lia).
eapply Forall_forall in Hall; [|exact Hin]. cbv beta in Hall. by rewrite Z2Nat.id in Hall by lia.
Qed.

Lemma civil_bounds d : 0 <= MonthFromDay d < 12 ∧ 1 <= DateFromDay d <= 31.
Proof.
unfold DateFromDay, MonthFromDay.
pose proof (month_of_ok (InLeapYear (YearFromDay d)) _ (DayWithinYear_bounds d)) as H.
unfold month_ok in H. bsimp. lia.
Qed.

Lemma MakeDay_civil d : MakeDay (YearFromDay d) (MonthFromDay d) (DateFromDay d) = d.
Proof.
pose proof (civil_bounds d) as [Hm _]. unfold MakeDay.
rewrite (Z.div_small _ 12), (Z.mod_small _ 12), Z.add_0_r by lia. unfold DateFromDay, DayWithinYear. lia.
Qed.

(** ** Printed digits are read back *)

Lemma digit_char_code z : 0 <= z < 10 → code (digit_char z) = 48 + z.
Proof.
intros Hz. unfold digit_char, code.
assert (∀ n, (n < 10)%nat → Z.of_N (N_of_ascii (ascii_of_N (Z.to_N (48 + Z.of_nat n)))) = 48 + Z.of_nat n) as H.
{ intros n Hn. do 10 (destruct n as [|n]; [reflexivity|]). lia. }
specialize (H (Z.to_nat z)). rewrite Z2Nat.id in H by lia. apply H. lia.
Qed.

Lemma digit_char_is_digit z : 0 <= z < 10 → is_digit (digit_char z) = true.
Proof. intros Hz. unfold is_digit. rewrite digit_char_code by done. bsimp. lia. Qed.

Lemma digit_not_space c : is_digit c = true → is_space c = false.
Proof. unfold is_digit, is_space. intros H. bsimp. lia. Qed.

Lemma pad_all (P : ascii → bool) n z :
(∀ c, is_digit c = true → P c = true) → all_chars P (pad n z) = true.
Proof.
intros HP. revert z. induction n as [|n IH]; intros z; [done|]. cbn. rewrite all_chars_app, IH. cbn.
rewrite HP; [done|]. apply digit_char_is_digit. apply Z.mod_pos_bound. lia.
Qed.

Lemma fixed_digits_last n acc s :
fixed_digits (S n) acc s = '(v, t) ← fixed_digits n acc s; fixed_digits 1 v t.
Proof.
revert acc s. induction n as [|n IH]; intros acc s; [done|]. destruct s as [|c s]; [done|].
change (fixed_digits (S (S n)) acc (String c s)) with
  (if is_digit c then fixed_digits (S n) (10 * acc + (code c - 48)) s else None).
change (fixed_digits (S n) acc (String c s)) with
  (if is_digit c then fixed_digits n (10 * acc + (code c - 48)) s else None).
destruct (is_digit c); [|done]. apply IH.
Qed.

Lemma fixed_digits_pad n acc z rest :
0 <= z < 10 ^ Z.of_nat n → fixed_digits n acc (pad n z +:+ rest) = Some (acc * 10 ^ Z.of_nat n + z, rest).
Proof.
revert acc z rest. induction n as [|n IH]; intros acc z rest Hz.
- cbn. f_equal. f_equal. cbn in Hz. lia.
- rewrite fixed_digits_last. cbn [pad]. rewrite <-str_app_assoc.
  assert (Z.of_nat (S n) = Z.of_nat n + 1) as E by lia. rewrite E, Z.pow_add_r in * by lia.
  rewrite IH by (Z.div_mod_to_equations; lia). cbn.
  pose proof (Z.mod_pos_bound z 10 ltac:(lia)).
  rewrite digit_char_is_digit, digit_char_code by lia. f_equal. f_equal. Z.div_mod_to_equations. lia.
Qed.

Lemma two_digits_pad max z rest : 0 <= z <= max → max < 100 → two_digits max (pad 2 z +:+ rest) = Some (z, rest).
Proof.
intros Hz Hmax. unfold two_digits. rewrite fixed_digits_pad by (cbn; lia). cbn.
rewrite Z.mul_0_l, Z.add_0_l. destruct (z <=? max) eqn:H; bsimp; [done|lia].
Qed.

Lemma trim_nonspace s : all_chars (λ c, negb (is_space c)) s = true → trim s = s.
Proof.
intros H. unfold trim. assert (trim_start s = s) as ->.
{ destruct s as [|c s]; [done|]. cbn in *. by destruct (is_space c). }
induction s as [|c s IH]; [done|]. cbn in *. bsimp. destruct H as [Hc Hs]. rewrite (IH Hs).
destruct s; [by rewrite Hc|done].
Qed.

Lemma fraction_pad z rest :
0 <= z < 1000 → fraction ("." +:+ (pad 3 z +:+ String "Z" rest)) = Some (z, String "Z" rest).
Proof.
intros Hz. pose proof (Z.mod_pos_bound z 10 ltac:(lia)).
pose proof (Z.mod_pos_bound (z / 10) 10 ltac:(lia)). pose proof (Z.mod_pos_bound (z / 10 / 10) 10 ltac:(lia)).
cbn -[Z.mul Z.add Z.sub Z.div Z.modulo digit_char code is_digit]. rewrite !digit_char_is_digit by done.
change (is_digit "Z") with false. cbn -[Z.mul Z.add Z.sub Z.div Z.modulo digit_char code]. rewrite !digit_char_code by done.
f_equal. f_equal. Z.div_mod_to_equations. lia.
Qed.

Arguments pad : simpl never.
Arguments fixed_digits : simpl never.
Arguments two_digits : simpl never.
Arguments fraction : simpl never.

Lemma toISOString_parts time :
0 <= YearFromDay (time / msPerDay) <= 9999 →
iso_exec (toISOString time) = Some {|
  iso_year := YearFromDay (time / msPerDay);
  iso_month := MonthFromDay (time / msPerDay) + 1;
  iso_day := DateFromDay (time / msPerDay);
  iso_hour := time mod msPerDay / 3600000;
  iso_minute := time mod msPerDay / 60000 mod 60;
  iso_second := time mod msPerDay / 1000 mod 60;
  iso_milliseconds := time mod msPerDay mod 1000;
  iso_offset := 0 |}.
Proof.
intros Hy. unfold iso_exec, toISOString, show_year.
assert ((0 <=? YearFromDay (time / msPerDay)) && (YearFromDay (time / msPerDay) <=? 9999) = true) as Hb by (bsimp; lia).
rewrite Hb. revert Hb.
pose proof (civil_bounds (time / msPerDay)) as [Hm Hd].
assert (0 <= time mod msPerDay < 86400000) as Ht by (apply Z.mod_pos_bound; unfold msPerDay; lia).
generalize dependent (time mod msPerDay). intros t Ht.
generalize dependent (YearFromDay (time / msPerDay)). generalize dependent (MonthFromDay (time / msPerDay)).
generalize dependent (DateFromDay (time / msPerDay)). intros d Hd m Hm y Hy Hb.
assert (0 <= t / 3600000 <= 23) by (clear - Ht; Z.div_mod_to_equations; lia).
pose proof (Z.mod_pos_bound (t / 60000) 60 ltac:(lia)).
pose proof (Z.mod_pos_bound (t / 1000) 60 ltac:(lia)).
rewrite fixed_digits_pad by (cbn; lia). cbn.
rewrite fixed_digits_pad by (cbn; lia). cbn.
rewrite fixed_digits_pad by (cbn; lia). cbn.
rewrite two_digits_pad by lia. cbn.
rewrite two_digits_pad by lia. cbn.
rewrite two_digits_pad by lia. cbn.
change (String "." (pad 3 (t mod 1000) +:+ "Z")) with ("." +:+ (pad 3 (t mod 1000) +:+ "Z")).
rewrite fraction_pad by (apply Z.mod_pos_bound; lia). done.
Qed.

Lemma time_parts time :
time / msPerDay * msPerDay + MakeTime (time mod msPerDay / 3600000) (time mod msPerDay / 60000 mod 60)
  (time mod msPerDay / 1000 mod 60) (time mod msPerDay mod 1000) = time.
Proof.
unfold MakeTime. rewrite (Z_div_mod_eq_full time msPerDay) at 6.
assert (0 <= time mod msPerDay < msPerDay) by (by apply Z.mod_pos_bound).
generalize dependent (time mod msPerDay). intros t Ht. Z.div_mod_to_equations. lia.
Qed.

(** ** Canonical creation times *)

(** Years outside 0 to 9999 are printed with a sign. *)
Definition expanded_year (s : string) : bool := starts_with "+" s || starts_with "-" s.

Lemma trim_end_idem s : trim_end (trim_end s) = trim_end s.
Proof.
induction s as [|c s IH]; [done|]. cbn -[is_space]. destruct (trim_end s) as [|c' t] eqn:E.
- destruct (is_space c) eqn:Hc; [done|]. cbn -[is_space]. by rewrite Hc.
- change (trim_end (String c (String c' t))) with
    (match trim_end (String c' t) with "" => if is_space c then "" else String c "" | u => String c u end).
  by rewrite IH.
Qed.

Lemma trim_trim s : trim (trim s) = trim s.
Proof.
unfold trim. assert (∀ t, trim_start (trim_end (trim_start t)) = trim_end (trim_start t)) as ->.
{ induction t as [|c t IH]; [done|]. cbn -[is_space]. destruct (is_space c) eqn:Hc; [exact IH|]. cbn -[is_space].
  rewrite Hc. destruct (trim_end t) eqn:E; cbn -[is_space]; by rewrite Hc. }
apply trim_end_idem.
Qed.

Lemma expanded_year_show y rest : expanded_year (show_year y +:+ rest) = false → 0 <= y <= 9999.
Proof.
unfold show_year. destruct (_ && _) eqn:Hb; [bsimp; lia|].
destruct (y <? 0); cbn; by rewrite ?orb_true_r.
Qed.

Lemma pad_cons n z rest : ∃ c t, pad (S n) z +:+ rest = String c t ∧ is_digit c = true.
Proof.
revert z rest. induction n as [|n IH]; intros z rest.
- eexists _, _. split; [reflexivity|]. apply digit_char_is_digit, Z.mod_pos_bound. lia.
- change (pad (S (S n)) z) with (pad (S n) (z / 10) +:+ String (digit_char (z mod 10)) "").
  rewrite <-str_app_assoc. apply IH.
Qed.

Lemma toISOString_chars time :
0 <= YearFromDay (time / msPerDay) <= 9999 →
all_chars (λ c, negb (is_space c)) (toISOString time) = true ∧ windows_date_exec (toISOString time) = None.
Proof.
intros Hy. unfold toISOString, show_year.
assert ((0 <=? YearFromDay (time / msPerDay)) && (YearFromDay (time / msPerDay) <=? 9999) = true) as Hb by (bsimp; lia).
rewrite Hb. split.
- assert (∀ n z, all_chars (λ c, negb (is_space c)) (pad n z) = true) as Hpad.
  { intros n z. apply pad_all. intros c Hc. by rewrite digit_not_space. }
  rewrite !all_chars_app, !Hpad. done.
- destruct (pad_cons 3 (YearFromDay (time / msPerDay))
    ("-" +:+ pad 2 (MonthFromDay (time / msPerDay) + 1) +:+ "-" +:+ pad 2 (DateFromDay (time / msPerDay))
     +:+ "T" +:+ pad 2 (time mod msPerDay / 3600000) +:+ ":" +:+ pad 2 (time mod msPerDay / 60000 mod 60) +:+ ":"
     +:+ pad 2 (time mod msPerDay / 1000 mod 60) +:+ "." +:+ pad 3 (time mod msPerDay mod 1000) +:+ "Z")) as (c & t & E & Hc).
  cbv zeta. rewrite E. unfold windows_date_exec.
  change (starts_with "/Date(" (String c t)) with (Ascii.eqb "/" c && starts_with "Date(" t).
  destruct (Ascii.eqb_spec "/" c) as [<-|]; [discriminate Hc|done].
Qed.

Lemma toISOString_stable time :
TimeClip time = true → 0 <= YearFromDay (time / msPerDay) <= 9999 →
canonicalCreationTime (Str (toISOString time)) = Some (toISOString time).
Proof.
intros Hclip Hy. destruct (toISOString_chars time Hy) as [Hchars Hdate].
unfold canonicalCreationTime. rewrite (trim_nonspace _ Hchars), Hdate, (toISOString_parts _ Hy).
unfold canonical_iso. cbn [iso_year iso_month iso_day iso_hour iso_minute iso_second iso_milliseconds iso_offset].
rewrite !Z.add_simpl_r, MakeDay_civil, !Z.eqb_refl. cbn.
by rewrite time_parts, Z.sub_0_r, Hclip.
Qed.

Lemma canonicalCreationTime_idem value c :
canonicalCreationTime value = Some c → expanded_year c = false → canonicalCreationTime (Str c) = Some c.
Proof.
destruct value as [| | | |s| |]; try discriminate. cbn. intros Hc He.
assert (∀ time, TimeClip time = true → c = toISOString time → canonicalCreationTime (Str c) = Some c) as Hiso.
{ intros time Hclip ->. apply toISOString_stable; [done|]. by eapply expanded_year_show. }
destruct (windows_date_exec (trim s)) as [ms|] eqn:Hw.
{ destruct (_ && _) eqn:Hb in Hc; [|done]. bsimp. destruct Hb as [_ Hclip]. by eapply Hiso; [|simplify_eq]. }
destruct (iso_exec (trim s)) as [m|] eqn:Hm.
{ unfold canonical_iso in Hc. destruct (_ && _) in Hc; [|done]. destruct (TimeClip _) eqn:Hclip in Hc; [|done].
  by eapply Hiso; [|simplify_eq]. }
destruct (dmtf_test (trim s)) eqn:Hd; [|done]. injection Hc as <-. cbn. by rewrite trim_trim, Hw, Hm, Hd.
Qed.

(** A creation time that has been brought into canonical form is left as it
is: the second reading gives back the same text (as long as its year needs no
sign). *)
Lemma canonical_creation_time_is_stable value c :
canonicalCreationTime value = Some c → expanded_year c = false → canonicalCreationTime (Str c) = Some c.
Proof. apply canonicalCreationTime_idem. Qed.

Lemma canonical_creation_time_is_stable_witness :
canonicalCreationTime (Str "2024-02-29T12:34:56.789Z") = Some "2024-02-29T12:34:56.789Z".
Proof.
apply (canonical_creation_time_is_stable (Str " 2024-03-01T00:04:56.789+11:30 ")); vm_compute; reflexivity.
Defined.

(** ** Parsed snapshots *)

Lemma asPositivePid_Some v z : asPositivePid v = Some z → positive_pid z = true.
Proof.
destruct v; try discriminate. intros (y & _ & Hy)%bind_Some. unfold positive_pid. destruct (_ && _) eqn:E in Hy; by simplify_eq.
Qed.

Lemma trimmed_text_trim v : trim (trimmed_text v) = trimmed_text v.
Proof. destruct v; cbn; [done..|apply trim_trim|done|done]. Qed.

Lemma parseProcessObservation_valid item o :
parseProcessObservation item = Some o → expanded_year (creationTimeUtc (identity o)) = false →
valid_process o = true ∧ asPositivePid (get item "ProcessId") = Some (pid (identity o)).
Proof.
intros (p & Hp & (c & Hc & H)%bind_Some)%bind_Some He.
destruct (_ || _) eqn:Hb in H; [done|]. simplify_eq. cbn in He. rewrite !orb_false_iff in Hb.
destruct Hb as [[_ Hn] Ha]. apply negb_false_iff in Ha. split; [|done].
unfold valid_process, isCanonicalCreationTime, blank. cbn [identity pid executable creationTimeUtc name].
rewrite (asPositivePid_Some _ _ Hp), Ha, trimmed_text_trim, Hn. bsimp. split_and!; try done.
by eapply canonicalCreationTime_idem.
Qed.

(** No creation time with a signed year. *)
Definition plain_years (l : list Observation) : Prop :=
Forall (λ o, expanded_year (creationTimeUtc (identity o)) = false) l.

Lemma parse_processes_valid root found values r :
parse_processes root found values = Ok r → plain_years r.2 →
Forall (λ o, valid_process o = true) r.2 ∧
(r.1 = true → found = true ∨ Exists (λ o, pid (identity o) = root) r.2).
Proof.
revert found r. induction values as [|v values IH]; intros found r; cbn.
- intros [= <-] _. split; [constructor|]. auto.
- destruct (record_fields v) as [item|]; [|apply IH].
  destruct (_ && _); [done|]. destruct (_ && negb _) eqn:Hroot; [done|].
  intros ([f os] & Hrest & [= <-])%bind_Ok. cbn. intros Hyears.
  assert (plain_years os) as Hos by (destruct (parseProcessObservation item); [by inversion Hyears|done]).
  destruct (IH _ _ Hrest Hos) as [Hall Hfound]. cbn in Hall, Hfound.
  destruct (parseProcessObservation item) as [o|] eqn:Ho.
  + apply Forall_cons in Hyears as [Hy _].
    destruct (parseProcessObservation_valid _ _ Ho Hy) as [Hv Hp]. split; [by constructor|].
    intros Hf. destruct (Hfound Hf) as [[|Hr]%orb_true_iff|]; [by left| |by right; right].
    right. left. bsimp. congruence.
  + split; [done|]. intros Hf. destruct (Hfound Hf) as [[|Hr]%orb_true_iff|]; [by left| |by right].
    rewrite Hr in Hroot. by rewrite bool_decide_eq_false_2 in Hroot by (by intros [? ?]).
Qed.

Arguments isLoopbackHost : simpl never.

Lemma parse_listeners_valid values ls :
parse_listeners values = Ok ls → Forall (λ l, valid_listener l = true) ls.
Proof.
revert ls. induction values as [|v values IH]; intros ls; cbn; [by intros [= <-]|].
destruct (record_fields v) as [item|]; [|done]. destruct (String.eqb _ _); [done|].
destruct (asPositivePid (get item "LocalPort")) as [port|] eqn:Hp; [|done].
destruct (asPositivePid (get item "OwningProcess")) as [owner|] eqn:Hw; [|done].
destruct (65535 <? port) eqn:Hmax; [done|]. intros (rest & Hrest & [= <-])%bind_Ok.
apply IH in Hrest. destruct (isLoopbackHost (trimmed_text (get item "LocalAddress"))) eqn:Hl; [|done]. constructor; [|done].
unfold valid_listener. cbn. rewrite Hl, (asPositivePid_Some _ _ Hp), (asPositivePid_Some _ _ Hw). bsimp. split_and!; done || lia.
Qed.

(** What the operating system query is parsed into passes the scope owner's
own check of snapshots: the root process is in it, every process has a positive
number, an absolute program, a canonical creation time and a name, and every
listener is a loopback one within the port range. *)
Lemma parsed_snapshot_is_accepted value root snapshot :
parseWindowsSnapshot value root = Ok snapshot → plain_years (processes snapshot) →
assertWindowsAcceptanceScopeSnapshot snapshot root = Ok tt.
Proof.
unfold parseWindowsSnapshot. destruct (record_fields value) as [r|]; [|done].
destruct (get r "processes") as [| | | | |ps|]; try discriminate.
destruct (get r "listeners") as [| | | | |ls|]; try discriminate.
intros ([found os] & Hps & ([] & Hf & (l & Hl & [= <-])%bind_Ok)%bind_Ok)%bind_Ok. cbn. intros Hyears.
destruct (parse_processes_valid _ _ _ _ Hps Hyears) as [Hall Hroot]. cbn in Hall, Hroot.
apply parse_listeners_valid in Hl. apply reject_if_Ok, negb_false_iff in Hf.
unfold assertWindowsAcceptanceScopeSnapshot. cbn.
rewrite (proj2 (forallb_true valid_process os) Hall), (proj2 (forallb_true valid_listener l) Hl). cbn.
destruct (Hroot Hf) as [|[o [Ho Hp]]%Exists_exists]; [done|].
rewrite (proj2 (existsb_true _ os)); [done|]. exists o. split; [done|].
rewrite Forall_forall in Hall. rewrite (Hall o Ho). bsimp. auto.
Qed.

Definition sample_query : js := Obj [
  ("processes", Arr [Obj [("ProcessId", js_Z 100); ("ParentProcessId", js_Z 4); ("Name", Str "node.exe");
     ("ExecutablePath", Str "C:\node\node.exe"); ("CreationDate", Str "/Date(1709210096789)/"); ("CommandLine", Null)]]);
  ("listeners", Arr [
     Obj [("LocalAddress", Str "127.0.0.1"); ("LocalPort", js_Z 9222); ("OwningProcess", js_Z 100)];
     Obj [("LocalAddress", Str "0.0.0.0"); ("LocalPort", js_Z 80); ("OwningProcess", js_Z 100)]])].

Lemma parsed_snapshot_is_accepted_witness :
∃ snapshot, parseWindowsSnapshot sample_query 100 = Ok snapshot ∧ length (listeners snapshot) = 1%nat ∧
  assertWindowsAcceptanceScopeSnapshot snapshot 100 = Ok tt.
Proof.
destruct (parseWindowsSnapshot sample_query 100) as [snapshot|] eqn:E; [|by vm_compute in E].
assert (length (listeners snapshot) = 1%nat ∧ plain_years (processes snapshot)) as [Hl Hy].
{ vm_compute in E. injection E as <-. split; [done|]. repeat constructor. }
exists snapshot. split; [done|]. split; [done|]. by apply (parsed_snapshot_is_accepted sample_query).
Defined.
