(* ===== verification/StableSort.v ===== *)
(** * Sorting by a numeric key

    [list.sort((left, right) => key(left) - key(right))], which is stable: items
    of the same key stay in place. *)

From S2P Require Import Prelude.

(** [list.sort((left, right) => key(left) - key(right))]: stable. *)
Section sort_by.
Context {A : Type} (key : A → Z).

Fixpoint insert_by (x : A) (l : list A) : list A :=
match l with [] => [x] | y :: l' => if key x <=? key y then x :: l else y :: insert_by x l' end.
Definition sort_by (l : list A) : list A := fold_right insert_by [] l.

Lemma insert_by_perm x l : insert_by x l ≡ₚ x :: l.
Proof.
induction l as [|y l IH]; cbn; [done|]. destruct (_ <=? _); [done|]. rewrite IH. apply Permutation_swap.
Qed.

Lemma sort_by_perm l : sort_by l ≡ₚ l.
Proof. induction l as [|x l IH]; cbn; [done|]. by rewrite insert_by_perm, IH. Qed.

Lemma insert_by_sorted x l :
StronglySorted (λ x y, key x <= key y) l → StronglySorted (λ x y, key x <= key y) (insert_by x l).
Proof.
induction 1 as [|y k Hs IH Hall]; cbn; [repeat constructor|]. destruct (key x <=? key y) eqn:H; bsimp.
- constructor; [by constructor|]. constructor; [done|]. eapply Forall_impl; [exact Hall|]. cbn. lia.
- constructor; [done|]. rewrite insert_by_perm. constructor; [lia|done].
Qed.

Lemma sort_by_sorted l : StronglySorted (λ x y, key x <= key y) (sort_by l).
Proof. induction l as [|x l IH]; cbn; [constructor|by apply insert_by_sorted]. Qed.
End sort_by.

