(* ===== verification/ScopeProcesses.v ===== *)
(** * The processes of an acceptance scope

    [src/apps/capture-workbench-desktop/scripts/acceptance-scope.ts], the
    functions from [normalizePath] to [processIdentity]: which observed process
    is what, and the descendants of a process.  The search for descendants
    follows parent numbers, which may form cycles, so it runs on fuel; the
    theorem says that the fuel is enough and the result exact. *)

From stdpp Require Import gmap relations.
From S2P Require Import Prelude JsString JsNum JsValue ScopeLock WindowsProbe StableSort.

Definition pid_of (p : Observation) : Z := pid (identity p).

(** ** Kinds of processes *)

Definition ends_with (t s : string) : bool :=
String.eqb (drop_str (String.length s - String.length t) s) t.

(** [s.includes(t)] *)
Fixpoint has_substring (t s : string) : bool :=
starts_with t s || match s with String _ s' => has_substring t s' | EmptyString => false end.

Definition BASELINE_PROCESS_NAMES : list string := ["ollama.exe"; "ollama_llama_server.exe"; "capture-runtime.exe"].

Section kinds.
(** [basename] of [node:path], whose separators depend on the platform. *)
Variable basename : string → string.

Definition program_name (p : Observation) : string := lower (basename (executable (identity p))).

Definition isWebViewProcess (p : Observation) : bool :=
String.eqb (lower (name p)) "msedgewebview2.exe" || String.eqb (program_name p) "msedgewebview2.exe".

Definition isRuntimeProcess (p : Observation) : bool :=
has_substring "capture-runtime" (lower (name p)) ||
has_substring "capture-runtime" (lower (executable (identity p))) ||
has_substring "capture-runtime" (lower (default "" (commandLine p))).

Definition isDesktopProcess (p : Observation) : bool :=
String.eqb (lower (name p)) "capture-workbench-desktop.exe" ||
String.eqb (program_name p) "capture-workbench-desktop.exe".

Definition isModelProcess (p : Observation) : bool :=
let name := lower (name p) in
let executable := lower (executable (identity p)) in
String.eqb name "ollama.exe" || String.eqb name "ollama_llama_server.exe" ||
ends_with "/ollama.exe" executable || ends_with "/ollama_llama_server.exe" executable.

Definition isBaselineProcess (p : Observation) : bool :=
includes BASELINE_PROCESS_NAMES (lower (name p)) || includes BASELINE_PROCESS_NAMES (program_name p).
End kinds.

(** ** Identities *)

Definition identityKey (i : AcceptanceProcessIdentity) : string :=
join "|" [show_Z (pid i); trim (creationTimeUtc i); normalizePath (executable i)].

Definition processIdentity (p : option Observation) : option AcceptanceProcessIdentity :=
p ← p;
if positive_pid (pid (identity p)) && negb (blank (creationTimeUtc (identity p))) && isAbsoluteExecutable (executable (identity p))
then Some (identity p) else None.

(** ** Descendants *)

Definition byParent (processes : list Observation) : gmap Z (list Observation) :=
fold_left (λ m p, match parentPid p with
                  | None => m
                  | Some parent => <[parent := default [] (m !! parent) ++ [p]]> m
                  end) processes ∅.

(** The state of the search: [seen], [found] and [pending]. *)
Record search_state := { seen : gset Z; found : list Observation; pending : list Z }.

(** The inner loop over the children of one process. *)
Fixpoint visit (children : list Observation) (st : search_state) : search_state :=
match children with
| [] => st
| child :: rest =>
    if decide (pid_of child ∈ seen st) then visit rest st
    else visit rest {| seen := {[pid_of child]} ∪ seen st; found := found st ++ [child];
                       pending := pending st ++ [pid_of child] |}
end.

(** The outer loop; [None] when the fuel runs out. *)
Fixpoint search (fuel : nat) (m : gmap Z (list Observation)) (st : search_state) : option (list Observation) :=
match pending st with
| [] => Some (found st)
| parent :: rest =>
    match fuel with
    | O => None
    | S fuel' =>
        search fuel' m (visit (default [] (m !! parent)) {| seen := seen st; found := found st; pending := rest |})
    end
end.

Definition search_start (rootPid : Z) : search_state := {| seen := {[rootPid]}; found := []; pending := [rootPid] |}.

Definition descendantsOf_fuel (fuel : nat) (processes : list Observation) (rootPid : Z) : option (list Observation) :=
sort_by pid_of <$> search fuel (byParent processes) (search_start rootPid).

(** Every process is queued at most once, the root too. *)
Definition descendantsOf (processes : list Observation) (rootPid : Z) : list Observation :=
default [] (descendantsOf_fuel (S (length processes)) processes rootPid).

(** ** Parents and children *)

(** [b] was observed with the parent number [a]. *)
Definition child (processes : list Observation) (a b : Z) : Prop :=
∃ p, p ∈ processes ∧ parentPid p = Some a ∧ pid_of p = b.

Definition children (processes : list Observation) (parent : Z) : list Observation :=
List.filter (λ p, bool_decide (parentPid p = Some parent)) processes.

Lemma children_spec processes parent p : p ∈ children processes parent ↔ p ∈ processes ∧ parentPid p = Some parent.
Proof.
unfold children. rewrite list_elem_of_In, filter_In, <-list_elem_of_In. by rewrite bool_decide_eq_true.
Qed.

Lemma byParent_lookup processes parent : default [] (byParent processes !! parent) = children processes parent.
Proof.
unfold byParent, children. induction processes as [|p l IH] using rev_ind; [done|].
rewrite fold_left_app, List.filter_app, <-IH. cbn.
destruct (parentPid p) as [q|] eqn:Hq; cbn.
- destruct (decide (q = parent)) as [->|Hne].
  + by rewrite lookup_insert_eq, bool_decide_eq_true_2.
  + rewrite lookup_insert_ne by done. rewrite bool_decide_eq_false_2 by congruence. by rewrite app_nil_r.
- by rewrite app_nil_r.
Qed.

Lemma visit_spec cs st :
∃ new,
  found (visit cs st) = found st ++ new ∧ pending (visit cs st) = pending st ++ map pid_of new ∧
  (∀ q, q ∈ seen (visit cs st) ↔ q ∈ seen st ∨ q ∈ map pid_of new) ∧
  new ⊆ cs ∧ NoDup (map pid_of new) ∧ (∀ q, q ∈ map pid_of new → q ∉ seen st) ∧
  (∀ c, c ∈ cs → pid_of c ∈ seen (visit cs st)).
Proof.
revert st. induction cs as [|c cs IH]; intros st; cbn.
- exists []. rewrite !app_nil_r. split_and!; try done; try set_solver. constructor.
- destruct (decide _) as [Hin|Hnin].
  + destruct (IH st) as (new & Hf & Hp & Hs & Hsub & Hnd & Hfresh & Hall). exists new.
    split_and!; try done; [set_solver|]. intros d [->|Hd]%elem_of_cons; [apply Hs; by left|auto].
  + destruct (IH {| seen := {[pid_of c]} ∪ seen st; found := found st ++ [c]; pending := pending st ++ [pid_of c] |})
      as (new & Hf & Hp & Hs & Hsub & Hnd & Hfresh & Hall). cbn in *. exists (c :: new).
    rewrite Hf, Hp, <-!app_assoc. split_and!; try done.
    * intros q. rewrite Hs. cbn. rewrite elem_of_cons. set_solver.
    * set_solver.
    * cbn. constructor; [|done]. intros H. apply (Hfresh _ H). set_solver.
    * cbn. intros q [->|Hq]%elem_of_cons; [done|]. specialize (Hfresh q Hq). set_solver.
    * intros d [->|Hd]%elem_of_cons; [apply Hs; left; set_solver|auto].
Qed.

Section search.
Context (processes : list Observation) (root : Z).

Record search_inv (st : search_state) : Prop := {
search_seen q : q ∈ seen st ↔ q = root ∨ q ∈ map pid_of (found st);
search_nodup : NoDup (root :: map pid_of (found st));
search_pending q : q ∈ pending st → q ∈ seen st;
search_observed : found st ⊆ processes;
search_reached q : q ∈ seen st → rtc (child processes) root q;
search_closed a b : a ∈ seen st → a ∉ pending st → child processes a b → b ∈ seen st;
}.

Lemma search_inv_start : search_inv (search_start root).
Proof.
split; cbn; try set_solver.
repeat constructor. set_solver.
Qed.

(** Each iteration takes one process off the queue and queues as many as it finds. *)
Definition work (st : search_state) : nat := (length (pending st) + (length processes - length (found st)))%nat.

Lemma search_inv_bound st : search_inv st → (length (found st) <= length processes)%nat.
Proof.
intros Hinv. pose proof (search_nodup _ Hinv) as [_ Hnd]%NoDup_cons.
rewrite <-(length_map pid_of (found st)), <-(length_map pid_of processes).
apply submseteq_length, NoDup_submseteq; [done|].
intros q (p & -> & Hp)%list_elem_of_fmap. apply list_elem_of_fmap. exists p. split; [done|]. by apply Hinv.
Qed.

Lemma search_inv_step st parent rest :
search_inv st → pending st = parent :: rest →
let st' := visit (children processes parent) {| seen := seen st; found := found st; pending := rest |} in
search_inv st' ∧ (work st' < work st)%nat.
Proof.
intros Hinv Hpend.
destruct (visit_spec (children processes parent) {| seen := seen st; found := found st; pending := rest |})
as (new & Hf & Hp & Hs & Hsub & Hnd & Hfresh & Hall). cbn in *.
set (st' := visit _ _) in *.
assert (search_inv st') as Hinv'.
{ split.
- intros q. rewrite Hs, Hf, map_app, elem_of_app, (search_seen _ Hinv). tauto.
- rewrite Hf, map_app, app_comm_cons. apply NoDup_app. split_and!; [apply Hinv| |done].
  intros q Hq Hn. apply (Hfresh q Hn), (search_seen _ Hinv). set_solver.
- intros q. rewrite Hp, elem_of_app, Hs. intros [Hq|Hq]; [left|by right]. apply (search_pending _ Hinv). rewrite Hpend. set_solver.
- rewrite Hf. intros p [Hin|Hin]%elem_of_app; [by apply Hinv|]. apply Hsub, children_spec in Hin. tauto.
- intros q [Hq|Hq]%Hs; [by apply (search_reached _ Hinv)|]. apply list_elem_of_fmap in Hq as (p & -> & Hq).
  apply Hsub, children_spec in Hq as [Hq Hparent]. apply rtc_r with parent.
  + apply (search_reached _ Hinv), (search_pending _ Hinv). rewrite Hpend. set_solver.
  + by exists p.
- intros a b [Ha|Ha]%Hs Hna Hc; [|destruct Hna; rewrite Hp; set_solver].
  destruct (decide (a = parent)) as [->|Hne].
  + destruct Hc as (p & Hin & Hparent & <-). apply Hall, children_spec. auto.
  + apply Hs. left. eapply search_closed; [done|exact Ha| |exact Hc]. rewrite Hpend. rewrite Hp in Hna. set_solver. }
split; [done|]. pose proof (search_inv_bound _ Hinv') as Hb. unfold work.
rewrite Hf, length_app in *. rewrite Hp, Hpend, length_app, length_map. cbn. lia.
Qed.

Lemma search_ends fuel st :
search_inv st → (work st <= fuel)%nat →
∃ st', search fuel (byParent processes) st = Some (found st') ∧ search_inv st' ∧ pending st' = [].
Proof.
revert st. induction fuel as [|fuel IH]; intros st Hinv Hw.
- destruct (pending st) as [|x l] eqn:Hp; [|unfold work in Hw; rewrite Hp in Hw; cbn in Hw; lia].
exists st. cbn. by rewrite Hp.
- cbn. destruct (pending st) as [|parent rest] eqn:Hp; [by exists st|]. rewrite byParent_lookup.
destruct (search_inv_step st parent rest Hinv Hp) as [Hinv' Hlt]. apply IH; [done|]. lia.
Qed.

Lemma search_result st q :
search_inv st → pending st = [] → q ∈ map pid_of (found st) ↔ q ≠ root ∧ rtc (child processes) root q.
Proof.
intros Hinv Hp. pose proof (search_nodup _ Hinv) as [Hroot _]%NoDup_cons. split.
- intros Hq. split; [by intros ->|]. apply (search_reached _ Hinv), (search_seen _ Hinv). by right.
- intros [Hne Hr]. assert (q ∈ seen st) as Hseen.
{ clear Hne. revert q Hr. apply (rtc_ind_r (λ q, q ∈ seen st)); [apply (search_seen _ Hinv); by left|].
  intros a b _ Hc Ha. eapply search_closed; [done|exact Ha|rewrite Hp; set_solver|exact Hc]. }
apply (search_seen _ Hinv) in Hseen as [|]; done.
Qed.

Lemma descendantsOf_fuel_spec fuel :
(length processes < fuel)%nat →
∃ ds, descendantsOf_fuel fuel processes root = Some ds ∧
(∀ q, q ∈ map pid_of ds ↔ q ≠ root ∧ rtc (child processes) root q) ∧
NoDup (map pid_of ds) ∧ ds ⊆ processes ∧ StronglySorted (λ a b, pid_of a <= pid_of b) ds.
Proof.
intros Hfuel. destruct (search_ends fuel _ search_inv_start) as (st & Hs & Hinv & Hp).
{ unfold work. cbn. lia. }
exists (sort_by pid_of (found st)). unfold descendantsOf_fuel. rewrite Hs. split_and!; [done| | | |].
- intros q. rewrite (sort_by_perm pid_of). by apply search_result.
- rewrite (sort_by_perm pid_of). pose proof (search_nodup _ Hinv) as Hnd. by apply NoDup_cons in Hnd as [_ ?].
- intros p. rewrite (sort_by_perm pid_of). by apply Hinv.
- apply sort_by_sorted.
Qed.
End search.

Lemma search_more_fuel fuel fuel' m st r :
search fuel m st = Some r → (fuel <= fuel')%nat → search fuel' m st = Some r.
Proof.
revert fuel' st. induction fuel as [|fuel IH]; intros fuel' st; cbn.
- intros Hs _. destruct fuel'; cbn; by destruct (pending st).
- intros Hs Hle. destruct fuel' as [|fuel']; [lia|]. cbn. destruct (pending st); [done|]. apply IH; [done|lia].
Qed.

Lemma descendantsOf_more_fuel processes root fuel ds :
descendantsOf_fuel (S (length processes)) processes root = Some ds →
(length processes < fuel)%nat → descendantsOf_fuel fuel processes root = Some ds.
Proof.
unfold descendantsOf_fuel. intros (r & Hr & ->)%fmap_Some Hf. by rewrite (search_more_fuel _ fuel _ _ _ Hr) by lia.
Qed.

Lemma descendantsOf_spec processes root p :
p ∈ descendantsOf processes root → p ∈ processes ∧ pid_of p ≠ root ∧ rtc (child processes) root (pid_of p).
Proof.
destruct (descendantsOf_fuel_spec processes root (S (length processes))) as (ds & Hds & Hq & _ & Hsub & _); [lia|].
unfold descendantsOf. rewrite Hds. cbn. intros Hp. split; [by apply Hsub|]. apply Hq, list_elem_of_fmap. by exists p.
Qed.

(** C15: The search for the descendants of a process ends, whatever cycles the
parent numbers form: with more fuel than there are processes it gives exactly
the processes other than the root that are reached from it by parent links,
each number once, in ascending order. *)
Theorem descendants_are_exact processes root fuel :
(length processes < fuel)%nat →
descendantsOf_fuel fuel processes root = Some (descendantsOf processes root) ∧
(∀ q, q ∈ map pid_of (descendantsOf processes root) ↔ q ≠ root ∧ rtc (child processes) root q) ∧
NoDup (map pid_of (descendantsOf processes root)) ∧
StronglySorted (λ a b, pid_of a <= pid_of b) (descendantsOf processes root).
Proof.
intros Hfuel. destruct (descendantsOf_fuel_spec processes root (S (length processes))) as (ds & Hds & Hq & Hnd & _ & Hsort); [lia|].
assert (descendantsOf processes root = ds) as -> by (unfold descendantsOf; by rewrite Hds).
split_and!; [|done..]. by eapply descendantsOf_more_fuel.
Qed.

(** A process whose parent chain is a cycle through the root. *)
Definition cyclic_processes : list Observation :=
map (λ '(p, parent), {| identity := {| pid := p; creationTimeUtc := "t"; executable := "/p" |};
                        parentPid := Some parent; name := "p"; commandLine := None |})
[(7, 3); (3, 7); (5, 3); (9, 8); (4, 7)].

Example cyclic_descendants : map pid_of (descendantsOf cyclic_processes 3) = [4; 5; 7].
Proof. by vm_compute. Qed.

Lemma descendants_are_exact_witness :
rtc (child cyclic_processes) 3 4 ∧ ¬ rtc (child cyclic_processes) 3 9.
Proof.
destruct (descendants_are_exact cyclic_processes 3 6) as (_ & Hq & _); [by vm_compute; lia|].
assert (map pid_of (descendantsOf cyclic_processes 3) = [4; 5; 7]) as E by by vm_compute.
split.
- apply (Hq 4). rewrite E. set_solver.
- intros Hr. assert (9 ∈ [4; 5; 7]) as Hin; [|set_solver]. rewrite <-E. by apply Hq.
Defined.
