(* ===== verification/ScopeOwner.v ===== *)
(** * The owner of an acceptance scope

    [src/apps/capture-workbench-desktop/scripts/acceptance-scope.ts], class
    [CaptureAcceptanceScopeOwner] and [patchCaptureAcceptanceScopePaths], with the
    scope contract and the artifact binding of [src/tools/three-project-acceptance.ts].
    A method takes the outcomes of its waits ([lease]) and gives the owner's new
    state, what it wrote to the scope file, and its result.  What one method does
    while it holds the lock is also an operation of [ScopeLock], so that the
    last theorem runs the methods of any number of owners concurrently. *)

From stdpp Require Import functions relations.
From S2P Require Import Prelude JsString JsNum JsValue Json JsCoerce Stringify CanonicalJson ScopeLock WindowsProbe StableSort ScopeProcesses.

(** ** Data *)

Inductive process_role : Type := RootRole | AppRole | SessionRole | SidecarRole | ModelRole.
Inductive listener_role : Type := CdpListener | RuntimeListener | ModelListener.

#[export] Instance process_role_eq_dec : EqDecision process_role.
Proof. solve_decision. Defined.
#[export] Instance listener_role_eq_dec : EqDecision listener_role.
Proof. solve_decision. Defined.

Definition PROCESS_ROLES : list process_role := [RootRole; AppRole; SessionRole; SidecarRole; ModelRole].
Definition LISTENER_ROLES : list listener_role := [CdpListener; RuntimeListener; ModelListener].

Definition process_role_name (r : process_role) : string :=
match r with
| RootRole => "root" | AppRole => "app" | SessionRole => "session" | SidecarRole => "sidecar" | ModelRole => "model"
end.
Definition listener_role_name (r : listener_role) : string :=
match r with CdpListener => "cdp" | RuntimeListener => "runtime" | ModelListener => "model" end.

Record owned_process := { owned : AcceptanceProcessIdentity; role : process_role; runId : string; artifactId : string }.

Record owned_listener := {
  owned_host : string; owned_port : Z; listener_role_of : listener_role;
  listener_runId : string; listener_artifactId : string;
  listener_owner : owned_process;
}.

Record AcceptanceScopePaths := { modelPaths : list string; appDataPaths : list string; sessionPaths : list string }.

(** [PATH_KINDS.every((kind) => paths[kind].length > 0)] *)
Definition hasPaths (p : AcceptanceScopePaths) : bool :=
negb (bool_decide (modelPaths p = [])) && negb (bool_decide (appDataPaths p = [])) && negb (bool_decide (sessionPaths p = [])).

(** The private fields of the class that change. *)
Record owner_state := {
  paths : AcceptanceScopePaths;
  pathsReady : bool;
  launchPid : option Z;
  appPid : option Z;
  launchAttempted : bool;
  baselineProcessRecords : list AcceptanceProcessIdentity;
  processRecords : process_role → list owned_process;
  listenerRecords : listener_role → list owned_listener;
  prepared : bool;
  observationAvailable : bool;
}.

Definition set_paths (p : AcceptanceScopePaths) (ready : bool) (o : owner_state) : owner_state :=
{| paths := p; pathsReady := ready; launchPid := launchPid o; appPid := appPid o; launchAttempted := launchAttempted o;
   baselineProcessRecords := baselineProcessRecords o; processRecords := processRecords o;
   listenerRecords := listenerRecords o; prepared := prepared o; observationAvailable := observationAvailable o |}.

Definition set_appPid (p : option Z) (o : owner_state) : owner_state :=
{| paths := paths o; pathsReady := pathsReady o; launchPid := launchPid o; appPid := p; launchAttempted := launchAttempted o;
   baselineProcessRecords := baselineProcessRecords o; processRecords := processRecords o;
   listenerRecords := listenerRecords o; prepared := prepared o; observationAvailable := observationAvailable o |}.

Definition set_launched (p : Z) (o : owner_state) : owner_state :=
{| paths := paths o; pathsReady := pathsReady o; launchPid := Some p; appPid := Some p; launchAttempted := true;
   baselineProcessRecords := baselineProcessRecords o; processRecords := processRecords o;
   listenerRecords := listenerRecords o; prepared := prepared o; observationAvailable := observationAvailable o |}.

Definition set_prepared (attempted : bool) (o : owner_state) : owner_state :=
{| paths := paths o; pathsReady := pathsReady o; launchPid := launchPid o; appPid := appPid o; launchAttempted := attempted;
   baselineProcessRecords := baselineProcessRecords o; processRecords := processRecords o;
   listenerRecords := listenerRecords o; prepared := true; observationAvailable := observationAvailable o |}.

Definition set_baseline (l : list AcceptanceProcessIdentity) (o : owner_state) : owner_state :=
{| paths := paths o; pathsReady := pathsReady o; launchPid := launchPid o; appPid := appPid o; launchAttempted := launchAttempted o;
   baselineProcessRecords := l; processRecords := processRecords o;
   listenerRecords := listenerRecords o; prepared := prepared o; observationAvailable := observationAvailable o |}.

Definition set_processes (f : process_role → list owned_process) (o : owner_state) : owner_state :=
{| paths := paths o; pathsReady := pathsReady o; launchPid := launchPid o; appPid := appPid o; launchAttempted := launchAttempted o;
   baselineProcessRecords := baselineProcessRecords o; processRecords := f;
   listenerRecords := listenerRecords o; prepared := prepared o; observationAvailable := observationAvailable o |}.

Definition set_listeners (f : listener_role → list owned_listener) (o : owner_state) : owner_state :=
{| paths := paths o; pathsReady := pathsReady o; launchPid := launchPid o; appPid := appPid o; launchAttempted := launchAttempted o;
   baselineProcessRecords := baselineProcessRecords o; processRecords := processRecords o;
   listenerRecords := f; prepared := prepared o; observationAvailable := observationAvailable o |}.

Definition set_available (b : bool) (o : owner_state) : owner_state :=
{| paths := paths o; pathsReady := pathsReady o; launchPid := launchPid o; appPid := appPid o; launchAttempted := launchAttempted o;
   baselineProcessRecords := baselineProcessRecords o; processRecords := processRecords o;
   listenerRecords := listenerRecords o; prepared := prepared o; observationAvailable := b |}.

(** ** Records without duplicates *)

Definition appendIdentity {A} (key : A → string) (records : list A) (next : A) : list A :=
if existsb (λ r, String.eqb (key r) (key next)) records then records else records ++ [next].

Definition owned_key (r : owned_process) : string := identityKey (owned r).

Definition same_listener (a b : owned_listener) : bool :=
bool_decide (listener_role_of a = listener_role_of b) && String.eqb (owned_host a) (owned_host b) &&
(owned_port a =? owned_port b) && String.eqb (owned_key (listener_owner a)) (owned_key (listener_owner b)).

Definition appendListener (records : list owned_listener) (next : owned_listener) : list owned_listener :=
if existsb (λ r, same_listener r next) records then records else records ++ [next].

(** ** JSON forms *)

Definition js_strings (l : list string) : js := Arr (map Str l).

Definition identity_fields (i : AcceptanceProcessIdentity) : fields :=
[("pid", js_Z (pid i)); ("creationTimeUtc", Str (creationTimeUtc i)); ("executable", Str (executable i))].

Definition js_owned_process (r : owned_process) : js :=
Obj (identity_fields (owned r) ++
     [("role", Str (process_role_name (role r))); ("runId", Str (runId r)); ("artifactId", Str (artifactId r))]).

Definition js_owned_listener (l : owned_listener) : js :=
Obj [("host", Str (owned_host l)); ("port", js_Z (owned_port l)); ("protocol", Str "tcp");
     ("role", Str (listener_role_name (listener_role_of l))); ("runId", Str (listener_runId l));
     ("artifactId", Str (listener_artifactId l)); ("owner", js_owned_process (listener_owner l))].

Definition path_fields (p : AcceptanceScopePaths) : fields :=
[("modelPaths", js_strings (modelPaths p)); ("appDataPaths", js_strings (appDataPaths p));
 ("sessionPaths", js_strings (sessionPaths p))].

(** [acceptanceScopeContractFor('capture-workbench')] *)
Definition capture_workbench_contract : js := Obj [
  ("processRoles", js_strings ["root"; "app"; "session"; "sidecar"]);
  ("listenerRoles", js_strings ["cdp"; "runtime"]);
  ("optionalProcessRoles", js_strings ["model"]);
  ("optionalListenerRoles", js_strings ["model"]);
  ("pathKinds", js_strings ["modelPaths"; "appDataPaths"; "sessionPaths"])].

(** [{ ...r, ...more }] *)
Definition spread (r more : fields) : fields := fold_left (λ r kv, set_member kv.1 kv.2 r) more r.

(** ** The scope file *)

Definition isPreparedScope (value : js) (runId artifactId : string) (allowLaunched : bool) : bool :=
match value with
| Obj r =>
    strict_eqb (get r "schemaVersion") (js_Z 2) && is_str (get r "project") "capture-workbench" &&
    is_str (get r "runId") runId && is_str (get r "artifactId") artifactId &&
    is_null (get r "artifactSha256") && is_str (get r "status") "prepared" &&
    strict_eqb (get r "evidenceComplete") (Bool false) &&
    (allowLaunched || strict_eqb (get r "launchAttempted") (Bool false)) &&
    bool_decide (is_Some (as_object (get r "expected"))) &&
    bool_decide (JSON_stringify (get r "expected") = JSON_stringify capture_workbench_contract) &&
    is_array (get r "processRecords") && is_array (get r "baselineProcessRecords") &&
    is_array (get r "listenerRecords") && is_array (get r "modelPaths") &&
    is_array (get r "appDataPaths") && is_array (get r "sessionPaths")
| _ => false
end.

(** All the texts of an array of texts. *)
Fixpoint texts (l : list js) : option (list string) :=
match l with
| [] => Some []
| Str s :: l' => rest ← texts l'; Some (s :: rest)
| _ => None
end.

Definition text_array (v : js) : option (list string) := match v with Arr l => texts l | _ => None end.

Definition binding_invalid : string := "capture_acceptance_scope_prepared_binding_invalid".
Definition paths_invalid : string := "capture_acceptance_scope_paths_invalid".

Section owner.
(** [basename] and [resolve] of [node:path], the hash of [node:crypto], the
environment variable [CAPTURE_ACCEPTANCE_CDP_PORT], and the fields of the owner
that do not change. *)
Variables (basename resolve sha256 : string → string).
Variable cdp_port : option string.
Variables (rootPid : Z) (this_runId this_artifactId : string).

Definition sanitize (l : list string) : list string := map resolve (List.filter (λ p, negb (blank p)) l).

Definition sanitizePaths (p : AcceptanceScopePaths) : AcceptanceScopePaths :=
{| modelPaths := sanitize (modelPaths p); appDataPaths := sanitize (appDataPaths p);
 sessionPaths := sanitize (sessionPaths p) |}.

(** [stableAcceptanceArtifactId('capture-workbench', runId)] *)
Definition stableAcceptanceArtifactId (runId : string) : string :=
sha256 ("capture-workbench:acceptance-manifest:v2:capture-workbench:" +:+ runId).

(** The constructor. *)
Definition new_owner (p : AcceptanceScopePaths) (ready : option bool) : owner_state :=
let p' := sanitizePaths p in
{| paths := p'; pathsReady := negb (bool_decide (ready = Some false)) && hasPaths p';
 launchPid := None; appPid := None; launchAttempted := false; baselineProcessRecords := [];
 processRecords := λ _, []; listenerRecords := λ _, []; prepared := false; observationAvailable := true |}.

Definition pathsFromCurrent (value : js) : option AcceptanceScopePaths :=
r ← as_object value;
models ← text_array (get r "modelPaths");
appData ← text_array (get r "appDataPaths");
sessions ← text_array (get r "sessionPaths");
Some (sanitizePaths {| modelPaths := models; appDataPaths := appData; sessionPaths := sessions |}).

(** [this.paths = this.pathsFromCurrent(current) ?? this.paths;
this.pathsReady = this.pathsReady || this.hasPaths(this.paths);] *)
Definition adopt_paths (current : js) (o : owner_state) : owner_state :=
let p := default (paths o) (pathsFromCurrent current) in set_paths p (pathsReady o || hasPaths p) o.

Definition buildScope (status : string) (evidenceComplete : bool) (artifactSha256 : option string) (o : owner_state) : fields :=
[("schemaVersion", js_Z 2); ("project", Str "capture-workbench"); ("runId", Str this_runId);
("artifactId", Str this_artifactId);
("artifactSha256", match artifactSha256 with Some s => Str s | None => Null end);
("expected", capture_workbench_contract); ("status", Str status); ("evidenceComplete", Bool evidenceComplete);
("launchAttempted", Bool (launchAttempted o));
("processRecords", Arr (map js_owned_process (PROCESS_ROLES ≫= processRecords o)));
("baselineProcessRecords", Arr (map (λ i, Obj (identity_fields i ++ [("role", Str "baseline")])) (baselineProcessRecords o)));
("listenerRecords", Arr (map js_owned_listener (LISTENER_ROLES ≫= listenerRecords o)))] ++ path_fields (paths o).

Definition is_terminal (current : js) : bool :=
match current with Obj r => is_str (get r "status") "terminal" | _ => false end.

(** [writeScopeLocked]: what is written, if anything. *)
Definition writeScopeLocked (scope : fields) (current : js) (preserveCurrentPaths : bool) : option js :=
if is_terminal current then None
else Some (Obj (match pathsFromCurrent current with
              | Some p => if preserveCurrentPaths then spread scope (path_fields p) else scope
              | None => scope
              end)).

(** ** Deriving the records from a snapshot *)

(** [byPid.get(pid)]: of repeated numbers the last observation. *)
Definition observation_of (snapshot : Snapshot) (pid : Z) : option Observation :=
List.find (λ p, pid_of p =? pid) (rev (processes snapshot)).

Definition rememberProcess (r : process_role) (identity : option AcceptanceProcessIdentity) (o : owner_state) : owner_state :=
match identity with
| None => o
| Some i =>
  let record := {| owned := i; role := r; runId := this_runId; artifactId := this_artifactId |} in
  set_processes (<[r := appendIdentity owned_key (processRecords o r) record]> (processRecords o)) o
end.

Definition rememberListener (r : listener_role) (listener : option ListenerObservation) (owner : option owned_process)
(o : owner_state) : owner_state :=
match listener, owner with
| Some l, Some p =>
  let record := {| owned_host := lower (trim (host l)); owned_port := port l; listener_role_of := r;
                   listener_runId := this_runId; listener_artifactId := this_artifactId; listener_owner := p |} in
  set_listeners (<[r := appendListener (listenerRecords o r) record]> (listenerRecords o)) o
| _, _ => o
end.

(** [for (const p of descendants.filter(kind)) this.rememberProcess(role, processIdentity(p))] *)
Definition remember_kind (r : process_role) (kind : Observation → bool) (descendants : list Observation) (o : owner_state) : owner_state :=
fold_left (λ o p, rememberProcess r (processIdentity (Some p)) o) (List.filter kind descendants) o.

Definition descendants_of (snapshot : Snapshot) (pid : option Z) : list Observation :=
match pid with None => [] | Some p => descendantsOf (processes snapshot) p end.

(** The application process: the launched one, or a desktop process below it. *)
Definition discover_app (snapshot : Snapshot) (o : owner_state) : owner_state :=
let candidate := p ← appPid o; observation_of snapshot p in
let discovered :=
match candidate with
| Some p => if isDesktopProcess basename p then Some p
            else List.find (isDesktopProcess basename) (descendants_of snapshot (launchPid o))
| None => List.find (isDesktopProcess basename) (descendants_of snapshot (launchPid o))
end in
match discovered with Some p => set_appPid (Some (pid_of p)) o | None => o end.

Definition remember_processes (snapshot : Snapshot) (o : owner_state) : owner_state :=
let descendants := descendants_of snapshot (appPid o) in
remember_kind ModelRole isModelProcess descendants
(remember_kind SidecarRole isRuntimeProcess descendants
  (remember_kind SessionRole (isWebViewProcess basename) descendants
    (rememberProcess AppRole (processIdentity (observation_of snapshot (default (-1) (appPid o))))
      (rememberProcess RootRole (processIdentity (observation_of snapshot rootPid)) o)))).

(** [ownerFor(role, owningPid)] *)
Definition ownerFor (snapshot : Snapshot) (o : owner_state) (r : process_role) (owningPid : Z) : option owned_process :=
observed ← processIdentity (observation_of snapshot owningPid);
List.find (λ record, String.eqb (owned_key record) (identityKey observed)) (processRecords o r).

Definition listener_candidates (snapshot : Snapshot) : list ListenerObservation :=
sort_by port (List.filter (λ l, isLoopbackHost (host l) && (0 <? port l) && (port l <=? 65535)) (listeners snapshot)).

Definition cdp_port_matches (p : Z) : bool :=
match cdp_port with None => true | Some text => num_eqb (num_of_Z p) (number_of_string text) end.

Definition find_owned (snapshot : Snapshot) (o : owner_state) (r : process_role) : option ListenerObservation :=
List.find (λ l, bool_decide (is_Some (ownerFor snapshot o r (owningPid l)))) (listener_candidates snapshot).

Definition find_cdp (snapshot : Snapshot) (o : owner_state) : option ListenerObservation :=
let sessions := map pid_of (List.filter (isWebViewProcess basename) (descendants_of snapshot (appPid o))) in
List.find (λ l, bool_decide (owningPid l ∈ sessions) && cdp_port_matches (port l)) (listener_candidates snapshot).

Definition owner_of (snapshot : Snapshot) (o : owner_state) (r : process_role) (l : option ListenerObservation) : option owned_process :=
l ← l; ownerFor snapshot o r (owningPid l).

Definition remember_listeners (snapshot : Snapshot) (o : owner_state) : owner_state :=
let cdp := find_cdp snapshot o in
let runtime := find_owned snapshot o SidecarRole in
let model := find_owned snapshot o ModelRole in
rememberListener ModelListener model (owner_of snapshot o ModelRole model)
(rememberListener RuntimeListener runtime (owner_of snapshot o SidecarRole runtime)
  (rememberListener CdpListener cdp (owner_of snapshot o SessionRole cdp) o)).

Definition derive (snapshot : Snapshot) (o : owner_state) : owner_state :=
remember_listeners snapshot (remember_processes snapshot (discover_app snapshot o)).

(** ** The baseline *)

(** [processIdentity] of a recorded value: [trim] of a value that is no text throws. *)
Definition recorded_identity (r : fields) : result string (option AcceptanceProcessIdentity) :=
match asPositivePid (get r "pid") with
| None => Ok None
| Some p =>
  match get r "creationTimeUtc" with
  | Str creation =>
      if blank creation then Ok None else
      match get r "executable" with
      | Str e => Ok (if isAbsoluteExecutable e then Some {| pid := p; creationTimeUtc := creation; executable := e |} else None)
      | _ => Err "TypeError"
      end
  | _ => Err "TypeError"
  end
end.

Fixpoint recorded_baseline (values : list js) (records : list AcceptanceProcessIdentity)
: result string (list AcceptanceProcessIdentity) :=
match values with
| [] => Ok records
| Obj r :: rest =>
  i ← recorded_identity r;
  recorded_baseline rest (match i with Some i => appendIdentity identityKey records i | None => records end)
| _ :: rest => recorded_baseline rest records
end.

Definition observed_baseline (snapshot : Snapshot) : list AcceptanceProcessIdentity :=
let owned := rootPid :: map pid_of (descendantsOf (processes snapshot) rootPid) in
fold_left (λ records p, match processIdentity (Some p) with
                      | Some i => if isBaselineProcess basename p && negb (bool_decide (pid_of p ∈ owned))
                                  then appendIdentity identityKey records i else records
                      | None => records
                      end) (processes snapshot) [].

Definition baselineFrom (snapshot : Snapshot) (current : js) : result string (list AcceptanceProcessIdentity) :=
match observed_baseline snapshot with
| [] =>
  match current with
  | Obj r => match get r "baselineProcessRecords" with Arr l => recorded_baseline l [] | _ => Ok [] end
  | _ => Ok []
  end
| records => Ok records
end.

(** ** Under the lock *)

(** What a critical section gives: the new state, and the value to write or an error. *)
Abbreviation section_result := (owner_state * result string (option js))%type.

Definition observed (probe : result string Snapshot) : result string Snapshot :=
snapshot ← probe; assertWindowsAcceptanceScopeSnapshot snapshot rootPid;; Ok snapshot.

Definition prepare_section (probe : result string Snapshot) (read : result string js) (o : owner_state) : section_result :=
match read with
| Err e => (o, Err e)
| Ok current =>
  if isPreparedScope current this_runId this_artifactId false then
    let attempted := match current with Obj r => is_true (get r "launchAttempted") | _ => false end in
    let o1 := adopt_paths current (set_prepared attempted o) in
    match observed probe with
    | Err e => (o1, Err e)
    | Ok snapshot =>
        match baselineFrom snapshot current with
        | Err e => (o1, Err e)
        | Ok l =>
            let o2 := set_baseline l o1 in
            (o2, Ok (writeScopeLocked (buildScope "prepared" false None o2) current true))
        end
    end
  else (o, Err binding_invalid)
end.

Definition refresh_section (probe : result string Snapshot) (read : result string js) (o : owner_state) : section_result :=
match observed probe with
| Err e => (o, Err e)
| Ok snapshot =>
  let o1 := derive snapshot (set_available true o) in
  match read with
  | Err e => (o1, Err e)
  | Ok current =>
      let o2 := adopt_paths current o1 in
      (o2, Ok (writeScopeLocked (buildScope "prepared" false None o2) current true))
  end
end.

Definition write_section (scope : fields) (preserve : bool) (read : result string js) (o : owner_state) : section_result :=
(o, current ← read; Ok (writeScopeLocked scope current preserve)).

(** [patchCaptureAcceptanceScopePaths] *)
Definition patch_section (runId : string) (p : AcceptanceScopePaths) (current : js) : result string (option js) :=
if isPreparedScope current runId (stableAcceptanceArtifactId runId) true then
let sanitized := sanitizePaths p in
if hasPaths sanitized then
  match current with
  | Obj r => Ok (Some (Obj (spread r (path_fields sanitized))))
  | _ => Err binding_invalid
  end
else Err paths_invalid
else Err binding_invalid.

(** ** The methods *)

(** The outcomes of the waits of one [withScopeLock]; [replaced] tells whether
[atomicWriteJson] got as far as the rename. *)
Record lease := {
acquire : result string unit;
probe : result string Snapshot;
read : result string js;
replaced : bool;
write : result string unit;
release : result string unit;
}.

(** The new state, what was written to the file, and the result. *)
Abbreviation method_result := (owner_state * option js * result string unit)%type.

Definition withScopeLock (w : lease) (body : owner_state → section_result) (o : owner_state) : method_result :=
match acquire w with
| Err e => (o, None, Err e)
| Ok _ =>
  let '(o', r) := body o in
  let '(written, outcome) :=
    match r with
    | Err e => (None, Err e)
    | Ok None => (None, Ok tt)
    | Ok (Some v) => (if replaced w then Some v else None, write w)
    end in
  (o', written,
   match release w, outcome with
   | Ok _, _ => outcome
   | Err e, Ok _ => Err e
   | Err _, Err _ => Err (storage_error "lock_release_failed")
   end)
end.

Definition requirePrepared (o : owner_state) (m : owner_state → method_result) : method_result :=
if prepared o then m o else (o, None, Err "capture_acceptance_scope_owner_not_prepared").

Definition prepare (w : lease) (o : owner_state) : method_result :=
withScopeLock w (prepare_section (probe w) (read w)) o.

Definition setPaths (p : AcceptanceScopePaths) (w : lease) (o : owner_state) : method_result :=
requirePrepared o (λ o,
let sanitized := sanitizePaths p in
if hasPaths sanitized then
  let o' := set_paths sanitized true o in
  withScopeLock w (write_section (buildScope "prepared" false None o') false (read w)) o'
else (o, None, Err paths_invalid)).

Definition refresh (w : lease) (o : owner_state) : method_result :=
requirePrepared o (withScopeLock w (refresh_section (probe w) (read w))).

Definition recordLaunch (appPid : Z) (w : lease) (o : owner_state) : method_result :=
requirePrepared o (λ o,
if positive_pid appPid then refresh w (set_launched appPid o)
else (o, None, Err "capture_acceptance_scope_app_pid_invalid")).

(** [computeAcceptanceArtifactBindingHash] *)
Definition binding_artifact (value : js) : option js :=
match value with
| Obj r =>
  if one_of ["video"; "screenshot"; "trace"; "report"; "log"; "other"] (get r "kind") &&
     string_with (λ s, negb (String.eqb s "")) (get r "path") &&
     bool_decide (is_Some (asPositivePid (get r "bytes"))) && string_with is_sha256_hex (get r "sha256")
  then Some (Obj [("kind", get r "kind"); ("path", get r "path"); ("bytes", get r "bytes"); ("sha256", get r "sha256")])
  else None
| _ => None
end.

Definition computeAcceptanceArtifactBindingHash (manifest : js) : option string :=
match manifest with
| Obj r =>
  match get r "artifacts" with
  | Arr (v :: l) =>
      artifacts ← mapM binding_artifact (v :: l);
      Some (sha256 (join (String "010" "") (sort_keys (map (λ a, default "" (JSON_stringify a)) artifacts))))
  | _ => None
  end
| _ => None
end.

(** The refresh of [w], the manifest ([None] when it is missing or no JSON), and
the terminal write of [w']. *)
Definition finalizeFromManifest (w : lease) (manifest : option js) (w' : lease) (o : owner_state)
: owner_state * list (option js) * result string unit :=
if prepared o then
let '(o1, written, r) := refresh w o in
let o2 := if is_ok r then o1 else set_available false o1 in
let hash := m ← manifest; computeAcceptanceArtifactBindingHash m in
let scope := buildScope "terminal" (pathsReady o2 && observationAvailable o2) hash o2 in
let '(o3, written', r') := withScopeLock w' (write_section scope true (read w')) o2 in
(o3, [written; written'], r')
else (o, [], Err "capture_acceptance_scope_owner_not_prepared").

(** ** Records only grow *)

Lemma appendIdentity_spec {A} (key : A → string) l x :
appendIdentity key l x = l ∨ appendIdentity key l x = l ++ [x] ∧ key x ∉ map key l.
Proof.
unfold appendIdentity. destruct (existsb _ l) eqn:E; [by left|right]. split; [done|].
rewrite existsb_false, Forall_forall in E. intros (y & Hy & Hin)%list_elem_of_fmap.
specialize (E y Hin). cbv beta in E. by rewrite <-Hy, String.eqb_refl in E.
Qed.

Lemma appendIdentity_nodup {A} (key : A → string) l x :
NoDup (map key l) → NoDup (map key (appendIdentity key l x)).
Proof.
intros Hl. destruct (appendIdentity_spec key l x) as [->|[-> Hx]]; [done|]. rewrite map_app.
apply NoDup_app. split_and!; [done| |apply NoDup_singleton]. intros k Hk Hin%list_elem_of_singleton. by subst k.
Qed.

Definition record_of (r : process_role) (i : AcceptanceProcessIdentity) : owned_process :=
{| owned := i; role := r; runId := this_runId; artifactId := this_artifactId |}.

(** The records keep their order, and new ones come last. *)
Definition grows (o o' : owner_state) : Prop :=
(∀ r, processRecords o r `prefix_of` processRecords o' r) ∧
(∀ r, listenerRecords o r `prefix_of` listenerRecords o' r).

#[local] Instance grows_preorder : PreOrder grows.
Proof. split; [by split|]. intros o1 o2 o3 [H1 H2] [H3 H4]. split; intros r; etrans; eauto. Qed.

Lemma rememberProcess_grows r i o : grows o (rememberProcess r i o).
Proof.
destruct i as [i|]; [|done]. split; intros r'; cbn; [|done]. destruct (decide (r' = r)) as [->|Hne].
- rewrite fn_lookup_insert. destruct (appendIdentity_spec owned_key (processRecords o r) (record_of r i)) as [E|[E _]];
  unfold record_of in E; rewrite E; [done|by apply prefix_app_r].
- by rewrite fn_lookup_insert_ne.
Qed.

Lemma remember_kind_grows r kind l o : grows o (remember_kind r kind l o).
Proof.
unfold remember_kind. generalize (List.filter kind l). intros k. revert o.
induction k as [|p k IH]; intros o; cbn [fold_left]; [done|]. etrans; [|apply IH]. apply rememberProcess_grows.
Qed.

Lemma rememberListener_grows r l p o : grows o (rememberListener r l p o).
Proof.
destruct l as [l|], p as [p|]; try done. split; intros r'; cbn; [done|]. destruct (decide (r' = r)) as [->|Hne].
- rewrite fn_lookup_insert. unfold appendListener. destruct (existsb _ _); [done|by apply prefix_app_r].
- by rewrite fn_lookup_insert_ne.
Qed.

Lemma remember_processes_grows snapshot o : grows o (remember_processes snapshot o).
Proof.
unfold remember_processes. do 3 (etrans; [|apply remember_kind_grows]).
etrans; [|apply rememberProcess_grows]. apply rememberProcess_grows.
Qed.

Lemma derive_grows snapshot o : grows o (derive snapshot o).
Proof.
unfold derive, remember_listeners. do 3 (etrans; [|apply rememberListener_grows]).
etrans; [|apply remember_processes_grows]. unfold discover_app. by repeat case_match.
Qed.

(** ** Where records come from *)

Lemma rememberProcess_inv r i o r' p :
p ∈ processRecords (rememberProcess r i o) r' →
p ∈ processRecords o r' ∨ (r' = r ∧ ∃ x, i = Some x ∧ p = record_of r x).
Proof.
destruct i as [i|]; cbn; [|by left]. destruct (decide (r' = r)) as [->|Hne].
- rewrite fn_lookup_insert. destruct (appendIdentity_spec owned_key (processRecords o r) (record_of r i)) as [E|[E _]];
  unfold record_of in E; rewrite E; [by left|]. intros [|Hp%list_elem_of_singleton]%elem_of_app; [by left|].
right. split; [done|]. exists i. by subst p.
- rewrite fn_lookup_insert_ne by done. by left.
Qed.

Lemma remember_kind_inv r kind l o r' p :
p ∈ processRecords (remember_kind r kind l o) r' →
p ∈ processRecords o r' ∨
(r' = r ∧ ∃ q, q ∈ l ∧ kind q = true ∧ ∃ x, processIdentity (Some q) = Some x ∧ p = record_of r x).
Proof.
unfold remember_kind. assert (∀ q, q ∈ List.filter kind l → q ∈ l ∧ kind q = true) as Hk.
{ intros q. rewrite list_elem_of_In, filter_In, <-list_elem_of_In. done. }
generalize dependent (List.filter kind l). intros k. revert o.
induction k as [|q k IH]; intros o Hk; cbn [fold_left]; [by left|].
intros Hp. apply IH in Hp as [Hp|]; [|by right|].
- apply rememberProcess_inv in Hp as [|(-> & x & Hx & ->)]; [by left|]. right. split; [done|].
destruct (Hk q) as [? ?]; [by left|]. exists q. split_and!; try done. by exists x.
- intros q' Hq'. apply Hk. by right.
Qed.

Lemma processIdentity_Some q x : processIdentity (Some q) = Some x → x = identity q.
Proof. cbn. destruct (_ && _); [by intros [= <-]|done]. Qed.

Lemma observation_of_Some snapshot p q : observation_of snapshot p = Some q → q ∈ processes snapshot ∧ pid_of q = p.
Proof. unfold observation_of. intros [H E]%find_some. bsimp. by rewrite <-in_rev, <-list_elem_of_In in H. Qed.

(** Why a process observed in a snapshot gets a record of a role; [app] is the
number of the application process. *)
Definition justified (snapshot : Snapshot) (app : option Z) (r : process_role) (q : Observation) : Prop :=
match r with
| RootRole => pid_of q = rootPid
| AppRole => pid_of q = default (-1) app
| SessionRole | SidecarRole | ModelRole =>
  (∃ a, app = Some a ∧ pid_of q ≠ a ∧ rtc (child (processes snapshot)) a (pid_of q)) ∧
  match r with
  | SessionRole => isWebViewProcess basename q
  | SidecarRole => isRuntimeProcess q
  | _ => isModelProcess q
  end = true
end.

Lemma remember_processes_inv snapshot o r p :
p ∈ processRecords (remember_processes snapshot o) r →
p ∈ processRecords o r ∨
(∃ q, q ∈ processes snapshot ∧ p = record_of r (identity q) ∧ justified snapshot (appPid o) r q).
Proof.
assert (∀ q, q ∈ descendants_of snapshot (appPid o) →
q ∈ processes snapshot ∧ ∃ a, appPid o = Some a ∧ pid_of q ≠ a ∧ rtc (child (processes snapshot)) a (pid_of q)) as Hd.
{ intros q. unfold descendants_of. destruct (appPid o) as [a|]; [|by intros ?%elem_of_nil].
intros (? & ? & ?)%descendantsOf_spec. eauto. }
assert (∀ a q x, observation_of snapshot a = q → processIdentity q = Some x →
∃ q', q' ∈ processes snapshot ∧ x = identity q' ∧ pid_of q' = a) as Ho.
{ intros a [q|] x Hq Hx; [|done]. apply observation_of_Some in Hq as [? ?]. apply processIdentity_Some in Hx. eauto. }
unfold remember_processes. cbv zeta.
intros Hp. apply remember_kind_inv in Hp as [Hp|(-> & q & Hq & Hk & x & Hx%processIdentity_Some & ->)].
1: apply remember_kind_inv in Hp as [Hp|(-> & q & Hq & Hk & x & Hx%processIdentity_Some & ->)].
1: apply remember_kind_inv in Hp as [Hp|(-> & q & Hq & Hk & x & Hx%processIdentity_Some & ->)].
1: apply rememberProcess_inv in Hp as [Hp|(-> & x & Hx & ->)].
1: apply rememberProcess_inv in Hp as [Hp|(-> & x & Hx & ->)]; [by left|].
all: right.
- destruct (Ho _ _ _ eq_refl Hx) as (q & ? & -> & ?). by exists q.
- destruct (Ho _ _ _ eq_refl Hx) as (q & ? & -> & ?). by exists q.
- subst x. destruct (Hd q Hq) as (? & ?). exists q. split_and!; done.
- subst x. destruct (Hd q Hq) as (? & ?). exists q. split_and!; done.
- subst x. destruct (Hd q Hq) as (? & ?). exists q. split_and!; done.
Qed.

Lemma remember_listeners_processes snapshot o : processRecords (remember_listeners snapshot o) = processRecords o.
Proof.
unfold remember_listeners. cbv zeta.
assert (∀ r l p o, processRecords (rememberListener r l p o) = processRecords o) as E by (by intros r [] []).
by rewrite !E.
Qed.

Lemma remember_processes_appPid snapshot o : appPid (remember_processes snapshot o) = appPid o.
Proof.
assert (∀ r i o, appPid (rememberProcess r i o) = appPid o) as E by (by intros r []).
assert (∀ r kind l o, appPid (remember_kind r kind l o) = appPid o) as E'.
{ intros r kind l. unfold remember_kind. generalize (List.filter kind l). intros k.
induction k as [|q k IH]; intros o'; cbn [fold_left]; [done|]. by rewrite IH, E. }
unfold remember_processes. cbv zeta. by rewrite !E', !E.
Qed.

Lemma remember_listeners_appPid snapshot o : appPid (remember_listeners snapshot o) = appPid o.
Proof.
unfold remember_listeners. cbv zeta.
assert (∀ r l p o, appPid (rememberListener r l p o) = appPid o) as E by (by intros r [] []).
by rewrite !E.
Qed.

(** The application process was launched, or is a desktop process below the launched one. *)
Definition app_found (snapshot : Snapshot) (o o' : owner_state) : Prop :=
appPid o' = appPid o ∨
∃ q l, q ∈ processes snapshot ∧ appPid o' = Some (pid_of q) ∧ isDesktopProcess basename q = true ∧
launchPid o = Some l ∧ rtc (child (processes snapshot)) l (pid_of q).

Lemma discover_app_found snapshot o : app_found snapshot o (discover_app snapshot o).
Proof.
assert (∀ q, List.find (isDesktopProcess basename) (descendants_of snapshot (launchPid o)) = Some q →
app_found snapshot o (set_appPid (Some (pid_of q)) o)) as Hfind.
{ intros q [Hq Hd]%find_some. right. rewrite <-list_elem_of_In in Hq. unfold descendants_of in Hq.
destruct (launchPid o) as [l|] eqn:Hl; [|by apply elem_of_nil in Hq].
apply descendantsOf_spec in Hq as (? & ? & ?). exists q, l. by split_and!. }
unfold discover_app. cbv zeta. destruct (appPid o ≫= observation_of snapshot) as [p|] eqn:Hc.
- destruct (isDesktopProcess basename p) eqn:Hd.
+ left. cbn. apply bind_Some in Hc as (a & Ha & [_ Hp]%observation_of_Some). by rewrite Ha, Hp.
+ destruct (List.find _ _) eqn:E; [by apply Hfind|by left].
- destruct (List.find _ _) eqn:E; [by apply Hfind|by left].
Qed.

Lemma discover_app_records snapshot o : processRecords (discover_app snapshot o) = processRecords o.
Proof. unfold discover_app. by repeat case_match. Qed.

(** Every process record that a refresh adds is a process of the snapshot
that belongs to the scope: the runner itself, the application, or a WebView,
runtime or model process that parent links lead to from the application; and
the application is the one launched, or a desktop process below it.  Old records
stay. *)
Lemma recorded_processes_are_owned snapshot o :
grows o (derive snapshot o) ∧
(∀ r p, p ∈ processRecords (derive snapshot o) r →
p ∈ processRecords o r ∨
∃ q, q ∈ processes snapshot ∧ p = record_of r (identity q) ∧ justified snapshot (appPid (derive snapshot o)) r q) ∧
app_found snapshot o (derive snapshot o).
Proof.
split_and!; [apply derive_grows| |].
- intros r p. unfold derive. rewrite remember_listeners_processes, remember_listeners_appPid, remember_processes_appPid.
intros [Hp|Hp]%remember_processes_inv; [left|by right]. by rewrite discover_app_records in Hp.
- unfold app_found, derive. rewrite remember_listeners_appPid, remember_processes_appPid. apply discover_app_found.
Qed.

(** ** The records of an owner *)

Definition owner_role (r : listener_role) : process_role :=
match r with CdpListener => SessionRole | RuntimeListener => SidecarRole | ModelListener => ModelRole end.

Definition listener_ok (o : owner_state) (r : listener_role) (l : owned_listener) : Prop :=
listener_role_of l = r ∧ owned_host l ∈ ["127.0.0.1"; "::1"] ∧ 1 <= owned_port l <= 65535 ∧
listener_owner l ∈ processRecords o (owner_role r).

Record owner_ok (o : owner_state) : Prop := {
ok_bound r p : p ∈ processRecords o r → role p = r ∧ runId p = this_runId ∧ artifactId p = this_artifactId;
ok_distinct r : NoDup (map owned_key (processRecords o r));
ok_listeners r l : l ∈ listenerRecords o r → listener_ok o r l;
}.

Definition same_records (o o' : owner_state) : Prop :=
processRecords o' = processRecords o ∧ listenerRecords o' = listenerRecords o.

Lemma owner_ok_same o o' : same_records o o' → owner_ok o → owner_ok o'.
Proof.
intros [Hp Hl] [Hb Hd Hlis].
split; unfold listener_ok in *; rewrite ?Hp, ?Hl; auto.
Qed.

Lemma rememberProcess_ok r i o : owner_ok o → owner_ok (rememberProcess r i o).
Proof.
intros Ho. assert (∀ r', processRecords o r' ⊆ processRecords (rememberProcess r i o) r') as Hsub.
{ intros r' p Hp. destruct (rememberProcess_grows r i o) as [Hg _]. destruct (Hg r') as [k ->].
apply elem_of_app. by left. }
destruct i as [i|]; [|done]. split.
- intros r' p [Hp|(-> & x & _ & ->)]%rememberProcess_inv; [by apply Ho|done].
- intros r'. cbn. destruct (decide (r' = r)) as [->|Hne].
+ rewrite fn_lookup_insert. apply appendIdentity_nodup, Ho.
+ rewrite fn_lookup_insert_ne by done. apply Ho.
- intros r' l Hl. destruct (ok_listeners _ Ho r' l Hl) as (? & ? & ? & ?). do 3 (split; [done|]). by apply Hsub.
Qed.

Lemma remember_kind_ok r kind l o : owner_ok o → owner_ok (remember_kind r kind l o).
Proof.
unfold remember_kind. generalize (List.filter kind l). intros k. revert o.
induction k as [|q k IH]; intros o Ho; cbn [fold_left]; [done|]. by apply IH, rememberProcess_ok.
Qed.

Lemma rememberListener_ok r l p o :
owner_ok o →
(∀ x y, l = Some x → p = Some y →
isLoopbackHost (host x) = true ∧ 1 <= port x <= 65535 ∧ y ∈ processRecords o (owner_role r)) →
owner_ok (rememberListener r l p o).
Proof.
intros Ho Hl. destruct l as [l|], p as [p|]; try done.
destruct (Hl l p eq_refl eq_refl) as (Hh & Hport & Hp). split; cbn; [apply Ho..|].
intros r' x. destruct (decide (r' = r)) as [->|Hne]; [|rewrite fn_lookup_insert_ne by done; apply Ho].
rewrite fn_lookup_insert. unfold appendListener. destruct (existsb _ _); [apply Ho|].
intros [|Hx%list_elem_of_singleton]%elem_of_app; [by apply Ho|]. subst x.
split; [done|]. split; [by apply includes_spec|]. by split.
Qed.

Lemma listener_candidates_ok snapshot l :
l ∈ listener_candidates snapshot → isLoopbackHost (host l) = true ∧ 1 <= port l <= 65535.
Proof.
unfold listener_candidates. rewrite (sort_by_perm port), list_elem_of_In, filter_In. intros [_ H].
rewrite !andb_true_iff in H. bsimp. destruct H as [[? ?] ?]. split; [done|lia].
Qed.

Lemma remember_listeners_ok snapshot o : owner_ok o → owner_ok (remember_listeners snapshot o).
Proof.
intros Ho. unfold remember_listeners. cbv zeta.
assert (∀ f r o' x y, processRecords o' = processRecords o →
List.find f (listener_candidates snapshot) = Some x →
owner_of snapshot o (owner_role r) (Some x) = Some y →
isLoopbackHost (host x) = true ∧ 1 <= port x <= 65535 ∧ y ∈ processRecords o' (owner_role r)) as Hok.
{ intros f r o' x y -> [Hx _]%find_some Hy. apply list_elem_of_In, listener_candidates_ok in Hx as [? ?]. split; [done|]. split; [done|].
apply bind_Some in Hy as (i & _ & [Hy _]%find_some). by apply list_elem_of_In. }
assert (∀ r l p o, processRecords (rememberListener r l p o) = processRecords o) as E by (by intros r [] []).
repeat apply rememberListener_ok; try done; intros x y Hx Hy; rewrite Hx in Hy; rewrite ?E.
- by eapply (Hok _ CdpListener).
- by eapply (Hok _ RuntimeListener).
- by eapply (Hok _ ModelListener).
Qed.

Lemma derive_ok snapshot o : owner_ok o → owner_ok (derive snapshot o).
Proof.
intros Ho. apply remember_listeners_ok. unfold remember_processes. repeat apply remember_kind_ok.
repeat apply rememberProcess_ok. eapply owner_ok_same; [|exact Ho].
unfold discover_app. by repeat case_match.
Qed.

(** A critical section or method keeps well-formed records. *)
Definition keeps_ok {A} (f : owner_state → owner_state * A) : Prop := ∀ o, owner_ok o → owner_ok (f o).1.

Lemma withScopeLock_ok w body : keeps_ok body → ∀ o, owner_ok o → owner_ok (withScopeLock w body o).1.1.
Proof.
intros Hb o Ho. unfold withScopeLock. destruct (acquire w); [|done]. specialize (Hb o Ho).
destruct (body o) as [o' [[v|]|e]]; done.
Qed.

Lemma adopt_paths_ok current o : owner_ok o → owner_ok (adopt_paths current o).
Proof. by apply owner_ok_same. Qed.

Lemma prepare_section_ok probe read : keeps_ok (prepare_section probe read).
Proof.
intros o Ho. unfold prepare_section. destruct read as [current|e]; [|done].
destruct (isPreparedScope _ _ _ _); [|done].
destruct (observed probe) as [snapshot|]; [|by apply (owner_ok_same o)].
destruct (baselineFrom _ _); by apply (owner_ok_same o).
Qed.

Lemma refresh_section_ok probe read : keeps_ok (refresh_section probe read).
Proof.
intros o Ho. unfold refresh_section. destruct (observed probe) as [snapshot|e]; [|done].
assert (owner_ok (derive snapshot (set_available true o))) by by (apply derive_ok; by apply (owner_ok_same o)).
destruct read; [|done]. by apply (owner_ok_same (derive snapshot (set_available true o))).
Qed.

Lemma refresh_ok w o : owner_ok o → owner_ok (refresh w o).1.1.
Proof.
intros Ho. unfold refresh, requirePrepared. destruct (prepared o); [|done].
apply withScopeLock_ok; [apply refresh_section_ok|done].
Qed.

(** One call of a method, whatever its waits give. *)
Inductive method_step (o : owner_state) : owner_state → Prop :=
| step_prepare w : method_step o (prepare w o).1.1
| step_setPaths p w : method_step o (setPaths p w o).1.1
| step_recordLaunch app w : method_step o (recordLaunch app w o).1.1
| step_refresh w : method_step o (refresh w o).1.1
| step_finalize w m w' : method_step o (finalizeFromManifest w m w' o).1.1.

Lemma method_step_ok o o' : method_step o o' → owner_ok o → owner_ok o'.
Proof.
intros [w|p w|app w|w|w m w'] Ho.
- apply withScopeLock_ok; [apply prepare_section_ok|done].
- unfold setPaths, requirePrepared. destruct (prepared o); [|done]. destruct (hasPaths _); [|done].
apply withScopeLock_ok; [by intros ? ?|by apply (owner_ok_same o)].
- unfold recordLaunch, requirePrepared. destruct (prepared o); [|done]. destruct (positive_pid app); [|done].
apply refresh_ok. by apply (owner_ok_same o).
- by apply refresh_ok.
- unfold finalizeFromManifest. destruct (prepared o); [|done].
pose proof (refresh_ok w o Ho) as Hr. destruct (refresh w o) as [[o1 written] r]. cbn in Hr.
assert (owner_ok (if is_ok r then o1 else set_available false o1)) as H2
  by (destruct (is_ok r); [done|by apply (owner_ok_same o1)]).
pose proof (withScopeLock_ok w' (write_section (buildScope "terminal"
  (pathsReady (if is_ok r then o1 else set_available false o1) &&
   observationAvailable (if is_ok r then o1 else set_available false o1))
  (m ← m; computeAcceptanceArtifactBindingHash m) (if is_ok r then o1 else set_available false o1)) true (read w'))
  (λ o Ho, Ho) _ H2) as H3.
cbv zeta. by destruct (withScopeLock _ _ _) as [[o3 written'] r'].
Qed.

(** C16: Whatever methods an owner has run, with whatever outcomes of their waits:
no process is recorded twice under one role, every record carries the role, run
and artifact it is listed under, and every listener is a loopback one in the
port range whose owner is a recorded process of the role it belongs to. *)
Theorem owner_records_are_consistent p ready o :
rtc method_step (new_owner p ready) o → owner_ok o.
Proof.
apply (rtc_ind_r owner_ok (new_owner p ready)).
- split; [by intros r q ?%elem_of_nil|constructor|by intros r l ?%elem_of_nil].
- intros x y _ Hs. by apply method_step_ok.
Qed.

(** ** What is written *)

Lemma writeScopeLocked_terminal scope current preserve :
is_terminal current = true → writeScopeLocked scope current preserve = None.
Proof. unfold writeScopeLocked. by intros ->. Qed.

Lemma get_set_member k v r k' : get (set_member k v r) k' = if String.eqb k' k then v else get r k'.
Proof.
induction r as [|[j w] r IH]; cbn.
- destruct (String.eqb k' k); done.
- destruct (String.eqb_spec k j) as [->|Hkj]; cbn.
+ by destruct (String.eqb k' j).
+ rewrite IH. destruct (String.eqb_spec k' j) as [->|]; [|done].
  by destruct (String.eqb_spec j k).
Qed.

Lemma get_spread r more k : k ∉ map fst more → get (spread r more) k = get r k.
Proof.
unfold spread. revert r. induction more as [|[j v] more IH]; intros r Hk; cbn; [done|].
cbn in Hk. apply not_elem_of_cons in Hk as [Hj Hk]. rewrite IH by done. rewrite get_set_member.
by destruct (String.eqb_spec k j).
Qed.

(** A written scope is the given one outside the paths. *)
Lemma writeScopeLocked_get scope current preserve v k :
writeScopeLocked scope current preserve = Some v → k ∉ ["modelPaths"; "appDataPaths"; "sessionPaths"] →
∃ r, v = Obj r ∧ get r k = get scope k.
Proof.
unfold writeScopeLocked. destruct (is_terminal current); [done|]. intros [= <-] Hk. eexists. split; [done|].
destruct (pathsFromCurrent current) as [p|]; [|done]. destruct preserve; [|done].
by apply (get_spread scope (path_fields p)).
Qed.

Lemma withScopeLock_written w scope preserve read o v :
(withScopeLock w (write_section scope preserve read) o).1.2 = Some v →
∃ current, writeScopeLocked scope current preserve = Some v.
Proof.
unfold withScopeLock, write_section. destruct (acquire w); [|done].
destruct read as [current|]; cbn; [|done]. destruct (writeScopeLocked _ _ _) as [u|] eqn:Hw; cbn; [|done].
destruct (replaced w); [|done]. intros [= <-]. by exists current.
Qed.

(** A terminal record that claims complete evidence is only written when the
final refresh of the same call succeeded and the paths were ready; it lists
exactly the processes and listeners of the owner. *)
Lemma complete_evidence_needs_the_final_refresh w m w' o o' first v r :
prepared o = true →
finalizeFromManifest w m w' o = (o', [first; Some (Obj v)], r) → get v "evidenceComplete" = Bool true →
∃ o1, refresh w o = (o1, first, Ok tt) ∧ pathsReady o1 = true ∧
get v "status" = Str "terminal" ∧
get v "processRecords" = Arr (map js_owned_process (PROCESS_ROLES ≫= processRecords o1)) ∧
get v "listenerRecords" = Arr (map js_owned_listener (LISTENER_ROLES ≫= listenerRecords o1)).
Proof.
unfold finalizeFromManifest. intros ->. destruct (refresh w o) as [[o1 written] res]. cbv zeta.
set (o2 := if is_ok res then o1 else set_available false o1).
set (scope := buildScope _ _ _ o2).
destruct (withScopeLock w' _ o2) as [[o3 written'] r'] eqn:Hl. intros [= _ -> -> _] Hv.
destruct (withScopeLock_written w' scope true (read w') o2 (Obj v)) as [current Hw]; [by rewrite Hl|].
assert (∀ k, k ∉ ["modelPaths"; "appDataPaths"; "sessionPaths"] → get v k = get scope k) as Hget.
{ intros k Hk. by destruct (writeScopeLocked_get _ _ _ _ _ Hw Hk) as (r0 & [= <-] & ->). }
rewrite Hget in Hv by set_solver. cbn in Hv. injection Hv as [Hp Ha]%andb_true_iff.
exists o1. rewrite !Hget by set_solver. destruct res as [[]|e]; [done|discriminate Ha].
Qed.
End owner.

(** ** Owners that run concurrently *)

Section concurrent.
Variables (basename resolve sha256 : string → string).
Variable cdp_port : option string.

(** What a call of [withScopeLock] runs: the state of its owner, whose fixed
fields come first, and what the probe answers. *)
Inductive scope_call : Type :=
| Preparing (rootPid : Z) (runId artifactId : string) (probe : result string Snapshot) (o : owner_state)
| Refreshing (rootPid : Z) (runId artifactId : string) (probe : result string Snapshot) (o : owner_state)
| Writing (scope : fields) (preserve : bool) (o : owner_state)
| Patching (runId : string) (p : AcceptanceScopePaths).

(** As an operation of the lock: from the scope it reads to what it writes. *)
Definition operation_of (c : scope_call) (current : js) : result string (option js) :=
match c with
| Preparing root run artifact probe o => (prepare_section basename resolve root run artifact probe (Ok current) o).2
| Refreshing root run artifact probe o => (refresh_section basename resolve cdp_port root run artifact probe (Ok current) o).2
| Writing scope preserve o => (write_section resolve scope preserve (Ok current) o).2
| Patching run p => patch_section resolve sha256 run p current
end.

Lemma prepared_is_not_terminal value runId artifactId allow :
isPreparedScope value runId artifactId allow = true → is_terminal value = false.
Proof.
destruct value as [| | | | | |r]; try discriminate. cbn. rewrite !andb_true_iff, !is_str_spec.
intros H. destruct H as [[[[[[[[[[[_ Hs] _] _] _] _] _] _] _] _] _] _]. by rewrite Hs.
Qed.

Lemma terminal_is_not_replaced c current v : is_terminal current = true → operation_of c current ≠ Ok (Some v).
Proof.
intros Ht. destruct c as [root run artifact probe o|root run artifact probe o|scope preserve o|run p]; cbn.
- unfold prepare_section. destruct (isPreparedScope _ _ _ _) eqn:Hp; [|done].
apply prepared_is_not_terminal in Hp. congruence.
- unfold refresh_section. destruct (observed _ _); [|done]. cbn. by rewrite writeScopeLocked_terminal.
- by rewrite writeScopeLocked_terminal.
- unfold patch_section. destruct (isPreparedScope _ _ _ _) eqn:Hp; [|done].
apply prepared_is_not_terminal in Hp. congruence.
Qed.

(** C14: Terminal evidence is final: however many owners and patches run
concurrently on one scope file, in whatever order, with whatever failures and
deaths (a process does not die between a reconciler's reading of its lock and
the liveness question), once the file holds a terminal scope it keeps that scope. *)
Theorem terminal_scope_is_final calls process token value now sys sys' :
let operation := λ i, operation_of (calls i) in
reachable operation process token value now sys → rtc (step operation process token) sys sys' →
is_terminal (scope (shared sys)) = true → scope (shared sys') = scope (shared sys).
Proof.
intros operation Hr Hs Ht. revert Hr Ht. induction Hs as [|x y z Hxy _ IH]; intros Hr Ht; [done|].
assert (scope (shared y) = scope (shared x)) as E.
{ apply (final_value_stays operation process token value now x y (λ v, is_terminal v = true)); [|done..].
intros i current v. apply terminal_is_not_replaced. }
rewrite IH; [done| |by rewrite E]. by apply rtc_r with x.
Qed.
End concurrent.

(** ** Runs *)

Definition same_text (s : string) : string := s.

Definition some_paths : AcceptanceScopePaths :=
{| modelPaths := ["/run/models"]; appDataPaths := ["/run/data"]; sessionPaths := ["/run/session"] |}.

(** The scope that the parent prepares. *)
Definition parent_scope (runId artifactId : string) : js :=
Obj (buildScope runId artifactId "prepared" false None
       (new_owner same_text {| modelPaths := []; appDataPaths := []; sessionPaths := [] |} None)).

Definition sample_process (p parent : Z) (n : string) : Observation :=
{| identity := {| pid := p; creationTimeUtc := "2024-02-29T12:34:56.789Z"; executable := "/bin/" +:+ n |};
   parentPid := Some parent; name := n; commandLine := None |}.

Definition sample_snapshot : Snapshot := {|
  processes := [sample_process 100 1 "node"; sample_process 200 100 "capture-workbench-desktop.exe";
                sample_process 300 200 "capture-runtime.exe"; sample_process 400 1 "ollama.exe"];
  listeners := [{| host := "127.0.0.1"; port := 8765; owningPid := 300 |}] |}.

(** Every wait succeeds, and the file holds [value]. *)
Definition good_lease (value : js) : lease := {|
  acquire := Ok tt; probe := Ok sample_snapshot; read := Ok value; replaced := true; write := Ok tt; release := Ok tt |}.

Definition sample_lease : lease := good_lease (parent_scope "run" "artifact").

Definition prepared_owner : owner_state :=
(prepare same_text same_text 100 "run" "artifact" sample_lease
   (new_owner same_text some_paths None)).1.1.

Definition launched_owner : owner_state :=
(recordLaunch same_text same_text None 100 "run" "artifact" 200 sample_lease
   prepared_owner).1.1.

Definition finalized : owner_state * list (option js) * result string unit :=
finalizeFromManifest same_text same_text same_text None 100 "run" "artifact"
  sample_lease None sample_lease launched_owner.

(** The paths given to the constructor are replaced by the empty lists of the
file the parent prepares, yet stay counted as ready: without a call of
[setPaths] the terminal record claims complete evidence and names no path. *)
Lemma prepared_paths_are_lost :
hasPaths (paths (new_owner same_text some_paths None)) = true ∧
∃ first v, finalized.1.2 = [first; Some (Obj v)] ∧ finalized.2 = Ok tt ∧
  get v "status" = Str "terminal" ∧ get v "evidenceComplete" = Bool true ∧
  get v "modelPaths" = Arr [] ∧ get v "appDataPaths" = Arr [] ∧ get v "sessionPaths" = Arr [].
Proof. split; [done|]. eexists _, _. split; [vm_compute; reflexivity|]. by vm_compute. Qed.

Lemma owner_records_are_consistent_witness :
owner_ok "run" "artifact" launched_owner ∧
map owned_port (listenerRecords launched_owner RuntimeListener) = [8765].
Proof.
split; [|by vm_compute].
apply (owner_records_are_consistent same_text same_text same_text None 100 "run" "artifact" some_paths None).
eapply rtc_l; [apply step_prepare with (w := sample_lease)|].
eapply rtc_once. apply step_recordLaunch with (app := 200) (w := sample_lease).
Defined.

Definition refreshed : owner_state * option js * result string unit :=
  refresh same_text same_text None 100 "run" "artifact" sample_lease launched_owner.

Lemma complete_evidence_needs_the_final_refresh_witness :
∃ o1 first, refreshed = (o1, first, Ok tt) ∧ map (length ∘ processRecords o1) PROCESS_ROLES = [1; 1; 0; 1; 0]%nat.
Proof.
assert (match finalized.1.2 with [_; Some (Obj v)] => get v "evidenceComplete" = Bool true | _ => False end) as Hv
  by (vm_compute; reflexivity).
assert (map (length ∘ processRecords refreshed.1.1) PROCESS_ROLES = [1; 1; 0; 1; 0]%nat) as Hlen
  by (vm_compute; reflexivity).
assert (prepared launched_owner = true) as Hp by (vm_compute; reflexivity).
assert (∀ o' first v r, finalized = (o', [first; Some (Obj v)], r) → get v "evidenceComplete" = Bool true →
  ∃ o1, refreshed = (o1, first, Ok tt)) as H.
{ unfold finalized, refreshed. intros o' first v r E Hv'.
  destruct (complete_evidence_needs_the_final_refresh same_text same_text same_text None 100 "run" "artifact"
    sample_lease None sample_lease launched_owner o' first v r Hp E Hv') as (o1 & Ho & _).
  exists o1. exact Ho. }
destruct finalized as [[o' [|first [|[[| | | | | |v]|] [|]]]] r]; try (exfalso; exact Hv).
destruct (H o' first v r eq_refl Hv) as (o1 & Ho). exists o1, first. split; [exact Ho|].
by rewrite Ho in Hlen.
Defined.

(** One owner writes a terminal scope, another a prepared one. *)
Definition two_calls (i : nat) : scope_call :=
Writing [("status", Str (if decide (i = 0%nat) then "terminal" else "prepared"))] true launched_owner.

Definition terminal_run : option system :=
exec_all (λ i, operation_of same_text same_text same_text None (two_calls i)) own_process one_token
  (Start 0%nat :: creates 0 ++ [Call 0 (Scope Undefined); Call 0 Done; Call 0 Done; Call 0 Done]) (initial Undefined 1).

Lemma terminal_scope_is_final_witness :
∃ sys, terminal_run = Some sys ∧ is_terminal (scope (shared sys)) = true ∧
  ∀ sys', rtc (step (λ i, operation_of same_text same_text same_text None (two_calls i)) own_process one_token) sys sys' →
    scope (shared sys') = scope (shared sys).
Proof.
destruct terminal_run as [sys|] eqn:E; [|by vm_compute in E].
assert (is_terminal (scope (shared sys)) = true) as Ht by (vm_compute in E; by simplify_eq).
exists sys. split; [done|]. split; [done|]. intros sys' Hs.
apply (terminal_scope_is_final same_text same_text same_text None two_calls own_process one_token Undefined 1 sys sys'); [|done..].
by refine (exec_all_runs _ _ _ _ _ _ _ E).
Defined.
