(* ===== verification/ContractImpact.v ===== *)
(** * The impact of a contract change

    [src/tools/contract-impact.ts]: two snapshots of the generated contracts are
    compared, and the candidate is classified as without impact, additive,
    breaking, or for manual review.  The comparison of two JSON schemas
    ([compareSchema]) recurses on the candidate.  Reading the files and the
    command line are left out; the order in which [localeCompare] sorts is a
    parameter, since it depends on the locale. *)

From stdpp Require Import sorting.
From S2P Require Import Prelude JsString JsNum JsValue Json JsCoerce Stringify RuntimeErrors CanonicalJson.

(** ** Changes *)

Inductive impact : Type := Additive | Breaking | ManualReview.
#[export] Instance impact_eq_dec : EqDecision impact.
Proof. solve_decision. Defined.

Record change := { classification : impact; path : string; reason : string }.
#[export] Instance change_eq_dec : EqDecision change.
Proof. solve_decision. Defined.

Definition addChange (changes : list change) (kind : impact) (path reason : string) : list change :=
let c := {| classification := kind; path := path; reason := reason |} in
if decide (c ∈ changes) then changes else changes ++ [c].

(** A conditional [addChange]. *)
Definition add_if (b : bool) (kind : impact) (path reason : string) (changes : list change) : list change :=
if b then addChange changes kind path reason else changes.

(** ** Canonical values *)

Definition field_le (x y : string * js) : Prop := string_le x.1 y.1.
#[export] Instance field_le_dec : RelDecision field_le.
Proof. intros x y. apply string_le_dec. Defined.

(** [Object.keys(value).sort()] with the values. *)
Definition sort_fields (r : fields) : fields := merge_sort field_le r.

Fixpoint canonicalize (v : js) : js :=
match v with
| Arr l => Arr (map canonicalize l)
| Obj r => object_of_members (sort_fields (map (λ kv, (kv.1, canonicalize kv.2)) r))
| _ => v
end.

Definition equal (left right : js) : bool :=
bool_decide (JSON_stringify (canonicalize left) = JSON_stringify (canonicalize right)).

(** [JSON.stringify(item)] in a template, [undefined] printed as such. *)
Definition json_text (v : js) : string := default "undefined" (JSON_stringify v).

(** ** Objects and what they inherit *)

(** The properties of [Object.prototype]. *)
Definition inherited : list string :=
["constructor"; "__defineGetter__"; "__defineSetter__"; "hasOwnProperty"; "__lookupGetter__"; "__lookupSetter__";
 "isPrototypeOf"; "propertyIsEnumerable"; "toString"; "valueOf"; "__proto__"; "toLocaleString"].

(** [name in object] *)
Definition in_object (r : fields) (name : string) : bool := has_key r name || includes inherited name.

(** [object[name]].  An inherited function is, like [undefined], no record and
has no JSON text; the prototype itself is an object without own enumerable
properties. *)
Definition member_of (r : fields) (name : string) : js :=
if has_key r name then get r name else if String.eqb name "__proto__" then Obj [] else Undefined.

Definition record_or_empty (v : js) : fields := default [] (as_object v).

(** [new Set(list)] in insertion order, for a given equality. *)
Definition set_of {A} (eqb : A → A → bool) (l : list A) : list A :=
fold_left (λ s x, if existsb (eqb x) s then s else s ++ [x]) l [].

(** ** Comparing schemas *)

Definition compareEnum (baseline candidate : list js) (path : string) (changes : list change) : list change :=
let baselineValues := set_of String.eqb (map json_text baseline) in
let candidateValues := set_of String.eqb (map json_text candidate) in
let changes := fold_left (λ cs value, add_if (negb (includes candidateValues value)) Breaking path
  ("Enum value removed: " +:+ value +:+ ".") cs) baselineValues changes in
fold_left (λ cs value, add_if (negb (includes baselineValues value)) ManualReview path
  ("Closed enum value added: " +:+ value +:+ ".") cs) candidateValues changes.

(** One loop over the names of a [required] list; [String(name)] may throw. *)
Fixpoint report_names (names known : list js) (kind : impact) (path prefix : string) (changes : list change)
  : outcome (list change) :=
match names with
| [] => Ok changes
| name :: rest =>
    if existsb (strict_eqb name) known then report_names rest known kind path prefix changes
    else
      text ← to_string name;
      report_names rest known kind path prefix (addChange changes kind path (prefix +:+ text +:+ "."))
end.

Definition compare_required (baseline candidate : js) (path : string) (changes : list change) : outcome (list change) :=
match baseline, candidate with
| Arr b, Arr c =>
    let b := set_of strict_eqb b in
    let c := set_of strict_eqb c in
    changes ← report_names c b Breaking path "Required property added: " changes;
    report_names b c ManualReview path "Required property removed: " changes
| _, _ => Ok (add_if (negb (equal baseline candidate)) ManualReview path "Required-property policy changed." changes)
end.

Definition compare_enums (baseline candidate : js) (path : string) (changes : list change) : list change :=
match baseline, candidate with
| Arr b, Arr c => compareEnum b c path changes
| _, _ => add_if (negb (equal baseline candidate)) ManualReview path "Enum representation changed." changes
end.

Definition is_false (v : js) : bool := strict_eqb v (Bool false).

Definition compare_additional (baseline candidate : js) (path : string) (changes : list change) : list change :=
if is_false baseline && negb (is_false candidate) then addChange changes Additive path "Object became more permissive."
else if negb (is_false baseline) && is_false candidate then addChange changes Breaking path "Object became restrictive."
else add_if (negb (equal baseline candidate)) ManualReview path "Additional-property policy changed." changes.

Definition removed_properties (baseline candidate : fields) (path : string) (changes : list change) : list change :=
fold_left (λ cs name, add_if (negb (in_object candidate name)) Breaking (path +:+ ".properties." +:+ name)
  "Property removed or renamed." cs) (keys baseline) changes.

(** What compares a subterm of the candidate with a baseline. *)
Definition comparer : Type := js → string → list change → outcome (list change).

(** The loop over the properties of the candidate. *)
Fixpoint compare_properties (strict : bool) (required : list string) (baseline : fields) (path : string)
  (candidate : list (string * comparer)) (changes : list change) : outcome (list change) :=
match candidate with
| [] => Ok changes
| (name, compare) :: rest =>
    let at_ := path +:+ ".properties." +:+ name in
    changes ←
      (if in_object baseline name then compare (member_of baseline name) at_ changes
       else Ok (if includes required name then addChange changes Breaking at_ "New property is required."
                else if strict then addChange changes ManualReview at_ "Optional property may be rejected by existing strict consumers."
                else addChange changes Additive at_ "New optional property is accepted by existing consumers."));
    compare_properties strict required baseline path rest changes
end.

(** Report each of the keys at which the two objects differ. *)
Definition compare_keys (ks : list string) (baseline candidate : fields) (path : string) (reason : string → string)
  (kind : impact) (changes : list change) : list change :=
fold_left (λ cs key, add_if (negb (equal (get baseline key) (get candidate key))) kind (path +:+ "." +:+ key) (reason key) cs)
  ks changes.

Definition ignored : list string :=
["$id"; "$schema"; "additionalProperties"; "anyOf"; "allOf"; "description"; "enum"; "items"; "oneOf"; "properties";
 "required"; "title"; "type"].

Fixpoint to_strings (l : list js) : outcome (list string) :=
match l with [] => Ok [] | v :: l' => s ← to_string v; rest ← to_strings l'; Ok (s :: rest) end.

(** Two records; [properties] and [items] compare the parts of the candidate. *)
Definition compare_records (br cr : fields) (properties : list (string * comparer)) (items : comparer)
  (path : string) (changes : list change) : outcome (list change) :=
let changes := compare_keys ["$id"; "$schema"] br cr path (λ key, key +:+ " changed.") Breaking changes in
if equal (get br "type") (get cr "type") then
  let changes := compare_enums (get br "enum") (get cr "enum") (path +:+ ".enum") changes in
  changes ← compare_required (get br "required") (get cr "required") (path +:+ ".required") changes;
  let changes := compare_additional (get br "additionalProperties") (get cr "additionalProperties")
    (path +:+ ".additionalProperties") changes in
  let baselineProperties := record_or_empty (get br "properties") in
  let candidateProperties := record_or_empty (get cr "properties") in
  required ← (match get cr "required" with Arr l => to_strings l | _ => Ok [] end);
  let changes := removed_properties baselineProperties candidateProperties path changes in
  changes ← compare_properties (is_false (get br "additionalProperties")) required baselineProperties path properties changes;
  changes ← (if is_undefined (get br "items") && is_undefined (get cr "items") then Ok changes
             else items (get br "items") (path +:+ ".items") changes);
  let changes := compare_keys ["anyOf"; "oneOf"; "allOf"] br cr path (λ key, key +:+ " composition changed.") ManualReview changes in
  Ok (compare_keys (List.filter (λ key, negb (includes ignored key)) (set_of String.eqb (keys br ++ keys cr)))
        br cr path (λ _, "Schema constraint changed.") ManualReview changes)
else Ok (addChange changes ManualReview (path +:+ ".type") "Schema type changed.").

(** At least one of the two is no record. *)
Definition compare_values (candidate : js) : comparer := λ baseline path changes,
Ok (add_if (negb (equal baseline candidate)) ManualReview path "Schema shape changed in an unknown way." changes).

Fixpoint compare_with (candidate : js) : comparer :=
match candidate with
| Obj cr => λ baseline path changes,
    match baseline with
    | Obj br =>
        let members := map (λ kv, (kv.1, (compare_with kv.2,
          match kv.2 with Obj pr => map (λ kw, (kw.1, compare_with kw.2)) pr | _ => [] end))) cr in
        compare_records br cr
          (match table_find members "properties" with Some m => m.2 | None => [] end)
          (match table_find members "items" with Some m => m.1 | None => compare_values Undefined end) path changes
    | _ => compare_values candidate baseline path changes
    end
| _ => compare_values candidate
end.

Definition compareSchema (baseline candidate : js) (path : string) (changes : list change) : outcome (list change) :=
compare_with candidate baseline path changes.

(** ** Manifests and collections *)

Definition generated_keys : list string :=
["generator"; "packageVersion"; "runtimeVersion"; "schemaSha256"; "captureDocumentSchemaSha256"].

Fixpoint semanticManifest (v : js) : js :=
match v with
| Arr l => Arr (map semanticManifest l)
| Obj r => object_of_members (List.filter (λ kv, negb (includes generated_keys kv.1)) (map (λ kv, (kv.1, semanticManifest kv.2)) r))
| _ => v
end.

Section classify.
(** [sort] with [localeCompare] on the JSON texts. *)
Variable locale_sort : list js → list js.

Definition sortedCollection (l : list js) : list js := locale_sort (map canonicalize l).

Definition compareCollections (baseline candidate : list js) (path : string) (changes : list change) : list change :=
let baselineSet := set_of String.eqb (map json_text (sortedCollection baseline)) in
let candidateSet := set_of String.eqb (map json_text (sortedCollection candidate)) in
let changes := fold_left (λ cs value, add_if (negb (includes candidateSet value)) Breaking path
("Entry removed: " +:+ value +:+ ".") cs) baselineSet changes in
fold_left (λ cs value, add_if (negb (includes baselineSet value)) ManualReview path
("Entry added: " +:+ value +:+ ".") cs) candidateSet changes.

(** ** Snapshots *)

Record ContractSnapshot := {
releaseVersion : string;
runtimeApi : fields;
contractManifest : fields;
schemas : fields;
typescript : string;
python : string;
events : list js;
errorCodes : list js;
contractSetSha256 : string;
}.

Definition validateSnapshot (value : js) (label : string) : outcome ContractSnapshot :=
match as_object value with
| None => Err (OtherError (label +:+ " snapshot must be an object."))
| Some r =>
  match is_str (get r "schemaVersion") "1", get r "releaseVersion", get r "runtimeApi", get r "contractManifest",
    get r "schemas", get r "typescript", get r "python", get r "events", get r "errorCodes", get r "contractSetSha256" with
  | true, Str release, Obj api, Obj manifest, Obj schemas, Str ts, Str py, Arr events, Arr codes, Str digest =>
      if is_sha256_hex digest then
        Ok {| releaseVersion := release; runtimeApi := api; contractManifest := manifest; schemas := schemas;
              typescript := ts; python := py; events := events; errorCodes := codes; contractSetSha256 := digest |}
      else Err (OtherError (label +:+ " snapshot is incomplete; expected runtimeApi, contractManifest, schemas, contractSetSha256."))
  | _, _, _, _, _, _, _, _, _, _ =>
      Err (OtherError (label +:+ " snapshot is incomplete; expected runtimeApi, contractManifest, schemas, contractSetSha256."))
  end
end.

(** The loop over the names of both snapshots. *)
Fixpoint compare_schemas (names : list string) (baseline candidate : fields) (changes : list change) : outcome (list change) :=
match names with
| [] => Ok changes
| name :: rest =>
  changes ←
    (if negb (in_object baseline name) then Ok (addChange changes Additive ("schemas." +:+ name) "New schema definition added.")
     else if negb (in_object candidate name) then Ok (addChange changes Breaking ("schemas." +:+ name) "Schema definition removed.")
     else compareSchema (member_of baseline name) (member_of candidate name) ("schemas." +:+ name) changes);
  compare_schemas rest baseline candidate changes
end.

Definition elements (v : js) : list js := match v with Arr l => l | _ => [] end.

Definition without_enums (manifest : fields) : js := Obj (set_member "enums" Undefined manifest).

Definition compare_manifests (baseline candidate : fields) (changes : list change) : list change :=
if equal (semanticManifest (Obj baseline)) (semanticManifest (Obj candidate)) then changes
else
let changes := compareCollections (elements (get baseline "enums")) (elements (get candidate "enums")) "contractManifest.enums" changes in
add_if (negb (equal (semanticManifest (without_enums baseline)) (semanticManifest (without_enums candidate))))
  ManualReview "contractManifest" "Generated contract metadata changed." changes.

Definition api_changes (baseline candidate : fields) (changes : list change) : list change :=
fold_left (λ cs kr, add_if (negb (equal (get baseline kr.1) (get candidate kr.1))) Breaking ("runtimeApi." +:+ kr.1) kr.2 cs)
[("apiVersion", "Runtime API version changed."); ("documentSchemaVersion", "Document schema version changed.");
 ("documentSchemaId", "Document schema ID changed.")] changes.

Definition all_changes (baseline candidate : ContractSnapshot) : outcome (list change) :=
let changes := add_if (negb (String.eqb (contractSetSha256 baseline) (contractSetSha256 candidate))) Breaking
"contractSetSha256" "Canonical contract-set bundle hash changed." [] in
let changes := api_changes (runtimeApi baseline) (runtimeApi candidate) changes in
changes ← compare_schemas (sort_keys (set_of String.eqb (keys (schemas baseline) ++ keys (schemas candidate))))
(schemas baseline) (schemas candidate) changes;
let changes := compare_manifests (contractManifest baseline) (contractManifest candidate) changes in
let changes := add_if (negb (String.eqb (typescript baseline) (typescript candidate))) ManualReview "typescript"
"Generated TypeScript contract semantics changed." changes in
let changes := add_if (negb (String.eqb (python baseline) (python candidate))) ManualReview "python"
"Generated Python contract semantics changed." changes in
let changes := compareCollections (events baseline) (events candidate) "events" changes in
Ok (compareCollections (errorCodes baseline) (errorCodes candidate) "errorCodes" changes).

(** [no-impact] is [None]. *)
Definition classification_of (changes : list change) : option impact :=
if existsb (λ c, bool_decide (classification c = Breaking)) changes then Some Breaking
else if existsb (λ c, bool_decide (classification c = ManualReview)) changes then Some ManualReview
else match changes with [] => None | _ => Some Additive end.

Record ContractImpactResult := {
result_classification : option impact;
baselineRelease : string;
result_candidateId : string;
changes_of : list change;
}.

Definition classifyContractImpact (baselineValue candidateValue : js) (candidateId : string) : outcome ContractImpactResult :=
reject_if (negb (is_sha256_hex candidateId)) (OtherError "Candidate ID must be a lowercase SHA-256 digest.");;
baseline ← validateSnapshot baselineValue "Baseline";
candidate ← validateSnapshot candidateValue "Candidate";
changes ← all_changes baseline candidate;
Ok {| result_classification := classification_of changes; baselineRelease := releaseVersion baseline;
    result_candidateId := candidateId; changes_of := changes |}.
End classify.

(** ** Facts about changes *)

Lemma add_if_false kind path reason changes : add_if false kind path reason changes = changes.
Proof. done. Qed.

Lemma addChange_not_nil changes kind path reason : addChange changes kind path reason ≠ [].
Proof. unfold addChange. destruct (decide _) as [Hin|_]; [by intros ->; apply elem_of_nil in Hin|by destruct changes]. Qed.

(** Changes are only added. *)
Lemma addChange_grows changes kind path reason : changes ⊆ addChange changes kind path reason.
Proof. unfold addChange. destruct (decide _); [set_solver|]. set_solver. Qed.

Lemma add_if_nil b kind path reason changes :
add_if b kind path reason changes = [] ↔ changes = [] ∧ b = false.
Proof. destruct b; cbn; [|naive_solver]. split; [by intros ?%addChange_not_nil|by intros [_ ?]]. Qed.

(** A loop of conditional changes reports nothing iff no condition holds. *)
Lemma add_all_nil {A} (f : A → bool) kind (at_ why : A → string) l changes :
fold_left (λ cs x, add_if (f x) kind (at_ x) (why x) cs) l changes = [] ↔ changes = [] ∧ Forall (λ x, f x = false) l.
Proof.
revert changes. induction l as [|x l IH]; intros changes; cbn; [naive_solver|].
rewrite IH, add_if_nil, Forall_cons. tauto.
Qed.

Lemma set_of_elem {A} (eqb : A → A → bool) l x : x ∈ set_of eqb l → x ∈ l.
Proof.
unfold set_of. assert (∀ s, x ∈ fold_left (λ s x, if existsb (eqb x) s then s else s ++ [x]) l s → x ∈ s ∨ x ∈ l) as H.
{ induction l as [|y l IH]; intros s; cbn; [by left|]. intros [Hs|Hl]%IH; [|by right; right].
  destruct (existsb (eqb y) s); [by left|]. apply elem_of_app in Hs as [|Hy%list_elem_of_singleton]; [by left|].
  right. subst. by left. }
intros Hx%H. destruct Hx as [Hx|]; [by apply elem_of_nil in Hx|done].
Qed.

Lemma set_of_strings l x : x ∈ set_of String.eqb l ↔ x ∈ l.
Proof.
split; [apply set_of_elem|]. unfold set_of.
assert (∀ s, x ∈ s ∨ x ∈ l → x ∈ fold_left (λ s x, if existsb (String.eqb x) s then s else s ++ [x]) l s) as H; [|auto].
induction l as [|y l IH]; intros s; cbn; [by intros [|?%elem_of_nil]|].
intros Hx. apply IH. destruct (existsb (String.eqb y) s) eqn:E.
- destruct Hx as [|[->|]%elem_of_cons]; [by left| |by right]. left.
  apply existsb_true in E as (z & Hz & ->%String.eqb_eq). done.
- rewrite elem_of_app, list_elem_of_singleton. destruct Hx as [|[|]%elem_of_cons]; auto.
Qed.

(** ** Schemas that are the same *)

Definition same_enum (b c : js) : Prop :=
match b, c with
| Arr x, Arr y => ∀ t, t ∈ map json_text x ↔ t ∈ map json_text y
| _, _ => equal b c = true
end.

(** Every name of the one list is in the other. *)
Definition names_within (xs ys : list js) : Prop := Forall (λ x, existsb (strict_eqb x) ys = true) xs.

Definition same_required (b c : js) : Prop :=
match b, c with
| Arr x, Arr y => names_within (set_of strict_eqb y) (set_of strict_eqb x) ∧ names_within (set_of strict_eqb x) (set_of strict_eqb y)
| _, _ => equal b c = true
end.

(** The names [String] can print. *)
Definition printable (v : js) : Prop := match v with Arr l => ∃ names, to_strings l = Ok names | _ => True end.

(** Compared in a way of their own, or not at all. *)
Definition special_keys : list string := ["title"; "description"; "enum"; "required"; "properties"; "items"].

Definition properties_of (r : fields) : fields := record_or_empty (get r "properties").

(** The two schemas differ in titles and descriptions, in the order of keys,
enumerated values and required names, and in nothing else. *)
Inductive same_schema : js → js → Prop :=
| same_value b c : as_object b = None ∨ as_object c = None → equal b c = true → same_schema b c
| same_record br cr :
    (∀ key, key ∉ special_keys → equal (get br key) (get cr key) = true) →
    is_false (get br "additionalProperties") = is_false (get cr "additionalProperties") →
    same_enum (get br "enum") (get cr "enum") →
    same_required (get br "required") (get cr "required") → printable (get cr "required") →
    (∀ name, name ∈ keys (properties_of br) → in_object (properties_of cr) name = true) →
    (∀ name v, (name, v) ∈ properties_of cr →
       in_object (properties_of br) name = true ∧ same_schema (member_of (properties_of br) name) v) →
    (get br "items" = Undefined ∧ get cr "items" = Undefined ∨ same_schema (get br "items") (get cr "items")) →
    same_schema (Obj br) (Obj cr).

Lemma compareEnum_nil x y path changes :
compareEnum x y path changes = [] ↔ changes = [] ∧ ∀ t, t ∈ map json_text x ↔ t ∈ map json_text y.
Proof.
unfold compareEnum. rewrite (add_all_nil (λ v, negb (includes _ v))), (add_all_nil (λ v, negb (includes _ v))).
rewrite !Forall_forall. setoid_rewrite negb_false_iff. setoid_rewrite includes_spec. setoid_rewrite set_of_strings.
naive_solver.
Qed.

Lemma compare_enums_nil b c path changes : compare_enums b c path changes = [] ↔ changes = [] ∧ same_enum b c.
Proof.
unfold compare_enums, same_enum.
destruct b, c; first [apply compareEnum_nil | rewrite add_if_nil, negb_false_iff; reflexivity].
Qed.

Lemma report_names_nil names known kind path prefix changes :
report_names names known kind path prefix changes = Ok [] ↔ changes = [] ∧ names_within names known.
Proof.
revert changes. induction names as [|name names IH]; intros changes; cbn.
- unfold names_within. split; [by intros [= ->]|by intros [-> _]].
- unfold names_within in *. rewrite Forall_cons. destruct (existsb (strict_eqb name) known); [rewrite IH; tauto|].
  split; [|by intros (_ & ? & _)]. intros (text & _ & [E _]%IH)%bind_Ok. by apply addChange_not_nil in E.
Qed.

Lemma report_unequal_nil b kind path reason changes :
@Ok thrown _ (add_if (negb b) kind path reason changes) = Ok [] ↔ changes = [] ∧ b = true.
Proof. rewrite <-(negb_false_iff b), <-(add_if_nil (negb b) kind path reason). split; [by intros [=]|by intros ->]. Qed.

Lemma compare_required_nil b c path changes :
compare_required b c path changes = Ok [] ↔ changes = [] ∧ same_required b c.
Proof.
unfold compare_required, same_required.
destruct b as [| | | | |x|], c as [| | | | |y|];
  try apply report_unequal_nil.
rewrite bind_Ok. setoid_rewrite report_names_nil. split.
- intros (mid & H & -> & ?). apply report_names_nil in H as [-> ?]. auto.
- intros (-> & H & ?). exists []. by rewrite report_names_nil.
Qed.

Lemma compare_additional_nil b c path changes :
compare_additional b c path changes = [] ↔ changes = [] ∧ is_false b = is_false c ∧ equal b c = true.
Proof.
unfold compare_additional. destruct (is_false b), (is_false c); cbn; rewrite ?add_if_nil, ?negb_false_iff;
  [tauto| | |tauto]; (split; [by intros ?%addChange_not_nil|by intros (_ & ? & _)]).
Qed.

(** A comparison that reports nothing was given nothing. *)
Definition keeps_changes (f : comparer) : Prop := ∀ b path changes, f b path changes = Ok [] → changes = [].

Lemma compare_properties_nil strict required baseline path props changes :
Forall (λ p, keeps_changes p.2) props →
compare_properties strict required baseline path props changes = Ok [] ↔
changes = [] ∧ Forall (λ p, in_object baseline p.1 = true ∧
  p.2 (member_of baseline p.1) (path +:+ ".properties." +:+ p.1) [] = Ok []) props.
Proof.
intros Hkeep. revert changes. induction Hkeep as [|[name f] props Hf Hkeep IH]; intros changes; cbn.
- split; [by intros [= ->]|by intros [-> _]].
- rewrite Forall_cons, bind_Ok. setoid_rewrite IH. cbn. destruct (in_object baseline name).
  + split.
    * intros (mid & Hm & -> & Hall). pose proof (Hf _ _ _ Hm) as ->. auto.
    * intros (-> & [_ Hm] & Hall). eauto.
  + split; [|by intros (_ & [? _] & _)]. intros (mid & [= <-] & E & _).
    by destruct (includes required name), strict; apply addChange_not_nil in E.
Qed.

Lemma compare_keys_nil ks br cr path reason kind changes :
compare_keys ks br cr path reason kind changes = [] ↔
changes = [] ∧ Forall (λ key, equal (get br key) (get cr key) = true) ks.
Proof.
unfold compare_keys. rewrite (add_all_nil (λ key, negb (equal (get br key) (get cr key)))).
by setoid_rewrite negb_false_iff.
Qed.

(** The keys of two records that are compared as whole values. *)
Lemma whole_keys br cr :
let eq_at key := equal (get br key) (get cr key) = true in
(∀ key, key ∉ special_keys → eq_at key) ↔
Forall eq_at ["$id"; "$schema"] ∧ eq_at "type" ∧ eq_at "additionalProperties" ∧ Forall eq_at ["anyOf"; "oneOf"; "allOf"] ∧
Forall eq_at (List.filter (λ key, negb (includes ignored key)) (set_of String.eqb (keys br ++ keys cr))).
Proof.
intros eq_at. split.
- intros H. split_and!; repeat apply Forall_cons_2; try (apply H; set_solver); try apply Forall_nil_2.
  apply Forall_forall. intros key Hk. apply H. rewrite list_elem_of_In, filter_In, negb_true_iff, includes_false in Hk.
  destruct Hk as [_ Hk]. intros Hs. apply Hk. revert Hs. unfold special_keys, ignored. set_solver.
- rewrite !Forall_cons. intros ((H1 & H2 & _) & H3 & H4 & (H5 & H6 & H7 & _) & H) key Hs. rewrite Forall_forall in H.
  destruct (decide (key ∈ ignored)) as [Hi|Hi].
  + assert (key ∈ ["$id"; "$schema"; "type"; "additionalProperties"; "anyOf"; "oneOf"; "allOf"]) as Hk.
    { unfold special_keys, ignored in *. set_solver. }
    repeat (apply elem_of_cons in Hk as [->|Hk]; [done|]). by apply elem_of_nil in Hk.
  + destruct (decide (key ∈ keys br ++ keys cr)) as [Hk|Hk].
    * apply H. rewrite list_elem_of_In, filter_In, negb_true_iff, includes_false, <-list_elem_of_In, set_of_strings. done.
    * rewrite elem_of_app in Hk. unfold eq_at. rewrite !get_absent by tauto. done.
Qed.

Arguments compare_keys : simpl never.

Lemma to_strings_step {A} (v : js) (k : list string → outcome A) r :
(required ← (match v with Arr l => to_strings l | _ => Ok [] end); k required) = Ok r →
printable v ∧ ∃ required, k required = Ok r.
Proof. intros (required & H & Hk)%bind_Ok. split; [|by exists required]. destruct v; cbn; eauto. Qed.

Lemma compare_records_nil br cr props items path changes :
Forall (λ p, keeps_changes p.2) props → keeps_changes items →
compare_records br cr props items path changes = Ok [] ↔
changes = [] ∧ (∀ key, key ∉ special_keys → equal (get br key) (get cr key) = true) ∧
is_false (get br "additionalProperties") = is_false (get cr "additionalProperties") ∧
same_enum (get br "enum") (get cr "enum") ∧ same_required (get br "required") (get cr "required") ∧
printable (get cr "required") ∧
(∀ name, name ∈ keys (properties_of br) → in_object (properties_of cr) name = true) ∧
Forall (λ p, in_object (properties_of br) p.1 = true ∧
  p.2 (member_of (properties_of br) p.1) (path +:+ ".properties." +:+ p.1) [] = Ok []) props ∧
(get br "items" = Undefined ∧ get cr "items" = Undefined ∨ items (get br "items") (path +:+ ".items") [] = Ok []).
Proof.
intros Hprops Hitems. rewrite (whole_keys br cr). unfold compare_records, properties_of. cbv zeta.
destruct (equal (get br "type") (get cr "type")) eqn:Htype;
  [|split; [by intros [= ?%addChange_not_nil]|by intros (_ & (_ & ? & _) & _)]].
split.
- intros (c1 & H1 & H)%bind_Ok. apply to_strings_step in H as (Hprint & names & H).
  apply bind_Ok in H as (c2 & H2 & (c3 & H3 & H)%bind_Ok). apply Ok_inj in H.
  apply compare_keys_nil in H as [[-> Hcomp]%compare_keys_nil Hrest].
  assert (c2 = [] ∧ (get br "items" = Undefined ∧ get cr "items" = Undefined ∨ items (get br "items") (path +:+ ".items") [] = Ok []))
    as [-> Hi].
  { destruct (is_undefined (get br "items") && is_undefined (get cr "items")) eqn:Hu.
    - injection H3 as ->. split; [done|]. left. by destruct (get br "items"), (get cr "items").
    - pose proof (Hitems _ _ _ H3) as ->. auto. }
  apply compare_properties_nil in H2 as [H2 Hall]; [|done]. unfold removed_properties in H2.
  apply (add_all_nil (λ name, negb (in_object _ name))) in H2 as [H2 Hremoved].
  apply compare_additional_nil in H2 as (-> & Hf & Hadd). apply compare_required_nil in H1 as [H1 Hreq].
  apply compare_enums_nil in H1 as [[-> Hid]%compare_keys_nil Henum].
  rewrite Forall_forall in Hremoved. split_and!; try done. intros name Hn. by apply negb_false_iff, Hremoved.
- intros (-> & (Hid & _ & Hadd & Hcomp & Hrest) & Hf & Henum & Hreq & Hprint & Hremoved & Hall & Hi).
  rewrite (proj2 (compare_keys_nil ["$id"; "$schema"] br cr path _ Breaking [])) by done.
  rewrite (proj2 (compare_enums_nil _ _ _ _)) by done.
  rewrite (proj2 (compare_required_nil _ _ _ _)) by done. cbn [mbind result_bind].
  rewrite (proj2 (compare_additional_nil _ _ _ _)) by done.
  assert (∃ names, (match get cr "required" with Arr l => to_strings l | _ => Ok [] end) = Ok names) as [names ->].
  { destruct (get cr "required"); eauto. }
  cbn [mbind result_bind].
  assert (removed_properties (record_or_empty (get br "properties")) (record_or_empty (get cr "properties")) path [] = []) as ->.
  { apply (add_all_nil (λ name, negb (in_object _ name))). split; [done|]. apply Forall_forall. intros name Hn.
    apply negb_false_iff. by apply Hremoved. }
  rewrite (proj2 (compare_properties_nil _ _ _ _ _ [] Hprops)) by done. cbn [mbind result_bind].
  assert ((if is_undefined (get br "items") && is_undefined (get cr "items") then Ok []
           else items (get br "items") (path +:+ ".items") []) = Ok []) as ->.
  { destruct Hi as [[-> ->]| ->]; [done|]. by destruct (_ && _). }
  cbn [mbind result_bind]. f_equal. apply compare_keys_nil. split; [|done]. by apply compare_keys_nil.
Qed.

(** The parts of a candidate and what compares them. *)
Lemma table_find_map {A B} (f : A → B) (r : list (string * A)) key :
table_find (map (λ kv, (kv.1, f kv.2)) r) key = f <$> table_find r key.
Proof. unfold table_find. induction r as [|[k v] r IH]; cbn; [done|]. by destruct (String.eqb k key). Qed.

Lemma table_find_get r key : default Undefined (table_find r key) = get r key.
Proof.
unfold table_find. induction r as [|[k v] r IH]; cbn; [done|]. rewrite String.eqb_sym.
by destruct (String.eqb key k).
Qed.

Definition property_comparers (v : js) : list (string * comparer) :=
match v with Obj pr => map (λ kw, (kw.1, compare_with kw.2)) pr | _ => [] end.

(** The recursion of [compareSchema], as the code has it. *)
Lemma compare_with_Obj br cr path changes :
compare_with (Obj cr) (Obj br) path changes =
compare_records br cr (property_comparers (get cr "properties")) (compare_with (get cr "items")) path changes.
Proof.
cbn [compare_with].
rewrite !(table_find_map (λ v, (compare_with v, match v with Obj pr => map (λ kw, (kw.1, compare_with kw.2)) pr | _ => [] end))).
rewrite <-!table_find_get. by destruct (table_find cr "properties"), (table_find cr "items").
Qed.

Lemma compare_with_value c b path changes :
as_object b = None ∨ as_object c = None → compare_with c b path changes = compare_values c b path changes.
Proof. intros H. destruct c, b; cbn in *; try done. by destruct H. Qed.

Lemma same_value_inv b c : as_object b = None ∨ as_object c = None → same_schema b c ↔ equal b c = true.
Proof.
intros Hv. split; [|by apply same_value]. intros H. destruct H; [done|]. by destruct Hv.
Qed.

Definition compared (c : js) : Prop :=
keeps_changes (compare_with c) ∧ ∀ b path, compare_with c b path [] = Ok [] ↔ same_schema b c.

Lemma compared_value c b path changes :
as_object b = None ∨ as_object c = None →
compare_with c b path changes = Ok [] ↔ changes = [] ∧ same_schema b c.
Proof.
intros Hv. rewrite compare_with_value, same_value_inv by done. apply report_unequal_nil.
Qed.

Lemma compared_record cr :
Forall (λ kv, compared kv.2) (properties_of cr) → compared (get cr "items") →
∀ b path changes, compare_with (Obj cr) b path changes = Ok [] ↔ changes = [] ∧ same_schema b (Obj cr).
Proof.
intros Hprops [Hik Hi] b path changes. destruct b as [| | | | | |br]; try (apply compared_value; by left).
rewrite compare_with_Obj.
assert (property_comparers (get cr "properties") = map (λ kw, (kw.1, compare_with kw.2)) (properties_of cr)) as ->.
{ unfold properties_of. by destruct (get cr "properties"). }
rewrite Forall_forall in Hprops. rewrite compare_records_nil; [|apply Forall_map, Forall_forall|done].
2: { intros kv Hkv. by apply Hprops. }
rewrite Forall_map, Forall_forall. cbn. rewrite (Hi (get br "items")).
split.
- intros (-> & Hw & Hf & He & Hr & Hp & Hrm & Hall & Hit). split; [done|]. apply same_record; try done.
  intros name v Hv. specialize (Hall _ Hv). cbn in Hall. destruct Hall as [? Hc]. split; [done|].
  by apply (proj2 (Hprops _ Hv)) in Hc.
- intros [-> Hs]. inversion Hs as [? ? Hv|br' cr' Hw Hf He Hr Hp Hrm Hall Hit]; subst; [by destruct Hv|].
  do 7 (split; [done|]). split; [|done]. intros [name v] Hv. destruct (Hall name v Hv) as [? Hc]. split; [done|].
  by apply (proj2 (Hprops _ Hv)).
Qed.

Lemma all_compared c : compared c ∧ Forall (λ kv, compared kv.2) (record_or_empty c).
Proof.
induction c as [| | | | |l _|r IH] using js_ind.
1-6: split; [|apply Forall_nil_2]; split; [intros base at_ ch H|intros base at_];
  rewrite compared_value in * by (by right); tauto.
assert (Forall (λ kv, compared kv.2) r) as Hr by (eapply Forall_impl; [exact IH|]; by intros kv [? _]).
assert (compared (get r "items") ∧ Forall (λ kv, compared kv.2) (properties_of r)) as [Hi Hp].
{ assert (∀ key, compared (get r key) ∧ Forall (λ kv, compared kv.2) (record_or_empty (get r key))) as Hget.
  { intros key. induction IH as [|[k v] r' Hv _ IHr]; cbn.
    - split; [|apply Forall_nil_2]. split; [intros base at_ ch H|intros base at_]; rewrite compared_value in * by (by right); tauto.
    - inversion Hr; subst. destruct (String.eqb key k); [exact Hv|]. by apply IHr. }
  split; [apply Hget|apply (Hget "properties")]. }
split; [|exact Hr]. split; [intros base at_ ch H|intros base at_]; rewrite compared_record in * by done; tauto.
Qed.


(** ** Reported changes stay *)

Definition has_breaking (changes : list change) : Prop := ∃ x, x ∈ changes ∧ classification x = Breaking.

Lemma has_breaking_mono changes changes' : changes ⊆ changes' → has_breaking changes → has_breaking changes'.
Proof. intros Hs (x & Hx & Hb). exists x. auto. Qed.

Lemma addChange_breaking changes path reason : has_breaking (addChange changes Breaking path reason).
Proof.
eexists {| classification := Breaking; path := path; reason := reason |}. split; [|done].
unfold addChange. destruct (decide _); [done|]. set_solver.
Qed.

Lemma add_if_grows b kind path reason changes : changes ⊆ add_if b kind path reason changes.
Proof. destruct b; [apply addChange_grows|done]. Qed.

Lemma add_all_grows {A} (f : A → bool) kind (at_ why : A → string) l changes :
changes ⊆ fold_left (λ cs x, add_if (f x) kind (at_ x) (why x) cs) l changes.
Proof.
revert changes. induction l as [|x l IH]; intros changes; cbn; [done|].
etrans; [|apply IH]. apply add_if_grows.
Qed.

Lemma add_all_breaking {A} (f : A → bool) (at_ why : A → string) l x changes :
x ∈ l → f x = true → has_breaking (fold_left (λ cs x, add_if (f x) Breaking (at_ x) (why x) cs) l changes).
Proof.
intros Hx Hf. revert changes. induction l as [|y l IH]; intros changes; cbn; [by apply elem_of_nil in Hx|].
apply elem_of_cons in Hx as [<-|Hx]; [|by apply IH].
rewrite Hf. eapply has_breaking_mono; [apply add_all_grows|apply addChange_breaking].
Qed.

Lemma compareEnum_grows x y path changes : changes ⊆ compareEnum x y path changes.
Proof.
unfold compareEnum. etrans; [|apply (add_all_grows (λ v, negb (includes (set_of String.eqb (map json_text x)) v)))].
apply (add_all_grows (λ v, negb (includes (set_of String.eqb (map json_text y)) v))).
Qed.

Lemma compare_enums_grows b c path changes : changes ⊆ compare_enums b c path changes.
Proof. unfold compare_enums. destruct b, c; first [apply compareEnum_grows|apply add_if_grows]. Qed.

Lemma report_names_grows names known kind path prefix changes changes' :
report_names names known kind path prefix changes = Ok changes' → changes ⊆ changes'.
Proof.
revert changes. induction names as [|name names IH]; intros changes; cbn; [by intros [= ->]|].
destruct (existsb _ _); [apply IH|]. intros (text & _ & H)%bind_Ok. apply IH in H.
etrans; [apply addChange_grows|exact H].
Qed.

Lemma compare_required_grows b c path changes changes' :
compare_required b c path changes = Ok changes' → changes ⊆ changes'.
Proof.
unfold compare_required. destruct b, c; try (intros H%Ok_inj; subst changes'; apply add_if_grows).
intros (mid & H1 & H2)%bind_Ok. apply report_names_grows in H1, H2. by etrans.
Qed.

Lemma compare_additional_grows b c path changes : changes ⊆ compare_additional b c path changes.
Proof.
unfold compare_additional. destruct (_ && _); [apply addChange_grows|].
destruct (_ && _); [apply addChange_grows|apply add_if_grows].
Qed.

Definition grows (f : comparer) : Prop := ∀ b path changes changes', f b path changes = Ok changes' → changes ⊆ changes'.

Lemma compare_properties_grows strict required baseline path props changes changes' :
Forall (λ p, grows p.2) props →
compare_properties strict required baseline path props changes = Ok changes' → changes ⊆ changes'.
Proof.
intros Hprops. revert changes. induction Hprops as [|[name f] props Hf _ IH]; intros changes; cbn; [by intros [= ->]|].
intros (mid & Hm & H%IH)%bind_Ok. etrans; [|exact H]. destruct (in_object baseline name).
- by apply Hf in Hm.
- apply Ok_inj in Hm as <-. destruct (includes required name); [apply addChange_grows|].
  destruct strict; apply addChange_grows.
Qed.

Lemma compare_keys_grows ks br cr path reason kind changes : changes ⊆ compare_keys ks br cr path reason kind changes.
Proof. apply (add_all_grows (λ key, negb (equal (get br key) (get cr key)))). Qed.

(** The stages of [compare_records], and that each keeps what was reported. *)
Lemma compare_records_stages br cr props (items : comparer) path changes changes' :
Forall (λ p, grows p.2) props → grows items →
equal (get br "type") (get cr "type") = true →
compare_records br cr props items path changes = Ok changes' →
∃ c3 required c4 c5,
  let c1 := compare_keys ["$id"; "$schema"] br cr path (λ key, key +:+ " changed.") Breaking changes in
  let c2 := compare_enums (get br "enum") (get cr "enum") (path +:+ ".enum") c1 in
  let c3' := compare_additional (get br "additionalProperties") (get cr "additionalProperties") (path +:+ ".additionalProperties") c3 in
  let c3'' := removed_properties (properties_of br) (properties_of cr) path c3' in
  compare_required (get br "required") (get cr "required") (path +:+ ".required") c2 = Ok c3 ∧
  compare_properties (is_false (get br "additionalProperties")) required (properties_of br) path props c3'' = Ok c4 ∧
  (if is_undefined (get br "items") && is_undefined (get cr "items") then Ok c4
   else items (get br "items") (path +:+ ".items") c4) = Ok c5 ∧
  changes ⊆ changes' ∧ c1 ⊆ changes' ∧ c2 ⊆ changes' ∧ c3 ⊆ changes' ∧ c3' ⊆ changes' ∧ c3'' ⊆ changes' ∧
  c4 ⊆ changes' ∧ c5 ⊆ changes'.
Proof.
intros Hprops Hitems Htype. unfold compare_records. rewrite Htype. cbv zeta.
intros (c3 & H3 & (required & _ & (c4 & H4 & (c5 & H5 & H)%bind_Ok)%bind_Ok)%bind_Ok)%bind_Ok.
apply Ok_inj in H as <-. exists c3, required, c4, c5.
split; [exact H3|]. split; [exact H4|]. split; [exact H5|].
set (end_ := compare_keys _ br cr path _ ManualReview _).
assert (c5 ⊆ end_) as S8 by (etrans; apply compare_keys_grows).
assert (c4 ⊆ end_) as S7.
{ etrans; [|exact S8]. destruct (_ && _); [by apply Ok_inj in H5 as ->|by apply Hitems in H5]. }
apply compare_properties_grows in H4; [|done]. pose proof (transitivity H4 S7) as S6.
assert (compare_additional (get br "additionalProperties") (get cr "additionalProperties") (path +:+ ".additionalProperties") c3
  ⊆ end_) as S5.
{ etrans; [|exact S6]. apply (add_all_grows (λ name, negb (in_object (properties_of cr) name))). }
pose proof (transitivity (compare_additional_grows _ _ _ _) S5) as S4.
apply compare_required_grows in H3. pose proof (transitivity H3 S4) as S3.
pose proof (transitivity (compare_enums_grows _ _ _ _) S3) as S2.
pose proof (transitivity (compare_keys_grows _ _ _ _ _ _ _) S2) as S1.
by split_and!.
Qed.

Lemma compare_records_grows br cr props (items : comparer) path changes changes' :
Forall (λ p, grows p.2) props → grows items →
compare_records br cr props items path changes = Ok changes' → changes ⊆ changes'.
Proof.
intros Hprops Hitems H. destruct (equal (get br "type") (get cr "type")) eqn:Htype.
- destruct (compare_records_stages _ _ _ _ _ _ _ Hprops Hitems Htype H)
    as (c3 & required & c4 & c5 & _ & _ & _ & S1 & S2 & S3 & S4 & S5 & S6 & S7 & S8).
  exact S1.
- unfold compare_records in H. rewrite Htype in H. apply Ok_inj in H as <-.
  etrans; [apply compare_keys_grows|apply addChange_grows].
Qed.

Lemma compare_values_grows c : grows (compare_values c).
Proof. intros b path changes changes' H%Ok_inj. subst. apply add_if_grows. Qed.

Lemma property_comparers_of r :
property_comparers (get r "properties") = map (λ kw, (kw.1, compare_with kw.2)) (properties_of r).
Proof. unfold properties_of. by destruct (get r "properties"). Qed.

Lemma all_grow c : grows (compare_with c) ∧ Forall (λ kv, grows (compare_with kv.2)) (record_or_empty c).
Proof.
induction c as [| | | | |l _|r IH] using js_ind.
1-6: split; [apply compare_values_grows|apply Forall_nil_2].
split; [|eapply Forall_impl; [exact IH|]; by intros kv [? _]].
assert (∀ key, grows (compare_with (get r key)) ∧ Forall (λ kv, grows (compare_with kv.2)) (record_or_empty (get r key))) as Hget.
{ intros key. induction IH as [|[k v] r' Hv _ IHr]; cbn.
  - split; [apply compare_values_grows|apply Forall_nil_2].
  - destruct (String.eqb key k); [exact Hv|exact IHr]. }
intros b path changes changes'. destruct b as [| | | | | |br]; try apply compare_values_grows.
rewrite compare_with_Obj. apply compare_records_grows; [|apply Hget].
rewrite property_comparers_of, Forall_map. apply (Hget "properties").
Qed.

(** ** Incompatible schemas *)

(** The candidate refuses what the baseline allowed, or drops what it had. *)
Inductive breaks : js → js → Prop :=
| breaks_identity br cr key :
    key ∈ ["$id"; "$schema"] → equal (get br key) (get cr key) = false → breaks (Obj br) (Obj cr)
| breaks_enum br cr x y text :
    equal (get br "type") (get cr "type") = true → get br "enum" = Arr x → get cr "enum" = Arr y →
    text ∈ map json_text x → text ∉ map json_text y → breaks (Obj br) (Obj cr)
| breaks_required br cr x y name :
    equal (get br "type") (get cr "type") = true → get br "required" = Arr x → get cr "required" = Arr y →
    name ∈ set_of strict_eqb y → existsb (strict_eqb name) (set_of strict_eqb x) = false → breaks (Obj br) (Obj cr)
| breaks_strictness br cr :
    equal (get br "type") (get cr "type") = true →
    is_false (get br "additionalProperties") = false → is_false (get cr "additionalProperties") = true → breaks (Obj br) (Obj cr)
| breaks_property br cr name :
    equal (get br "type") (get cr "type") = true →
    name ∈ keys (properties_of br) → in_object (properties_of cr) name = false → breaks (Obj br) (Obj cr)
| breaks_in_property br cr name v :
    equal (get br "type") (get cr "type") = true → (name, v) ∈ properties_of cr →
    in_object (properties_of br) name = true → breaks (member_of (properties_of br) name) v → breaks (Obj br) (Obj cr)
| breaks_in_items br cr :
    equal (get br "type") (get cr "type") = true → breaks (get br "items") (get cr "items") → breaks (Obj br) (Obj cr).

Lemma report_names_breaking names known path prefix name changes changes' :
name ∈ names → existsb (strict_eqb name) known = false →
report_names names known Breaking path prefix changes = Ok changes' → has_breaking changes'.
Proof.
intros Hin Hn. revert changes. induction names as [|x names IH]; intros changes; [by apply elem_of_nil in Hin|]. cbn.
apply elem_of_cons in Hin as [<-|Hin].
- rewrite Hn. intros (text & _ & H)%bind_Ok. apply report_names_grows in H.
  eapply has_breaking_mono; [exact H|apply addChange_breaking].
- destruct (existsb (strict_eqb x) known); [by apply IH|]. intros (text & _ & H)%bind_Ok. by eapply IH.
Qed.

Lemma compare_properties_breaking strict required baseline path props name f changes changes' :
Forall (λ p, grows p.2) props → (name, f) ∈ props → in_object baseline name = true →
(∀ at_ ch ch', f (member_of baseline name) at_ ch = Ok ch' → has_breaking ch') →
compare_properties strict required baseline path props changes = Ok changes' → has_breaking changes'.
Proof.
intros Hprops Hin Hb Hf. revert changes. induction Hprops as [|[k g] props Hg Hrest IH]; intros changes; [by apply elem_of_nil in Hin|].
cbn. intros (mid & Hm & H)%bind_Ok. apply elem_of_cons in Hin as [[= <- <-]|Hin]; [|by eapply IH].
rewrite Hb in Hm. apply compare_properties_grows in H; [|done]. eapply has_breaking_mono; [exact H|]. by eapply Hf.
Qed.

Lemma breaks_reported b c path changes changes' :
breaks b c → compareSchema b c path changes = Ok changes' → has_breaking changes'.
Proof.
intros Hbr. revert path changes changes'. unfold compareSchema.
assert (∀ r, Forall (λ p, grows p.2) (property_comparers (get r "properties")) ∧ grows (compare_with (get r "items"))) as Hg.
{ intros r. split; [|apply all_grow]. rewrite property_comparers_of, Forall_map. apply (all_grow (get r "properties")). }
induction Hbr as [br cr key Hk He|br cr x y text Ht Hx Hy Hin Hnin|br cr x y name Ht Hx Hy Hin Hn|br cr Ht Hf1 Hf2
  |br cr name Ht Hin Hno|br cr name v Ht Hv Ho _ IH|br cr Ht Hb IH];
  intros path changes changes'; rewrite compare_with_Obj; intros H; destruct (Hg cr) as [Hp Hi].
{ assert (has_breaking (compare_keys ["$id"; "$schema"] br cr path (λ key, key +:+ " changed.") Breaking changes)) as Hb.
  { unfold compare_keys. apply (add_all_breaking (λ key, negb (equal (get br key) (get cr key)))) with (x := key); [done|].
    by rewrite He. }
  destruct (equal (get br "type") (get cr "type")) eqn:Ht.
  - destruct (compare_records_stages _ _ _ _ _ _ _ Hp Hi Ht H) as (c3 & required & c4 & c5 & _ & _ & _ & _ & S2 & S3 & S4 & S5 & S6 & S7 & S8).
    eapply has_breaking_mono; [exact S2|exact Hb].
  - unfold compare_records in H. rewrite Ht in H. apply Ok_inj in H as <-.
    eapply has_breaking_mono; [apply addChange_grows|exact Hb]. }
all: destruct (compare_records_stages _ _ _ _ _ _ _ Hp Hi Ht H)
  as (c3 & required & c4 & c5 & H3 & H4 & H5 & _ & S2 & S3 & S4 & S5 & S6 & S7 & S8).
- rewrite Hx, Hy in *. cbn [compare_enums] in *.
  eapply has_breaking_mono; [exact S3|]. unfold compareEnum.
  eapply has_breaking_mono; [apply (add_all_grows (λ v, negb (includes (set_of String.eqb (map json_text x)) v)))|].
  apply (add_all_breaking (λ v, negb (includes (set_of String.eqb (map json_text y)) v))) with (x := text); [by apply set_of_strings|].
  apply negb_true_iff, includes_false. by rewrite set_of_strings.
- eapply has_breaking_mono; [exact S4|].
  rewrite Hx, Hy in H3. cbn in H3. apply bind_Ok in H3 as (mid & H3 & H3').
  eapply has_breaking_mono; [by eapply report_names_grows|]. by eapply report_names_breaking.
- eapply has_breaking_mono; [exact S5|].
  unfold compare_additional. rewrite Hf1, Hf2. apply addChange_breaking.
- eapply has_breaking_mono; [exact S6|].
  apply (add_all_breaking (λ name, negb (in_object (properties_of cr) name))) with (x := name); [done|]. by rewrite Hno.
- eapply has_breaking_mono; [exact S7|].
  eapply compare_properties_breaking with (f := compare_with v); [exact Hp| |exact Ho|exact IH|exact H4].
  rewrite property_comparers_of. apply list_elem_of_fmap. by exists (name, v).
- eapply has_breaking_mono; [exact S8|].
  destruct (_ && _) eqn:Hu; [|by eapply IH].
  exfalso. clear - Hb Hu. apply andb_true_iff in Hu as [Hu _]. generalize dependent (get br "items").
  generalize (get cr "items"). intros c b Hb Hu. by destruct Hb.
Qed.

(** ** The classification *)

Section theorems.
Variable locale_sort : list js → list js.
Hypothesis locale_sort_perm : ∀ l, locale_sort l ≡ₚ l.

Lemma classification_None changes : classification_of changes = None ↔ changes = [].
Proof.
unfold classification_of. split; [|by intros ->]. destruct (existsb _ _); [done|]. destruct (existsb _ _); [done|]. by destruct changes.
Qed.

Lemma classification_Breaking changes : classification_of changes = Some Breaking ↔ has_breaking changes.
Proof.
unfold classification_of, has_breaking. split.
- destruct (existsb _ changes) eqn:E; intros H.
2: { destruct (existsb _ changes) in H; [discriminate H|]. by destruct changes. }
apply existsb_true in E as (x & Hx & Hb). exists x. by apply bool_decide_eq_true in Hb.
- intros (x & Hx & Hb). rewrite (proj2 (existsb_true _ _)); [done|]. exists x. split; [done|]. by apply bool_decide_eq_true.
Qed.

(** Two collections with the same entries, in any order and number. *)
Definition same_entries (b c : list js) : Prop :=
∀ t, t ∈ map (json_text ∘ canonicalize) b ↔ t ∈ map (json_text ∘ canonicalize) c.

Lemma sorted_texts l t : t ∈ map json_text (sortedCollection locale_sort l) ↔ t ∈ map (json_text ∘ canonicalize) l.
Proof. unfold sortedCollection. by rewrite locale_sort_perm, map_map. Qed.

Lemma compareCollections_nil b c path changes :
compareCollections locale_sort b c path changes = [] ↔ changes = [] ∧ same_entries b c.
Proof.
unfold compareCollections, same_entries.
rewrite (add_all_nil (λ v, negb (includes _ v))), (add_all_nil (λ v, negb (includes _ v))).
rewrite !Forall_forall. setoid_rewrite negb_false_iff. setoid_rewrite includes_spec. setoid_rewrite set_of_strings.
setoid_rewrite sorted_texts. naive_solver.
Qed.

Lemma compareCollections_grows b c path changes : changes ⊆ compareCollections locale_sort b c path changes.
Proof.
unfold compareCollections.
etrans; [|apply (add_all_grows (λ v, negb (includes (set_of String.eqb (map json_text (sortedCollection locale_sort b))) v)))].
apply (add_all_grows (λ v, negb (includes (set_of String.eqb (map json_text (sortedCollection locale_sort c))) v))).
Qed.

(** The manifests agree outside generated metadata and the order of enums. *)
Definition same_manifest (b c : fields) : Prop :=
equal (semanticManifest (Obj b)) (semanticManifest (Obj c)) = true ∨
(same_entries (elements (get b "enums")) (elements (get c "enums")) ∧
equal (semanticManifest (without_enums b)) (semanticManifest (without_enums c)) = true).

Lemma compare_manifests_nil b c changes :
compare_manifests locale_sort b c changes = [] ↔ changes = [] ∧ same_manifest b c.
Proof.
unfold compare_manifests, same_manifest. destruct (equal (semanticManifest (Obj b)) _); [naive_solver|].
rewrite add_if_nil, negb_false_iff, compareCollections_nil. naive_solver.
Qed.

Lemma compare_manifests_grows b c changes : changes ⊆ compare_manifests locale_sort b c changes.
Proof.
unfold compare_manifests. destruct (equal _ _); [done|]. etrans; [|apply add_if_grows]. apply compareCollections_grows.
Qed.

Definition same_schema_at (baseline candidate : fields) (name : string) : Prop :=
in_object baseline name = true ∧ in_object candidate name = true ∧
same_schema (member_of baseline name) (member_of candidate name).

Lemma compare_schemas_nil names b c changes :
compare_schemas names b c changes = Ok [] ↔ changes = [] ∧ Forall (same_schema_at b c) names.
Proof.
revert changes. induction names as [|name names IH]; intros changes; cbn.
- split; [by intros [= ->]|by intros [-> _]].
- rewrite bind_Ok, Forall_cons. setoid_rewrite IH. unfold same_schema_at at 2.
destruct (in_object b name); cbn.
2: { split; [|by intros (_ & [? _] & _)]. intros (mid & [= <-] & E & _). by apply addChange_not_nil in E. }
destruct (in_object c name); cbn.
2: { split; [|by intros (_ & (_ & ? & _) & _)]. intros (mid & [= <-] & E & _). by apply addChange_not_nil in E. }
destruct (all_compared (member_of c name)) as [[Hkeep Hsame] _]. unfold compareSchema. split.
+ intros (mid & Hm & -> & Hall). pose proof (Hkeep _ _ _ Hm) as ->. apply Hsame in Hm. auto.
+ intros (-> & (_ & _ & Hs) & Hall). exists []. split; [by apply Hsame|done].
Qed.

Lemma compare_schemas_grows names b c changes changes' :
compare_schemas names b c changes = Ok changes' → changes ⊆ changes'.
Proof.
revert changes. induction names as [|name names IH]; intros changes; cbn; [by intros [= ->]|].
intros (mid & Hm & H%IH)%bind_Ok. etrans; [|exact H].
destruct (negb (in_object b name)); [apply Ok_inj in Hm as <-; apply addChange_grows|].
destruct (negb (in_object c name)); [apply Ok_inj in Hm as <-; apply addChange_grows|].
by apply all_grow in Hm.
Qed.

(** The two contracts are the same for those who use them. *)
Definition same_contract (b c : ContractSnapshot) : Prop :=
contractSetSha256 b = contractSetSha256 c ∧
Forall (λ key, equal (get (runtimeApi b) key) (get (runtimeApi c) key) = true)
["apiVersion"; "documentSchemaVersion"; "documentSchemaId"] ∧
(∀ name, name ∈ keys (schemas b) ∨ name ∈ keys (schemas c) → same_schema_at (schemas b) (schemas c) name) ∧
same_manifest (contractManifest b) (contractManifest c) ∧
typescript b = typescript c ∧ python b = python c ∧
same_entries (events b) (events c) ∧ same_entries (errorCodes b) (errorCodes c).

Lemma api_changes_nil b c changes :
api_changes b c changes = [] ↔
changes = [] ∧ Forall (λ key, equal (get b key) (get c key) = true) ["apiVersion"; "documentSchemaVersion"; "documentSchemaId"].
Proof.
unfold api_changes. rewrite (add_all_nil (λ kr, negb (equal (get b kr.1) (get c kr.1)))).
rewrite !Forall_cons, !Forall_nil, !negb_false_iff. done.
Qed.

Lemma api_changes_grows b c changes : changes ⊆ api_changes b c changes.
Proof. apply (add_all_grows (λ kr, negb (equal (get b kr.1) (get c kr.1)))). Qed.

Lemma schema_names (b c : fields) name :
name ∈ sort_keys (set_of String.eqb (keys b ++ keys c)) ↔ name ∈ keys b ∨ name ∈ keys c.
Proof. by rewrite sort_keys_perm, set_of_strings, elem_of_app. Qed.

Lemma all_changes_nil b c : all_changes locale_sort b c = Ok [] ↔ same_contract b c.
Proof.
unfold all_changes, same_contract. cbv zeta. rewrite bind_Ok. split.
- intros (c1 & H1 & H%Ok_inj). apply compareCollections_nil in H as [[H Hev]%compareCollections_nil Hec].
apply add_if_nil in H as [H Hpy]. apply add_if_nil in H as [H Hts]. apply compare_manifests_nil in H as [-> Hm].
apply compare_schemas_nil in H1 as [[[_ Hsha]%add_if_nil Hapi]%api_changes_nil Hs].
rewrite negb_false_iff, String.eqb_eq in Hsha, Hts, Hpy. rewrite Forall_forall in Hs.
split_and!; try done. intros name Hn. by apply Hs, schema_names.
- intros (Hsha & Hapi & Hs & Hm & Hts & Hpy & Hev & Hec). exists []. split.
+ apply compare_schemas_nil. split.
  * apply api_changes_nil. split; [|done]. apply add_if_nil. by rewrite Hsha, String.eqb_refl.
  * apply Forall_forall. intros name Hn. by apply Hs, schema_names.
+ f_equal. apply compareCollections_nil. split; [|done]. apply compareCollections_nil. split; [|done].
  apply add_if_nil. rewrite Hpy, String.eqb_refl. split; [|done].
  apply add_if_nil. rewrite Hts, String.eqb_refl. split; [|done]. by apply compare_manifests_nil.
Qed.

Lemma classify_Ok bv cv id r :
classifyContractImpact locale_sort bv cv id = Ok r ↔
is_sha256_hex id = true ∧
∃ b c changes, validateSnapshot bv "Baseline" = Ok b ∧ validateSnapshot cv "Candidate" = Ok c ∧
all_changes locale_sort b c = Ok changes ∧
r = {| result_classification := classification_of changes; baselineRelease := releaseVersion b;
       result_candidateId := id; changes_of := changes |}.
Proof.
unfold classifyContractImpact. rewrite reject_then_Ok, negb_false_iff. split.
- intros [Hid H]. apply bind_Ok in H as (b & Hb & H). apply bind_Ok in H as (c & Hc & H).
apply bind_Ok in H as (changes & Hch & H). apply Ok_inj in H as <-. eauto 10.
- intros (-> & b & c & changes & Hb & Hc & Hch & ->). rewrite Hb, Hc. cbn. by rewrite Hch.
Qed.

(** A candidate is classified as without impact exactly when it is the same
contract: the same bundle digest, API and document versions, schemas that differ
in titles, descriptions and order only, the same manifest apart from generated
metadata, the same generated sources, events and error codes. *)
Lemma no_impact_is_exact bv cv id b c :
is_sha256_hex id = true → validateSnapshot bv "Baseline" = Ok b → validateSnapshot cv "Candidate" = Ok c →
(∃ r, classifyContractImpact locale_sort bv cv id = Ok r ∧ result_classification r = None) ↔ same_contract b c.
Proof.
intros Hid Hb Hc. rewrite <-all_changes_nil. split.
- intros (r & (_ & b' & c' & changes & Hb' & Hc' & Hch & ->)%classify_Ok & Hr). cbn in Hr.
apply classification_None in Hr as ->. congruence.
- intros Hch. eexists. split; [apply classify_Ok; split; [done|]; exists b, c, []; by split_and!|done].
Qed.

Lemma compare_schemas_breaking names b c changes changes' name :
compare_schemas names b c changes = Ok changes' → name ∈ names → in_object b name = true →
in_object c name = false ∨ breaks (member_of b name) (member_of c name) → has_breaking changes'.
Proof.
intros H Hin Hb Hbreak. revert changes H. induction names as [|x names IH]; intros changes H; [by apply elem_of_nil in Hin|].
cbn in H. apply bind_Ok in H as (mid & Hm & H).
apply elem_of_cons in Hin as [<-|Hin]; [|by eapply IH]. apply compare_schemas_grows in H.
eapply has_breaking_mono; [exact H|]. rewrite Hb in Hm. cbn in Hm. destruct Hbreak as [Hc|Hbr].
- rewrite Hc in Hm. apply Ok_inj in Hm as <-. apply addChange_breaking.
- destruct (in_object c name); [exact (breaks_reported _ _ _ _ _ Hbr Hm)|]. apply Ok_inj in Hm as <-. apply addChange_breaking.
Qed.

End theorems.

(** ** Samples *)

Definition text_schema : js := Obj [("type", Str "string")].
Definition object_schema (properties : fields) (more : fields) : js :=
Obj ([("type", Str "object"); ("properties", Obj properties)] ++ more).

Definition sample_id : string := "aaaaaaaaaaaaaaaaaaaaaaaaaaaaaaaaaaaaaaaaaaaaaaaaaaaaaaaaaaaaaaaa".

Definition sample_contract (schema : js) : js := Obj [
  ("schemaVersion", Str "1"); ("releaseVersion", Str "1.0"); ("runtimeApi", Obj [("apiVersion", Str "2.0")]);
  ("contractManifest", Obj [("enums", Arr [])]); ("schemas", Obj [("example", schema)]);
  ("typescript", Str "t"); ("python", Str "p"); ("events", Arr [Str "a"; Str "b"]); ("errorCodes", Arr []);
  ("contractSetSha256", Str sample_id)].

Definition classify_samples (baseline candidate : js) : outcome (option impact) :=
r ← classifyContractImpact (λ l, l) (sample_contract baseline) (sample_contract candidate) sample_id;
Ok (result_classification r).

Example renamed_property :
classify_samples (object_schema [("a", text_schema)] []) (object_schema [("b", text_schema)] []) = Ok (Some Breaking).
Proof. by vm_compute. Qed.
Example optional_property :
classify_samples (object_schema [] []) (object_schema [("b", text_schema)] []) = Ok (Some Additive).
Proof. by vm_compute. Qed.
Example new_title :
classify_samples (object_schema [] [("title", Str "x")]) (object_schema [] [("title", Str "y")]) = Ok None.
Proof. by vm_compute. Qed.

(** A dropped property with the name of something every object inherits is not
reported: the candidate is classified as without impact. *)
Lemma inherited_name_is_not_missed :
classify_samples (object_schema [("constructor", text_schema)] []) (object_schema [] []) = Ok None.
Proof. by vm_compute. Qed.

Lemma no_impact_is_exact_witness :
∃ b c, validateSnapshot (sample_contract (object_schema [] [("title", Str "x")])) "Baseline" = Ok b ∧
  validateSnapshot (sample_contract (object_schema [] [("title", Str "y")])) "Candidate" = Ok c ∧ same_contract b c.
Proof.
eexists _, _. split; [vm_compute; reflexivity|]. split; [vm_compute; reflexivity|].
eapply (no_impact_is_exact (λ l, l) (λ l, reflexivity l)
  (sample_contract (object_schema [] [("title", Str "x")])) (sample_contract (object_schema [] [("title", Str "y")])) sample_id);
  [vm_compute; reflexivity|vm_compute; reflexivity|vm_compute; reflexivity|].
eexists. split; vm_compute; reflexivity.
Defined.

