(* ===== verification/DesktopSelectors.v ===== *)
(** * What the desktop workspace shows

    The pure functions of src/apps/capture-workbench/src/app/services/desktop-workspace.selectors.ts
    that the workspace and recognition stores use, the byte format of
    desktop-workspace-formatting.service.ts, and the texts of i18n/desktop-messages.ts
    they choose from, as a class: the theorems hold in every language. *)

From Stdlib Require Import Lqa.
From S2P Require Import Prelude JsString JsNum JsMath JsCoerce CaptureModel CaptureHelpers StoreHelpers DesktopModel StableSort Rounding.

(** ** Texts *)

Class DesktopMessages : Type := {
  text_starting : string;
  startTimeout : string → string;
  manualRequirement : string → string → string;
  finishInstallThenRetry : string;
  requirementFailed : string → string;
  recheck : string;
  cancelBeforeDelete : string;
  waitBeforeDelete : string;
  modelPhase : string → string;
  approxSize : string → string;
  stage_label : string → option string;
  status_label : string → option string
}.

(** ** Requirement units *)

(** [RuntimeRequirement] with what the desktop shows of it. *)
Record RequirementUnit : Type := {
  unit_requirement : RuntimeRequirement;
  displayName : string;
  unit_detail : option string
}.
Definition unit_id (unit : RequirementUnit) : string := requirementId (unit_requirement unit).
Definition unit_status (unit : RequirementUnit) : string := requirement_status (unit_requirement unit).

Definition RECOGNITION_ENGINE_UNITS : list string :=
  ["windowsml-ocr"; "speech-recognition"; "speaker-diarization"; "vertical-japanese-reader"].

Definition INSTALLATION_ORDER : list (string * Z) :=
  [("windowsml-ocr", 0); ("speech-recognition", 1); ("speaker-diarization", 2); ("vertical-japanese-reader", 3);
   ("ollama-runtime", 4)].

Definition SPEECH_PACK_UNITS : list string := ["speech-recognition"; "speaker-diarization"].

(** [ids.flatMap((id) => requirements.filter(...))] *)
Definition units_in_order (ids : list string) (requirements : list RequirementUnit) : list RequirementUnit :=
  flat_map (λ id, List.filter (λ unit, String.eqb (unit_id unit) id) requirements) ids.

Definition selectSpeechPack : list RequirementUnit → list RequirementUnit := units_in_order SPEECH_PACK_UNITS.

Definition selectRecognitionEngines : list RequirementUnit → list RequirementUnit :=
  units_in_order RECOGNITION_ENGINE_UNITS.

Definition selectRequestedMissing (requirements : list RequirementUnit) (requested : list string) :
    list RequirementUnit :=
  List.filter (λ unit, includes requested (unit_id unit) && negb (String.eqb (unit_status unit) "ready")) requirements.

Definition installation_order (unit : RequirementUnit) : Z :=
  default MAX_SAFE_INTEGER (table_find INSTALLATION_ORDER (unit_id unit)).

Definition selectInstallableRequirements (requirements : list RequirementUnit) (requested : list string) :
    list RequirementUnit :=
  sort_by installation_order
    (List.filter (λ unit, includes requested (unit_id unit) && String.eqb (unit_status unit) "installable") requirements).

(** ** Model options and installations *)

Record RuntimeModelOption : Type := { option_id : string; option_status : string }.

Definition modelSelectionRequired (options : list RuntimeModelOption) : bool :=
  negb (Nat.eqb (length options) 0) && negb (existsb (λ option, String.eqb (option_status option) "active") options).

Definition activeModelOption (options : list RuntimeModelOption) : option RuntimeModelOption :=
  List.find (λ option, String.eqb (option_status option) "active") options.

(** The fields of an installation that give its progress. *)
Record Progress : Type := {
  progress : num;
  downloadedBytes : option num;
  downloadBytes : option num
}.

Definition progress_ratio (p : Progress) : num :=
  match downloadBytes p, downloadedBytes p with
  | Some total, Some loaded => if num_ltb (num_of_Z 0) total then num_div loaded total else progress p
  | _, _ => progress p
  end.

Definition installationPercent (installation : option Progress) : num :=
  match installation with
  | None => num_of_Z 0
  | Some p => math_round (num_mul (num_min (num_max (progress_ratio p) (num_of_Z 0)) (num_of_Z 1)) (num_of_Z 100))
  end.

(** [RuntimeModelInstallation] *)
Record RuntimeModelInstallation : Type := {
  model_installationId : string;
  model_status : string;
  model_progress : Progress;
  model_errorCode : option string
}.

Definition modelInstallationPercent (installation : option RuntimeModelInstallation) : num :=
  installationPercent (model_progress <$> installation).

Definition modelInstallationPhase `{DesktopMessages} (installation : option RuntimeModelInstallation) : string :=
  match installation with
  | None => ""
  | Some i =>
      if includes ["queued"; "failed"; "cancelled"; "completed"] (model_status i) then modelPhase (model_status i)
      else if num_ltb (progress (model_progress i)) (round64 (1 # 10)) then modelPhase "starting"
      else if num_ltb (progress (model_progress i)) (Fin (3 # 4)) then modelPhase "downloading"
      else modelPhase "configuring"
  end.

(** ** Sizes *)

(** [x.toFixed(1)] of a number from 0 to 10^21: the nearest tenth, the larger of two. *)
Definition toFixed1 (x : num) : string :=
  match x with
  | Fin q =>
      let tenths := (Qnum q * 20 + QDen q) / (2 * QDen q) in
      show_Z (tenths / 10) +:+ "." +:+ show_Z (tenths mod 10)
  | NaN => "NaN"
  | Inf _ => "Infinity"
  end.

(** [s.replace(/\.0$/u, '')] *)
Definition without_zero (s : string) : string :=
  let n := (String.length s - 2)%nat in if String.eqb (drop_str n s) ".0" then take_str n s else s.

Definition formatApproximateBytes `{DesktopMessages} (bytes : option num) : option string :=
  match bytes with
  | None => None
  | Some bytes =>
      if negb (is_finite bytes) || num_leb bytes (num_of_Z 0) then None
      else if num_leb (num_of_Z 1000000000) bytes then
        Some (approxSize (without_zero (toFixed1 (num_div bytes (num_of_Z 1000000000))) +:+ " GB"))
      else if num_leb (num_of_Z 1000000) bytes then
        Some (approxSize (show_num (math_round (num_div bytes (num_of_Z 1000000))) +:+ " MB"))
      else
        Some (approxSize (show_num (num_max (num_of_Z 1) (math_round (num_div bytes (num_of_Z 1000)))) +:+ " KB"))
  end.

(** [Math.ceil(x)] *)
Definition math_ceil (x : num) : num := match x with Fin q => num_of_Z (- (- Qnum q / QDen q)) | _ => x end.

Definition formatBytes (bytes : num) : string :=
  if num_ltb bytes (num_of_Z 1000000) then show_num (math_ceil (num_div bytes (num_of_Z 1000))) +:+ " KB"
  else toFixed1 (num_div bytes (num_of_Z 1000000)) +:+ " MB".

(** ** Transcripts *)

(** [value.toString().padStart(2, '0')] *)
Definition twoDigits (value : num) : string :=
  let s := show_num value in if (String.length s <? 2)%nat then "0" +:+ s else s.

(** [x % n] of a whole number that is not negative and a positive [n] *)
Definition num_rem (x : num) (n : Z) : num :=
  match to_int x with Some z => num_of_Z (z mod n) | None => NaN end.

Definition formatRecordingTime (milliseconds : num) : string :=
  let totalSeconds := math_floor (num_div (num_max (num_of_Z 0) milliseconds) (num_of_Z 1000)) in
  let hours := math_floor (num_div totalSeconds (num_of_Z 3600)) in
  let minutes := math_floor (num_div (num_rem totalSeconds 3600) (num_of_Z 60)) in
  let seconds := num_rem totalSeconds 60 in
  if num_ltb (num_of_Z 0) hours then show_num hours +:+ ":" +:+ twoDigits minutes +:+ ":" +:+ twoDigits seconds
  else show_num minutes +:+ ":" +:+ twoDigits seconds.

Record TranscriptLine : Type := {
  line_segmentId : string;
  line_startMs : num;
  line_timeLabel : string;
  line_speaker : option string;
  line_text : string
}.

(** [speaker.displayName?.trim() || null] *)
Definition given_name (speaker : CaptureSpeaker) : option string :=
  match trim <$> speaker_displayName speaker with Some "" | None => None | Some name => Some name end.

Definition transcript_line (names : list (string * option string)) (segment : RawCaptureSegment) :
    list TranscriptLine :=
  match segment_locator segment with
  | PageLocator _ _ => []
  | TimeLocator startMs _ =>
      [{| line_segmentId := segment_id segment; line_startMs := startMs;
          line_timeLabel := formatRecordingTime startMs;
          line_speaker := (λ speaker, default speaker (mjoin (map_get names speaker))) <$> segment_speaker segment;
          line_text := segment_text segment |}]
  end.

Definition transcriptLines (raw : RawCapture) (speakerNames : list CaptureSpeaker) : list TranscriptLine :=
  flat_map (transcript_line (map (λ speaker, (speaker_id speaker, given_name speaker)) speakerNames)) (raw_segments raw).

(** The argument of [captureResultText]; [None] is a property that is missing. *)
Record ResultText : Type := {
  result_targetText : string;
  result_speakers : option (list CaptureSpeaker);
  result_rawSegments : option (list RawCaptureSegment);
  result_blocks : option (list CaptureBlock)
}.

Definition captureResultText (result : ResultText) : string :=
  match default [] (result_speakers result), result_blocks result, result_rawSegments result with
  | (_ :: _) as speakers, Some blocks, Some rawSegments =>
      let names := map (λ s, (speaker_id s, speaker_name s)) speakers in
      let speakerOf := map (λ s, (segment_id s, segment_speaker s)) rawSegments in
      join LF_text (map (block_line names speakerOf) blocks)
  | _, _, _ => result_targetText result
  end.

(** ** Labels *)

Definition stageLabel `{DesktopMessages} (stage : option string) : string :=
  match stage_label (default "" stage) with
  | Some label => label
  | None => default "" (stage_label "queued")
  end.

Definition statusLabel `{DesktopMessages} (status : string) : string := default status (status_label status).

(** ** Facts *)

Lemma selectInstallableRequirements_spec requirements requested unit :
  unit ∈ selectInstallableRequirements requirements requested ↔
  unit ∈ requirements ∧ unit_id unit ∈ requested ∧ unit_status unit = "installable".
Proof.
  unfold selectInstallableRequirements. rewrite (sort_by_perm installation_order).
  rewrite list_elem_of_In, filter_In, <-list_elem_of_In. bsimp. tauto.
Qed.

Lemma selectInstallableRequirements_sorted requirements requested :
  StronglySorted (λ x y, installation_order x ≤ installation_order y)
    (selectInstallableRequirements requirements requested).
Proof. apply sort_by_sorted. Qed.

(** A number between 0 and 1 times 100, rounded, is a whole percentage. *)
Lemma percent_of_fraction q :
  (0 <= q)%Q → (q <= 1)%Q → ∃ z, math_round (num_mul (Fin q) (num_of_Z 100)) = num_of_Z z ∧ 0 ≤ z ≤ 100.
Proof.
  intros H0 H1. unfold num_of_Z at 1. cbn [num_mul].
  destruct (Qlt_le_dec 0 (q * inject_Z 100)) as [Hq|Hq].
  - destruct (round64_pos (q * inject_Z 100)) as (r & -> & Hr0 & Hr1 & _); [done| |].
    { apply Qle_trans with (inject_Z 100); [change (inject_Z 100) with 100%Q; lra|]. by rewrite <-Zle_Qle. }
    unfold math_round. eexists. split; [reflexivity|].
    assert (Hu : (pow2 (ulp_exponent (q * inject_Z 100)) <= 1 # 2)%Q).
    { unfold ulp_exponent. apply Z.max_case_strong; intros _; [|by vm_compute].
      pose proof (exponent2_below _ Hq) as He.
      replace (exponent2 (q * inject_Z 100) - 52) with (exponent2 (q * inject_Z 100) + -52) by lia. rewrite pow2_add.
      assert (pow2 (-52) <= 1 # 200)%Q by (by vm_compute). pose proof (pow2_pos (exponent2 (q * inject_Z 100))).
      change (inject_Z 100) with 100%Q in *. nra. }
    assert (Hr : (r < 100 + (1 # 2))%Q) by (change (inject_Z 100) with 100%Q in *; lra).
    set (s := (r + (1 # 2))%Q). assert (Hs0 : (0 <= s)%Q) by (unfold s; lra). assert (Hs : (s < 101)%Q) by (unfold s; lra).
    destruct s as [n d]. unfold Qle in Hs0. unfold Qlt in Hs. cbn in *. split; [apply Z.div_pos; lia|].
    assert (n / Z.pos d < 101); [|lia]. apply Z.div_lt_upper_bound; lia.
  - assert (Hz : (q == 0)%Q) by (change (inject_Z 100) with 100%Q in *; lra).
    assert (to_int (round64 (q * inject_Z 100)) = Some 0) as (r & -> & Hr)%to_int_Some.
    { apply round64_int; [|done]. rewrite Hz. done. }
    exists 0. split; [|done]. unfold math_round. f_equal. destruct r as [n d]. unfold Qeq in Hr. cbn in Hr |- *.
    assert (n = 0) as -> by lia. symmetry. apply Z.div_unique with (Z.pos d); lia.
Qed.

Lemma clamped_fraction x :
  x ≠ NaN → ∃ q, num_min (num_max x (num_of_Z 0)) (num_of_Z 1) = Fin q ∧ (0 <= q)%Q ∧ (q <= 1)%Q.
Proof.
  intros Hx. unfold num_of_Z. destruct x as [|[]|q]; [done|by exists 0%Q|by exists 1%Q|].
  cbn [num_max]. destruct (num_ltb (Fin q) (Fin (inject_Z 0))) eqn:Hq; cbn [num_min].
  - by exists 0%Q.
  - apply num_ltb_false_Fin in Hq. destruct (num_ltb (Fin (inject_Z 1)) (Fin q)) eqn:H1.
    + by exists 1%Q.
    + apply num_ltb_false_Fin in H1. by exists q.
Qed.

(** Whatever finite numbers an installation reports - more bytes than
    announced, negative progress, a total of zero - the percentage shown is a
    whole number from 0 to 100. *)
Lemma shown_percentage_is_whole p :
  is_finite (progress p) = true → (∀ n, downloadedBytes p = Some n → is_finite n = true) →
  (∀ n, downloadBytes p = Some n → is_finite n = true) →
  ∃ z, installationPercent (Some p) = num_of_Z z ∧ 0 ≤ z ≤ 100.
Proof.
  intros Hp Hl Ht. assert (Hr : progress_ratio p ≠ NaN).
  { unfold progress_ratio. assert (progress p ≠ NaN) by (by destruct (progress p)).
    destruct (downloadBytes p) as [t|]; [|done]. destruct (downloadedBytes p) as [l|]; [|done].
    destruct (num_ltb (num_of_Z 0) t) eqn:H0; [|done].
    specialize (Hl _ eq_refl). specialize (Ht _ eq_refl). destruct l as [| |x]; try done. destruct t as [| |y]; try done.
    apply num_ltb_Fin in H0. cbn. destruct (Z.eqb_spec (Qnum y) 0) as [E|_]; [|apply round64_not_NaN].
    destruct y as [n d]. unfold Qlt in H0. cbn in *. lia. }
  cbn [installationPercent]. destruct (clamped_fraction _ Hr) as (q & -> & H0 & H1). by apply percent_of_fraction.
Qed.

Definition overrun : Progress :=
  {| progress := Fin (1 # 4); downloadedBytes := Some (num_of_Z 1300); downloadBytes := Some (num_of_Z 1200) |}.

Lemma shown_percentage_is_whole_witness :
  installationPercent (Some overrun) = num_of_Z 100 ∧ ∃ z, installationPercent (Some overrun) = num_of_Z z ∧ 0 ≤ z ≤ 100.
Proof.
  split; [by vm_compute|]. apply shown_percentage_is_whole; [done|..]; by intros n [= <-].
Defined.

(** ** Times *)

(** Two digits, padded with a zero. *)
Definition pad2 (z : Z) : string := if z <? 10 then "0" +:+ show_Z z else show_Z z.

Lemma twoDigits_spec z : 0 ≤ z < 60 → twoDigits (num_of_Z z) = pad2 z.
Proof.
  intros Hz. assert (Hall : forallb (λ n, String.eqb (twoDigits (num_of_Z (Z.of_nat n))) (pad2 (Z.of_nat n))) (seq 0 60) = true)
    by (by vm_compute).
  rewrite forallb_forall in Hall. specialize (Hall (Z.to_nat z)). rewrite Z2Nat.id in Hall by lia.
  apply String.eqb_eq, Hall. apply in_seq. lia.
Qed.

(** The time label of a moment of a recording: minutes and seconds below an
    hour, hours, minutes and seconds from there on, of the seconds that have
    passed completely, although the code divides in floating point. *)
Lemma time_label_is_exact ms :
  0 ≤ ms ≤ MAX_SAFE_INTEGER →
  formatRecordingTime (num_of_Z ms) =
  let t := ms / 1000 in
  if 3600 <=? t then show_Z (t / 3600) +:+ ":" +:+ pad2 (t / 60 mod 60) +:+ ":" +:+ pad2 (t mod 60)
  else show_Z (t / 60) +:+ ":" +:+ pad2 (t mod 60).
Proof.
  unfold MAX_SAFE_INTEGER. intros Hms. unfold formatRecordingTime.
  assert (num_max (num_of_Z 0) (num_of_Z ms) = num_of_Z ms) as ->.
  { change (num_max (num_of_Z 0) (num_of_Z ms))
      with (if num_ltb (num_of_Z 0) (num_of_Z ms) then num_of_Z ms else num_of_Z 0). rewrite num_ltb_Z. destruct (Z.ltb_spec 0 ms); [done|]. by assert (ms = 0) as -> by lia. }
  rewrite math_floor_div by lia. cbv zeta.
  assert (Ht : 0 ≤ ms / 1000 < 2 ^ 53) by (split; [apply Z.div_pos; lia|apply Z.div_lt_upper_bound; lia]).
  set (t := ms / 1000) in *. rewrite math_floor_div by lia. unfold num_rem. rewrite to_int_of_Z.
  pose proof (Z.mod_pos_bound t 3600 ltac:(lia)). pose proof (Z.mod_pos_bound t 60 ltac:(lia)).
  rewrite math_floor_div by lia. rewrite num_ltb_Z.
  assert (Hmin : t mod 3600 / 60 = t / 60 mod 60).
  { change 3600 with (60 * 60). rewrite Z.rem_mul_r by lia. rewrite Z.mul_comm, Z.div_add by lia.
    rewrite Z.div_small by lia. lia. }
  assert (Hhours : (0 <? t / 3600) = (3600 <=? t)).
  { apply eq_true_iff_eq. rewrite Z.ltb_lt, Z.leb_le. split; intros H1.
    - pose proof (Z.mul_div_le t 3600 ltac:(lia)). lia.
    - assert (1 ≤ t / 3600); [apply Z.div_le_lower_bound; lia|lia]. }
  rewrite Hhours, Hmin, !twoDigits_spec by (try apply Z.mod_pos_bound; lia).
  assert (0 ≤ t / 3600 ≤ t) by (split; [apply Z.div_pos; lia|apply Z.div_le_upper_bound; lia]).
  destruct (Z.leb_spec 3600 t) as [Hge|Hlt].
  - rewrite show_num_safe by (unfold MAX_SAFE_INTEGER; lia). done.
  - assert (0 ≤ t / 60 < 60) by (split; [apply Z.div_pos; lia|apply Z.div_lt_upper_bound; lia]).
    rewrite (Z.mod_small (t / 60)) by lia. rewrite show_num_safe by (unfold MAX_SAFE_INTEGER; lia). done.
Qed.

Lemma time_label_is_exact_witness :
  formatRecordingTime (num_of_Z 3725999) = "1:02:05" ∧
  formatRecordingTime (num_of_Z 3725999) =
  let t := 3725999 / 1000 in
  if 3600 <=? t then show_Z (t / 3600) +:+ ":" +:+ pad2 (t / 60 mod 60) +:+ ":" +:+ pad2 (t mod 60)
  else show_Z (t / 60) +:+ ":" +:+ pad2 (t mod 60).
Proof. split; [by vm_compute|]. apply time_label_is_exact. unfold MAX_SAFE_INTEGER. lia. Defined.

(** ** Result texts *)

(** A capture document as the desktop renders it. *)
Definition result_text_of (document : CaptureDocument) : ResultText :=
  {| result_targetText := doc_targetText document; result_speakers := doc_speakers document;
     result_rawSegments := Some (doc_rawSegments document); result_blocks := Some (doc_blocks document) |}.

(** The desktop and the UI library render a document alike, unless it has no
    speakers and a target text that is blank or padded. *)
Lemma result_text_agrees document :
  default [] (doc_speakers document) ≠ [] ∨
    (trim (doc_targetText document) = doc_targetText document ∧ doc_targetText document ≠ "") →
  captureResultText (result_text_of document) = captureDocumentText document.
Proof.
  unfold captureResultText, captureDocumentText, result_text_of. cbn.
  destruct (default [] (doc_speakers document)) as [|s l]; [|done].
  intros [|[-> Hne]]; [done|]. unfold or_else. by destruct (String.eqb_spec (doc_targetText document) "").
Qed.

(** ** English *)

(** The English texts of desktop-messages.ts; its ellipsis is written as dots. *)
Definition english : DesktopMessages :=
  {| text_starting := "Starting..."; startTimeout := λ detail, "Start-up timed out: " +:+ detail;
     manualRequirement := λ name detail, name +:+ " needs a manual step: " +:+ detail;
     finishInstallThenRetry := "Finish the installation, then try again.";
     requirementFailed := λ name, name +:+ " could not be installed.";
     recheck := "Installed. Checking again.";
     cancelBeforeDelete := "Cancel processing before deleting the document.";
     waitBeforeDelete := "Processing has not finished. Delete the document later.";
     modelPhase := λ phase, default "" (table_find
       [("queued", "Waiting to start"); ("failed", "Model download failed"); ("cancelled", "Model download canceled");
        ("completed", "Model ready"); ("starting", "Starting the model service");
        ("downloading", "Downloading and verifying the model"); ("configuring", "Setting up the model")] phase);
     approxSize := λ size, "~" +:+ size;
     stage_label := table_find
       [("uploading", "Uploading"); ("queued", "Waiting"); ("extracting", "Recognizing text");
        ("transcribing", "Transcribing speech"); ("identifying-speakers", "Telling speakers apart");
        ("awaiting_structuring", "Waiting to structure"); ("structuring", "Structuring"); ("persisting", "Saving");
        ("recovery_required", "Needs recovery"); ("completed", "Done"); ("failed", "Failed"); ("cancelled", "Canceled")];
     status_label := table_find
       [("queued", "Waiting"); ("processing", "Processing"); ("persisting", "Saving");
        ("recovery_required", "Needs recovery"); ("awaiting_confirmation", "Needs review"); ("completed", "Done");
        ("failed", "Failed"); ("canceled", "Canceled")] |}.
