(* ===== verification/DesktopInstallation.v ===== *)
(** * Installing recognition units from the desktop app

    Models src/apps/capture-workbench/src/app/services/desktop-workspace-installation.service.ts
    and the commands of recognition-features.store.ts.

    A subscription of the two services is a [Task]: a queue of units the user
    chose, a listing of existing installations and the queue of those found
    active, a model installation, or a cancellation.  Tasks run side by side;
    each waits for a reply of the runtime or for its timer, and [deliver] is
    what the pipeline does with it: [recordInstallation] in a [tap], the next
    unit of a [concatMap], the handlers of [subscribe], and [finalize] last.
    [cancelled$.next()] completes the queues that have [takeUntil(cancelled$)].

    The runtime's answers are inputs; [runtime.reload()] makes [started()] false
    until the environment reports the runtime ready again. *)

From stdpp Require Import gmap.
From S2P Require Import Prelude JsString JsNum CaptureModel StoreHelpers DesktopModel StableSort DesktopSelectors.

(** ** State *)

Inductive InstallationCall : Type :=
| StartInstallation (clientRequestId requirementId : string)
| GetInstallation (installationId : string)
| CancelInstallation (installationId : string)
| ListInstallations
| StartModelInstallation (clientRequestId optionId : string)
| GetModelInstallation (installationId : string).

(** What an installation waits for: its start, the pause of 750 ms, the next
    status; the last one known is kept. *)
Inductive Wait : Type :=
| AtStart
| AtTimer (last : RuntimeInstallation)
| AtGet (last : RuntimeInstallation).

Inductive Task : Type :=
| Queue (at_ : Wait) (unit : RequirementUnit) (rest : list RequirementUnit)
| Listing
| Reattached (at_ : Wait) (name : string) (rest : list RuntimeInstallation)
| ModelStart
| ModelTimer (last : RuntimeModelInstallation)
| ModelGet (last : RuntimeModelInstallation)
| Canceling.

Inductive Reply : Type :=
| Installation (r : result rejection RuntimeInstallation)
| Installations (r : result rejection (list RuntimeInstallation))
| ModelInstallation (r : result rejection RuntimeModelInstallation)
| Elapsed.

(** The signals of DesktopWorkspaceInstallationService. *)
Record Service : Type := {
  installing : bool;
  activeInstallation : option RuntimeInstallation;
  installationsByRequirement : gmap string RuntimeInstallation;
  activeModelInstallation : option RuntimeModelInstallation;
  selectedModelOptionId : option string
}.

(** The signals of RecognitionFeaturesStore and what it reads: [started] of the
    runtime, the value of the requirements resource, and the item of local
    storage, [None] without storage.  The counters are reloads of resources. *)
Record View : Type := {
  started : bool;
  requirements : list RequirementUnit;
  requested : list string;
  shown_message : string;
  firstRunDismissed : bool;
  stored_dismissal : option (option string);
  reattachedForStart : bool;
  requirement_reloads : nat;
  model_option_reloads : nat
}.

(** Ghost entries, the newest first: the user's choice with the units that
    became the queue of a task, the calls a task made, the units it completed. *)
Inductive Entry : Type :=
| Chose (task : nat) (ids : list string) (units : list RequirementUnit)
| Sent (task : nat) (call : InstallationCall)
| Finished (task : nat) (requirementId : string).

Record features : Type := {
  service : Service;
  view : View;
  tasks : gmap nat Task;
  next_task : nat;
  feature_uuids : nat;
  entries : list Entry
}.

Definition on_service (f : Service → Service) (s : features) : features :=
  {| service := f (service s); view := view s; tasks := tasks s; next_task := next_task s;
     feature_uuids := feature_uuids s; entries := entries s |}.
Definition on_view (f : View → View) (s : features) : features :=
  {| service := service s; view := f (view s); tasks := tasks s; next_task := next_task s;
     feature_uuids := feature_uuids s; entries := entries s |}.
Definition on_tasks (f : gmap nat Task → gmap nat Task) (s : features) : features :=
  {| service := service s; view := view s; tasks := f (tasks s); next_task := next_task s;
     feature_uuids := feature_uuids s; entries := entries s |}.
Definition log (e : Entry) (s : features) : features :=
  {| service := service s; view := view s; tasks := tasks s; next_task := next_task s;
     feature_uuids := feature_uuids s; entries := e :: entries s |}.
Definition new_task (s : features) : features :=
  {| service := service s; view := view s; tasks := tasks s; next_task := S (next_task s);
     feature_uuids := feature_uuids s; entries := entries s |}.
Definition new_uuid (s : features) : features :=
  {| service := service s; view := view s; tasks := tasks s; next_task := next_task s;
     feature_uuids := S (feature_uuids s); entries := entries s |}.

Definition put (k : nat) (t : Task) : features → features := on_tasks <[k := t]>.
Definition drop_task (k : nat) : features → features := on_tasks (delete k).

Definition set_installing (b : bool) (v : Service) : Service :=
  {| installing := b; activeInstallation := activeInstallation v;
     installationsByRequirement := installationsByRequirement v;
     activeModelInstallation := activeModelInstallation v; selectedModelOptionId := selectedModelOptionId v |}.
Definition set_activeModel (i : option RuntimeModelInstallation) (v : Service) : Service :=
  {| installing := installing v; activeInstallation := activeInstallation v;
     installationsByRequirement := installationsByRequirement v;
     activeModelInstallation := i; selectedModelOptionId := selectedModelOptionId v |}.
Definition set_selectedModel (id : string) (v : Service) : Service :=
  {| installing := installing v; activeInstallation := activeInstallation v;
     installationsByRequirement := installationsByRequirement v;
     activeModelInstallation := activeModelInstallation v; selectedModelOptionId := Some id |}.

Definition set_started (b : bool) (v : View) : View :=
  {| started := b; requirements := requirements v; requested := requested v; shown_message := shown_message v;
     firstRunDismissed := firstRunDismissed v; stored_dismissal := stored_dismissal v;
     reattachedForStart := reattachedForStart v; requirement_reloads := requirement_reloads v;
     model_option_reloads := model_option_reloads v |}.
Definition set_requirements (l : list RequirementUnit) (v : View) : View :=
  {| started := started v; requirements := l; requested := requested v; shown_message := shown_message v;
     firstRunDismissed := firstRunDismissed v; stored_dismissal := stored_dismissal v;
     reattachedForStart := reattachedForStart v; requirement_reloads := requirement_reloads v;
     model_option_reloads := model_option_reloads v |}.
Definition set_requested (l : list string) (v : View) : View :=
  {| started := started v; requirements := requirements v; requested := l; shown_message := shown_message v;
     firstRunDismissed := firstRunDismissed v; stored_dismissal := stored_dismissal v;
     reattachedForStart := reattachedForStart v; requirement_reloads := requirement_reloads v;
     model_option_reloads := model_option_reloads v |}.
Definition set_shown (text : string) (v : View) : View :=
  {| started := started v; requirements := requirements v; requested := requested v; shown_message := text;
     firstRunDismissed := firstRunDismissed v; stored_dismissal := stored_dismissal v;
     reattachedForStart := reattachedForStart v; requirement_reloads := requirement_reloads v;
     model_option_reloads := model_option_reloads v |}.
Definition set_dismissed (b : bool) (v : View) : View :=
  {| started := started v; requirements := requirements v; requested := requested v; shown_message := shown_message v;
     firstRunDismissed := b; stored_dismissal := stored_dismissal v;
     reattachedForStart := reattachedForStart v; requirement_reloads := requirement_reloads v;
     model_option_reloads := model_option_reloads v |}.
Definition set_stored (o : option (option string)) (v : View) : View :=
  {| started := started v; requirements := requirements v; requested := requested v; shown_message := shown_message v;
     firstRunDismissed := firstRunDismissed v; stored_dismissal := o;
     reattachedForStart := reattachedForStart v; requirement_reloads := requirement_reloads v;
     model_option_reloads := model_option_reloads v |}.
Definition set_reattached (b : bool) (v : View) : View :=
  {| started := started v; requirements := requirements v; requested := requested v; shown_message := shown_message v;
     firstRunDismissed := firstRunDismissed v; stored_dismissal := stored_dismissal v;
     reattachedForStart := b; requirement_reloads := requirement_reloads v;
     model_option_reloads := model_option_reloads v |}.
Definition reload_requirements (v : View) : View :=
  {| started := started v; requirements := requirements v; requested := requested v; shown_message := shown_message v;
     firstRunDismissed := firstRunDismissed v; stored_dismissal := stored_dismissal v;
     reattachedForStart := reattachedForStart v; requirement_reloads := S (requirement_reloads v);
     model_option_reloads := model_option_reloads v |}.
Definition reload_model_options (v : View) : View :=
  {| started := started v; requirements := requirements v; requested := requested v; shown_message := shown_message v;
     firstRunDismissed := firstRunDismissed v; stored_dismissal := stored_dismissal v;
     reattachedForStart := reattachedForStart v; requirement_reloads := requirement_reloads v;
     model_option_reloads := S (model_option_reloads v) |}.

(** [runtime.reload()]: the readiness resource is reloading. *)
Definition runtime_reload : View → View := set_started false.

(** ** Recording *)

Definition recordInstallation (i : RuntimeInstallation) (setActive : bool) (v : Service) : Service :=
  {| installing := installing v;
     activeInstallation := if setActive then Some i else activeInstallation v;
     installationsByRequirement := <[installation_requirementId i := i]> (installationsByRequirement v);
     activeModelInstallation := activeModelInstallation v; selectedModelOptionId := selectedModelOptionId v |}.

Definition record (i : RuntimeInstallation) : features → features := on_service (recordInstallation i true).

Definition installationFor (requirementId : string) (v : Service) : option RuntimeInstallation :=
  match activeInstallation v with
  | Some active => if String.eqb (installation_requirementId active) requirementId then Some active
                   else installationsByRequirement v !! requirementId
  | None => installationsByRequirement v !! requirementId
  end.

Definition in_progress (status : string) : bool := includes ["queued"; "running"] status.

Definition fail_message (e : rejection) : View → View := λ v, set_shown (errorMessage e) (reload_requirements v).

Definition finalize (k : nat) (s : features) : features := drop_task k (on_service (set_installing false) s).

Section install.
Context `{DesktopMessages}.
Variable uuid : nat → string.

(** What [pollInstallation$] makes of a terminal status that is neither
completed nor cancelled. *)
Definition failed_installation (name : string) (i : RuntimeInstallation) : rejection :=
ErrorObject (errorMessage (OtherValue (default (requirementFailed name) (failure_message <$> installation_error i)))).

(** ** The queue of chosen units *)

(** The [complete] and [error] handlers of [installRequirements], then [finalize]. *)
Definition queue_complete (k : nat) (s : features) : features :=
finalize k (on_view (λ v,
let v' := reload_requirements (runtime_reload v) in
if bool_decide ((installation_status <$> activeInstallation (service s)) = Some "completed")
then set_shown recheck v' else v') s).

Definition queue_error (k : nat) (e : rejection) (s : features) : features := finalize k (on_view (fail_message e) s).

(** [concatMap] subscribes to [installRequirement$] of the next unit. *)
Definition queue_next (k : nat) (rest : list RequirementUnit) (s : features) : features :=
match rest with
| [] => queue_complete k s
| unit :: rest' =>
  if String.eqb (unit_status unit) "manual_action_required" then
    queue_error k (ErrorObject (manualRequirement (displayName unit)
      (default finishInstallThenRetry (unit_detail unit)))) s
  else
    put k (Queue AtStart unit rest')
      (log (Sent k (StartInstallation (uuid (feature_uuids s)) (unit_id unit))) (new_uuid s))
end.

(** A status of the running unit: [tap], [filter], [take(1)], [map], [takeWhile]. *)
Definition queue_status (k : nat) (unit : RequirementUnit) (rest : list RequirementUnit) (i : RuntimeInstallation)
(s : features) : features :=
let s := record i s in
if in_progress (installation_status i) then put k (Queue (AtTimer i) unit rest) s
else if String.eqb (installation_status i) "completed" then queue_next k rest (log (Finished k (unit_id unit)) s)
else if String.eqb (installation_status i) "cancelled" then queue_complete k s
else queue_error k (failed_installation (displayName unit) i) s.

(** [installRequirements] of the store *)
Definition installRequirements (ids : list string) (installable : list RequirementUnit) (s : features) : features :=
if negb (started (view s)) || installing (service s) then s
else match installable with
| [] => s
| _ => let k := next_task s in
     queue_next k installable (on_service (set_installing true) (log (Chose k ids installable) (new_task s)))
end.

Definition installUnits (ids : list string) (s : features) : features :=
installRequirements ids (selectInstallableRequirements (requirements (view s)) ids) s.

Definition installRequestedRequirements (s : features) : features := installUnits (requested (view s)) s.

(** ** Existing installations *)

Definition reattachInstallations (s : features) : features :=
if negb (started (view s)) || installing (service s) then s
else let k := next_task s in put k Listing (log (Sent k ListInstallations) (new_task s)).

(** [concatMap] over the active items: each is recorded and, being active,
emitted once by [pollInstallation$] before its first pause. *)
Definition reattach_next (k : nat) (rest : list RuntimeInstallation) (s : features) : features :=
match rest with
| [] => finalize k s
| i :: rest' => put k (Reattached (AtTimer i) (installation_requirementId i) rest') (record i (record i s))
end.

(** The [next] handler of [reattachInstallations] for a terminal installation. *)
Definition reattach_terminal (i : RuntimeInstallation) : features → features := on_view (λ v,
let v' := reload_requirements (runtime_reload v) in
if String.eqb (installation_status i) "completed" then set_shown recheck v' else v').

Definition reattach_status (k : nat) (name : string) (rest : list RuntimeInstallation) (i : RuntimeInstallation)
(s : features) : features :=
let s := record i s in
if in_progress (installation_status i) then put k (Reattached (AtTimer i) name rest) s
else if includes ["completed"; "cancelled"] (installation_status i) then reattach_next k rest (reattach_terminal i s)
else queue_error k (failed_installation name i) s.

(** The reply to [listInstallations]; an error counts as no installations. *)
Definition listed (k : nat) (r : result rejection (list RuntimeInstallation)) (s : features) : features :=
let items := match r with Ok l => l | Err _ => [] end in
let s := on_service (λ v, fold_left (λ v i, recordInstallation i false v) (rev items) v) s in
match List.filter (λ i, in_progress (installation_status i)) items with
| [] => drop_task k s
| active => reattach_next k active (on_service (set_installing true) s)
end.

(** ** Models *)

Definition selectModelOption (optionId : string) (s : features) : features :=
if installing (service s) then s
else on_service (λ v, set_activeModel None (set_selectedModel optionId v)) s.

Definition installSelectedModel (s : features) : features :=
match selectedModelOptionId (service s) with
| Some optionId =>
  if negb (started (view s)) || installing (service s) || String.eqb optionId "" then s
  else
    let k := next_task s in
    put k ModelStart (log (Sent k (StartModelInstallation (uuid (feature_uuids s)) optionId))
      (on_service (λ v, set_installing true (set_activeModel None v)) (new_uuid (new_task s))))
| None => s
end.

(** The [finalize] of the store and the one of the service. *)
Definition model_finalize (k : nat) (s : features) : features :=
finalize k (on_view (λ v, reload_requirements (reload_model_options v)) s).

Definition model_error (k : nat) (e : rejection) (s : features) : features :=
model_finalize k (on_view (set_shown (errorMessage e)) s).

Definition failed_model (i : RuntimeModelInstallation) : rejection :=
ErrorObject ("Runtime model installation ended " +:+ model_status i +:+
(match model_errorCode i with
 | Some code => if String.eqb code "" then "" else " (" +:+ code +:+ ")"
 | None => ""
 end) +:+ ".").

Definition model_arrived (k : nat) (i : RuntimeModelInstallation) (s : features) : features :=
let s := on_service (set_activeModel (Some i)) s in
if in_progress (model_status i) then put k (ModelTimer i) s
else if String.eqb (model_status i) "completed" then model_finalize k s
else model_error k (failed_model i) s.

(** ** Cancelling *)

(** A task at [cancelled$.next()]. *)
Definition cancel_task (s : features) (k : nat) : features :=
match tasks s !! k with
| Some (Queue _ _ _) => queue_complete k s
| Some (Reattached _ _ _) => finalize k s
| _ => s
end.

Definition fire_cancelled (s : features) : features := fold_left cancel_task (seq 0 (next_task s)) s.

Definition cancel_target (installationId : option string) (s : features) : option string :=
match (match installationId with
     | Some id => Some id
     | None => CaptureModel.installationId <$> activeInstallation (service s)
     end) with
| Some id => if String.eqb id "" then None else Some id
| None => None
end.

Definition cancelInstallation (installationId : option string) (s : features) : features :=
match cancel_target installationId s with
| None => s
| Some id =>
  let s := fire_cancelled s in
  let k := next_task s in
  put k Canceling (log (Sent k (CancelInstallation id)) (new_task s))
end.

(** ** Replies *)

Definition deliver (k : nat) (reply : Reply) (s : features) : features :=
match tasks s !! k, reply with
| Some (Queue AtStart unit rest), Installation (Ok i) => queue_status k unit rest i (record i s)
| Some (Queue (AtTimer i) unit rest), Elapsed =>
  put k (Queue (AtGet i) unit rest) (log (Sent k (GetInstallation (CaptureModel.installationId i))) s)
| Some (Queue (AtGet _) unit rest), Installation (Ok i) => queue_status k unit rest i s
| Some (Queue (AtStart | AtGet _) _ _), Installation (Err e) => queue_error k e s
| Some Listing, Installations r => listed k r s
| Some (Reattached (AtTimer i) name rest), Elapsed =>
  put k (Reattached (AtGet i) name rest) (log (Sent k (GetInstallation (CaptureModel.installationId i))) s)
| Some (Reattached (AtGet _) name rest), Installation (Ok i) => reattach_status k name rest i s
| Some (Reattached (AtGet _) _ _), Installation (Err e) => queue_error k e s
| Some (ModelStart | ModelGet _), ModelInstallation (Ok i) => model_arrived k i s
| Some (ModelStart | ModelGet _), ModelInstallation (Err e) => model_error k e s
| Some (ModelTimer i), Elapsed => put k (ModelGet i) (log (Sent k (GetModelInstallation (model_installationId i))) s)
| Some Canceling, Installation (Ok i) => drop_task k (on_view reload_requirements (record i s))
| Some Canceling, Installation (Err e) =>
  reattachInstallations (on_view (set_shown (errorMessage e)) (drop_task k s))
| _, _ => s
end.

(** ** The first run *)

Definition FIRST_RUN_UNIT_IDS : list string := ["windowsml-ocr"; "speech-recognition"; "speaker-diarization"].

Definition readFirstRunDismissed (v : View) : bool := bool_decide (stored_dismissal v = Some (Some "true")).

Definition dismissFirstRun : features → features := on_view (λ v,
set_stored (match stored_dismissal v with Some _ => Some (Some "true") | None => None end) (set_dismissed true v)).

Definition installFirstRunSelection (ids : list string) (s : features) : features := installUnits ids (dismissFirstRun s).

Definition showFirstRunCard (s : features) : bool :=
negb (firstRunDismissed (view s)) &&
(negb (Nat.eqb (length (selectInstallableRequirements (requirements (view s)) FIRST_RUN_UNIT_IDS)) 0) ||
installing (service s)).

(** ** Start and reload *)

Definition reattachEffect (s : features) : features :=
if negb (started (view s)) then on_view (set_reattached false) s
else if reattachedForStart (view s) then s
else reattachInstallations (on_view (set_reattached true) s).

Definition initialize (s : features) : features :=
let s := on_view (λ v, reload_model_options (reload_requirements (set_dismissed (readFirstRunDismissed v) v))) s in
if started (view s) then reattachInstallations (on_view (set_reattached true) s) else s.

Definition requestUnit (id : string) : features → features :=
on_view (λ v, set_requested (if includes (requested v) id then requested v else requested v ++ [id]) v).

(** ** Steps *)

Inductive UserAction : Type :=
| InstallUnits (ids : list string)
| InstallRequestedRequirements
| InstallFirstRunSelection (ids : list string)
| InstallSelectedModel
| CancelAction (installationId : option string)
| SelectModelOption (optionId : string)
| RequestUnit (id : string)
| DismissFirstRun
| Initialize.

Definition act (a : UserAction) : features → features :=
match a with
| InstallUnits ids => installUnits ids
| InstallRequestedRequirements => installRequestedRequirements
| InstallFirstRunSelection ids => installFirstRunSelection ids
| InstallSelectedModel => installSelectedModel
| CancelAction id => cancelInstallation id
| SelectModelOption id => selectModelOption id
| RequestUnit id => requestUnit id
| DismissFirstRun => dismissFirstRun
| Initialize => initialize
end.

Inductive Input : Type :=
| User (a : UserAction)
| Answer (k : nat) (reply : Reply)
| Effect
| Environment (is_started : bool) (units : list RequirementUnit).

Definition react (i : Input) (s : features) : features :=
match i with
| User a => act a s
| Answer k reply => deliver k reply s
| Effect => reattachEffect s
| Environment is_started units => on_view (λ v, set_requirements units (set_started is_started v)) s
end.

(** ** Runs *)

Definition run (inputs : list Input) (s : features) : features := fold_left (λ s i, react i s) inputs s.

(** The services when they are constructed. *)
Definition start (dismissal : option (option string)) : features :=
{| service := {| installing := false; activeInstallation := None; installationsByRequirement := ∅;
             activeModelInstallation := None; selectedModelOptionId := None |};
view := {| started := false; requirements := []; requested := []; shown_message := "";
          firstRunDismissed := bool_decide (dismissal = Some (Some "true")); stored_dismissal := dismissal;
          reattachedForStart := false; requirement_reloads := 0; model_option_reloads := 0 |};
tasks := ∅; next_task := 0; feature_uuids := 0; entries := [] |}.

Definition reachable (s : features) : Prop := ∃ dismissal inputs, s = run inputs (start dismissal).

(** An invariant of every input holds of every reachable state. *)
Lemma reachable_ind (P : features → Prop) :
(∀ dismissal, P (start dismissal)) → (∀ i s, P s → P (react i s)) → ∀ s, reachable s → P s.
Proof.
intros H0 Hs s (d & inputs & ->). unfold run. induction inputs as [|i l IH] using rev_ind; [apply H0|].
rewrite fold_left_app. by apply Hs.
Qed.

(** ** What a change does to one task *)

Definition task_of (e : Entry) : nat := match e with Chose k _ _ | Sent k _ | Finished k _ => k end.

Definition mine (k : nat) (s : features) : list Entry := List.filter (λ e, Nat.eqb (task_of e) k) (entries s).

Definition start_of (e : Entry) : option string :=
match e with Sent _ (StartInstallation _ id) => Some id | _ => None end.
Definition finish_of (e : Entry) : option string := match e with Finished _ id => Some id | _ => None end.

(** The units started and completed, in the order of time. *)
Definition starts (es : list Entry) : list string := rev (omap start_of es).
Definition finishes (es : list Entry) : list string := rev (omap finish_of es).

(** The units chosen for a queue: asked for, installable, in installation order. *)
Definition well_chosen (ids : list string) (units : list RequirementUnit) : Prop :=
(∀ u, u ∈ units → unit_id u ∈ ids ∧ unit_status u = "installable") ∧
StronglySorted (λ x y, installation_order x ≤ installation_order y) units.

Definition between (es : list Entry) (rest : list RequirementUnit) : Prop :=
∃ k ids units, Chose k ids units ∈ es ∧ well_chosen ids units ∧
map unit_id units = finishes es ++ map unit_id rest ∧ starts es = finishes es.

Definition installs (es : list Entry) (unit : RequirementUnit) (rest : list RequirementUnit) : Prop :=
∃ k ids units, Chose k ids units ∈ es ∧ well_chosen ids units ∧
map unit_id units = finishes es ++ unit_id unit :: map unit_id rest ∧ starts es = finishes es ++ [unit_id unit].

Definition orderly (es : list Entry) : Prop :=
starts es = [] ∨
∃ k ids units rest, Chose k ids units ∈ es ∧ well_chosen ids units ∧ map unit_id units = starts es ++ rest ∧
(starts es = finishes es ∨ ∃ id, starts es = finishes es ++ [id]).

Definition task_ok (t : option Task) (es : list Entry) : Prop :=
match t with
| Some (Queue _ unit rest) => installs es unit rest
| Some _ => starts es = []
| None => orderly es
end.

Definition in_order (s : features) : Prop :=
(∀ k, task_ok (tasks s !! k) (mine k s)) ∧ ∀ k, (next_task s ≤ k)%nat → tasks s !! k = None ∧ mine k s = [].

Lemma between_orderly es rest : between es rest → orderly es.
Proof. intros (k & ids & units & Hc & Hw & Hm & Hs). right. exists k, ids, units, (map unit_id rest). rewrite Hs. auto. Qed.

Lemma installs_orderly es unit rest : installs es unit rest → orderly es.
Proof.
intros (k & ids & units & Hc & Hw & Hm & Hs). right. exists k, ids, units, (map unit_id rest).
split_and!; [done|done| |by right; exists (unit_id unit)]. by rewrite Hm, Hs, <-app_assoc.
Qed.

Lemma between_finish k es unit rest : installs es unit rest → between (Finished k (unit_id unit) :: es) rest.
Proof.
intros (j & ids & units & Hc & Hw & Hm & Hs). exists j, ids, units.
unfold starts, finishes in *. cbn. split_and!; [by right|done| |by rewrite Hs]. by rewrite Hm, <-app_assoc.
Qed.

Lemma installs_sent k call es unit rest :
start_of (Sent k call) = None → installs es unit rest → installs (Sent k call :: es) unit rest.
Proof.
intros Hn (j & ids & units & Hc & Hw & Hm & Hs). exists j, ids, units.
unfold starts, finishes in *. cbn [omap list_omap] in *. rewrite Hn. cbn. split_and!; [by right|done..].
Qed.

(** Two states that look the same to task [k]. *)
Definition same_task (k : nat) (s s' : features) : Prop := tasks s' !! k = tasks s !! k ∧ mine k s' = mine k s.

(** A change by task [k]: the others see nothing, and the counter may grow. *)
Definition changes (k : nat) (s s' : features) : Prop :=
(∀ j, j ≠ k → same_task j s s') ∧ (next_task s ≤ next_task s')%nat ∧ (k < next_task s')%nat.

Lemma in_order_changes k s s' :
in_order s → changes k s s' → task_ok (tasks s' !! k) (mine k s') → in_order s'.
Proof.
intros [Ht Hn] (Ho & Hge & Hlt) Hk. split.
- intros j. destruct (decide (j = k)) as [->|Hne]; [done|]. destruct (Ho j Hne) as [-> ->]. apply Ht.
- intros j Hj. destruct (Ho j ltac:(lia)) as [-> ->]. apply Hn. lia.
Qed.

Lemma mine_log k e s : mine k (log e s) = if Nat.eqb (task_of e) k then e :: mine k s else mine k s.
Proof. done. Qed.

Lemma changes_finalize k s : (k < next_task s)%nat → changes k s (finalize k s).
Proof.
intros Hk. split; [|cbn; lia]. intros j Hj. split; [|done]. by apply lookup_delete_ne.
Qed.

Lemma changes_trans k s s' s'' : changes k s s' → changes k s' s'' → changes k s s''.
Proof.
intros (Hf & Hn1 & Hk1) (Hg & Hn2 & Hk2). split; [|lia]. intros j Hj.
destruct (Hf j Hj) as [Ha Hb], (Hg j Hj) as [Hc Hd]. split; congruence.
Qed.

Lemma changes_put k t s : (k < next_task s)%nat → changes k s (put k t s).
Proof. intros Hk. split; [|cbn; lia]. intros j Hj. split; [|done]. by apply lookup_insert_ne. Qed.

Lemma changes_log e s : (task_of e < next_task s)%nat → changes (task_of e) s (log e s).
Proof.
intros Hk. split; [|cbn; lia]. intros j Hj. split; [done|]. rewrite mine_log.
by destruct (Nat.eqb_spec (task_of e) j).
Qed.

Lemma changes_plain k s s' :
tasks s' = tasks s → entries s' = entries s → (next_task s ≤ next_task s')%nat → (k < next_task s')%nat →
changes k s s'.
Proof. intros Ht He Hn Hk. split; [|done]. intros j _. unfold same_task, mine. by rewrite Ht, He. Qed.

Lemma lookup_finalize k s : tasks (finalize k s) !! k = None.
Proof. apply lookup_delete_eq. Qed.

Lemma lookup_put k t s : tasks (put k t s) !! k = Some t.
Proof. apply lookup_insert_eq. Qed.

Lemma changes_queue_complete k s : (k < next_task s)%nat → changes k s (queue_complete k s).
Proof.
intros Hk. split; [|cbn; lia]. intros j Hj. split; [|done]. by apply lookup_delete_ne.
Qed.

Lemma changes_queue_error k e s : (k < next_task s)%nat → changes k s (queue_error k e s).
Proof. intros Hk. split; [|cbn; lia]. intros j Hj. split; [|done]. by apply lookup_delete_ne. Qed.

Lemma queue_next_ok k rest s :
(k < next_task s)%nat → between (mine k s) rest →
changes k s (queue_next k rest s) ∧ task_ok (tasks (queue_next k rest s) !! k) (mine k (queue_next k rest s)).
Proof.
intros Hk Hb. destruct rest as [|unit rest]; cbn [queue_next].
- split; [by apply changes_queue_complete|]. unfold queue_complete. rewrite lookup_finalize. by eapply between_orderly.
- destruct (String.eqb _ _).
+ split; [by apply changes_queue_error|]. unfold queue_error. rewrite lookup_finalize. by eapply between_orderly.
+ set (e := Sent k _). split.
  * apply (changes_trans _ _ (log e (new_uuid s))); [|by apply changes_put].
    apply (changes_trans _ _ (new_uuid s)); [by apply changes_plain|by apply (changes_log e)].
  * rewrite lookup_put. change (mine k _) with (mine k (log e s)). rewrite mine_log. cbn [task_of e].
    rewrite Nat.eqb_refl. destruct Hb as (j & ids & units & Hc & Hw & Hm & Hs). exists j, ids, units.
    unfold starts, finishes in *. cbn. split_and!; [by right|done|done|by rewrite Hs].
Qed.

Lemma queue_status_ok k unit rest i s :
(k < next_task s)%nat → installs (mine k s) unit rest →
changes k s (queue_status k unit rest i s) ∧
task_ok (tasks (queue_status k unit rest i s) !! k) (mine k (queue_status k unit rest i s)).
Proof.
intros Hk Hi. unfold queue_status. cbv zeta. set (s1 := record i s).
assert (H1 : changes k s s1) by (by apply changes_plain). change (mine k s) with (mine k s1) in Hi.
change (next_task s) with (next_task s1) in Hk. clearbody s1.
destruct (in_progress _); [|destruct (String.eqb _ "completed"); [|destruct (String.eqb _ "cancelled")]].
- split; [eapply changes_trans; [done|by apply changes_put]|]. by rewrite lookup_put.
- set (e := Finished k (unit_id unit)). destruct (queue_next_ok k rest (log e s1)) as [Hc Ht]; [done| |].
+ rewrite mine_log. cbn [task_of e]. rewrite Nat.eqb_refl. by apply between_finish.
+ split; [|done]. eapply changes_trans; [done|]. eapply changes_trans; [by apply (changes_log e)|done].
- split; [eapply changes_trans; [done|by apply changes_queue_complete]|].
unfold queue_complete. rewrite lookup_finalize. by eapply installs_orderly.
- split; [eapply changes_trans; [done|by apply changes_queue_error]|].
unfold queue_error. rewrite lookup_finalize. by eapply installs_orderly.
Qed.

Lemma in_order_plain s s' :
tasks s' = tasks s → entries s' = entries s → next_task s' = next_task s → in_order s → in_order s'.
Proof. intros Ht He Hn [H1 H2]. unfold in_order, mine. rewrite Ht, He, Hn. done. Qed.

Lemma in_order_live k s t : in_order s → tasks s !! k = Some t → (k < next_task s)%nat.
Proof.
intros [_ Hn] Ht. destruct (Nat.lt_ge_cases k (next_task s)) as [|Hge]; [done|].
destruct (Hn k Hge) as [Hnone _]. congruence.
Qed.

Lemma in_order_idle k s t :
in_order s → tasks s !! k = Some t → (∀ w u l, t ≠ Queue w u l) → starts (mine k s) = [].
Proof. intros [Ht _] Hk Hq. specialize (Ht k). rewrite Hk in Ht. destruct t; try done. by destruct (Hq at_ unit rest). Qed.

(** A task that installs no units goes on or ends. *)
Lemma in_order_put k t s :
(k < next_task s)%nat → starts (mine k s) = [] → (∀ w u l, t ≠ Queue w u l) → in_order s → in_order (put k t s).
Proof.
intros Hk Hs Hq Hi. apply (in_order_changes k s); [done|by apply changes_put|]. rewrite lookup_put.
destruct t; try done. by destruct (Hq at_ unit rest).
Qed.

Lemma in_order_finalize k s : (k < next_task s)%nat → orderly (mine k s) → in_order s → in_order (finalize k s).
Proof.
intros Hk Hs Hi. apply (in_order_changes k s); [done|by apply changes_finalize|]. by rewrite lookup_finalize.
Qed.

Lemma in_order_drop k s : (k < next_task s)%nat → orderly (mine k s) → in_order s → in_order (drop_task k s).
Proof.
intros Hk Hs Hi. apply (in_order_plain (finalize k s)); [done..|]. by apply in_order_finalize.
Qed.

Lemma in_order_sent k call s t :
tasks s !! k = Some t → start_of (Sent k call) = None → in_order s → in_order (log (Sent k call) s).
Proof.
intros Ht Hn Hi. pose proof (in_order_live _ _ _ Hi Ht) as Hk.
apply (in_order_changes k s); [done|by apply (changes_log (Sent k call))|].
change (tasks (log _ s)) with (tasks s). rewrite mine_log. cbn [task_of]. rewrite Nat.eqb_refl.
destruct Hi as [Hi _]. specialize (Hi k). rewrite Ht in Hi |- *. unfold task_ok in *.
destruct t; [by apply installs_sent|unfold starts in *; cbn [omap list_omap]; by rewrite Hn..].
Qed.

Lemma in_order_new t e s :
in_order s → task_of e = next_task s → start_of e = None → (∀ w u l, t ≠ Queue w u l) →
in_order (put (next_task s) t (log e (new_task s))).
Proof.
intros Hi Ht Hn Hq. destruct (proj2 Hi (next_task s) ltac:(lia)) as [Hnone Hmine].
apply (in_order_changes (next_task s) s); [done| |].
- apply (changes_trans _ _ (new_task s)); [apply changes_plain; cbn; auto with arith|].
apply (changes_trans _ _ (log e (new_task s))); [rewrite <-Ht; apply changes_log; rewrite Ht; cbn; lia|apply changes_put; cbn; lia].
- rewrite lookup_put. change (mine _ (put _ _ _)) with (mine (next_task s) (log e s)).
rewrite mine_log, Ht, Nat.eqb_refl, Hmine. destruct t; [by destruct (Hq at_ unit rest)|unfold task_ok, starts; cbn; by rewrite Hn..].
Qed.

Lemma in_order_reattach s : in_order s → in_order (reattachInstallations s).
Proof.
intros Hi. unfold reattachInstallations. destruct (_ || _); [done|]. by apply in_order_new.
Qed.

Lemma in_order_reattach_next k rest s :
(k < next_task s)%nat → starts (mine k s) = [] → in_order s → in_order (reattach_next k rest s).
Proof.
intros Hk Hs Hi. destruct rest; cbn [reattach_next]; [apply in_order_finalize; [done|by left|done]|].
by apply in_order_put.
Qed.

Lemma in_order_reattach_status k name rest i s :
(k < next_task s)%nat → starts (mine k s) = [] → in_order s → in_order (reattach_status k name rest i s).
Proof.
intros Hk Hs Hi. unfold reattach_status. cbv zeta.
assert (Hi' : in_order (record i s)) by (by apply (in_order_plain s)).
destruct (in_progress _); [by apply in_order_put|]. destruct (includes _ _).
- apply in_order_reattach_next; [done..|]. by apply (in_order_plain s).
- unfold queue_error. apply in_order_finalize; [done|by left|]. by apply (in_order_plain s).
Qed.

Lemma in_order_listed k r s :
(k < next_task s)%nat → starts (mine k s) = [] → in_order s → in_order (listed k r s).
Proof.
intros Hk Hs Hi. unfold listed. cbv zeta. destruct (List.filter _ _).
- apply in_order_drop; [done|by left|]. by apply (in_order_plain s).
- apply in_order_reattach_next; [done..|]. by apply (in_order_plain s).
Qed.

Lemma in_order_model_error k e s :
(k < next_task s)%nat → starts (mine k s) = [] → in_order s → in_order (model_error k e s).
Proof. intros Hk Hs Hi. apply in_order_finalize; [done|by left|]. by apply (in_order_plain s). Qed.

Lemma in_order_model_arrived k i s :
(k < next_task s)%nat → starts (mine k s) = [] → in_order s → in_order (model_arrived k i s).
Proof.
intros Hk Hs Hi. unfold model_arrived. cbv zeta.
destruct (in_progress _); [apply in_order_put; try done; by apply (in_order_plain s)|].
destruct (String.eqb _ _).
- apply in_order_finalize; [done|by left|]. by apply (in_order_plain s).
- apply in_order_model_error; [done..|]. by apply (in_order_plain s).
Qed.

Lemma in_order_installRequirements ids rs s :
in_order s → in_order (installRequirements ids (selectInstallableRequirements rs ids) s).
Proof.
intros Hi. unfold installRequirements. destruct (_ || _); [done|].
pose proof (selectInstallableRequirements_spec rs ids) as Hspec.
pose proof (selectInstallableRequirements_sorted rs ids) as Hsort.
destruct (selectInstallableRequirements rs ids) as [|u l]; [done|]. cbv zeta.
set (units := u :: l) in *. set (k := next_task s). set (s1 := on_service _ _).
destruct (proj2 Hi k ltac:(lia)) as [Hnone Hmine].
assert (Hm : mine k s1 = [Chose k ids units]).
{ change (mine k s1) with (mine k (log (Chose k ids units) s)). rewrite mine_log. cbn [task_of]. by rewrite Nat.eqb_refl, Hmine. }
assert (Hc : changes k s s1).
{ apply (changes_trans _ _ (new_task s)); [apply changes_plain; cbn; auto with arith|].
apply (changes_log (Chose k ids units)). cbn. lia. }
destruct (queue_next_ok k units s1) as [Hc2 Ht]; [cbn; lia| |].
{ rewrite Hm. exists k, ids, units. split_and!; [by left| |done|done]. split; [|done].
intros v Hv. by apply Hspec in Hv as (_ & ? & ?). }
apply (in_order_changes k s); [done|by eapply changes_trans|done].
Qed.

Lemma in_order_cancel_task s k : in_order s → in_order (cancel_task s k).
Proof.
intros Hi. unfold cancel_task. destruct (tasks s !! k) as [t|] eqn:Ht; [|done].
pose proof (in_order_live _ _ _ Hi Ht) as Hk. destruct t; try done.
- assert (Hr : installs (mine k s) unit rest). { destruct Hi as [Hi _]. specialize (Hi k). by rewrite Ht in Hi. }
unfold queue_complete. apply in_order_finalize; [done|by eapply installs_orderly|]. by apply (in_order_plain s).
- apply in_order_finalize; [done| |done]. left. by eapply in_order_idle.
Qed.

Lemma in_order_fire s : in_order s → in_order (fire_cancelled s).
Proof.
unfold fire_cancelled. generalize (seq 0 (next_task s)). intros l. revert s.
induction l as [|k l IH]; intros s Hi; [done|]. by apply IH, in_order_cancel_task.
Qed.

Lemma in_order_deliver k reply s : in_order s → in_order (deliver k reply s).
Proof.
intros Hi. unfold deliver. destruct (tasks s !! k) as [t|] eqn:Ht; [|done].
pose proof (in_order_live _ _ _ Hi Ht) as Hk. pose proof (proj1 Hi k) as Hok. rewrite Ht in Hok.
destruct t as [w u l| |w n l| |i|i|]; cbn [task_ok] in Hok.
- assert (Hq : ∀ s' i, next_task s' = next_task s → mine k s' = mine k s → in_order s' → in_order (queue_status k u l i s')).
{ intros s' i Hn Hm Hi'. destruct (queue_status_ok k u l i s') as [Hc Ht']; [by rewrite Hn|by rewrite Hm|].
  by apply (in_order_changes k s'). }
assert (He : ∀ e, in_order (queue_error k e s)).
{ intros e. apply in_order_finalize; [done|by eapply installs_orderly|]. by apply (in_order_plain s). }
destruct w as [|i|i], reply as [[j|e]|r|r|]; auto.
apply (in_order_changes k (log (Sent k (GetInstallation (CaptureModel.installationId i))) s)).
+ by eapply in_order_sent.
+ by apply changes_put.
+ rewrite lookup_put. change (mine k _) with (mine k (log (Sent k (GetInstallation (CaptureModel.installationId i))) s)).
    rewrite mine_log. cbn [task_of]. rewrite Nat.eqb_refl. by apply installs_sent.
- destruct reply as [r|r|r|]; try done. by apply in_order_listed.
- destruct w as [|i|i], reply as [[j|e]|r|r|]; try done.
+ apply in_order_put; try done; [|by eapply in_order_sent].
  rewrite mine_log. cbn [task_of]. by rewrite Nat.eqb_refl.
+ by apply in_order_reattach_status.
+ apply in_order_finalize; [done|by left|]. by apply (in_order_plain s).
- destruct reply as [r|r|[j|e]|]; try done; [by apply in_order_model_arrived|by apply in_order_model_error].
- destruct reply as [r|r|r|]; try done. apply in_order_put; try done; [|by eapply in_order_sent].
rewrite mine_log. cbn [task_of]. by rewrite Nat.eqb_refl.
- destruct reply as [r|r|[j|e]|]; try done; [by apply in_order_model_arrived|by apply in_order_model_error].
- destruct reply as [[j|e]|r|r|]; try done.
+ apply in_order_drop; [done|by left|]. by apply (in_order_plain s).
+ apply in_order_reattach, (in_order_plain (drop_task k s)); [done..|]. apply in_order_drop; [done|by left|done].
Qed.

Lemma in_order_react i s : in_order s → in_order (react i s).
Proof.
intros Hi. destruct i as [a|k r| |b l]; cbn [react].
- destruct a; cbn [act]; try by apply (in_order_plain s).
+ by apply in_order_installRequirements.
+ by apply in_order_installRequirements.
+ apply in_order_installRequirements. by apply (in_order_plain s).
+ unfold installSelectedModel. destruct (selectedModelOptionId _); [|done]. destruct (_ || _); [done|].
  by apply (in_order_plain (put (next_task s) ModelStart
    (log (Sent (next_task s) (StartModelInstallation (uuid (feature_uuids s)) s0)) (new_task s)))); [done..|apply in_order_new].
+ unfold cancelInstallation. destruct (cancel_target _ _); [|done]. apply in_order_new; [by apply in_order_fire|done..].
+ unfold selectModelOption. destruct (installing _); [done|by apply (in_order_plain s)].
+ unfold initialize. cbv zeta. destruct (started _); [|by apply (in_order_plain s)].
  apply in_order_reattach. by apply (in_order_plain s).
- by apply in_order_deliver.
- unfold reattachEffect. destruct (negb _); [by apply (in_order_plain s)|]. destruct (reattachedForStart _); [done|].
apply in_order_reattach. by apply (in_order_plain s).
- by apply (in_order_plain s).
Qed.

Lemma reachable_in_order s : reachable s → in_order s.
Proof.
apply reachable_ind; [|intros i x; apply in_order_react]. intros d. split; [|done]. intros k. by left.
Qed.

(** C11: The units a user asks for are installed one at a time, in installation
  order: whatever the runtime answers and whatever else happens, the units a
  task has started are a prefix of a queue the user chose, which holds
  installable units the user asked for, and every unit but the last was
  completed before the next was started. *)
Theorem units_are_installed_in_order s k :
reachable s →
starts (mine k s) = [] ∨
∃ j ids units rest, Chose j ids units ∈ mine k s ∧ well_chosen ids units ∧
map unit_id units = starts (mine k s) ++ rest ∧
(starts (mine k s) = finishes (mine k s) ∨ ∃ id, starts (mine k s) = finishes (mine k s) ++ [id]).
Proof.
intros [Hi _]%reachable_in_order. specialize (Hi k). change (orderly (mine k s)).
destruct (tasks s !! k) as [[]|]; [by eapply installs_orderly|by left..|done].
Qed.

(** ** The installing flag *)

(** Tasks that install, and those that may come to. *)
Definition holds (t : Task) : bool := match t with Listing | Canceling => false | _ => true end.
Definition active (t : Task) : bool := match t with Canceling => false | _ => true end.

(** At most one task is active, and the flag is set exactly while one installs. *)
Definition exact (s : features) : Prop :=
(∀ j k t u, tasks s !! j = Some t → tasks s !! k = Some u → active t = true → active u = true → j = k) ∧
(∀ k t, tasks s !! k = Some t → active t = true → installing (service s) = holds t) ∧
(installing (service s) = true → ∃ k t, tasks s !! k = Some t ∧ holds t = true).

Definition alone (k : nat) (s : features) : Prop := ∀ j u, j ≠ k → tasks s !! j = Some u → active u = false.

(** While installations are being listed, nothing else begins to install. *)
Definition calm (s : features) (i : Input) : Prop :=
(∃ k, tasks s !! k = Some Listing) →
match i with
| User (CancelAction _ | SelectModelOption _ | RequestUnit _ | DismissFirstRun) | Environment _ _ => True
| User _ | Effect => False
| Answer k _ => tasks s !! k ≠ Some Canceling
end.

Fixpoint calm_inputs (inputs : list Input) (s : features) : Prop :=
match inputs with [] => True | i :: l => calm s i ∧ calm_inputs l (react i s) end.

Lemma exact_ext s s' :
tasks s' = tasks s → installing (service s') = installing (service s) → exact s → exact s'.
Proof. unfold exact. by intros -> ->. Qed.

Lemma exact_others k t s : exact s → tasks s !! k = Some t → active t = true → alone k s.
Proof.
intros (Hu & _ & _) Hk Ha j u Hne Hj. destruct (active u) eqn:E; [|done]. by destruct (Hne (Hu _ _ _ _ Hj Hk E Ha)).
Qed.

Lemma exact_alone k t s :
alone k s → tasks s !! k = Some t → installing (service s) = holds t → (active t = false → holds t = false) → exact s.
Proof.
intros Ho Hk Hi Ha.
assert (Hone : ∀ j u, tasks s !! j = Some u → active u = true → j = k ∧ u = t).
{ intros j u Hj Hu. destruct (decide (j = k)) as [->|Hne]; [|by rewrite (Ho _ _ Hne Hj) in Hu]. split; congruence. }
split_and!.
- intros i j u v H1 H2 Hu Hv. apply Hone in H1 as [-> _]; [|done]. by apply Hone in H2 as [-> _].
- intros j u Hj Hu. by apply Hone in Hj as [-> ->].
- intros Hb. exists k, t. split; [done|congruence].
Qed.

Lemma exact_put k t s :
alone k s → installing (service s) = holds t → exact (put k t s).
Proof.
intros Ho Hi. apply (exact_alone k t); [|by rewrite lookup_put|done|by destruct t].
intros j u Hne Hj. apply (Ho j u Hne). change (<[k:=t]> (tasks s) !! j = Some u) in Hj. by rewrite lookup_insert_ne in Hj.
Qed.

Lemma exact_finalize k s : alone k s → exact (finalize k s).
Proof.
intros Ho. assert (Hnone : ∀ j u, tasks (finalize k s) !! j = Some u → active u = false).
{ intros j u Hj. change (delete k (tasks s) !! j = Some u) in Hj. apply lookup_delete_Some in Hj as [? Hj].
by eapply Ho. }
split_and!; [|intros j t Hj Ht; by rewrite (Hnone _ _ Hj) in Ht|done].
intros i j t u Hi _ Ht _. by rewrite (Hnone _ _ Hi) in Ht.
Qed.

(** Tasks without a claim to the flag come and go. *)
Lemma exact_drop k t s : exact s → tasks s !! k = Some t → holds t = false → exact (drop_task k s).
Proof.
intros (Hu & Hf & Hb) Hk Ht.
assert (Hsub : ∀ j u, tasks (drop_task k s) !! j = Some u → tasks s !! j = Some u).
{ intros j u Hj. change (delete k (tasks s) !! j = Some u) in Hj. by apply lookup_delete_Some in Hj as [_ ?]. }
split_and!.
- intros i j u v H1 H2. apply Hsub in H1, H2. by apply (Hu i j u v).
- intros j u Hj. apply Hsub in Hj. by apply (Hf j u).
- intros (j & u & Hj & Hh)%Hb. exists j, u. split; [|done]. change (delete k (tasks s) !! j = Some u).
rewrite lookup_delete_ne; [done|]. intros <-. congruence.
Qed.

Lemma exact_put_inactive k t s : exact s → tasks s !! k = None → active t = false → exact (put k t s).
Proof.
intros (Hu & Hf & Hb) Hk Ht.
assert (Hsub : ∀ j u, tasks (put k t s) !! j = Some u → active u = true → tasks s !! j = Some u).
{ intros j u Hj Ha. change (<[k:=t]> (tasks s) !! j = Some u) in Hj.
apply lookup_insert_Some in Hj as [[_ ->]|[_ ?]]; [congruence|done]. }
split_and!.
- intros i j u v H1 H2 Ha Hb'. apply Hsub in H1, H2; try done. by apply (Hu i j u v).
- intros j u Hj Ha. apply Hsub in Hj; [|done]. by apply (Hf j u).
- intros (j & u & Hj & Hh)%Hb. exists j, u. split; [|done]. change (<[k:=t]> (tasks s) !! j = Some u).
rewrite lookup_insert_ne; [done|]. intros ->. congruence.
Qed.

(** With the flag down and no listing, no task is active. *)
Lemma exact_idle s :
exact s → installing (service s) = false → (∀ k, tasks s !! k ≠ Some Listing) →
∀ j u, tasks s !! j = Some u → active u = false.
Proof.
intros (_ & Hf & _) Hi Hl j u Hj. destruct (active u) eqn:Ha; [|done]. specialize (Hf _ _ Hj Ha).
rewrite Hi in Hf. by destruct u; destruct (Hl j).
Qed.

Lemma exact_queue_next k rest s : alone k s → installing (service s) = true → exact (queue_next k rest s).
Proof.
intros Ho Hi. destruct rest as [|u l]; cbn [queue_next]; [by apply exact_finalize|].
destruct (String.eqb _ _); [by apply exact_finalize|by apply exact_put].
Qed.

Lemma exact_queue_status k u l i s : alone k s → installing (service s) = true → exact (queue_status k u l i s).
Proof.
intros Ho Hi. unfold queue_status. cbv zeta.
repeat case_match; [by apply exact_put|by apply exact_queue_next|by apply exact_finalize..].
Qed.

Lemma exact_reattach_next k rest s : alone k s → installing (service s) = true → exact (reattach_next k rest s).
Proof. intros Ho Hi. destruct rest as [|u l]; cbn [reattach_next]; [by apply exact_finalize|by apply exact_put]. Qed.

Lemma exact_reattach_status k n l i s : alone k s → installing (service s) = true → exact (reattach_status k n l i s).
Proof.
intros Ho Hi. unfold reattach_status. cbv zeta.
repeat case_match; [by apply exact_put|by apply exact_reattach_next|by apply exact_finalize].
Qed.

Lemma record_all_installing l v :
installing (fold_left (λ v i, recordInstallation i false v) l v) = installing v.
Proof. revert v. induction l as [|i l IH]; intros v; [done|]. cbn. by rewrite IH. Qed.

Lemma exact_listed k r s : exact s → tasks s !! k = Some Listing → exact (listed k r s).
Proof.
intros He Hk. pose proof (exact_others _ _ _ He Hk eq_refl) as Ho. unfold listed. cbv zeta.
set (s' := on_service _ s). destruct (List.filter _ _).
- apply (exact_drop k Listing); [|done..]. apply (exact_ext s); [done|apply record_all_installing|done].
- by apply exact_reattach_next.
Qed.

Lemma exact_model_arrived k i s : alone k s → installing (service s) = true → exact (model_arrived k i s).
Proof.
intros Ho Hi. unfold model_arrived. cbv zeta. repeat case_match; [by apply exact_put|by apply exact_finalize..].
Qed.

Lemma exact_reattach s :
exact s → (∀ k, tasks s !! k ≠ Some Listing) → exact (reattachInstallations s).
Proof.
intros He Hl. unfold reattachInstallations. destruct (negb _ || installing _) eqn:Hg; [done|].
apply orb_false_iff in Hg as [_ Hi]. apply exact_put; [|done]. intros j u _. by apply (exact_idle s).
Qed.

Lemma exact_installRequirements ids l s :
exact s → (∀ k, tasks s !! k ≠ Some Listing) → exact (installRequirements ids l s).
Proof.
intros He Hl. unfold installRequirements. destruct (negb _ || installing _) eqn:Hg; [done|].
apply orb_false_iff in Hg as [_ Hi]. destruct l as [|u l]; [done|]. cbv zeta.
apply exact_queue_next; [|done]. intros j v _. by apply (exact_idle s).
Qed.

Lemma exact_cancel_task s k : exact s → exact (cancel_task s k).
Proof.
intros He. unfold cancel_task. destruct (tasks s !! k) as [t|] eqn:Ht; [|done].
destruct t; try done; apply exact_finalize; by eapply exact_others.
Qed.

Lemma exact_fire s : exact s → exact (fire_cancelled s).
Proof.
unfold fire_cancelled. generalize (seq 0 (next_task s)). intros l. revert s.
induction l as [|k l IH]; intros s Hi; [done|]. by apply IH, exact_cancel_task.
Qed.

Lemma exact_deliver k reply s :
exact s → ((∃ j, tasks s !! j = Some Listing) → tasks s !! k ≠ Some Canceling) → exact (deliver k reply s).
Proof.
intros He Hc. unfold deliver. destruct (tasks s !! k) as [t|] eqn:Ht; [|done].
assert (Ha : active t = true → alone k s) by (intros Ha; by eapply exact_others).
assert (Hi : active t = true → installing (service s) = holds t) by (intros Ha'; by eapply (proj1 (proj2 He))).
destruct t as [w u l| |w n l| |i|i|]; try (specialize (Ha eq_refl); specialize (Hi eq_refl)); cbn [holds] in Hi.
- destruct w as [|i|i], reply as [[j|e]|r|r|]; try done;
  first [by apply exact_queue_status|by apply exact_finalize|by apply exact_put].
- destruct reply as [r|r|r|]; try done. by apply exact_listed.
- destruct w as [|i|i], reply as [[j|e]|r|r|]; try done;
  first [by apply exact_reattach_status|by apply exact_finalize|by apply exact_put].
- destruct reply as [r|r|[j|e]|]; try done; [by apply exact_model_arrived|by apply exact_finalize].
- destruct reply as [r|r|r|]; try done. by apply exact_put.
- destruct reply as [r|r|[j|e]|]; try done; [by apply exact_model_arrived|by apply exact_finalize].
- destruct reply as [[j|e]|r|r|]; try done.
+ by apply (exact_drop k Canceling (on_view reload_requirements (record j s))).
+ apply exact_reattach; [by apply (exact_drop k Canceling s)|]. intros j Hj.
  change (delete k (tasks s) !! j = Some Listing) in Hj. apply lookup_delete_Some in Hj as [_ Hj].
  by apply Hc; [exists j|].
Qed.

Lemma exact_react i s : in_order s → exact s → calm s i → exact (react i s).
Proof.
intros Ho He Hc. destruct i as [a|k r| |b l]; cbn [react].
- assert (Hl : match a with CancelAction _ | SelectModelOption _ | RequestUnit _ | DismissFirstRun => True
           | _ => ∀ k, tasks s !! k ≠ Some Listing end) by (destruct a; try done; intros k Hk; by apply Hc; exists k).
destruct a; cbn [act]; try done.
+ by apply exact_installRequirements.
+ by apply exact_installRequirements.
+ by apply exact_installRequirements.
+ unfold installSelectedModel. destruct (selectedModelOptionId _) as [id|]; [|done].
  destruct (negb _ || installing _ || _) eqn:Hg; [done|]. apply orb_false_iff in Hg as [[_ Hi]%orb_false_iff _].
  apply exact_put; [|done]. intros j u _. by apply (exact_idle s).
+ unfold cancelInstallation. destruct (cancel_target _ _) as [id|]; [|done]. cbv zeta.
  apply exact_put_inactive; [by apply (exact_fire s)| |done].
  destruct (proj2 (in_order_fire _ Ho) (next_task (fire_cancelled s)) ltac:(lia)) as [Hn _]. done.
+ unfold selectModelOption. by destruct (installing _).
+ unfold initialize. cbv zeta. destruct (started _); [|done]. by apply exact_reattach.
- apply exact_deliver; [done|]. intros Hl. by apply Hc.
- assert (Hl : ∀ k, tasks s !! k ≠ Some Listing) by (intros k Hk; by apply Hc; exists k).
unfold reattachEffect. destruct (negb _); [done|]. destruct (reattachedForStart _); [done|]. by apply exact_reattach.
- done.
Qed.

Lemma calm_run_exact inputs s : in_order s → exact s → calm_inputs inputs s → exact (run inputs s).
Proof.
revert s. induction inputs as [|i l IH]; intros s Ho He Hc; [done|]. destruct Hc as [Hc Hl].
apply (IH (react i s)); [by apply in_order_react|by apply exact_react|done].
Qed.

Lemma start_in_order d : in_order (start d).
Proof. split; [|done]. intros k. by left. Qed.

(** The flag that guards installations and the compute setting is exact, as
  long as nothing begins to install while existing installations are being
  listed: it is set if and only if a task installs, whatever the order of
  replies, failures and cancellations, and then no other task does. *)
Lemma installing_flag_is_exact dismissal inputs :
calm_inputs inputs (start dismissal) →
let s := run inputs (start dismissal) in
(installing (service s) = true ↔ ∃ k t, tasks s !! k = Some t ∧ holds t = true) ∧
∀ j k t u, tasks s !! j = Some t → tasks s !! k = Some u → holds t = true → holds u = true → j = k.
Proof.
intros Hc s. assert (He : exact s) by (apply calm_run_exact; [apply start_in_order| |done]; split_and!; done).
destruct He as (Hu & Hf & Hb). assert (Ha : ∀ t, holds t = true → active t = true) by (by intros []).
split.
- split; [done|]. intros (k & t & Hk & Ht). by rewrite (Hf _ _ Hk (Ha _ Ht)).
- intros j k t u Hj Hk Ht Hu'. eapply (Hu j k); eauto.
Qed.

(** ** Cancelling ends the queues *)

Definition all_starts (s : features) : list string := omap start_of (entries s).
Definition is_queue (t : Task) : bool := match t with Queue _ _ _ => true | _ => false end.
Definition no_queue (s : features) : Prop := ∀ k t, tasks s !! k = Some t → is_queue t = false.

(** Inputs by which the user chooses units. *)
Definition chooses (i : Input) : bool :=
match i with User (InstallUnits _ | InstallRequestedRequirements | InstallFirstRunSelection _) => true | _ => false end.

(** From [s] to [s'] no unit was started, and no queue is left. *)
Definition idles (s s' : features) : Prop := no_queue s' ∧ all_starts s' = all_starts s.

Lemma no_queue_put k t s : no_queue s → is_queue t = false → no_queue (put k t s).
Proof.
intros Hn Ht j u Hj. change (<[k:=t]> (tasks s) !! j = Some u) in Hj.
apply lookup_insert_Some in Hj as [[_ <-]|[_ Hj]]; [done|by eapply Hn].
Qed.

Lemma no_queue_drop k s : no_queue s → no_queue (drop_task k s).
Proof.
intros Hn j u Hj. change (delete k (tasks s) !! j = Some u) in Hj. apply lookup_delete_Some in Hj as [_ Hj]. by eapply Hn.
Qed.

Lemma idles_put k t s s' :
no_queue s → tasks s' = tasks s → all_starts s' = all_starts s → is_queue t = false → idles s (put k t s').
Proof.
intros Hn Ht Hs Hq. split; [|done]. apply no_queue_put; [|done]. intros j u. rewrite Ht. apply Hn.
Qed.

Lemma idles_drop k s s' : no_queue s → tasks s' = tasks s → all_starts s' = all_starts s → idles s (drop_task k s').
Proof. intros Hn Ht Hs. split; [|done]. apply no_queue_drop. intros j u. rewrite Ht. apply Hn. Qed.

Lemma idles_reattach s s' :
no_queue s → tasks s' = tasks s → all_starts s' = all_starts s → idles s (reattachInstallations s').
Proof. intros Hn Ht Hs. unfold reattachInstallations. destruct (_ || _); [|by apply idles_put].
split; [|done]. intros j u. rewrite Ht. apply Hn.
Qed.

Lemma idles_reattach_next k l s s' :
no_queue s → tasks s' = tasks s → all_starts s' = all_starts s → idles s (reattach_next k l s').
Proof. intros Hn Ht Hs. destruct l; cbn [reattach_next]; [by apply idles_drop|by apply idles_put]. Qed.

Lemma idles_deliver k reply s : no_queue s → idles s (deliver k reply s).
Proof.
intros Hn. unfold deliver. destruct (tasks s !! k) as [t|] eqn:Ht; [|done]. pose proof (Hn _ _ Ht) as Hq.
destruct t as [w u l| |w n l| |i|i|]; try done.
- destruct reply as [r|r|r|]; try done. unfold listed. cbv zeta.
destruct (List.filter _ _); [by apply idles_drop|by apply idles_reattach_next].
- destruct w as [|i|i], reply as [[j|e]|r|r|]; try done; [by apply idles_put| |by apply idles_drop].
unfold reattach_status. cbv zeta. repeat case_match; [by apply idles_put|by apply idles_reattach_next|by apply idles_drop].
- destruct reply as [r|r|[j|e]|]; try done; [|by apply idles_drop].
unfold model_arrived. cbv zeta. repeat case_match; [by apply idles_put|by apply idles_drop..].
- destruct reply as [r|r|r|]; try done. by apply idles_put.
- destruct reply as [r|r|[j|e]|]; try done; [|by apply idles_drop].
unfold model_arrived. cbv zeta. repeat case_match; [by apply idles_put|by apply idles_drop..].
- destruct reply as [[j|e]|r|r|]; try done; [by apply idles_drop|]. by apply (idles_reattach (drop_task k s)); [apply no_queue_drop|..].
Qed.

Lemma cancel_task_shrinks s k j t : tasks (cancel_task s k) !! j = Some t → tasks s !! j = Some t ∧ (j = k → is_queue t = false).
Proof.
unfold cancel_task. intros Hj.
assert (Hd : ∀ s', tasks s' = tasks s → tasks (finalize k s') !! j = Some t → tasks s !! j = Some t ∧ (j = k → is_queue t = false)).
{ intros s' Hs' H1. change (delete k (tasks s') !! j = Some t) in H1. rewrite Hs' in H1.
apply lookup_delete_Some in H1 as [Hne H1]. by split; [|intros ->]. }
destruct (tasks s !! k) as [u|] eqn:Hk; [|by split; [|intros ->; congruence]].
destruct u; try (by apply (Hd (on_view _ s))); try (by apply (Hd s)); (split; [done|intros ->; rewrite Hk in Hj; by simplify_eq]).
Qed.

Lemma fire_no_queue l s :
(∀ k t, tasks s !! k = Some t → k ∈ l ∨ is_queue t = false) → no_queue (fold_left cancel_task l s).
Proof.
revert s. induction l as [|k l IH]; intros s Hs; cbn [fold_left].
- intros j t Hj. destruct (Hs j t Hj) as [Hin|]; [by inversion Hin|done].
- apply IH. intros j t Hj. apply cancel_task_shrinks in Hj as [Hj Hk].
destruct (Hs j t Hj) as [Hin|]; [|by right]. apply elem_of_cons in Hin as [->|]; [right; by apply Hk|by left].
Qed.

Lemma fire_starts l s : all_starts (fold_left cancel_task l s) = all_starts s.
Proof.
revert s. induction l as [|k l IH]; intros s; [done|]. cbn [fold_left]. rewrite IH. unfold cancel_task.
by repeat case_match.
Qed.

Lemma idles_cancel id s : in_order s → cancel_target id s ≠ None → idles s (cancelInstallation id s).
Proof.
intros Hi Ht. unfold cancelInstallation. destruct (cancel_target id s); [|done]. cbv zeta.
split; [|apply fire_starts]. apply no_queue_put; [|done]. apply (fire_no_queue (seq 0 (next_task s)) s).
intros k t Hk. left. apply list_elem_of_In, in_seq. pose proof (in_order_live _ _ _ Hi Hk). lia.
Qed.

Lemma idles_react i s : in_order s → no_queue s → chooses i = false → idles s (react i s).
Proof.
intros Hi Hn Hc. destruct i as [a|k r| |b l]; cbn [react].
- destruct a; try done; cbn [act].
+ unfold installSelectedModel. destruct (selectedModelOptionId _); [|done]. destruct (_ || _); [done|by apply idles_put].
+ destruct (cancel_target installationId s) eqn:E; [apply idles_cancel; [done|by rewrite E]|].
  unfold cancelInstallation. by rewrite E.
+ unfold selectModelOption. by destruct (installing _).
+ unfold initialize. cbv zeta. destruct (started _); [|done]. by apply idles_reattach.
- by apply idles_deliver.
- unfold reattachEffect. destruct (negb _); [done|]. destruct (reattachedForStart _); [done|]. by apply idles_reattach.
- done.
Qed.

Lemma idles_run inputs s :
in_order s → no_queue s → Forall (λ i, chooses i = false) inputs → all_starts (run inputs s) = all_starts s.
Proof.
revert s. induction inputs as [|i l IH]; intros s Hi Hn Hall; [done|]. apply Forall_cons in Hall as [Hc Hall].
destruct (idles_react i s Hi Hn Hc) as [Hn' <-]. apply (IH (react i s)); [by apply in_order_react|done..].
Qed.

(** The user's cancellation ends every queue: from then on, until the user
  chooses units again, no unit is started - not the rest of the queue, not by
  a reply on its way, by a refused cancellation, or by attaching to existing
  installations after a reload. *)
Lemma cancellation_ends_every_queue s id inputs :
reachable s → cancel_target id s ≠ None → Forall (λ i, chooses i = false) inputs →
all_starts (run inputs (react (User (CancelAction id)) s)) = all_starts s.
Proof.
intros Hi%reachable_in_order Ht Hall. destruct (idles_cancel id s Hi Ht) as [Hn <-].
apply idles_run; [by apply (in_order_react (User (CancelAction id)))|done..].
Qed.

(** ** Records *)

(** Listing records the newest installation of every unit, the first listed. *)
Lemma listed_newest items v id :
installationsByRequirement (fold_left (λ v i, recordInstallation i false v) (rev items) v) !! id =
match List.find (λ i, String.eqb (installation_requirementId i) id) items with
| Some i => Some i
| None => installationsByRequirement v !! id
end.
Proof.
induction items as [|i l IH]; [done|]. cbn [rev List.find]. rewrite fold_left_app. cbn [fold_left].
set (w := fold_left _ _ _) in *.
change (installationsByRequirement (recordInstallation i false w))
with (<[installation_requirementId i := i]> (installationsByRequirement w)). destruct (String.eqb_spec (installation_requirementId i) id) as [<-|Hne].
- by rewrite lookup_insert_eq.
- rewrite lookup_insert_ne by done. apply IH.
Qed.
End install.

(** ** Examples *)

Definition sample_unit (id : string) : RequirementUnit :=
  {| unit_requirement := {| requirementId := id; requirement_status := "installable"; requirement_optional := true |};
     displayName := id; unit_detail := None |}.

Definition sample_installation (id requirement status : string) : RuntimeInstallation :=
  {| installationId := id; installation_requirementId := requirement; installation_status := status;
     installation_progress := num_of_Z 0; installation_error := None |}.

Definition sample_uuid (n : nat) : string := show_nat n.

Definition two_units : list RequirementUnit := [sample_unit "speech-recognition"; sample_unit "windowsml-ocr"].

(** Two units are chosen; the first one is completed and the second one is started. *)
Definition two_installed : list Input :=
  [Environment true two_units; Effect; Answer 0 (Installations (Ok []));
   User (InstallUnits ["speech-recognition"; "windowsml-ocr"]);
   Answer 1 (Installation (Ok (sample_installation "a" "windowsml-ocr" "running"))); Answer 1 Elapsed;
   Answer 1 (Installation (Ok (sample_installation "a" "windowsml-ocr" "completed")));
   Answer 1 (Installation (Ok (sample_installation "b" "speech-recognition" "queued")))].

Definition two_state : features := run (H := english) sample_uuid two_installed (start (Some None)).

Lemma units_are_installed_in_order_witness :
  starts (mine 1 two_state) = ["windowsml-ocr"; "speech-recognition"] ∧
  (starts (mine 1 two_state) = [] ∨
   ∃ j ids units rest, Chose j ids units ∈ mine 1 two_state ∧ well_chosen ids units ∧
     map unit_id units = starts (mine 1 two_state) ++ rest ∧
     (starts (mine 1 two_state) = finishes (mine 1 two_state) ∨
      ∃ id, starts (mine 1 two_state) = finishes (mine 1 two_state) ++ [id])).
Proof.
  split; [by vm_compute|]. apply (units_are_installed_in_order (H := english) sample_uuid two_state 1).
  by exists (Some None), two_installed.
Defined.

Lemma installing_flag_is_exact_witness :
  installing (service two_state) = true ∧
  ((installing (service two_state) = true ↔ ∃ k t, tasks two_state !! k = Some t ∧ holds t = true) ∧
   ∀ j k t u, tasks two_state !! j = Some t → tasks two_state !! k = Some u → holds t = true → holds u = true → j = k).
Proof.
  split; [by vm_compute|]. apply (installing_flag_is_exact (H := english) sample_uuid (Some None) two_installed).
  repeat split; intros [k Hk]; try done; by destruct k as [|[|k]].
Defined.

Lemma cancellation_ends_every_queue_witness :
  all_starts two_state = ["speech-recognition"; "windowsml-ocr"] ∧
  all_starts (run (H := english) sample_uuid
    [Answer 1 Elapsed; Answer 2 (Installation (Err (ErrorObject "offline"))); Environment true two_units; Effect]
    (react (H := english) sample_uuid (User (CancelAction (Some "b"))) two_state)) = all_starts two_state.
Proof.
  split; [by vm_compute|]. apply (cancellation_ends_every_queue (H := english) sample_uuid two_state (Some "b")).
  - by exists (Some None), two_installed.
  - by vm_compute.
  - repeat constructor.
Defined.

(** The user installs a unit while the installations found after a reload are
    being listed; the one found ends first. *)
Definition overlapping : list Input :=
  [Environment true two_units; Effect; User (InstallUnits ["speech-recognition"]);
   Answer 0 (Installations (Ok [sample_installation "a" "windowsml-ocr" "running"]));
   Answer 1 (Installation (Ok (sample_installation "b" "speech-recognition" "running"))); Answer 0 Elapsed;
   Answer 0 (Installation (Ok (sample_installation "a" "windowsml-ocr" "completed"))); Environment true two_units].

