(* ===== verification/DesktopBridge.v ===== *)
(** * The desktop bridge

    Models src/apps/capture-workbench/src/app/services/desktop-tauri-command.service.ts,
    the commands of desktop-runtime-client.service.ts and desktop-library.service.ts,
    the texts the library redacts, and the wait for the runtime to be ready.

    Tauri's [invoke] is outside: a command is its name and arguments, and what
    the runtime answers, and when, is an input of [waitUntilReady]. *)

From S2P Require Import Prelude JsString JsNum JsValue RuntimeErrors JsCoerce StoreHelpers DesktopModel DesktopSelectors.

(** ** Commands *)

Inductive DesktopCommand : Type :=
| Requirements
| InstallationList
| InstallationStart (clientRequestId requirementId : string)
| InstallationGet (installationId : string)
| InstallationCancel (installationId : string)
| ModelOptions
| ModelInstallationStart (clientRequestId optionId : string)
| ModelInstallationGet (installationId : string)
| CaptureCreate (documentId clientRequestId : string) (pdfPageNumbers : option (list num))
| StreamingStart (documentId clientRequestId structuringMode : string) (identifySpeakers : option bool)
| StreamingGet (captureId : string)
| StreamingEvents (captureId : string) (lastEventId : option num)
| StreamingPartial (captureId : string)
| StreamingResult (captureId : string)
| StreamingStructure (captureId : string)
| StreamingCancel (captureId : string)
| StreamingDelete (captureId : string)
| CaptureGet (captureId : string)
| CaptureCancel (captureId : string)
| CaptureRaw (captureId : string)
| CaptureOcr (captureId : string)
| CaptureResult (captureId : string)
| CaptureDelete (captureId : string)
| ComputeStatus
| PreferGpu (preferGpu : bool)
| RuntimeStatusGet
| RuntimeReadyGet
| LibraryImport (sourcePath : string)
| LibraryList (query status : string)
| LibraryGet (documentId : string)
| LibrarySourceBytes (documentId : string)
| LibraryExport (documentId format : string)
| LibraryDelete (documentId : string).

Definition with_input (input : fields) : js := Obj [("input", Obj input)].
Definition with_request (request : fields) : js := Obj [("request", Obj request)].
Definition with_id (id : string) : js := with_input [("id", Str id)].

(** The name and the arguments a method passes to [invoke]. *)
Definition invocation (c : DesktopCommand) : string * js :=
  match c with
  | Requirements => ("runtime_requirements", Obj [])
  | InstallationList => ("runtime_list_installations", Obj [])
  | InstallationStart request requirement =>
      ("runtime_start_installation", with_input [("clientRequestId", Str request); ("requirementId", Str requirement)])
  | InstallationGet id => ("runtime_get_installation", with_id id)
  | InstallationCancel id => ("runtime_cancel_installation", with_id id)
  | ModelOptions => ("runtime_model_options", Obj [])
  | ModelInstallationStart request option =>
      ("runtime_start_model_installation", with_input [("clientRequestId", Str request); ("optionId", Str option)])
  | ModelInstallationGet id => ("runtime_get_model_installation", with_id id)
  | CaptureCreate document request pages =>
      ("runtime_create_capture", with_input ([("documentId", Str document); ("clientRequestId", Str request)] ++
        match pages with None => [] | Some l => [("pdfPageNumbers", Arr (map Num l))] end))
  | StreamingStart document request mode speakers =>
      ("runtime_start_streaming_capture", with_input ([("documentId", Str document); ("clientRequestId", Str request);
        ("structuringMode", Str mode)] ++
        match speakers with None => [] | Some b => [("identifySpeakers", Bool b)] end))
  | StreamingGet id => ("runtime_get_streaming_capture", with_id id)
  | StreamingEvents id last =>
      ("runtime_get_streaming_events", with_input [("id", Str id);
        ("lastEventId", match last with Some n => Num n | None => Null end)])
  | StreamingPartial id => ("runtime_get_streaming_partial", with_id id)
  | StreamingResult id => ("runtime_get_streaming_result", with_id id)
  | StreamingStructure id => ("runtime_structure_streaming_capture", with_id id)
  | StreamingCancel id => ("runtime_cancel_streaming_capture", with_id id)
  | StreamingDelete id => ("runtime_delete_streaming_capture", with_id id)
  | CaptureGet id => ("runtime_get_capture", with_id id)
  | CaptureCancel id => ("runtime_cancel_capture", with_id id)
  | CaptureRaw id => ("runtime_get_raw", with_id id)
  | CaptureOcr id => ("runtime_get_ocr", with_id id)
  | CaptureResult id => ("runtime_get_result", with_id id)
  | CaptureDelete id => ("runtime_delete_capture", with_id id)
  | ComputeStatus => ("desktop_compute_status", Obj [])
  | PreferGpu b => ("desktop_set_prefer_gpu", Obj [("preferGpu", Bool b)])
  | RuntimeStatusGet => ("desktop_runtime_status", Obj [])
  | RuntimeReadyGet => ("runtime_ready", Obj [])
  | LibraryImport path => ("library_import_source", with_request [("sourcePath", Str path)])
  | LibraryList query status => ("library_list", with_request [("query", Str query); ("status", Str status)])
  | LibraryGet id => ("library_get", with_request [("documentId", Str id)])
  | LibrarySourceBytes id => ("library_source_bytes", with_request [("documentId", Str id)])
  | LibraryExport id format => ("library_export", with_request [("documentId", Str id); ("format", Str format)])
  | LibraryDelete id => ("library_delete", with_request [("documentId", Str id)])
  end.

(** [invoke(command, args, signal)] when it is subscribed to: an error without
    a call, or the call. *)
Definition invoke_command (aborted is_tauri : bool) (canceled desktopOnly : string) (c : DesktopCommand) :
    rejection + string * js :=
  if aborted then inl (ErrorObject canceled)
  else if negb is_tauri then inl (ErrorObject desktopOnly)
  else inr (invocation c).

(** ** Redacted summaries *)

Definition REDACTED_FIELDS : list string := ["errorCode"; "errorMessage"; "recoveryCode"; "recoveryMessage"].

(** [value?.replace(...).replace(...)] *)
Definition redact_text (v : js) : outcome js :=
  match v with
  | Str s => Ok (Str (redactSensitiveMessage s))
  | Undefined | Null => Ok Undefined
  | _ => Err TypeErr
  end.

(** The summary's own fields in their order; those that are present are redacted in place. *)
Fixpoint sanitizeSummary (summary : fields) : outcome fields :=
  match summary with
  | [] => Ok []
  | (name, v) :: rest =>
      v' ← (if includes REDACTED_FIELDS name then redact_text v else Ok v);
      rest' ← sanitizeSummary rest;
      Ok ((name, v') :: rest')
  end.

(** ** Readiness *)

(** [isOcrComputePreflight] *)
Definition isOcrComputePreflight (v : js) : bool :=
  match as_object v with
  | Some r => is_str (get r "mode") "gpu-dml" || is_str (get r "mode") "cpu-fallback"
  | None => false
  end.

(** [value.every((page, index) => page === index + 1)] from an index *)
Fixpoint pages_from (index : Z) (l : list js) : bool :=
  match l with
  | [] => true
  | v :: l' => strict_eqb v (js_Z (index + 1)) && pages_from (index + 1) l'
  end.

Definition isPdfPageNumbers (v : js) : bool :=
  array_with (λ l,
    (1 <=? length l)%nat &&
    forallb (number_with (λ page, is_safe_integer page && num_leb (num_of_Z 1) page)) l &&
    pages_from 0 l) v.

(** [DesktopRuntimeStatus]; the two optional fields are whatever was sent. *)
Record RuntimeStatus : Type := {
  runtime_status : string;
  status_detail : string;
  status_ocrCompute : js;
  status_pdfPageNumbers : js
}.

(** The resource's value once it is resolved. *)
Record ReadyStatus : Type := {
  ready_status : RuntimeStatus;
  ready_runtimeVersion : js;
  ready_apiVersion : js;
  ready_captureDocumentSchemaVersion : js
}.

Definition with_compute (compute : js) (status : RuntimeStatus) : RuntimeStatus :=
  {| runtime_status := runtime_status status; status_detail := status_detail status; status_ocrCompute := compute;
     status_pdfPageNumbers := status_pdfPageNumbers status |}.

(** The projection of [loadCanonicalReady$]. *)
Definition canonical_ready (status : RuntimeStatus) (ready : js) : outcome ReadyStatus :=
  let compute := match member ready "ocrCompute" with Ok v => v | Err _ => Undefined end in
  runtimeVersion ← member ready "runtimeVersion";
  apiVersion ← member ready "apiVersion";
  schemaVersion ← member ready "captureDocumentSchemaVersion";
  Ok {| ready_status := with_compute (if isOcrComputePreflight compute then compute else Null) status;
        ready_runtimeVersion := runtimeVersion; ready_apiVersion := apiVersion;
        ready_captureDocumentSchemaVersion := schemaVersion |}.

Definition ocrCompute (ready : option ReadyStatus) : option js :=
  match ready with
  | Some r => if isOcrComputePreflight (status_ocrCompute (ready_status r)) then Some (status_ocrCompute (ready_status r)) else None
  | None => None
  end.

Definition pdfPageNumbers (ready : option ReadyStatus) : option js :=
  match ready with
  | Some r => if isPdfPageNumbers (status_pdfPageNumbers (ready_status r)) then Some (status_pdfPageNumbers (ready_status r)) else None
  | None => None
  end.

(** [started]: [resource] is the resource's status, [status] that of its value. *)
Definition started (resource status : string) : bool := String.eqb resource "resolved" && String.eqb status "ready".

Definition DESKTOP_RUNTIME_READY_TIMEOUT_MS : Z := 3 * 60000.

Section wait.
Context `{DesktopMessages}.
(** The answer to the n-th status request and its time in milliseconds; [None]
is a request that is never answered.  Then the answer to [runtime_ready]. *)
Variable answers : nat → option (Z * result rejection RuntimeStatus).
Variable ready_answer : option (Z * result rejection js).

Inductive ReadyOutcome : Type :=
| Resolved (value : ReadyStatus)
| Rejected (error : rejection)
| TimedOut (message : string).

(** A step that would end at [t] ends there, or at the timeout before. *)
Definition before_timeout (t : Z) (lastDetail : string) (outcome : ReadyOutcome) : ReadyOutcome * Z :=
if DESKTOP_RUNTIME_READY_TIMEOUT_MS <=? t
then (TimedOut (startTimeout lastDetail), DESKTOP_RUNTIME_READY_TIMEOUT_MS)
else (outcome, t).

Definition loadCanonicalReady (t : Z) (lastDetail : string) (status : RuntimeStatus) : ReadyOutcome * Z :=
match ready_answer with
| None => (TimedOut (startTimeout lastDetail), DESKTOP_RUNTIME_READY_TIMEOUT_MS)
| Some (d, r) =>
  before_timeout (t + d) lastDetail
    match r with
    | Err e => Rejected e
    | Ok ready => match canonical_ready status ready with Ok v => Resolved v | Err e => Rejected (rejection_of e) end
    end
end.

(** From the n-th status request, at time [t].  The [tap] stands before the
[expand]: only the first status sets [lastDetail]. *)
Fixpoint await_ready (fuel : nat) (n : nat) (t : Z) (lastDetail : string) : option (ReadyOutcome * Z) :=
match fuel with
| O => None
| S fuel =>
  match answers n with
  | None => Some (TimedOut (startTimeout lastDetail), DESKTOP_RUNTIME_READY_TIMEOUT_MS)
  | Some (d, r) =>
      if DESKTOP_RUNTIME_READY_TIMEOUT_MS <=? t + d
      then Some (TimedOut (startTimeout lastDetail), DESKTOP_RUNTIME_READY_TIMEOUT_MS)
      else
        match r with
        | Err e => Some (Rejected e, t + d)
        | Ok status =>
            let lastDetail := match n with O => status_detail status | S _ => lastDetail end in
            if String.eqb (runtime_status status) "ready" then Some (loadCanonicalReady (t + d) lastDetail status)
            else if includes ["failed"; "stopped"] (runtime_status status)
            then Some (Rejected (ErrorObject (status_detail status)), t + d)
            else if DESKTOP_RUNTIME_READY_TIMEOUT_MS <=? t + d + 500
            then Some (TimedOut (startTimeout lastDetail), DESKTOP_RUNTIME_READY_TIMEOUT_MS)
            else await_ready fuel (S n) (t + d + 500) lastDetail
        end
  end
end.

(** One status request every 500 ms at most. *)
Definition READY_REQUESTS : nat := 360.

Definition waitUntilReady : option (ReadyOutcome * Z) := await_ready READY_REQUESTS 0 0 text_starting.

(** ** Facts *)

(** The answers take no negative time. *)
Definition on_time : Prop :=
(∀ n d r, answers n = Some (d, r) → 0 ≤ d) ∧ ∀ d r, ready_answer = Some (d, r) → 0 ≤ d.

Lemma await_ready_ends fuel n t detail :
on_time → 0 ≤ t < DESKTOP_RUNTIME_READY_TIMEOUT_MS →
DESKTOP_RUNTIME_READY_TIMEOUT_MS - t ≤ 500 * Z.of_nat fuel →
∃ o t', await_ready fuel n t detail = Some (o, t') ∧ t ≤ t' ≤ DESKTOP_RUNTIME_READY_TIMEOUT_MS.
Proof.
intros [Ha Hr]. revert n t detail. induction fuel as [|fuel IH]; intros n t detail Ht Hf; [lia|].
cbn [await_ready]. destruct (answers n) as [[d r]|] eqn:Hn; [|eexists _, _; split; [done|lia]].
specialize (Ha _ _ _ Hn). destruct (Z.leb_spec DESKTOP_RUNTIME_READY_TIMEOUT_MS (t + d)); [eexists _, _; split; [done|lia]|].
destruct r as [status|e]; [|eexists _, _; split; [done|lia]]. cbv zeta.
destruct (String.eqb _ _).
{ unfold loadCanonicalReady, before_timeout. destruct ready_answer as [[d' r']|]; [|eexists _, _; split; [done|lia]].
specialize (Hr _ _ eq_refl). destruct (Z.leb_spec DESKTOP_RUNTIME_READY_TIMEOUT_MS (t + d + d'));
  eexists _, _; split; [done|lia|done|lia]. }
destruct (includes _ _); [eexists _, _; split; [done|lia]|].
destruct (Z.leb_spec DESKTOP_RUNTIME_READY_TIMEOUT_MS (t + d + 500)); [eexists _, _; split; [done|lia]|].
destruct (IH (S n) (t + d + 500) (match n with O => status_detail status | S _ => detail end)) as (o & t' & -> & Ht'); [lia..|].
exists o, t'. split; [done|lia].
Qed.

(** C12: The wait for the runtime ends: whatever the desktop answers and however
late, even never, the resource is resolved, fails or times out within three
minutes, after at most 360 status requests. *)
Theorem readiness_wait_ends :
on_time → ∃ o t, waitUntilReady = Some (o, t) ∧ 0 ≤ t ≤ DESKTOP_RUNTIME_READY_TIMEOUT_MS.
Proof. intros Ht. apply await_ready_ends; [done|unfold DESKTOP_RUNTIME_READY_TIMEOUT_MS, READY_REQUESTS; lia..]. Qed.

(** After the first request the detail of the timeout does not change any more. *)
Lemma await_ready_detail fuel n t detail m t' :
n ≠ O → await_ready fuel n t detail = Some (TimedOut m, t') → m = startTimeout detail.
Proof.
revert n t. induction fuel as [|fuel IH]; intros n t Hn; cbn [await_ready]; [done|].
destruct (answers n) as [[d r]|]; [|by intros [= <- _]]. destruct (_ <=? _); [by intros [= <- _]|].
destruct r as [status|e]; [|done]. destruct n as [|n]; [done|]. cbv zeta. destruct (String.eqb _ _).
{ unfold loadCanonicalReady, before_timeout. destruct ready_answer as [[d' r']|]; [|by intros [= <- _]].
destruct (_ <=? _); [by intros [= <- _]|]. intros [= Ho _]. destruct r' as [v|e]; [|done].
by destruct (canonical_ready status v). }
destruct (includes _ _); [done|]. destruct (_ <=? _); [by intros [= <- _]|]. by apply IH.
Qed.

Lemma first_status_detail fuel d status m t :
answers 0 = Some (d, Ok status) → 0 ≤ d < DESKTOP_RUNTIME_READY_TIMEOUT_MS →
await_ready (S fuel) 0 0 text_starting = Some (TimedOut m, t) → m = startTimeout (status_detail status).
Proof.
intros Ha Hd. cbn [await_ready]. rewrite Ha.
destruct (Z.leb_spec DESKTOP_RUNTIME_READY_TIMEOUT_MS (0 + d)); [lia|]. cbv zeta. destruct (String.eqb _ _).
{ unfold loadCanonicalReady, before_timeout. destruct ready_answer as [[d' r']|]; [|by intros [= <- _]].
destruct (_ <=? _); [by intros [= <- _]|]. intros [= Ho _]. destruct r' as [v|e]; [|done].
by destruct (canonical_ready status v). }
destruct (includes _ _); [done|]. destruct (_ <=? _); [by intros [= <- _]|]. by apply await_ready_detail.
Qed.

(** Divergence: the detail kept as the last one for the timeout message is
that of the first status; the message of a start that times out names the
first phase, whatever the runtime has reported since. *)
Lemma timeout_names_the_first_status d status m t :
answers 0 = Some (d, Ok status) → 0 ≤ d < DESKTOP_RUNTIME_READY_TIMEOUT_MS →
waitUntilReady = Some (TimedOut m, t) → m = startTimeout (status_detail status).
Proof. apply (first_status_detail (pred READY_REQUESTS)). Qed.
End wait.

Lemma pages_from_spec index l :
  pages_from index l = true ↔ ∀ j v, l !! j = Some v → strict_eqb v (js_Z (index + Z.of_nat j + 1)) = true.
Proof.
  revert index. induction l as [|v l IH]; intros index; cbn [pages_from]; [split; [intros _ j v Hj; by destruct j|done]|].
  rewrite andb_true_iff, IH. split.
  - intros [Hv Hl] [|j] w Hw; [cbn in Hw; simplify_eq; by rewrite Z.add_0_r|].
    specialize (Hl j w Hw). by replace (index + Z.of_nat (S j) + 1) with (index + 1 + Z.of_nat j + 1) by lia.
  - intros Hall. split; [specialize (Hall O v eq_refl); by rewrite Z.add_0_r in Hall|]. intros j w Hw.
    specialize (Hall (S j) w Hw). by replace (index + 1 + Z.of_nat j + 1) with (index + Z.of_nat (S j) + 1) by lia.
Qed.

(** The page scope the runtime advertises is used exactly when it is an
    ordered prefix of the document, the pages 1 to n of a non-empty list;
    anything else falls back to all pages. *)
Lemma page_scope_is_an_ordered_prefix v :
  isPdfPageNumbers v = true ↔
  ∃ l, v = Arr l ∧ l ≠ [] ∧ ∀ j w, l !! j = Some w → ∃ n, w = Num n ∧ to_int n = Some (Z.of_nat j + 1) ∧
    Z.of_nat j + 1 ≤ MAX_SAFE_INTEGER.
Proof.
  assert (Hnum : ∀ w z, strict_eqb w (js_Z z) = true ↔ ∃ n, w = Num n ∧ to_int n = Some z).
  { intros w z. destruct w; cbn; try (split; [done|by intros (? & [=] & _)]). split.
    - intros Hn. eexists. split; [done|]. destruct n as [| |q]; [done..|]. apply num_eqb_Fin in Hn. apply to_int_Some. by exists q.
    - intros (n' & [= <-] & Hn). rewrite (num_eqb_int _ _ z z Hn (to_int_of_Z z)). lia. }
  unfold isPdfPageNumbers. destruct v; cbn [array_with]; try (split; [done|by intros (? & [=] & _)]).
  rewrite !andb_true_iff, pages_from_spec, forallb_forall, Nat.leb_le. split.
  - intros [[Hl Hs] Hp]. exists l. split_and!; [done|by intros ->; cbn in Hl; lia|]. intros j w Hw.
    specialize (Hp j w Hw). apply Hnum in Hp as (n & -> & Hn). exists n. rewrite Z.add_0_l in Hn. split_and!; [done..|].
    assert (In (Num n) l) as Hin by (apply list_elem_of_In; by eapply list_elem_of_lookup_2).
    specialize (Hs _ Hin). cbn in Hs. apply andb_true_iff in Hs as [(z & Hz & Hb)%is_safe_integer_spec _].
    rewrite Hn in Hz. simplify_eq. lia.
  - intros (l' & [= <-] & Hne & Hall). split_and!; [destruct l; [done|cbn; lia]| |].
    + intros w (j & Hw)%list_elem_of_In%list_elem_of_lookup. destruct (Hall j w Hw) as (n & -> & Hn & Hb). cbn.
      apply andb_true_iff. split; [apply is_safe_integer_spec; exists (Z.of_nat j + 1); split; [done|lia]|].
      rewrite (num_leb_int _ _ 1 _ (to_int_of_Z 1) Hn). lia.
    + intros j w Hw. destruct (Hall j w Hw) as (n & -> & Hn & _). apply Hnum. exists n. split; [done|]. by rewrite Z.add_0_l.
Qed.

(** Commands that differ reach the native side as different invocations. *)
Lemma invocation_is_injective c d : invocation c = invocation d → c = d.
Proof.
  assert (Hmap : ∀ k l, map Num k = map Num l → k = l).
  { intros k. induction k as [|x k IH]; intros [|y l]; cbn; try done. intros [= -> Hl]. f_equal. by apply IH. }
  destruct c, d; intros E; try (apply (f_equal fst) in E; discriminate E); try reflexivity;
    apply (f_equal snd) in E; try (injection E; intros; subst; reflexivity).
  - cbn in E. destruct pdfPageNumbers0 as [k|], pdfPageNumbers1 as [l|]; injection E; intros; subst; try done.
    do 2 f_equal. by apply Hmap.
  - cbn in E. destruct identifySpeakers as [a|], identifySpeakers0 as [b|]; injection E; intros; subst; done.
  - cbn in E. destruct lastEventId as [m|], lastEventId0 as [n|]; injection E; intros; subst; done.
Qed.

(** What a summary shows in the four text fields is redacted; the other fields
    are as they came. *)
Lemma sanitizeSummary_spec summary shown name :
  sanitizeSummary summary = Ok shown →
  get shown name = (if includes REDACTED_FIELDS name
                    then match get summary name with
                         | Str s => Str (redactSensitiveMessage s)
                         | _ => Undefined
                         end
                    else get summary name).
Proof.
  revert shown. induction summary as [|[k v] l IH]; intros shown; cbn [sanitizeSummary].
  { intros [= <-]. by destruct (includes REDACTED_FIELDS name). }
  rewrite bind_Ok. intros (v' & Hv & Hrest). rewrite bind_Ok in Hrest. destruct Hrest as (rest & Hr & [= <-]).
  cbn [get]. destruct (String.eqb_spec name k) as [->|Hne]; [|by apply IH].
  destruct (includes REDACTED_FIELDS k); [|by injection Hv]. by destruct v; cbn in Hv; simplify_eq.
Qed.

(** ** Examples *)

Definition starting (detail : string) : RuntimeStatus :=
  {| runtime_status := "starting"; status_detail := detail; status_ocrCompute := Undefined;
     status_pdfPageNumbers := Undefined |}.

(** A runtime that reports its phases and never becomes ready. *)
Definition slow_answers (n : nat) : option (Z * result rejection RuntimeStatus) :=
  Some (20, Ok (starting (match n with O => "Unpacking" | _ => "Loading models" end))).

Definition answers_detail (a : option (Z * result rejection RuntimeStatus)) : string :=
  match a with Some (_, Ok status) => status_detail status | _ => "" end.

Lemma slow_on_time : on_time slow_answers None.
Proof. split; [|done]. intros n d r [= <- _]. lia. Qed.

Lemma readiness_wait_ends_witness :
  on_time slow_answers None ∧
  ∃ o t, waitUntilReady (H := english) slow_answers None = Some (o, t) ∧ 0 ≤ t ≤ DESKTOP_RUNTIME_READY_TIMEOUT_MS.
Proof. split; [apply slow_on_time|]. apply (readiness_wait_ends (H := english)). apply slow_on_time. Defined.

Lemma timeout_names_the_first_status_witness :
  answers_detail (slow_answers 300) = "Loading models" ∧
  waitUntilReady (H := english) slow_answers None = Some (TimedOut "Start-up timed out: Unpacking", 180000) ∧
  "Start-up timed out: Unpacking" = startTimeout (DesktopMessages := english) "Unpacking".
Proof.
  assert (Hw : waitUntilReady (H := english) slow_answers None = Some (TimedOut "Start-up timed out: Unpacking", 180000))
    by (by vm_compute).
  split; [done|]. split; [exact Hw|].
  apply (timeout_names_the_first_status (H := english) slow_answers None 20 (starting "Unpacking") _ 180000); [done| |exact Hw].
  unfold DESKTOP_RUNTIME_READY_TIMEOUT_MS. lia.
Defined.
