(* ===== verification/DesktopStore.v ===== *)
(** * The desktop workspace store

    Models src/apps/capture-workbench/src/app/services/desktop-workspace.store.ts:
    when the workspace is ready, when the compute setting may change, which
    documents may be deleted, the names given to speakers, and the object URLs of
    loaded sources.  The store decides on the state of its collaborators: the
    tasks of [DesktopInstallation] and the captures of [DesktopModel]. *)

From stdpp Require Import gmap.
From S2P Require Import Prelude JsString JsNum JsMath JsCoerce CaptureModel CaptureHelpers StoreHelpers DesktopModel DesktopSelectors DesktopInstallation.

(** ** The state shown *)

(** What the store reads of a resource. *)
Record ResourceView : Type := { view_status : string; view_error : option rejection }.

(** [state]: the runtime's readiness, the requirements and the documents. *)
Definition workspace_state (runtime requirements documents : ResourceView) (started : bool) : string :=
  if bool_decide (is_Some (view_error runtime)) || bool_decide (is_Some (view_error requirements)) ||
     bool_decide (is_Some (view_error documents))
  then "error"
  else if negb started then "starting"
  else if includes ["idle"; "loading"; "reloading"] (view_status requirements) then "starting"
  else "ready".

Definition canCapture (state : string) : bool := String.eqb state "ready".

(** [resourceErrorEffect]: the first error there is becomes the message. *)
Definition resource_error_message (errors : list (option rejection)) (message : string) : string :=
  match omap id errors with e :: _ => errorMessage e | [] => message end.

(** [stateMessageEffect] *)
Definition state_message `{DesktopMessages} (state message : string) : string :=
  if String.eqb state "ready" && String.eqb message text_starting then "" else message.

(** [featureMessageEffect] *)
Definition feature_message (featureMsg message : string) : string :=
  if String.eqb featureMsg "" then message else featureMsg.

(** ** The compute setting *)

Record DesktopComputeStatus : Type := { cudaAvailable : bool; preferGpu : bool }.

Definition speechGpu (status : option DesktopComputeStatus) : option DesktopComputeStatus :=
  match status with Some c => if cudaAvailable c then Some c else None | None => None end.

Definition canChangeCompute (savingCompute : bool) (f : features) (d : desktop) : bool :=
  negb savingCompute && negb (installing (service f)) && bool_decide (busyIds d = ∅).

(** [setPreferGpu]: whether the command is sent. *)
Definition sendsPreferGpu (savingCompute : bool) (f : features) (d : desktop) (status : option DesktopComputeStatus)
    (prefer : bool) : bool :=
  negb (negb (canChangeCompute savingCompute f d) || bool_decide ((preferGpu <$> speechGpu status) = Some prefer)).

(** ** Deleting a document *)

Inductive DeleteDecision : Type :=
| RefuseDelete (message : string)
| Declined
| SendDelete.

Definition hasActiveCapture (documentId : string) (d : desktop) : bool :=
  bool_decide (is_Some (activeCaptures d !! documentId)).

(** [documents().find(...) ?? (selected()?.documentId === documentId ? selected() : undefined)] *)
Definition document_to_delete (documentId : string) (documents : list DesktopLibrarySummary)
    (selected : option DesktopLibrarySummary) : option DesktopLibrarySummary :=
  match List.find (λ document, String.eqb (doc_documentId document) documentId) documents with
  | Some document => Some document
  | None => match selected with
            | Some document => if String.eqb (doc_documentId document) documentId then Some document else None
            | None => None
            end
  end.

Definition delete_decision `{DesktopMessages} (documentId : string) (d : desktop) (documents : list DesktopLibrarySummary)
    (selected : option DesktopLibrarySummary) (confirmed : bool) : DeleteDecision :=
  if hasActiveCapture documentId d || bool_decide (documentId ∈ busyIds d) then RefuseDelete cancelBeforeDelete
  else
    let captureId := document_to_delete documentId documents selected ≫= doc_captureId in
    if negb (String.eqb (default "" captureId) "") then RefuseDelete waitBeforeDelete
    else if negb confirmed then Declined
    else SendDelete.

(** The selection after a deletion. *)
Definition selection_after_delete (documentId : string) (selectedId : option string) : option string :=
  if bool_decide (selectedId = Some documentId) then None else selectedId.

(** ** Results *)

(** Units a result missed that are not installed; [None] is a result without suggestions. *)
Definition missedUnits (requirements : list RequirementUnit) (suggestedUnits : option (list string)) : list string :=
  let ready := map unit_id (List.filter (λ unit, String.eqb (unit_status unit) "ready") requirements) in
  List.filter (λ unit, negb (includes ready unit)) (default [] suggestedUnits).

(** [name.trim().slice(0, 100) || null] *)
Definition display_name (name : string) : option string :=
  let cut := take_str 100 (trim name) in if String.eqb cut "" then None else Some cut.

Definition rename_speaker (speakerId name : string) (speaker : CaptureSpeaker) : CaptureSpeaker :=
  if String.eqb (speaker_id speaker) speakerId
  then {| speaker_id := speaker_id speaker; speaker_displayName := display_name name |} else speaker.

Definition with_speakers (speakers : list CaptureSpeaker) (d : CaptureDocument) : CaptureDocument :=
  {| doc_schemaVersion := doc_schemaVersion d; doc_source := doc_source d; doc_sourceText := doc_sourceText d;
     doc_targetText := doc_targetText d; doc_blocks := doc_blocks d; doc_rawSegments := doc_rawSegments d;
     doc_extractionEngine := doc_extractionEngine d; doc_structuringEngine := doc_structuringEngine d;
     doc_warnings := doc_warnings d; doc_speakers := Some speakers; doc_createdAt := doc_createdAt d |}.

(** The selected document. *)
Record LibraryDetail : Type := {
  detail_summary : DesktopLibrarySummary;
  detail_result : option CaptureDocument
}.

(** The update [nameSpeaker] sends, if any. *)
Definition nameSpeaker (documentId speakerId name : string) (selected : option LibraryDetail) : option CaptureUpdate :=
  match selected with
  | Some detail =>
      if String.eqb (doc_documentId (detail_summary detail)) documentId then
        match detail_result detail with
        | Some result =>
            let speakers := default [] (doc_speakers result) in
            if existsb (λ speaker, String.eqb (speaker_id speaker) speakerId) speakers
            then Some (keeping None (Some (with_speakers (map (rename_speaker speakerId name) speakers) result)) None
                         (plain_update documentId (doc_status (detail_summary detail)) (doc_stage (detail_summary detail))))
            else None
        | None => None
        end
      else None
  | None => None
  end.

(** ** Loaded sources *)

(** [sampleSources] with URLs numbered in the order of their creation, the
    documents whose bytes are being read, and the URLs revoked. *)
Record samples : Type := {
  sampleSources : gmap string nat;
  loading : list string;
  created : nat;
  revoked : list nat
}.

Definition no_samples : samples := {| sampleSources := ∅; loading := []; created := 0; revoked := [] |}.

Definition loadSpeakerSamples (documentId : string) (s : samples) : samples :=
  match sampleSources s !! documentId with
  | Some _ => s
  | None => {| sampleSources := sampleSources s; loading := loading s ++ [documentId]; created := created s;
               revoked := revoked s |}
  end.

(** The bytes of the k-th pending load arrive, or the load fails. *)
Definition bytes_arrive (k : nat) (s : samples) : samples :=
  match loading s !! k with
  | Some documentId =>
      {| sampleSources := <[documentId := created s]> (sampleSources s); loading := delete k (loading s);
         created := S (created s); revoked := revoked s |}
  | None => s
  end.
Definition load_fails (k : nat) (s : samples) : samples :=
  {| sampleSources := sampleSources s; loading := delete k (loading s); created := created s; revoked := revoked s |}.

Definition releaseSampleSource (documentId : string) (s : samples) : samples :=
  match sampleSources s !! documentId with
  | Some url => {| sampleSources := delete documentId (sampleSources s); loading := loading s; created := created s;
                   revoked := url :: revoked s |}
  | None => s
  end.

(** [speakerSampleUrl]: the loaded source with the sample's interval. *)
Definition speakerSampleUrl (address : nat → string) (documentId : string) (sample : option (num * num)) (s : samples) :
    option string :=
  match sampleSources s !! documentId, sample with
  | Some url, Some (startMs, endMs) =>
      Some (address url +:+ "#t=" +:+ show_num (num_div startMs (num_of_Z 1000)) +:+ "," +:+
            show_num (num_div endMs (num_of_Z 1000)))
  | _, _ => None
  end.

Inductive SampleInput : Type :=
| Load (documentId : string)
| Arrive (k : nat)
| LoadFails (k : nat)
| Deleted (documentId : string).

Definition sample_step (s : samples) (i : SampleInput) : samples :=
  match i with
  | Load id => loadSpeakerSamples id s
  | Arrive k => bytes_arrive k s
  | LoadFails k => load_fails k s
  | Deleted id => releaseSampleSource id s
  end.

Definition sample_run (inputs : list SampleInput) : samples := fold_left sample_step inputs no_samples.

(** URLs that can still be played and revoked. *)
Definition live_urls (s : samples) : list nat := map snd (map_to_list (sampleSources s)).

(** ** Facts on sources *)

Definition accounted (s : samples) : Prop := live_urls s ++ revoked s ≡ₚ seq 0 (created s).

(** One load of a document at a time. *)
Definition single_load (s : samples) (i : SampleInput) : Prop :=
  match i with Load id => id ∉ loading s | _ => True end.

Fixpoint single_loads (inputs : list SampleInput) (s : samples) : Prop :=
  match inputs with [] => True | i :: l => single_load s i ∧ single_loads l (sample_step s i) end.

Definition samples_ok (s : samples) : Prop :=
  accounted s ∧ NoDup (loading s) ∧ ∀ id, id ∈ loading s → sampleSources s !! id = None.

Lemma delete_not_elem (l : list string) k x : NoDup l → l !! k = Some x → x ∉ delete k l.
Proof.
  intros Hn Hk. rewrite (delete_take_drop l k). rewrite <-(take_drop_middle l k x Hk) in Hn.
  apply NoDup_app in Hn as (_ & Hd & [Hx _]%NoDup_cons). intros [Ht|Ht]%elem_of_app; [|done].
  apply (Hd x Ht). by left.
Qed.

Lemma delete_sublist (l : list string) k : delete k l `sublist_of` l.
Proof. apply sublist_delete. Qed.

Lemma samples_ok_step s i : samples_ok s → single_load s i → samples_ok (sample_step s i).
Proof.
  intros (Ha & Hn & Hl) Hs. destruct i as [id|k|k|id]; cbn [sample_step].
  - unfold loadSpeakerSamples. destruct (sampleSources s !! id) eqn:E; [done|]. split_and!; [done| |].
    + apply NoDup_app. split_and!; [done| |apply NoDup_singleton]. intros x Hx ->%list_elem_of_singleton. done.
    + cbn. intros x [Hx| ->%list_elem_of_singleton]%elem_of_app; [by apply Hl|done].
  - unfold bytes_arrive. destruct (loading s !! k) as [id|] eqn:E; [|done].
    pose proof (list_elem_of_lookup_2 _ _ _ E) as Hin. split_and!.
    + unfold accounted, live_urls in *. cbn [sampleSources revoked created].
      rewrite map_to_list_insert by (by apply Hl). cbn [map snd app]. rewrite Ha, seq_S. apply Permutation_cons_append.
    + by eapply sublist_NoDup, delete_sublist.
    + cbn. intros x Hx. rewrite lookup_insert_ne; [apply Hl; by eapply elem_of_sublist, delete_sublist|].
      intros ->. by eapply delete_not_elem.
  - split_and!; [done|by eapply sublist_NoDup, delete_sublist|]. cbn. intros x Hx. apply Hl.
    by eapply elem_of_sublist, delete_sublist.
  - unfold releaseSampleSource. destruct (sampleSources s !! id) as [url|] eqn:E; [|done]. split_and!; [|done|].
    + unfold accounted, live_urls in *. cbn [sampleSources revoked created]. rewrite <-Ha.
      rewrite <-(map_to_list_delete _ _ _ E). cbn [map snd app]. symmetry. apply Permutation_middle.
    + cbn. intros x Hx. apply lookup_delete_None. right. by apply Hl.
Qed.

Lemma samples_ok_run inputs s : samples_ok s → single_loads inputs s → samples_ok (fold_left sample_step inputs s).
Proof.
  revert s. induction inputs as [|i l IH]; intros s Hs Hi; [done|]. destruct Hi as [Hi Hl].
  apply (IH (sample_step s i)); [by apply samples_ok_step|done].
Qed.

(** When a source is not loaded again while its bytes are being read, every
    object URL created is either kept for its document or revoked, exactly once. *)
Lemma object_urls_are_accounted inputs :
  single_loads inputs no_samples → live_urls (sample_run inputs) ++ revoked (sample_run inputs) ≡ₚ seq 0 (created (sample_run inputs)).
Proof. intros Hi. apply (samples_ok_run inputs no_samples); [|done]. split_and!; [|constructor|by intros id ?%elem_of_nil].
  unfold accounted, live_urls. cbn [sampleSources no_samples]. by rewrite map_to_list_empty.
Qed.

(** An URL that is neither kept nor revoked. *)
Definition lost (url : nat) (s : samples) : Prop :=
  (url < created s)%nat ∧ (∀ id, sampleSources s !! id ≠ Some url) ∧ url ∉ revoked s.

Lemma lost_step url s i : lost url s → lost url (sample_step s i).
Proof.
  intros (Hc & Hs & Hr). destruct i as [id|k|k|id]; cbn [sample_step].
  - unfold loadSpeakerSamples. by destruct (sampleSources s !! id).
  - unfold bytes_arrive. destruct (loading s !! k) as [id|]; [|done]. split_and!; [cbn; lia| |done].
    intros x. cbn. rewrite lookup_insert_Some. intros [[_ ?]|[_ Hx]]; [lia|by eapply Hs].
  - done.
  - unfold releaseSampleSource. destruct (sampleSources s !! id) as [u|] eqn:E; [|done]. split_and!; [done| |].
    + intros x. cbn. rewrite lookup_delete_Some. intros [_ Hx]. by eapply Hs.
    + cbn. intros [->|Hin]%elem_of_cons; [by eapply Hs|done].
Qed.

Lemma lost_run url inputs s : lost url s → lost url (fold_left sample_step inputs s).
Proof. revert s. induction inputs as [|i l IH]; intros s Hs; [done|]. by apply (IH (sample_step s i)), lost_step. Qed.

(** Divergence: the source is meant to be loaded once, but the guard looks
    only at loads that have finished; a second request while the first one is
    reading creates a second URL, and the first one is never revoked, whatever
    happens later, the deletion of the document included. *)
Lemma overlapping_loads_leak_a_url documentId later :
  lost 0 (sample_run ([Load documentId; Load documentId; Arrive 0; Arrive 0] ++ later)).
Proof.
  unfold sample_run. rewrite fold_left_app. apply lost_run. cbn [fold_left sample_step].
  unfold loadSpeakerSamples at 2, no_samples at 1. cbn [sampleSources]. rewrite lookup_empty.
  unfold loadSpeakerSamples. cbn [sampleSources no_samples loading app]. rewrite lookup_empty.
  unfold bytes_arrive. cbn [loading app lookup list_lookup delete list_delete created revoked sampleSources no_samples].
  split_and!; [cbn; lia| |cbn; by intros ?%elem_of_nil].
  intros x. cbn [sampleSources]. rewrite lookup_insert_Some. intros [[_ ?]|[Hne Hx]]; [lia|].
  by rewrite lookup_insert_ne in Hx.
Qed.

(** ** Facts on the compute setting *)

Section compute.
Context `{DesktopMessages}.
Variable uuid : nat → string.

(** The runtime is relaunched with another compute setting only while it is
idle: as long as nothing begins to install while existing installations are
being listed, the command is sent only when no task installs and no document is
busy. *)
Lemma compute_change_waits dismissal inputs d saving status prefer :
calm_inputs uuid inputs (start dismissal) →
let f := run uuid inputs (start dismissal) in
sendsPreferGpu saving f d status prefer = true →
(∀ k t, tasks f !! k = Some t → holds t = false) ∧ busyIds d = ∅ ∧ saving = false ∧
(preferGpu <$> speechGpu status) ≠ Some prefer.
Proof.
intros Hc f. unfold sendsPreferGpu, canChangeCompute. rewrite negb_true_iff, orb_false_iff, negb_false_iff.
rewrite !andb_true_iff, !negb_true_iff, bool_decide_eq_true. intros [[[Hs Hi] Hb] Hp%bool_decide_eq_false].
assert (He : exact f) by (apply calm_run_exact; [apply start_in_order|split_and!; done|done]).
split_and!; [|done..]. intros k t Hk. destruct (holds t) eqn:Ht; [|done]. destruct He as (_ & Hf & _).
assert (active t = true) as Ha by (by destruct t). by rewrite (Hf k t Hk Ha), Ht in Hi.
Qed.
End compute.

(** ** Facts on documents *)

(** A deletion is sent only for a document that is idle and has no capture. *)
Lemma delete_decision_spec `{DesktopMessages} documentId d documents selected confirmed :
  delete_decision documentId d documents selected confirmed = SendDelete ↔
  activeCaptures d !! documentId = None ∧ (documentId ∉ busyIds d) ∧ confirmed = true ∧
  default "" (document_to_delete documentId documents selected ≫= doc_captureId) = "".
Proof.
  unfold delete_decision, hasActiveCapture. destruct (bool_decide (is_Some _)) eqn:Ha; bsimp.
  { split; [done|]. intros (Hn & _). rewrite Hn in Ha. by destruct Ha. }
  apply eq_None_not_Some in Ha. destruct (bool_decide (documentId ∈ _)) eqn:Hb; bsimp; [split; [done|by intros (_ & Hn & _)]|]. cbv zeta.
  destruct (String.eqb_spec (default "" (document_to_delete documentId documents selected ≫= doc_captureId)) "") as [He|He];
    cbn [negb]; [|split; [done|by intros (_ & _ & _ & ?)]].
  destruct confirmed; cbn [negb orb]; [by split|split; [done|by intros (_ & _ & ? & _)]].
Qed.

Lemma take_str_bound n s : (String.length (take_str n s) <= n)%nat.
Proof. revert s. induction n as [|n IH]; intros [|c s]; cbn; [lia..|]. specialize (IH s). lia. Qed.

(** Naming a speaker changes that speaker's display name and nothing else of
    the document: the update is for the selected document with its status and
    stage, its result has the same speakers in the same order, the name is
    trimmed, at most 100 characters, and missing rather than empty; transcript,
    blocks and provenance are those of the result shown. *)
Lemma naming_changes_one_name documentId speakerId name selected u :
  nameSpeaker documentId speakerId name selected = Some u →
  ∃ detail result speakers,
    selected = Some detail ∧ detail_result detail = Some result ∧ doc_documentId (detail_summary detail) = documentId ∧
    doc_speakers result = Some speakers ∧ upd_documentId u = documentId ∧
    upd_status u = doc_status (detail_summary detail) ∧ upd_stage u = doc_stage (detail_summary detail) ∧
    upd_raw u = None ∧ upd_clearCaptureId u = false ∧
    ∃ renamed, upd_result u = Some (with_speakers renamed result) ∧ map speaker_id renamed = map speaker_id speakers ∧
      ∀ k before after, speakers !! k = Some before → renamed !! k = Some after →
        after = before ∨
        speaker_id before = speakerId ∧ speaker_displayName after = display_name name ∧
        ∀ shown, display_name name = Some shown → shown ≠ "" ∧ (String.length shown <= 100)%nat.
Proof.
  unfold nameSpeaker. destruct selected as [detail|]; [|done].
  destruct (String.eqb_spec (doc_documentId (detail_summary detail)) documentId) as [Hd|]; [|done].
  destruct (detail_result detail) as [result|] eqn:Hr; [|done]. cbv zeta.
  destruct (existsb _ _) eqn:Hex; [|done]. intros [= <-].
  destruct (doc_speakers result) as [speakers|] eqn:Hs; [|done]. cbn [default] in *.
  exists detail, result, speakers. split_and!; try done.
  exists (map (rename_speaker speakerId name) speakers). split_and!; [done| |].
  - rewrite map_map. apply map_ext. intros s. unfold rename_speaker. by destruct (String.eqb _ _).
  - intros k before after Hb Ha. change (map ?f ?l) with (f <$> l) in Ha. rewrite list_lookup_fmap, Hb in Ha. injection Ha as <-.
    unfold rename_speaker. destruct (String.eqb_spec (speaker_id before) speakerId) as [He|]; [|by left]. right.
    split_and!; [done..|]. intros shown. unfold display_name. cbv zeta.
    generalize (take_str_bound 100 (trim name)). generalize (take_str 100 (trim name)). intros cut Hlen.
    destruct (String.eqb_spec cut "") as [|Hne]; [done|]. by intros [= <-].
Qed.

(** ** Examples *)

Definition quiet_desktop : desktop :=
  {| activeCaptures := ∅; busyIds := ∅; streamingPartials := ∅;
     environment := {| runtime_ready := true; runtime_ocrCompute := None; runtime_pdfPageNumbers := None;
                       host_requirements := []; host_documents := []; host_selected := None;
                       host_identifySpeakers := false |};
     host := {| selectedId := None; requestedRequirements := ∅; message := ""; reloads := [] |};
     desktop_uuids := 0; history := [] |}.

(** Listing finds nothing, a unit is installed and completed. *)
Definition one_installed : list Input :=
  [Environment true two_units; Effect; Answer 0 (Installations (Ok [])); User (InstallUnits ["windowsml-ocr"]);
   Answer 1 (Installation (Ok (sample_installation "a" "windowsml-ocr" "completed")))].

Lemma compute_change_waits_witness :
  let f := run (H := english) sample_uuid one_installed (start (Some None)) in
  sendsPreferGpu false f quiet_desktop (Some {| cudaAvailable := true; preferGpu := false |}) true = true ∧
  (∀ k t, tasks f !! k = Some t → holds t = false) ∧ busyIds quiet_desktop = ∅ ∧ false = false ∧
  (preferGpu <$> speechGpu (Some {| cudaAvailable := true; preferGpu := false |})) ≠ Some true.
Proof.
  cbv zeta.
  assert (Hs : sendsPreferGpu false (run (H := english) sample_uuid one_installed (start (Some None))) quiet_desktop
    (Some {| cudaAvailable := true; preferGpu := false |}) true = true) by (by vm_compute).
  split; [exact Hs|].
  refine (compute_change_waits (H := english) sample_uuid (Some None) one_installed quiet_desktop false
    (Some {| cudaAvailable := true; preferGpu := false |}) true _ Hs).
  repeat split; intros [k Hk]; try done; by destruct k as [|[|k]].
Defined.

(** With the installing flag cleared by an overlapping task, the compute setting
    may be changed, and the runtime relaunched, while a unit is installing. *)
Lemma compute_change_interrupts_an_installation :
  ∃ f, reachable (H := english) sample_uuid f ∧
    sendsPreferGpu false f quiet_desktop (Some {| cudaAvailable := true; preferGpu := false |}) true = true ∧
    ∃ k i unit, tasks f !! k = Some (Queue (AtTimer i) unit []) ∧ in_progress (installation_status i) = true.
Proof.
  exists (run (H := english) sample_uuid overlapping (start (Some None))). split_and!.
  - by exists (Some None), overlapping.
  - by vm_compute.
  - exists 1%nat, (sample_installation "b" "speech-recognition" "running"), (sample_unit "speech-recognition"). by vm_compute.
Qed.

Definition two_speakers : list CaptureSpeaker :=
  [{| speaker_id := "s1"; speaker_displayName := None |}; {| speaker_id := "s2"; speaker_displayName := Some "Bo" |}].

Definition named_detail : LibraryDetail :=
  {| detail_summary := {| doc_documentId := "d"; doc_mediaType := "audio/wav"; doc_status := "completed";
       doc_stage := Some "completed"; doc_captureId := None; doc_errorCode := None; doc_errorMessage := None;
       doc_recoveryCode := None |};
     detail_result := Some (with_speakers two_speakers sample_candidate) |}.

Definition named_update : CaptureUpdate :=
  keeping None (Some (with_speakers
      [{| speaker_id := "s1"; speaker_displayName := Some "Ada" |}; {| speaker_id := "s2"; speaker_displayName := Some "Bo" |}]
      sample_candidate)) None (plain_update "d" "completed" (Some "completed")).

Lemma naming_changes_one_name_witness :
  nameSpeaker "d" "s1" "  Ada " (Some named_detail) = Some named_update ∧
  ∃ detail result speakers,
    Some named_detail = Some detail ∧ detail_result detail = Some result ∧ doc_documentId (detail_summary detail) = "d" ∧
    doc_speakers result = Some speakers ∧ upd_documentId named_update = "d" ∧
    upd_status named_update = doc_status (detail_summary detail) ∧ upd_stage named_update = doc_stage (detail_summary detail) ∧
    upd_raw named_update = None ∧ upd_clearCaptureId named_update = false ∧
    ∃ renamed, upd_result named_update = Some (with_speakers renamed result) ∧
      map speaker_id renamed = map speaker_id speakers ∧
      ∀ k before after, speakers !! k = Some before → renamed !! k = Some after →
        after = before ∨
        speaker_id before = "s1" ∧ speaker_displayName after = display_name "  Ada " ∧
        ∀ shown, display_name "  Ada " = Some shown → shown ≠ "" ∧ (String.length shown <= 100)%nat.
Proof.
  assert (Hn : nameSpeaker "d" "s1" "  Ada " (Some named_detail) = Some named_update) by (by vm_compute).
  split; [exact Hn|]. exact (naming_changes_one_name "d" "s1" "  Ada " (Some named_detail) named_update Hn).
Defined.
