(* ===== verification/Posix.v ===== *)
(** * Paths with forward slashes

    The parts of [node:path]'s [posix] the tools use: [dirname], [normalize],
    [join], [resolve] and [relative], with the facts the lookups of files in directories need. *)
From S2P Require Import Prelude JsString.

(** [posix.dirname]: the scan from the right that looks for the slash before
    the last name.  [i] is the position of [s] in the path; the result is the
    position found and whether only slashes were seen. *)
Fixpoint scan (i : nat) (s : string) : option nat * bool :=
  match s with
  | "" => (None, true)
  | String c s' =>
      let '(found, matchedSlash) := scan (S i) s' in
      match found with
      | Some _ => (found, matchedSlash)
      | None =>
          if Nat.eqb i 0 then (None, matchedSlash)
          else if Ascii.eqb c "/" then (if matchedSlash then None else Some i, matchedSlash)
          else (None, false)
      end
  end.

Definition dirname (path : string) : string :=
  match (scan 0 path).1 with
  | None => if starts_with "/" path then "/" else "."
  | Some i => if starts_with "/" path && Nat.eqb i 1 then "//" else take_str i path
  end.

(** The segments that remain, last first. *)
Fixpoint resolve_segments (allowAboveRoot : bool) (kept : list string) (segments : list string) : list string :=
  match segments with
  | [] => kept
  | segment :: rest =>
      resolve_segments allowAboveRoot
        (if String.eqb segment "" || String.eqb segment "." then kept
         else if String.eqb segment ".." then
           match kept with
           | [] => if allowAboveRoot then [".."] else []
           | last :: above => if String.eqb last ".." then ".." :: kept else above
           end
         else segment :: kept)
        rest
  end.

(** The segments a path resolves to, first first. *)
Definition segments_of (path : string) : list string :=
  rev (resolve_segments (negb (starts_with "/" path)) [] (split_on "/" path)).

(** [s.endsWith(suffix)] *)
Definition ends_with (suffix s : string) : bool :=
  (String.length suffix <=? String.length s)%nat &&
  String.eqb (drop_str (String.length s - String.length suffix) s) suffix.

(** [posix.normalize(path)] *)
Definition normalize (path : string) : string :=
  if String.eqb path "" then "."
  else
    let isAbsolute := starts_with "/" path in
    let trailingSeparator := ends_with "/" path in
    let body := join "/" (segments_of path) in
    if String.eqb body "" then (if isAbsolute then "/" else if trailingSeparator then "./" else ".")
    else (if isAbsolute then "/" else "") +:+ body +:+ (if trailingSeparator then "/" else "").

(** [posix.join(...parts)] *)
Definition path_join (parts : list string) : string :=
  match List.filter (λ part, negb (String.eqb part "")) parts with
  | [] => "."
  | parts => normalize (join "/" parts)
  end.

(** The parts of [posix.resolve], last first, up to an absolute one. *)
Fixpoint absolute_from (parts : list string) (resolvedPath : string) : string :=
  match parts with
  | [] => resolvedPath
  | path :: rest =>
      if String.eqb path "" then absolute_from rest resolvedPath
      else if starts_with "/" path then path +:+ "/" +:+ resolvedPath
      else absolute_from rest (path +:+ "/" +:+ resolvedPath)
  end.

(** [posix.resolve(...parts)] in the working directory [cwd]. *)
Definition resolve (cwd : string) (parts : list string) : string :=
  let resolvedPath := absolute_from (rev parts ++ [cwd]) "" in
  let body := join "/" (segments_of resolvedPath) in
  if starts_with "/" resolvedPath then "/" +:+ body else if String.eqb body "" then "." else body.

Fixpoint common_length (a b : list string) : nat :=
  match a, b with
  | x :: a', y :: b' => if String.eqb x y then S (common_length a' b') else O
  | _, _ => O
  end.

(** [posix.relative(from, to)]: up from one path, down to the other. *)
Definition relative (cwd from to : string) : string :=
  let a := segments_of (resolve cwd [from]) in
  let b := segments_of (resolve cwd [to]) in
  let n := common_length a b in
  join "/" (repeat ".." (length a - n) ++ drop n b).

Example dirname_samples :
  map dirname [""; "a"; "/"; "/a"; "//a"; "a/b"; "a//b"; "a/b//"; "a/b/c.ts"; "."] =
    ["."; "."; "/"; "/"; "//"; "a"; "a/"; "a"; "a/b"; "."].
Proof. reflexivity. Qed.

Example normalize_samples :
  map normalize [""; "."; "./"; "/"; "a/./b"; "a//b/"; "a/../.."; "/.."; "../a"; "a/b/../../../c"] =
    ["."; "."; "./"; "/"; "a/b"; "a/b/"; ".."; "/"; "../a"; "../c"].
Proof. reflexivity. Qed.

Example resolve_samples :
  map (resolve "/w") [["a"; "b"]; ["/r/"; "../x"]; [".."; ".."]; []; ["/r"; "/s/./t"]; [""; "a/"]] =
    ["/w/a/b"; "/x"; "/"; "/w"; "/s/t"; "/w/a"].
Proof. reflexivity. Qed.

Example relative_samples :
  map (relative "/w" "/w/out/run") ["out/run"; "out/run/log.txt"; "out"; "/etc/x"; "out/running"] =
    [""; "log.txt"; ".."; "../../../etc/x"; "../running"].
Proof. reflexivity. Qed.

(** ** Facts *)

(** A directory or file name. *)
Definition is_name (s : string) : Prop := s ≠ "" ∧ index_of "/" s = None.

Lemma split_on_in_no_sep c s w : w ∈ split_on c s → index_of c w = None.
Proof.
  revert w. induction s as [|d s IH]; intros w; cbn.
  - by intros ->%list_elem_of_singleton.
  - destruct (Ascii.eqb_spec c d) as [->|Hne].
    + intros [->|Hw]%elem_of_cons; [done|auto].
    + destruct (split_on c s) as [|v vs] eqn:Hs; [by destruct (split_on_nonempty c s)|].
      intros [->|Hw]%elem_of_cons; [|apply IH; set_solver].
      cbn. destruct (Ascii.eqb_spec c d); [done|]. by rewrite (IH v) by set_solver.
Qed.

Lemma join_split_on c s : join (String c "") (split_on c s) = s.
Proof.
  unfold join. induction s as [|d s IH]; cbn; [done|].
  destruct (Ascii.eqb_spec c d) as [->|Hne].
  - destruct (split_on d s) as [|w ws] eqn:Hs; [by destruct (split_on_nonempty d s)|].
    by rewrite <-IH.
  - destruct (split_on c s) as [|w ws] eqn:Hs; [by destruct (split_on_nonempty c s)|].
    destruct ws as [|w' ws]; cbn in IH |- *; by rewrite <-IH.
Qed.

Lemma split_on_join c ws :
  ws ≠ [] → Forall (λ w, index_of c w = None) ws → split_on c (join (String c "") ws) = ws.
Proof.
  intros Hne Hws. induction Hws as [|w ws Hw Hws IH]; [done|].
  destruct ws as [|w' ws]; [cbn; by rewrite split_on_no_sep by by apply index_of_None|].
  change (join (String c "") (w :: w' :: ws)) with (w +:+ String c (join (String c "") (w' :: ws))).
  rewrite split_on_cons by by apply index_of_None. by rewrite IH.
Qed.

Lemma scan_found i s j b : scan i s = (Some j, b) → (i <= j)%nat ∧ (1 <= j)%nat.
Proof.
  revert i j b. induction s as [|c s IH]; intros i j b; cbn; [done|].
  destruct (scan (S i) s) as [[k|] m] eqn:Hs.
  - intros [= -> ->]. apply IH in Hs. lia.
  - destruct (Nat.eqb_spec i 0); [done|]. destruct (Ascii.eqb c "/"); [|done].
    destruct m; [done|]. intros [= <- _]. lia.
Qed.

Lemma index_of_cons c d s :
  index_of c (String d s) = None ↔ c ≠ d ∧ index_of c s = None.
Proof. cbn. destruct (Ascii.eqb_spec c d) as [->|]; [by split; [|intros []]|]. rewrite fmap_None. by split; [|intros []]. Qed.

Lemma scan_cons i c s :
  (scan (S i) s).1 = None → c ≠ "/"%char →
  scan i (String c s) = (None, if Nat.eqb i 0 then (scan (S i) s).2 else false).
Proof.
  cbn [scan]. destruct (scan (S i) s) as [[k|] m]; [done|]. intros _ Hc. cbn [fst snd].
  destruct (Nat.eqb i 0); [done|]. by rewrite (proj2 (Ascii.eqb_neq c "/") Hc).
Qed.

(** A name of at least one character after position 0 has no slash to find. *)
Lemma scan_name i s :
  index_of "/" s = None → s ≠ "" → (1 <= i)%nat → scan i s = (None, false).
Proof.
  revert i. induction s as [|c s IH]; intros i Hs Hne Hi; [done|].
  apply index_of_cons in Hs as [Hc Hs]. rewrite scan_cons; [|destruct s; [done|by rewrite IH by (done || lia)]|done].
  by destruct (Nat.eqb_spec i 0); [lia|].
Qed.

Lemma scan_app i d b :
  is_name b → (1 <= i + String.length d)%nat →
  scan i (d +:+ String "/" b) = (Some (i + String.length d)%nat, false).
Proof.
  intros [Hne Hb]. revert i. induction d as [|c d IH]; intros i Hi.
  - cbn [String.append scan]. cbn in Hi. rewrite scan_name by (done || lia).
    destruct (Nat.eqb_spec i 0); [lia|]. by rewrite Ascii.eqb_refl, Nat.add_0_r.
  - cbn [String.append scan String.length]. cbn [String.length] in Hi. by rewrite IH, Nat.add_succ_r by lia.
Qed.

Lemma take_str_app s t : take_str (String.length s) (s +:+ t) = s.
Proof. induction s as [|c s IH]; cbn; [done|]. by rewrite IH. Qed.

Lemma dirname_app d b :
  is_name b → d ≠ "" → starts_with "/" d = false → dirname (d +:+ String "/" b) = d.
Proof.
  intros Hb Hd Habs. unfold dirname.
  assert (1 <= String.length d)%nat by (destruct d; cbn; [done|lia]).
  rewrite scan_app by (done || lia). cbn [fst].
  assert (starts_with "/" (d +:+ String "/" b) = false) as -> by (by destruct d).
  cbn [andb]. apply take_str_app.
Qed.

Lemma dirname_name b : is_name b → dirname b = ".".
Proof.
  intros [Hne Hb]. unfold dirname. destruct b as [|c b]; [done|].
  apply index_of_cons in Hb as [Hc Hb]. rewrite scan_cons; [|destruct b; [done|by rewrite scan_name by (done || lia)]|done].
  cbn [fst starts_with]. by rewrite (proj2 (Ascii.eqb_neq _ _) Hc).
Qed.

(** A path without [..] and without a leading slash only goes down. *)
Lemma resolve_segments_app allow kept l k :
  resolve_segments allow kept (l ++ k) = resolve_segments allow (resolve_segments allow kept l) k.
Proof. revert kept. induction l as [|x l IH]; intros kept; cbn; [done|]. apply IH. Qed.

Lemma resolve_segments_down allow kept l :
  ".." ∉ l → ∃ below, resolve_segments allow kept l = below ++ kept.
Proof.
  revert kept. induction l as [|x l IH]; intros kept; [by exists []|].
  intros [Hx Hl]%not_elem_of_cons. cbn [resolve_segments].
  destruct (String.eqb x "" || String.eqb x "."); [by apply IH|].
  destruct (String.eqb_spec x ".."); [done|].
  destruct (IH (x :: kept) Hl) as [below Hb]. exists (below ++ [x]). by rewrite Hb, <-app_assoc.
Qed.

Lemma split_on_slash s t : split_on "/" (s +:+ String "/" t) = split_on "/" s ++ split_on "/" t.
Proof.
  rewrite split_on_app. cbn [split_on]. rewrite Ascii.eqb_refl, str_app_nil_r.
  pose proof (split_on_nonempty "/" s) as Hs.
  rewrite (app_removelast_last "" Hs) at 3. by rewrite <-app_assoc.
Qed.

Lemma below_root root path :
  root ≠ "" → ".." ∉ split_on "/" path →
  ∃ below, segments_of (root +:+ String "/" path) = segments_of root ++ below.
Proof.
  intros Hr Hp. unfold segments_of.
  assert (starts_with "/" (root +:+ String "/" path) = starts_with "/" root) as -> by (by destruct root).
  rewrite split_on_slash, resolve_segments_app.
  destruct (resolve_segments_down (negb (starts_with "/" root))
    (resolve_segments (negb (starts_with "/" root)) [] (split_on "/" root)) (split_on "/" path) Hp) as [below ->].
  exists (rev below). apply rev_app_distr.
Qed.

(** ** Resolved paths *)

(** A name that stays what it is: no slash, not empty, neither dot nor dots. *)
Definition good_name (s : string) : Prop := is_name s ∧ s ≠ "." ∧ s ≠ "..".

(** The absolute path of its segments. *)
Definition absolute (segments : list string) : string := "/" +:+ join "/" segments.

Lemma resolve_segments_good kept segments :
  Forall good_name kept → Forall (λ s, index_of "/" s = None) segments →
  Forall good_name (resolve_segments false kept segments).
Proof.
  revert kept. induction segments as [|s segments IH]; intros kept Hk Hs; cbn [resolve_segments]; [done|].
  apply Forall_cons in Hs as [Hs Hss]. apply IH; [|done].
  destruct (String.eqb_spec s ""); [done|]. destruct (String.eqb_spec s "."); [done|]. cbn [orb].
  destruct (String.eqb_spec s "..").
  - destruct kept as [|last above]; [done|]. apply Forall_cons in Hk as [(_ & _ & Hl) Ha].
    rewrite (proj2 (String.eqb_neq last "..")) by done. done.
  - apply Forall_cons. split; [|done]. by repeat split.
Qed.

Lemma segments_of_good path : starts_with "/" path = true → Forall good_name (segments_of path).
Proof.
  intros H. unfold segments_of. rewrite H. cbn [negb]. apply Forall_rev. apply resolve_segments_good; [constructor|].
  apply Forall_forall. intros w. apply split_on_in_no_sep.
Qed.

(** The names between the slashes. *)
Definition nonempty (names : list string) : list string := List.filter (λ s, negb (String.eqb s "")) names.

Lemma resolve_segments_push kept names :
  Forall good_name (nonempty names) → resolve_segments false kept names = rev (nonempty names) ++ kept.
Proof.
  revert kept. induction names as [|s names IH]; intros kept H; [done|]. cbn [resolve_segments nonempty List.filter] in *.
  destruct (String.eqb_spec s "") as [->|Hne]; cbn [negb orb] in *; [by apply IH|].
  apply Forall_cons in H as [(_ & Hd & Hdd) H]. rewrite (proj2 (String.eqb_neq s ".")), (proj2 (String.eqb_neq s "..")) by done.
  rewrite IH by done. cbn [rev]. by rewrite <-app_assoc.
Qed.

Lemma segments_plain path :
  starts_with "/" path = true → Forall good_name (nonempty (split_on "/" path)) → segments_of path = nonempty (split_on "/" path).
Proof.
  intros Hp H. unfold segments_of. rewrite Hp. cbn [negb]. rewrite resolve_segments_push by done. by rewrite app_nil_r, rev_involutive.
Qed.

Lemma nonempty_app a b : nonempty (a ++ b) = nonempty a ++ nonempty b.
Proof. apply List.filter_app. Qed.

Lemma nonempty_good names : Forall good_name names → nonempty names = names.
Proof.
  intros H. induction H as [|s names ([Hne _] & _) H IH]; [done|]. cbn. rewrite (proj2 (String.eqb_neq s "")) by done. cbn. by rewrite <-IH at 2.
Qed.

Lemma nonempty_absolute names : Forall good_name names → nonempty (split_on "/" (absolute names)) = names.
Proof.
  intros H. unfold absolute. change ("/" +:+ join "/" names) with ("" +:+ String "/" (join "/" names)).
  rewrite split_on_slash, nonempty_app. destruct names as [|s names]; [done|].
  rewrite (split_on_join "/") by (done || (eapply Forall_impl; [exact H|]; by intros ? ([_ ?] & _))).
  change (nonempty (split_on "/" "")) with (@nil string). cbn [app]. by apply nonempty_good.
Qed.

Lemma resolve_absolute cwd parts :
  starts_with "/" cwd = true → ∃ names, Forall good_name names ∧ resolve cwd parts = absolute names.
Proof.
  intros Hcwd. assert (Hstart : ∀ l acc, starts_with "/" (absolute_from (l ++ [cwd]) acc) = true).
  { induction l as [|p l IH]; intros acc; cbn [app absolute_from].
    - destruct (String.eqb_spec cwd "") as [->|]; [done|]. rewrite Hcwd. by destruct cwd.
    - destruct (String.eqb p ""); [apply IH|]. destruct (starts_with "/" p) eqn:E; [by destruct p|apply IH]. }
  unfold resolve. set (path := absolute_from _ _). assert (Hp : starts_with "/" path = true) by apply Hstart. rewrite Hp.
  exists (segments_of path). split; [by apply segments_of_good|done].
Qed.

Lemma absolute_app names t : absolute names +:+ "/" +:+ t = absolute names +:+ String "/" t.
Proof. done. Qed.

Lemma starts_absolute names t : starts_with "/" (absolute names +:+ t) = true.
Proof. done. Qed.

Lemma segments_below names t rest :
  Forall good_name names → Forall good_name rest → nonempty (split_on "/" t) = rest →
  segments_of (absolute names +:+ "/" +:+ t) = names ++ rest.
Proof.
  intros Hn Hr Ht. rewrite absolute_app.
  assert (Hsplit : nonempty (split_on "/" (absolute names +:+ String "/" t)) = names ++ rest).
  { by rewrite split_on_slash, nonempty_app, nonempty_absolute, Ht. }
  rewrite segments_plain; rewrite ?Hsplit; [done|done|]. by apply Forall_app.
Qed.

Lemma absolute_not_empty names : absolute names ≠ "".
Proof. done. Qed.

Lemma resolve_again cwd names : Forall good_name names → resolve cwd [absolute names] = absolute names.
Proof.
  intros H. unfold resolve. cbn [rev app absolute_from]. rewrite (proj2 (String.eqb_neq _ _) (absolute_not_empty names)).
  change (starts_with "/" (absolute names)) with true. cbv iota zeta.
  rewrite (segments_below names "" []) by (done || constructor). rewrite app_nil_r. done.
Qed.

Lemma resolve_below cwd names name :
  Forall good_name names → good_name name → resolve cwd [absolute names; name] = absolute (names ++ [name]).
Proof.
  intros H Hname. pose proof Hname as ([Hne Hs] & _). unfold resolve. cbn [rev app absolute_from].
  rewrite (proj2 (String.eqb_neq name "")) by done.
  assert (starts_with "/" name = false) as -> by (destruct name as [|c name]; [done|]; apply index_of_cons in Hs as [Hs _];
      change (Ascii.eqb "/" c && true = false); by destruct (Ascii.eqb_spec "/" c)).
  cbn [absolute_from]. rewrite (proj2 (String.eqb_neq _ _) (absolute_not_empty names)).
  change (starts_with "/" (absolute names)) with true. cbv iota zeta.
  rewrite (segments_below names (name +:+ "/" +:+ "") [name]); [done|done|by apply Forall_singleton|].
  change (name +:+ "/" +:+ "") with (name +:+ String "/" ""). rewrite split_on_slash, nonempty_app.
  rewrite split_on_no_sep by by apply index_of_None. rewrite (nonempty_good [name]) by by apply Forall_singleton. done.
Qed.

Lemma segments_of_absolute names : Forall good_name names → segments_of (absolute names) = names.
Proof. intros H. rewrite segments_plain; rewrite ?nonempty_absolute; done. Qed.

Lemma common_length_le a b : (common_length a b <= length a)%nat.
Proof. revert b. induction a as [|x a IH]; intros [|y b]; cbn; [lia|lia|lia|]. destruct (String.eqb x y); [|lia]. specialize (IH b). lia. Qed.

Lemma common_prefix a b : common_length a b = length a → take (length a) b = a.
Proof.
  revert b. induction a as [|x a IH]; intros [|y b] H; cbn in *; [done|done|done|].
  destruct (String.eqb_spec x y) as [->|]; [|done]. f_equal. apply IH. lia.
Qed.

(** A path whose relative path is one name is that name in the directory. *)
Lemma relative_name cwd a b name :
  Forall good_name a → Forall good_name b → good_name name →
  relative cwd (absolute a) (absolute b) = name → b = a ++ [name].
Proof.
  intros Ha Hb ([Hne Hs] & Hd & Hdd). unfold relative. rewrite !resolve_again, !segments_of_absolute by done. cbv zeta.
  pose proof (common_length_le a b) as Hle. set (n := common_length a b) in *. intros Hj.
  assert (Hnames : repeat ".." (length a - n) ++ drop n b = [name]).
  { rewrite <-(split_on_no_sep "/" name) by by apply index_of_None. rewrite <-Hj. symmetry. apply (split_on_join "/").
    - intros Hnil. rewrite Hnil in Hj. by rewrite <-Hj in Hne.
    - apply Forall_app. split; [|apply Forall_drop; eapply Forall_impl; [exact Hb|]; by intros ? ([_ ?] & _)].
      apply Forall_forall. intros s ->%list_elem_of_In%repeat_spec. done. }
  destruct (length a - n)%nat as [|k] eqn:Ek; [|cbn in Hnames; by injection Hnames as <- _].
  cbn [repeat app] in Hnames. assert (Hn : n = length a) by lia. rewrite <-(take_drop n b), Hnames. f_equal.
  rewrite Hn. by apply common_prefix.
Qed.
