(* ===== verification/ArchConfig.v ===== *)
(** * The configuration of the architecture graph

    [parseArchitectureConfig] of [src/tools/architecture-graph.ts] with its
    readers: the levels of [architecture-graph.config.json], each of one of
    four kinds.  An error is the text of the thrown [Error] after the file
    name. *)
From S2P Require Import Prelude JsString JsNum JsValue Posix.

Record LevelConfigBase := { cfg_id : string; cfg_title : string; cfg_label : string; cfg_output : string; cfg_intro : string }.

Record PythonLevelConfig := {
  py_package : string; py_sourceDir : string; py_projectDir : string; py_collapseDepth : Z;
  py_groups : option (list (string * string)); py_importLinter : string; py_importLinterConfig : option string }.

Record TypeScriptLevelConfig := {
  ts_sheriffConfig : option string; ts_modules : option (list (string * list string));
  ts_tsconfig : string; ts_sourceRoots : list string; ts_exclude : list string }.

Record JavaLevelConfig := { java_sourceRoots : list string; java_basePackage : string; java_collapseDepth : Z }.

Inductive level_kind : Type :=
| KNx (tagPrefix : string)
| KPython (python : PythonLevelConfig)
| KTypeScript (typescript : TypeScriptLevelConfig)
| KJava (java : JavaLevelConfig).

Record LevelConfig := { cfg_base : LevelConfigBase; cfg_kind : level_kind }.

Definition ArchitectureConfig : Type := list LevelConfig.

Abbreviation read A := (result string A).

Definition configError {A} (path message : string) : read A := Err (path +:+ " " +:+ message).

(** ** Patterns *)

Definition is_letter (c : ascii) : bool := is_upper c || is_lower c.

(** [\w] *)
Definition is_word (c : ascii) : bool := is_alnum c || Ascii.eqb c "_".

(** [/^[A-Za-z][\w-]*$/u] *)
Definition is_identifier (s : string) : bool :=
  match s with
  | "" => false
  | String c s' => is_letter c && all_chars (λ d, is_word d || Ascii.eqb d "-") s'
  end.

(** [/^[\w][\w.-]*\.md$/u] *)
Definition is_markdown_name (s : string) : bool :=
  match s with
  | "" => false
  | String c s' =>
      is_word c && all_chars (λ d, is_word d || Ascii.eqb d "." || Ascii.eqb d "-") s' && ends_with ".md" s'
  end.

(** [/^[\w-]+:$/u] *)
Definition is_tag_prefix (s : string) : bool :=
  ends_with ":" s && (1 <? slen s) &&
  all_chars (λ d, is_word d || Ascii.eqb d "-") (take_str (String.length s - 1) s).

(** [[A-Za-z_$][\w$]*] *)
Definition is_name_segment (s : string) : bool :=
  match s with
  | "" => false
  | String c s' =>
      (is_letter c || Ascii.eqb c "_" || Ascii.eqb c "$") && all_chars (λ d, is_word d || Ascii.eqb d "$") s'
  end.

(** [DOTTED_NAME] *)
Definition DOTTED_NAME (s : string) : bool := forallb is_name_segment (split_on "." s).

(** [/^[A-Za-z]:/u.test(value)] *)
Definition has_drive (s : string) : bool :=
  match s with
  | String c (String d _) => is_letter c && Ascii.eqb d ":"
  | _ => false
  end.

(** The negation of the test of [checkRelativePath]. *)
Definition is_relative_path (s : string) : bool :=
  negb (String.eqb s "") && String.eqb (trim s) s &&
  negb (bool_decide (is_Some (index_of "\" s))) && negb (starts_with "/" s) &&
  negb (has_drive s) && negb (includes (split_on "/" s) "..").

(** ** Readers *)

Fixpoint reject_unknown (names allowed : list string) (path : string) : read unit :=
  match names with
  | [] => Ok tt
  | key :: rest =>
      if includes allowed key then reject_unknown rest allowed path
      else configError (path +:+ "." +:+ key)
             ("is not a known key (expected one of: " +:+ join ", " allowed +:+ ").")
  end.
Definition rejectUnknownKeys (object : fields) (allowed : list string) (path : string) : read unit :=
  reject_unknown (keys object) allowed path.

Definition readString (object : fields) (key path : string) (fallback : option string) : read string :=
  match get object key, fallback with
  | Undefined, Some text => Ok text
  | Str value, _ =>
      if blank value then configError (path +:+ "." +:+ key) "must be a non-empty string." else Ok value
  | _, _ => configError (path +:+ "." +:+ key) "must be a non-empty string."
  end.

Definition readPattern (object : fields) (key path : string) (pattern : string → bool) (description : string)
    (fallback : option string) : read string :=
  value ← readString object key path fallback;
  if pattern value then Ok value else configError (path +:+ "." +:+ key) ("must be " +:+ description +:+ ".").

Definition checkRelativePath (value : js) (path : string) : read string :=
  match value with
  | Str s => if is_relative_path s then Ok s
             else configError path "must be a repo-relative path with forward slashes and no `..`."
  | _ => configError path "must be a repo-relative path with forward slashes and no `..`."
  end.

Definition readPath (object : fields) (key path : string) (fallback : js) : read string :=
  checkRelativePath (coalesce (get object key) fallback) (path +:+ "." +:+ key).

Definition entry_path (path key : string) (index : nat) : string :=
  path +:+ "." +:+ key +:+ "[" +:+ show_nat index +:+ "]".

Definition readPathList (object : fields) (key path : string) (fallback : option (list string)) : read (list string) :=
  match get object key, fallback with
  | Undefined, Some paths => Ok paths
  | Arr value, _ =>
      if bool_decide (fallback = None) && bool_decide (value = [])
      then configError (path +:+ "." +:+ key) "must be a non-empty array of paths."
      else mapM_idx (λ index entry, checkRelativePath entry (entry_path path key index)) value
  | _, _ => configError (path +:+ "." +:+ key) "must be a non-empty array of paths."
  end.

Definition readOptionalPath (object : fields) (key path : string) : read (option string) :=
  match get object key with
  | Undefined => Ok None
  | value => Some <$> checkRelativePath value (path +:+ "." +:+ key)
  end.

Definition readPositiveInteger (object : fields) (key path : string) (fallback : Z) : read Z :=
  match coalesce (get object key) (js_Z fallback) with
  | Num n =>
      match to_int n with
      | Some z => if z <? 1 then configError (path +:+ "." +:+ key) "must be a positive integer." else Ok z
      | None => configError (path +:+ "." +:+ key) "must be a positive integer."
      end
  | _ => configError (path +:+ "." +:+ key) "must be a positive integer."
  end.

(** [list.every((item) => typeof item === 'string' && item.trim() !== '')],
    with the strings when it holds. *)
Fixpoint nonblank_strings (l : list js) : option (list string) :=
  match l with
  | [] => Some []
  | Str item :: rest => if blank item then None else (item ::.) <$> nonblank_strings rest
  | _ :: _ => None
  end.

Fixpoint read_list_entries (entries : fields) (path key : string) : read (list (string * list string)) :=
  match entries with
  | [] => Ok []
  | (entry, list_) :: rest =>
      checkRelativePath (Str entry) (path +:+ "." +:+ key +:+ " key " +:+ quote entry);;
      let error := configError (path +:+ "." +:+ key +:+ "." +:+ entry) "must be a non-empty array of strings." in
      match list_ with
      | Arr (x :: l) =>
          match nonblank_strings (x :: l) with
          | Some tags => others ← read_list_entries rest path key; Ok ((entry, tags) :: others)
          | None => error
          end
      | _ => error
      end
  end.

Definition readStringListMap (object : fields) (key path : string) : read (option (list (string * list string))) :=
  match get object key with
  | Undefined => Ok None
  | Obj (e :: entries) => Some <$> read_list_entries (e :: entries) path key
  | _ => configError (path +:+ "." +:+ key) "must be a non-empty object."
  end.

(** [readString] of every key of the object. *)
Fixpoint read_strings (object : fields) (names : list string) (path : string) : read (list (string * string)) :=
  match names with
  | [] => Ok []
  | name :: rest =>
      text ← readString object name path None;
      others ← read_strings object rest path; Ok ((name, text) :: others)
  end.
Definition readStringMap (object : fields) (key path : string) : read (option (list (string * string))) :=
  match get object key with
  | Undefined => Ok None
  | Obj value => Some <$> read_strings value (keys value) (path +:+ "." +:+ key)
  | _ => configError (path +:+ "." +:+ key) "must be an object."
  end.

(** ** Levels *)

Definition COMMON_KEYS : list string := ["id"; "kind"; "title"; "label"; "output"; "intro"].

Definition read_nx (value : fields) (path : string) : read level_kind :=
  rejectUnknownKeys value (COMMON_KEYS ++ ["tagPrefix"]) path;;
  KNx <$> readPattern value "tagPrefix" path is_tag_prefix "a tag prefix ending in `:`, such as `type:`" (Some "type:").

Definition read_python (value : fields) (path : string) : read level_kind :=
  rejectUnknownKeys value (COMMON_KEYS ++
    ["package"; "sourceDir"; "projectDir"; "collapseDepth"; "groups"; "importLinter"; "importLinterConfig"]) path;;
  groups ← readStringMap value "groups" path;
  contracts ← readOptionalPath value "importLinterConfig" path;
  package ← readPattern value "package" path DOTTED_NAME "a dotted Python package name" None;
  sourceDir ← readPath value "sourceDir" path Undefined;
  projectDir ← readPath value "projectDir" path (Str ".");
  collapseDepth ← readPositiveInteger value "collapseDepth" path 1;
  importLinter ← readString value "importLinter" path (Some "import-linter==2.5.2");
  Ok (KPython {| py_package := package; py_sourceDir := sourceDir; py_projectDir := projectDir;
                 py_collapseDepth := collapseDepth; py_groups := groups; py_importLinter := importLinter;
                 py_importLinterConfig := contracts |}).

Definition read_typescript (value : fields) (path : string) : read level_kind :=
  rejectUnknownKeys value (COMMON_KEYS ++ ["sheriffConfig"; "modules"; "tsconfig"; "sourceRoots"; "exclude"]) path;;
  sheriffConfig ← readOptionalPath value "sheriffConfig" path;
  modules ← readStringListMap value "modules" path;
  (if Bool.eqb (bool_decide (sheriffConfig = None)) (bool_decide (modules = None))
   then configError path "needs exactly one of `sheriffConfig`, `modules`." else Ok tt);;
  tsconfig ← readPath value "tsconfig" path (Str "tsconfig.base.json");
  sourceRoots ← readPathList value "sourceRoots" path None;
  exclude ← readPathList value "exclude" path (Some []);
  Ok (KTypeScript {| ts_sheriffConfig := sheriffConfig; ts_modules := modules; ts_tsconfig := tsconfig;
                     ts_sourceRoots := sourceRoots; ts_exclude := exclude |}).

Definition read_java (value : fields) (path : string) : read level_kind :=
  rejectUnknownKeys value (COMMON_KEYS ++ ["sourceRoots"; "basePackage"; "collapseDepth"]) path;;
  sourceRoots ← readPathList value "sourceRoots" path None;
  basePackage ← readPattern value "basePackage" path DOTTED_NAME "a dotted Java package name" None;
  collapseDepth ← readPositiveInteger value "collapseDepth" path 1;
  Ok (KJava {| java_sourceRoots := sourceRoots; java_basePackage := basePackage; java_collapseDepth := collapseDepth |}).

Definition unknown_kind : string :=
  "must be one of " +:+ join ", " (map quote ["nx"; "python"; "typescript"; "java"]) +:+ ".".

(** [switch (kind)] *)
Definition read_kind (value : fields) (path : string) : read level_kind :=
  let kind := get value "kind" in
  if is_str kind "nx" then read_nx value path
  else if is_str kind "python" then read_python value path
  else if is_str kind "typescript" then read_typescript value path
  else if is_str kind "java" then read_java value path
  else configError (path +:+ ".kind") unknown_kind.

Definition parseLevel (value : js) (path : string) : read LevelConfig :=
  match value with
  | Obj value =>
      id ← readPattern value "id" path is_identifier "an identifier" None;
      title ← readString value "title" path None;
      output ← readPattern value "output" path is_markdown_name "a Markdown file name without directories" None;
      intro ← readString value "intro" path None;
      label ← readString value "label" path (Some title);
      kind ← read_kind value path;
      Ok {| cfg_base := {| cfg_id := id; cfg_title := title; cfg_label := label;
                           cfg_output := output; cfg_intro := intro |};
            cfg_kind := kind |}
  | _ => configError path "must be an object."
  end.

(** The loop over one key: the first repeated value is an error. *)
Fixpoint reject_repeated (key : string) (index : nat) (seen values : list string) : read unit :=
  match values with
  | [] => Ok tt
  | value :: rest =>
      if includes seen value
      then configError ("levels[" +:+ show_nat index +:+ "]." +:+ key) ("repeats " +:+ quote value +:+ ".")
      else reject_repeated key (S index) (value :: seen) rest
  end.

Definition parseArchitectureConfig (value : js) : read ArchitectureConfig :=
  match value with
  | Obj value =>
      rejectUnknownKeys value ["levels"] "config";;
      match get value "levels" with
      | Arr (x :: l) =>
          levels ← mapM_idx (λ index level, parseLevel level ("levels[" +:+ show_nat index +:+ "]")) (x :: l);
          reject_repeated "id" 0 [] (map (cfg_id ∘ cfg_base) levels);;
          reject_repeated "output" 0 [] (map (cfg_output ∘ cfg_base) levels);;
          Ok levels
      | _ => configError "config.levels" "must be a non-empty array."
      end
  | _ => configError "the config" "must be a JSON object."
  end.

(** ** Every path of an accepted configuration stays inside the repository *)

(** The paths of a level the tool reads files at. *)
Definition level_paths (kind : level_kind) : list string :=
  match kind with
  | KNx _ => []
  | KPython python => py_sourceDir python :: py_projectDir python :: option_list (py_importLinterConfig python)
  | KTypeScript typescript =>
      option_list (ts_sheriffConfig typescript) ++ map fst (default [] (ts_modules typescript)) ++
      ts_tsconfig typescript :: ts_sourceRoots typescript ++ ts_exclude typescript
  | KJava java => java_sourceRoots java
  end.

Lemma checkRelativePath_Ok v path s : checkRelativePath v path = Ok s → is_relative_path s = true.
Proof. destruct v; cbn; try done. destruct (is_relative_path s0) eqn:H; [by intros [= <-]|done]. Qed.

Lemma readPathList_Ok r key path fallback l :
  readPathList r key path fallback = Ok l →
  Forall (λ s, is_relative_path s = true) (default [] fallback) → Forall (λ s, is_relative_path s = true) l.
Proof.
  unfold readPathList. intros H Hf.
  destruct (get r key); destruct fallback as [paths|]; try done; try (by injection H as <-); cbn in H.
  all: try (destruct (bool_decide (l0 = [])) in H; [done|]).
  all: apply mapM_idx_Ok in H as [Hlen H]; apply Forall_lookup_2; intros i s Hs.
  all: destruct (lookup_lt_is_Some_2 l0 i) as [x Hx]; [rewrite Hlen; by eapply lookup_lt_Some|].
  all: eapply checkRelativePath_Ok; by apply (H i x s).
Qed.

Lemma read_list_entries_Ok entries path key l :
  read_list_entries entries path key = Ok l → Forall (λ s, is_relative_path s = true) (map fst l).
Proof.
  revert l. induction entries as [|[entry v] entries IH]; intros l; cbn [read_list_entries]; [by intros [= <-]|].
  intros H. apply bind_Ok in H as (s & Hs & H).
  destruct v as [| | | | |[|x xs]|]; try done. destruct (nonblank_strings (x :: xs)); [|done].
  apply bind_Ok in H as (others & Ho & [= <-]). apply Forall_cons; split; [|by apply IH].
  cbn in Hs |- *. by destruct (is_relative_path entry).
Qed.

Lemma readOptionalPath_Ok r key path o :
  readOptionalPath r key path = Ok o → Forall (λ s, is_relative_path s = true) (option_list o).
Proof.
  unfold readOptionalPath. intros H.
  destruct (get r key); try done; [injection H as <-; constructor|].
  cbn in H. destruct (is_relative_path s) eqn:Hs; [|done]. injection H as <-. by repeat constructor.
Qed.

Lemma readStringListMap_Ok r key path o :
  readStringListMap r key path = Ok o → Forall (λ s, is_relative_path s = true) (map fst (default [] o)).
Proof.
  unfold readStringListMap. intros H.
  destruct (get r key) as [| | | | | |[|e entries]]; try done; [injection H as <-; constructor|].
  destruct (read_list_entries (e :: entries) path key) as [l|] eqn:Hl; [|done].
  injection H as <-. by eapply read_list_entries_Ok.
Qed.

Lemma read_kind_paths r path kind :
  read_kind r path = Ok kind → Forall (λ s, is_relative_path s = true) (level_paths kind).
Proof.
  unfold read_kind. repeat case_match; intros Hk.
  - unfold read_nx in Hk. apply bind_Ok in Hk as (_ & _ & Hk).
    destruct (readPattern _ _ _ _ _ _); [|done]. injection Hk as <-. constructor.
  - unfold read_python in Hk. inv_ok. cbn [level_paths py_sourceDir py_projectDir py_importLinterConfig].
    repeat (apply Forall_cons; split); [by eapply checkRelativePath_Ok..|by eapply readOptionalPath_Ok].
  - unfold read_typescript in Hk. inv_ok.
    cbn [level_paths ts_sheriffConfig ts_modules ts_tsconfig ts_sourceRoots ts_exclude].
    apply Forall_app; split; [by eapply readOptionalPath_Ok|].
    apply Forall_app; split; [by eapply readStringListMap_Ok|].
    apply Forall_cons; split; [by eapply checkRelativePath_Ok|].
    apply Forall_app; split; by eapply readPathList_Ok.
  - unfold read_java in Hk. inv_ok. by eapply readPathList_Ok.
  - done.
Qed.

Lemma parseLevel_Ok v path level :
  parseLevel v path = Ok level →
  Forall (λ s, is_relative_path s = true) (level_paths (cfg_kind level)) ∧
  is_markdown_name (cfg_output (cfg_base level)) = true.
Proof.
  destruct v; try done. cbn [parseLevel]. intros H. inv_ok. cbn [cfg_kind cfg_base cfg_output].
  split; [by eapply read_kind_paths|].
  match goal with H : readPattern _ _ _ is_markdown_name _ _ = Ok ?o |- is_markdown_name ?o = true =>
    unfold readPattern in H; apply bind_Ok in H as (o' & _ & H); by destruct (is_markdown_name o') eqn:?; inv_ok end.
Qed.

Lemma reject_repeated_Ok key index seen values u :
  reject_repeated key index seen values = Ok u → NoDup values ∧ Forall (.∉ seen) values.
Proof.
  revert index seen. induction values as [|v values IH]; intros index seen; cbn.
  { by intros _; split; [apply NoDup_nil_2|]. }
  destruct (includes seen v) eqn:Hv; [done|]. apply includes_false in Hv.
  intros [Hnd Hall]%IH. rewrite Forall_forall in Hall. split.
  - apply NoDup_cons_2; [|done]. intros Hin. apply (Hall v Hin), elem_of_cons. by left.
  - apply Forall_cons; split; [done|]. apply Forall_forall. intros x Hx ?. apply (Hall x Hx), elem_of_cons. by right.
Qed.

Lemma parsed_levels v levels :
  parseArchitectureConfig v = Ok levels →
  Forall (λ level, Forall (λ s, is_relative_path s = true) (level_paths (cfg_kind level)) ∧
                   is_markdown_name (cfg_output (cfg_base level)) = true) levels ∧
  NoDup (map (cfg_id ∘ cfg_base) levels) ∧ NoDup (map (cfg_output ∘ cfg_base) levels).
Proof.
  destruct v as [| | | | | |r]; try done. cbn [parseArchitectureConfig]. intros H.
  apply bind_Ok in H as (_ & _ & H). destruct (get r "levels") as [| | | | |[|x l]|]; try done. inv_ok.
  split_and!; [|by eapply reject_repeated_Ok..].
  match goal with H : mapM_idx _ _ = Ok _ |- _ => apply mapM_idx_Ok in H as [Hlen H] end.
  apply Forall_lookup_2. intros i level Hi.
  destruct (lookup_lt_is_Some_2 (x :: l) i) as [y Hy]; [rewrite Hlen; by eapply lookup_lt_Some|]. eauto using parseLevel_Ok.
Qed.

Lemma relative_goes_down s : is_relative_path s = true → ".." ∉ split_on "/" s.
Proof.
  unfold is_relative_path. rewrite !andb_true_iff. intros [_ H]. apply negb_true_iff in H. by apply includes_false.
Qed.

(** C31: Every path an accepted configuration names (sources, package and
    project directories, tsconfig, Sheriff and import-linter files, module
    folders) resolves to a place below the checkout it is joined to, whatever
    the checkout's own path is. *)
Theorem accepted_paths_stay_inside v levels level path root :
  parseArchitectureConfig v = Ok levels → level ∈ levels → path ∈ level_paths (cfg_kind level) → root ≠ "" →
  ∃ below, segments_of (root +:+ String "/" path) = segments_of root ++ below.
Proof.
  intros (Hall & _)%parsed_levels Hlevel Hpath Hroot. rewrite Forall_forall in Hall.
  destruct (Hall _ Hlevel) as [Hp _]. rewrite Forall_forall in Hp. by apply below_root, relative_goes_down, Hp.
Qed.

Definition sample_java_level (sourceRoot : string) : js := Obj [
  ("id", Str "java"); ("kind", Str "java"); ("title", Str "Packages"); ("output", Str "java.md");
  ("intro", Str "Java packages."); ("sourceRoots", Arr [Str sourceRoot]); ("basePackage", Str "com.acme")].
Definition sample_config (sourceRoot : string) : js := Obj [("levels", Arr [sample_java_level sourceRoot])].

Example outside_is_refused :
  parseArchitectureConfig (sample_config "src/../../other") =
    Err "levels[0].sourceRoots[0] must be a repo-relative path with forward slashes and no `..`.".
Proof. reflexivity. Qed.

Lemma accepted_paths_stay_inside_witness :
  ∃ below, segments_of "/work/repo/src/./main" = segments_of "/work/repo" ++ below.
Proof.
  eapply (accepted_paths_stay_inside (sample_config "src/./main") _ _ "src/./main" "/work/repo").
  - reflexivity.
  - by apply list_elem_of_singleton.
  - by apply list_elem_of_singleton.
  - done.
Defined.
