(* ===== verification/ArchGraph.v ===== *)
(** * The levels of the architecture graph

    The pure part of [src/tools/architecture-graph.ts]: normalized levels of
    nodes and edges, built from the Nx project graph, a Python import graph,
    TypeScript imports or Java sources.  Objects and [Map]s are association
    lists in insertion order; [own_entries] puts the index-like keys of an
    object first, as [Object.entries] does.  The import specifiers of a
    TypeScript file come from the TypeScript compiler, a parameter. *)
From stdpp Require Import sorting.
From S2P Require Import Prelude JsString JsNum JsValue Json RuntimeErrors CanonicalJson StableSort Posix.

(** ** Objects, maps and sets *)

Section records.
Context {A : Type}.

(** [map.set(key, value)], [record[key] = value] *)
Fixpoint put (k : string) (v : A) (r : list (string * A)) : list (string * A) :=
match r with
| [] => [(k, v)]
| (k', v') :: r' => if String.eqb k k' then (k, v) :: r' else (k', v') :: put k v r'
end.

Definition put_all (entries : list (string * A)) (r : list (string * A)) : list (string * A) :=
fold_left (λ r kv, put kv.1 kv.2 r) entries r.

Definition has_index (kv : string * A) : bool := bool_decide (is_Some (array_index kv.1)).

(** [Object.entries(record)] *)
Definition own_entries (r : list (string * A)) : list (string * A) :=
sort_by (λ kv, default 0 (array_index kv.1)) (List.filter has_index r) ++
List.filter (λ kv, negb (has_index kv)) r.

Definition entry_le (x y : string * A) : Prop := string_le x.1 y.1.
#[export] Instance entry_le_dec : RelDecision entry_le.
Proof. intros x y. unfold entry_le. apply _. Defined.

(** [Object.fromEntries(Object.entries(record).sort(([a], [b]) => compare(a, b)))];
  the keys are distinct, so stability does not matter. *)
Definition sortedRecord (r : list (string * A)) : list (string * A) :=
own_entries (merge_sort entry_le (own_entries r)).
End records.

(** [set.add(x)], [new Set(list)] *)
Definition add_to (s : list string) (x : string) : list string := if includes s x then s else s ++ [x].
Definition new_set (l : list string) : list string := fold_left add_to l [].

(** ** Levels *)

Abbreviation Edge := (string * string)%type.

Inductive boundary_kind : Type := ByTag | ByNode.

Record GraphLevel := {
  nodes : list string; edges : list Edge; tags : option (list (string * string));
  roots : option (list (string * string)); level_label : option string; boundary : option boundary_kind }.

(** [`${from}\u0000${to}`] *)
Definition edge_key (e : Edge) : string := e.1 +:+ String "000" e.2.

(** [compare(a[0], b[0]) || compare(a[1], b[1]) <= 0] *)
Definition edge_le (a b : Edge) : Prop := if String.eqb a.1 b.1 then string_le a.2 b.2 else string_le a.1 b.1.
#[export] Instance edge_le_dec : RelDecision edge_le.
Proof. intros x y. unfold edge_le. destruct (String.eqb x.1 y.1); apply _. Defined.

(** The values of [edgeKeys]. *)
Definition collect_edges (es : list Edge) : list (string * Edge) :=
  fold_left (λ m e, if String.eqb e.1 e.2 then m else put (edge_key e) e m) es [].

Definition normalizeLevel (ns : list string) (es : list Edge) (ts : option (list (string * string))) : GraphLevel :=
  {| nodes := sort_keys (new_set ns);
     edges := merge_sort edge_le (map snd (collect_edges es));
     tags := sortedRecord <$> ts; roots := None; level_label := None; boundary := None |}.

Definition with_roots (r : list (string * string)) (b : option boundary_kind) (level : GraphLevel) : GraphLevel :=
  {| nodes := nodes level; edges := edges level; tags := tags level;
     roots := Some r; level_label := level_label level; boundary := b |}.

(** ** Nx projects *)

Record nx_project := { project_tags : option (list string); project_root : option string }.
(** The dependencies carry their targets only. *)
Record NxGraphBody := {
  body_nodes : option (list (string * nx_project)); body_dependencies : option (list (string * list string)) }.
Record NxGraph := { nx_graph : option NxGraphBody; nx_body : NxGraphBody }.

Definition projectsLevel (nxGraph : NxGraph) (tagPrefix : string) : GraphLevel :=
  let body := default (nx_body nxGraph) (nx_graph nxGraph) in
  let projects := default [] (body_nodes body) in
  let names := map fst projects in
  let es := flat_map (λ d : string * list string,
    if includes names d.1 then map (pair d.1) (List.filter (includes names) d.2) else []) (default [] (body_dependencies body)) in
  let tagOf project := List.find (starts_with tagPrefix) (default [] (project_tags project)) in
  let ts := fold_left (λ r p, match tagOf p.2 with
                              | Some tag => if String.eqb tag "" then r else put p.1 tag r
                              | None => r
                              end) projects [] in
  let rs := fold_left (λ r p, match project_root p.2 with
                              | Some root => put (if String.eqb root "" then "." else root) p.1 r
                              | None => r
                              end) projects [] in
  with_roots (sortedRecord rs) (Some ByTag) (normalizeLevel names es (Some ts)).

(** ** Climbing to parent directories *)

Definition at_top (directory : string) : bool := String.eqb directory "." || String.eqb directory "/".

(** [while (d !== '.' && d !== '/' && !stop(d)) d = posix.dirname(d);] *)
Fixpoint climb (fuel : nat) (stop : string → bool) (directory : string) : string :=
  match fuel with
  | O => directory
  | S fuel => if at_top directory || stop directory then directory else climb fuel stop (dirname directory)
  end.

(** From the directory of a file or directory; its length is enough fuel. *)
Definition climb_from (stop : string → bool) (path : string) : string :=
  climb (S (String.length path)) stop (dirname path).

Definition has_entry {A} (r : list (string * A)) (k : string) : bool := includes (map fst r) k.

Definition keeps_root (all : list (string * string)) (root : string * string) : bool :=
  negb (bool_decide (table_find all (climb_from (has_entry all) root.1) = Some root.2)).

Definition pruneRoots (all : list (string * string)) : list (string * string) :=
  sortedRecord (List.filter (keeps_root all) all).

(** ** Python modules *)

(** [s.lastIndexOf(c)] *)
Fixpoint last_index_of (c : ascii) (s : string) : option nat :=
  match s with
  | "" => None
  | String d s' => match last_index_of c s' with
                   | Some i => Some (S i)
                   | None => if Ascii.eqb c d then Some O else None
                   end
  end.

Fixpoint longest_dotted_prefix {A} (fuel : nat) (candidate : string) (table : list (string * A)) : option A :=
  match fuel with
  | O => None
  | S fuel =>
      match table_find table candidate with
      | Some value => Some value
      | None => match last_index_of "." candidate with
                | None => None
                | Some dot => longest_dotted_prefix fuel (take_str dot candidate) table
                end
      end
  end.
Definition longestDottedPrefix {A} (name : string) (table : list (string * A)) : option A :=
  longest_dotted_prefix (S (String.length name)) name table.

(** [rest.split('.').slice(0, depth).join('.')] *)
Definition collapse (depth : Z) (rest : string) : string := join "." (take (Z.to_nat depth) (split_on "." rest)).

Record ModuleImportReport := { report_package : string; report_modules : list string; report_edges : list Edge }.
Record PythonLevelOptions := {
  collapseDepth : Z; groups : option (list (string * string)); sourceDir : string; isPackage : string → bool }.

(** [nodeOf] of [pythonModulesLevel] *)
Definition python_node (package : string) (depth : Z) (module : string) : option string :=
  let prefix := package +:+ "." in
  if starts_with prefix module
  then Some (prefix +:+ collapse depth (drop_str (String.length prefix) module)) else None.

(** The edges between the nodes of both ends, where both have one. *)
Definition node_edges (nodeOf : string → option string) (es : list Edge) : list Edge :=
  omap (λ e : Edge, from ← nodeOf e.1; to ← nodeOf e.2; Some (from, to)) es.

Definition pythonModulesLevel (report : ModuleImportReport) (options : PythonLevelOptions) : GraphLevel :=
  let nodeOf := python_node (report_package report) (collapseDepth options) in
  let ns := new_set (omap nodeOf (report_modules report)) in
  let rs := fold_left (λ r node,
    let path := path_join (sourceDir options :: split_on "." node) in
    put (if isPackage options node then path else path +:+ ".py") node r) ns [] in
  let ts := (λ gs, fold_left (λ r node, match longestDottedPrefix node gs with
                                        | Some group => put node group r
                                        | None => r
                                        end) ns []) <$> groups options in
  with_roots (sortedRecord rs) (Some (match groups options with Some _ => ByTag | None => ByNode end))
    (normalizeLevel ns (node_edges nodeOf (report_edges report)) ts).

(** ** Facts about objects, maps and sets *)

Section record_lemmas.
Context {A : Type}.
Implicit Types r : list (string * A).

Lemma put_keys k (v : A) r x : x ∈ map fst (put k v r) ↔ x = k ∨ x ∈ map fst r.
Proof.
induction r as [|[k' v'] r IH]; cbn.
- rewrite list_elem_of_singleton. set_solver.
- destruct (String.eqb_spec k k') as [->|]; cbn; rewrite ?elem_of_cons; [|rewrite IH]; naive_solver.
Qed.

Lemma put_NoDup k (v : A) r : NoDup (map fst r) → NoDup (map fst (put k v r)).
Proof.
induction r as [|[k' v'] r IH]; cbn; [repeat constructor; set_solver|].
intros [Hk Hr]%NoDup_cons. destruct (String.eqb_spec k k') as [->|]; cbn; apply NoDup_cons; [done|].
split; [|auto]. rewrite put_keys. naive_solver.
Qed.

Lemma put_elem k (v : A) r k' v' :
NoDup (map fst r) → (k', v') ∈ put k v r ↔ k' = k ∧ v' = v ∨ k' ≠ k ∧ (k', v') ∈ r.
Proof.
induction r as [|[k1 v1] r IH]; cbn.
- intros _. rewrite list_elem_of_singleton. set_solver.
- intros [Hk Hr]%NoDup_cons. destruct (String.eqb_spec k k1) as [->|]; rewrite !elem_of_cons.
  + split; [intros [[= -> ->]|Hin]; [by left|]|naive_solver].
    right. split; [|by right]. intros ->. apply Hk. by apply (list_elem_of_fmap_2 fst _ (k1, v')).
  + rewrite IH by done. naive_solver.
Qed.

Lemma table_find_cons k (v : A) r x :
table_find ((k, v) :: r) x = if String.eqb x k then Some v else table_find r x.
Proof. unfold table_find. cbn. rewrite String.eqb_sym. by destruct (String.eqb x k). Qed.

Lemma put_find k (v : A) r x :
table_find (put k v r) x = if String.eqb x k then Some v else table_find r x.
Proof.
induction r as [|[k' v'] r IH]; cbn [put]; [apply table_find_cons|].
destruct (String.eqb_spec k k') as [->|Hk]; rewrite !table_find_cons; [by destruct (String.eqb x k')|].
rewrite IH. destruct (String.eqb_spec x k'), (String.eqb_spec x k); congruence.
Qed.

Lemma own_entries_perm r : own_entries r ≡ₚ r.
Proof.
unfold own_entries. rewrite sort_by_perm.
induction r as [|x r IH]; [done|]. cbn. destruct (has_index x); cbn; [by rewrite IH|].
by rewrite <-Permutation_middle, IH.
Qed.

Lemma sortedRecord_perm r : sortedRecord r ≡ₚ r.
Proof. unfold sortedRecord. by rewrite own_entries_perm, merge_sort_Permutation, own_entries_perm. Qed.
End record_lemmas.

Lemma add_to_elem s x y : y ∈ add_to s x ↔ y = x ∨ y ∈ s.
Proof.
  unfold add_to. destruct (includes s x) eqn:Hx; bsimp; [naive_solver|].
  rewrite elem_of_app, list_elem_of_singleton. tauto.
Qed.

Lemma new_set_spec l : NoDup (new_set l) ∧ ∀ x, x ∈ new_set l ↔ x ∈ l.
Proof.
  assert (∀ s, NoDup s → NoDup (fold_left add_to l s) ∧ ∀ x, x ∈ fold_left add_to l s ↔ x ∈ s ∨ x ∈ l) as H.
  { induction l as [|y l IH]; intros s Hs; cbn; [set_solver|].
    destruct (IH (add_to s y)) as [Hnd Hel].
    - unfold add_to. destruct (includes s y) eqn:Hy; bsimp; [done|].
      apply NoDup_app. split_and!; [done| |apply NoDup_singleton]. by intros x Hx ->%list_elem_of_singleton.
    - split; [done|]. intros x. rewrite Hel, add_to_elem, elem_of_cons. tauto. }
  destruct (H [] NoDup_nil_2) as [Hnd Hel]. split; [done|]. intros x. rewrite Hel. set_solver.
Qed.

(** ** A level depends on the sets of its nodes and edges only *)

#[export] Instance edge_le_trans : Transitive edge_le.
Proof.
  intros [a a'] [b b'] [c c']. unfold edge_le. cbn.
  destruct (String.eqb_spec a b) as [->|Hab], (String.eqb_spec b c) as [->|Hbc]; rewrite ?String.eqb_refl.
  - apply string_le_trans.
  - by intros _ ?.
  - destruct (String.eqb_spec a c); [done|]. by intros ? _.
  - intros H1 H2. destruct (String.eqb_spec a c) as [->|]; [|by transitivity b].
    by destruct Hab; apply (anti_symm string_le).
Qed.

#[export] Instance edge_le_antisymm : AntiSymm (=) edge_le.
Proof.
  intros [a a'] [b b']. unfold edge_le. cbn. destruct (String.eqb_spec a b) as [->|Hab].
  - rewrite String.eqb_refl. intros ? ?. f_equal. by apply (anti_symm string_le).
  - destruct (String.eqb_spec b a); [done|]. intros ? ?. by destruct Hab; apply (anti_symm string_le).
Qed.

#[export] Instance edge_le_total : Total edge_le.
Proof.
  intros [a a'] [b b']. unfold edge_le. cbn. destruct (String.eqb_spec a b) as [->|Hab].
  - rewrite String.eqb_refl. apply string_le_total.
  - destruct (String.eqb_spec b a); [done|]. apply string_le_total.
Qed.

Definition NUL : ascii := "000".
(** The names of the source never hold the separator of the edge keys. *)
Definition without_nul (e : Edge) : Prop := index_of NUL e.1 = None.

Lemma str_app_cancel s t u : s +:+ t = s +:+ u → t = u.
Proof. induction s as [|c s IH]; cbn; [done|]. intros [= H]. auto. Qed.

Lemma edge_key_inj e e' : without_nul e → without_nul e' → edge_key e = edge_key e' → e = e'.
Proof.
  destruct e as [a b], e' as [a' b']. unfold without_nul, edge_key. cbn [fst snd]. intros Ha Ha' H.
  apply index_of_None in Ha, Ha'. assert (a = a') as <-.
  { apply (f_equal (split_on NUL)) in H. rewrite !split_on_cons in H by done. congruence. }
  apply str_app_cancel in H. congruence.
Qed.

Lemma collect_edges_spec es :
  Forall without_nul es →
  NoDup (map snd (collect_edges es)) ∧ ∀ e, e ∈ map snd (collect_edges es) ↔ e ∈ es ∧ e.1 ≠ e.2.
Proof.
  intros Hes. unfold collect_edges.
  set (keyed (m : list (string * Edge)) := Forall (λ x, x.1 = edge_key x.2 ∧ without_nul x.2) m ∧ NoDup (map fst m)).
  assert (∀ m, keyed m → keyed (fold_left (λ m e, if String.eqb e.1 e.2 then m else put (edge_key e) e m) es m) ∧
    ∀ k e, (k, e) ∈ fold_left (λ m e, if String.eqb e.1 e.2 then m else put (edge_key e) e m) es m ↔
      (k, e) ∈ m ∨ k = edge_key e ∧ e ∈ es ∧ e.1 ≠ e.2) as H.
  { induction Hes as [|e es He Hes IH]; intros m Hm; cbn; [set_solver|].
    destruct (String.eqb_spec e.1 e.2) as [Hself|Hself].
    - destruct (IH m Hm) as [Hk Hel]. split; [done|]. intros k e'. rewrite Hel, elem_of_cons. naive_solver.
    - destruct Hm as [Hm Hnd]. destruct (IH (put (edge_key e) e m)) as [Hk Hel].
      + split; [|by apply put_NoDup]. apply Forall_forall. intros [k v] [[-> ->]|[_ Hin]]%put_elem; [done| |done].
        rewrite Forall_forall in Hm. by apply (Hm (k, v)).
      + split; [done|]. intros k e'. rewrite Hel, put_elem, elem_of_cons by done. rewrite Forall_forall in Hm. split.
        * naive_solver.
        * intros [Hin|(-> & [->|Hin] & Hne)]; [|by left; left|by right].
          destruct (decide (k = edge_key e)) as [->|]; [|by left; right]. left. left.
          destruct (Hm _ Hin) as [Hk1 Hk2]. split; [done|]. symmetry. by apply edge_key_inj. }
  destruct (H [] (conj (Forall_nil_2 _) NoDup_nil_2)) as [[Hk Hnd] Hel]. split.
  - clear Hel H. induction (fold_left _ _ _) as [|[k v] m IH]; cbn in *; [constructor|].
    apply Forall_cons in Hk as [[Hkv Hv] Hk]. apply NoDup_cons in Hnd as [Hnk Hnd].
    apply NoDup_cons; split; [|by apply IH]. intros ([k' v'] & Hv' & Hin)%list_elem_of_fmap. cbn in Hv'. subst v'.
    apply Hnk. rewrite Forall_forall in Hk. destruct (Hk _ Hin) as [Hk' _]. cbn in *. subst k k'.
    by apply (list_elem_of_fmap_2 fst _ (edge_key v, v)).
  - intros e. rewrite list_elem_of_fmap. split.
    + intros ([k v] & -> & [?%elem_of_nil|?]%Hel); [done|]. naive_solver.
    + intros [Hin Hne]. exists (edge_key e, e). split; [done|]. apply Hel. by right.
Qed.

Lemma level_nodes_spec ns es ts :
  NoDup (nodes (normalizeLevel ns es ts)) ∧ Sorted string_le (nodes (normalizeLevel ns es ts)) ∧
  ∀ n, n ∈ nodes (normalizeLevel ns es ts) ↔ n ∈ ns.
Proof.
  cbn. destruct (new_set_spec ns) as [Hnd Hel]. split_and!.
  - by rewrite sort_keys_perm.
  - apply Sorted_merge_sort, _.
  - intros n. by rewrite sort_keys_perm.
Qed.

Lemma level_edges_spec ns es ts :
  Forall without_nul es →
  NoDup (edges (normalizeLevel ns es ts)) ∧ Sorted edge_le (edges (normalizeLevel ns es ts)) ∧
  ∀ e, e ∈ edges (normalizeLevel ns es ts) ↔ e ∈ es ∧ e.1 ≠ e.2.
Proof.
  intros Hes. cbn [edges normalizeLevel]. destruct (collect_edges_spec es Hes) as [Hnd Hel]. split_and!.
  - by rewrite merge_sort_Permutation.
  - apply Sorted_merge_sort, _.
  - intros e. by rewrite merge_sort_Permutation.
Qed.

(** C32: The committed diagram of a level is a function of what it shows: two
    runs give the same nodes and edges in the same order exactly when they
    found the same nodes and the same dependencies between different nodes,
    however often and in whatever order they found them. *)
Theorem level_is_canonical ns es ns' es' :
  Forall without_nul es → Forall without_nul es' →
  normalizeLevel ns es None = normalizeLevel ns' es' None ↔
  (∀ n, n ∈ ns ↔ n ∈ ns') ∧ (∀ e, e ∈ es ∧ e.1 ≠ e.2 ↔ e ∈ es' ∧ e.1 ≠ e.2).
Proof.
  intros Hes Hes'. destruct (level_nodes_spec ns es None) as (Hn1 & Hn2 & Hn3), (level_nodes_spec ns' es' None) as (Hn1' & Hn2' & Hn3').
  destruct (level_edges_spec ns es None Hes) as (He1 & He2 & He3), (level_edges_spec ns' es' None Hes') as (He1' & He2' & He3').
  split.
  - intros H. rewrite H in *. split; [intros n; by rewrite <-Hn3|intros e; by rewrite <-He3].
  - intros [Hn He]. cbn [nodes edges normalizeLevel] in *. unfold normalizeLevel. f_equal.
    + apply (Sorted_unique string_le); [done..|]. apply NoDup_Permutation; [done..|]. intros n. by rewrite Hn3, Hn3'.
    + apply (Sorted_unique edge_le); [done..|]. apply NoDup_Permutation; [done..|]. intros e. by rewrite He3, He3'.
Qed.

Lemma level_is_canonical_witness :
  normalizeLevel ["b"; "a"; "b"] [("b", "a"); ("a", "a"); ("a", "b"); ("b", "a")] None =
  normalizeLevel ["a"; "b"] [("a", "b"); ("b", "a")] None.
Proof.
  apply (level_is_canonical ["b"; "a"; "b"] [("b", "a"); ("a", "a"); ("a", "b"); ("b", "a")] ["a"; "b"] [("a", "b"); ("b", "a")]).
  - by repeat constructor.
  - by repeat constructor.
  - split; [set_solver|]. intros [x y]. rewrite !elem_of_cons, !elem_of_nil. naive_solver.
Defined.
