(* ===== verification/ArchSources.v ===== *)
(** * Levels read from source files

    The folder modules of TypeScript sources and the packages of Java sources
    ([uiModulesLevel], [javaPackagesLevel] of [src/tools/architecture-graph.ts]):
    the patterns of a Sheriff configuration, import aliases, the directory a
    file belongs to, and the declarations of a Java source after comments and
    literals are blanked out. *)
From S2P Require Import Prelude JsString JsNum JsValue RuntimeErrors CanonicalJson Posix ArchGraph.

(** ** Module patterns *)

(** [[a-zA-Z_-]] *)
Definition folder_char (c : ascii) : bool := is_upper c || is_lower c || Ascii.eqb c "_" || Ascii.eqb c "-".

(** The length of a [PLACEHOLDER] at the start of the text. *)
Definition match_placeholder (s : string) : option nat :=
  match s with
  | String "<" s' =>
      let n := span_len folder_char s' in
      if Nat.eqb n 0 then None
      else match drop_str n s' with String ">" _ => Some (n + 2)%nat | _ => None end
  | _ => None
  end.

Inductive piece : Type := Literal (c : ascii) | Hole (name : string).

(** A pattern segment split at its placeholders. *)
Fixpoint pieces (skip : nat) (s : string) : list piece :=
  match s with
  | "" => []
  | String c s' =>
      match skip with
      | S k => pieces k s'
      | O => match match_placeholder s with
             | Some n => Hole (take_str n s) :: pieces (Nat.pred n) s'
             | None => Literal c :: pieces O s'
             end
      end
  end.

(** [matcher.exec(text)]: a hole takes as many folder characters as possible,
    at least one; the values of the holes in order. *)
Fixpoint match_pieces (ps : list piece) (s : string) : option (list (string * string)) :=
  match ps with
  | [] => if String.eqb s "" then Some [] else None
  | Literal c :: ps' =>
      match s with
      | String d s' => if Ascii.eqb c d then match_pieces ps' s' else None
      | "" => None
      end
  | Hole name :: ps' =>
      (fix longest (n : nat) : option (list (string * string)) :=
         match n with
         | O => None
         | S n' => match match_pieces ps' (drop_str n s) with
                   | Some captures => Some ((name, take_str n s) :: captures)
                   | None => longest n'
                   end
         end) (span_len folder_char s)
  end.

Fixpoint capture_segments (patterns directories : list string) (captures : list (string * string)) : option (list (string * string)) :=
  match patterns, directories with
  | [], [] => Some captures
  | segment :: patterns, directory :: directories =>
      match match_pieces (pieces 0 segment) directory with
      | Some found => capture_segments patterns directories (put_all found captures)
      | None => None
      end
  | _, _ => None
  end.

Definition patternCaptures (pattern directory : string) : option (list (string * string)) :=
  let patternSegments := split_on "/" pattern in
  let directorySegments := split_on "/" directory in
  if Nat.eqb (length patternSegments) (length directorySegments)
  then capture_segments patternSegments directorySegments [] else None.

Definition fillTag (tag : string) (captures : list (string * string)) : string :=
  replace_all match_placeholder (λ placeholder, default placeholder (table_find captures placeholder)) 0 tag.

Example captures_sample :
  patternCaptures "libs/feature-<name>/<layer>" "libs/feature-user-list/ui" =
    Some [("<name>", "user-list"); ("<layer>", "ui")] ∧
  patternCaptures "libs/<name>" "libs/a1" = None ∧
  fillTag "scope:<name>:<other>" [("<name>", "shop")] = "scope:shop:<other>".
Proof. done. Qed.

(** ** Directories and imports *)

(** The climb from a file that adds every new directory. *)
Fixpoint add_directories (fuel : nat) (directory : string) (directories : list string) : list string :=
  match fuel with
  | O => directories
  | S fuel =>
      if at_top directory || includes directories directory then directories
      else add_directories fuel (dirname directory) (directories ++ [directory])
  end.
Definition sourceDirectories (files : list string) : list string :=
  fold_left (λ directories file, add_directories (S (String.length file)) (dirname file) directories) files [].

(** The [$] sequences of a replacement text: [before], [matched] and [after]
    are the parts of the searched text. *)
Fixpoint expand_replacement (before matched after replacement : string) : string :=
  match replacement with
  | String "$" (String "$" r) => String "$" (expand_replacement before matched after r)
  | String "$" (String "&" r) => matched +:+ expand_replacement before matched after r
  | String "$" (String "`" r) => before +:+ expand_replacement before matched after r
  | String "$" (String "'" r) => after +:+ expand_replacement before matched after r
  | String c r => String c (expand_replacement before matched after r)
  | "" => ""
  end.

(** [target.replace('*', replacement)] *)
Definition replace_star (target replacement : string) : string :=
  match index_of "*" target with
  | None => target
  | Some i =>
      let before := take_str i target in
      let after := drop_str (S i) target in
      before +:+ expand_replacement before "*" after replacement +:+ after
  end.

Fixpoint star_targets (specifier : string) (aliases : list (string * list string)) : list string :=
  match aliases with
  | [] => []
  | (pattern, targets) :: rest =>
      match index_of "*" pattern with
      | None => star_targets specifier rest
      | Some star =>
          let prefix := take_str star pattern in
          let suffix := drop_str (S star) pattern in
          if (String.length prefix + String.length suffix <=? String.length specifier)%nat &&
             starts_with prefix specifier && ends_with suffix specifier
          then
            let matched := take_str (String.length specifier - String.length suffix - String.length prefix)
                             (drop_str (String.length prefix) specifier) in
            map (λ target, replace_star target matched) targets
          else star_targets specifier rest
      end
  end.
Definition aliasTargets (specifier : string) (aliases : list (string * list string)) : list string :=
  match table_find aliases specifier with
  | Some targets => targets
  | None => star_targets specifier (own_entries aliases)
  end.

Definition without_js (path : string) : string :=
  if ends_with ".js" path then take_str (String.length path - 3) path else path.

Definition resolveSourceFile (base : string) (files : list string) : option string :=
  let normalized := normalize base in
  List.find (includes files)
    [normalized; without_js normalized +:+ ".ts"; normalized +:+ ".ts"; normalized +:+ "/index.ts"].

Fixpoint first_some {A} (l : list (option A)) : option A :=
  match l with
  | [] => None
  | Some a :: _ => Some a
  | None :: rest => first_some rest
  end.

(** ** Folder modules of TypeScript sources *)

Definition ROOT_MODULE : string := "root".

Record UiModuleInput := {
  modules : list (string * list string); sources : list (string * string);
  aliases : list (string * list string); sourceRoots : list string }.

(** The tags of the first pattern a directory matches. *)
Fixpoint directory_tags (directory : string) (patterns : list (string * list string)) : option (list string) :=
  match patterns with
  | [] => None
  | (pattern, ts) :: rest =>
      match patternCaptures pattern directory with
      | Some captures => Some (map (λ tag, fillTag tag captures) ts)
      | None => directory_tags directory rest
      end
  end.

Definition module_tags (input : UiModuleInput) : list (string * list string) :=
  omap (λ directory, pair directory <$> directory_tags directory (own_entries (modules input)))
    (sourceDirectories (map fst (own_entries (sources input)))).

Definition moduleOf (moduleTags : list (string * list string)) (file : string) : string :=
  let directory := climb_from (has_entry moduleTags) file in
  if at_top directory then ROOT_MODULE else directory.

Definition module_roots (input : UiModuleInput) (moduleTags : list (string * list string)) (ns : list string) : list (string * string) :=
  let scanned := if includes ns ROOT_MODULE then map (λ r, (r, ROOT_MODULE)) (sourceRoots input) else [] in
  put_all (map (λ m, (m, m)) (List.filter (includes ns) (map fst moduleTags))) (put_all scanned []).

Section typescript.
Variable importSpecifiers : string → string → list string.

Definition import_target (input : UiModuleInput) (files : list string) (file specifier : string) : option string :=
if starts_with "." specifier
then resolveSourceFile (path_join [dirname file; specifier]) files
else first_some (map (λ candidate, resolveSourceFile candidate files) (aliasTargets specifier (aliases input))).

Definition import_edges (input : UiModuleInput) (moduleTags : list (string * list string)) : list Edge :=
let entries := own_entries (sources input) in
flat_map (λ source : string * string,
  omap (λ specifier, match import_target input (map fst entries) source.1 specifier with
                     | Some target => if String.eqb target "" then None
                                      else Some (moduleOf moduleTags source.1, moduleOf moduleTags target)
                     | None => None
                     end) (importSpecifiers source.1 source.2)) entries.

Definition uiModulesLevel (input : UiModuleInput) : GraphLevel :=
let files := map fst (own_entries (sources input)) in
let moduleTags := module_tags input in
let ns := new_set (map (moduleOf moduleTags) files) in
let ts := put_all (map (λ node, (node, if String.eqb node ROOT_MODULE then ROOT_MODULE
                                       else join ", " (default [] (table_find moduleTags node)))) ns) [] in
with_roots (sortedRecord (module_roots input moduleTags ns)) None
  (normalizeLevel ns (import_edges input moduleTags) (Some ts)).
End typescript.
