(* ===== verification/JavaSources.v ===== *)
(** * Packages of Java sources

    [stripJavaCommentsAndLiterals], [parseJavaDeclarations] and
    [javaPackagesLevel] of [src/tools/architecture-graph.ts].  An index into
    the source is the text that is left from there. *)
From S2P Require Import Prelude JsString JsNum JsValue RuntimeErrors CanonicalJson Posix ArchGraph.

(** ** Comments and literals *)

(** [source.slice(source.indexOf(pattern))], empty when it does not occur. *)
Fixpoint seek (pattern s : string) : string :=
  match s with
  | "" => ""
  | String _ s' => if starts_with pattern s then s else seek pattern s'
  end.

Definition QUOTE : ascii := "034".
Definition TEXT_BLOCK : string := String QUOTE (String QUOTE (String QUOTE "")).
Definition NEWLINE : ascii := "010".
Definition NL : string := String NEWLINE "".

(** What follows the quoted literal whose opening quote has been read. *)
Fixpoint skipQuoted (quote s : string) : string :=
  match s with
  | "" => ""
  | String c s' =>
      if Ascii.eqb c "\" then match s' with String _ s'' => skipQuoted quote s'' | "" => "" end
      else if starts_with quote s then drop_str (String.length quote) s
      else if Nat.eqb (String.length quote) 1 && Ascii.eqb c NEWLINE then s
      else skipQuoted quote s'
  end.

(** The rest after a comment or literal that starts here. *)
Definition blanked (s : string) : option string :=
  if starts_with "//" s then Some (seek NL s)
  else if starts_with "/*" s then Some (drop_str 2 (seek "*/" (drop_str 2 s)))
  else if starts_with TEXT_BLOCK s then Some (skipQuoted TEXT_BLOCK (drop_str 3 s))
  else match s with
       | String c s' =>
           if Ascii.eqb c QUOTE || Ascii.eqb c "'" then Some (skipQuoted (String c "") s') else None
       | "" => None
       end.

Fixpoint strip (fuel : nat) (s : string) : string :=
  match fuel, s with
  | O, _ | _, "" => ""
  | S fuel, String c s' =>
      match blanked s with
      | None => String c (strip fuel s')
      | Some rest => String " " (strip fuel rest)
      end
  end.
(** Every step reads at least one character. *)
Definition stripJavaCommentsAndLiterals (source : string) : string := strip (String.length source) source.

Example strip_sample :
  stripJavaCommentsAndLiterals ("import a.B; /* import c.D; */ String s = " +:+ quote "import e.F;" +:+ "; // g") =
    "import a.B;   String s =  ;  ".
Proof. reflexivity. Qed.

(** ** Declarations *)

Definition java_start (c : ascii) : bool := is_upper c || is_lower c || Ascii.eqb c "_" || Ascii.eqb c "$".
Definition java_part (c : ascii) : bool := is_alnum c || Ascii.eqb c "_" || Ascii.eqb c "$".
Definition word_char (c : ascii) : bool := is_alnum c || Ascii.eqb c "_".

Definition skip_space (s : string) : string := drop_str (span_len is_space s) s.

(** [[A-Za-z_$][\w$]*], as long as possible. *)
Definition java_identifier (s : string) : option (string * string) :=
  match s with
  | String c s' => if java_start c
                   then let n := S (span_len java_part s') in Some (take_str n s, drop_str n s) else None
  | "" => None
  end.

(** Any number of further segments, each after a dot with white space around it. *)
Fixpoint java_segments (fuel : nat) (s : string) : list string * string :=
  match fuel with
  | O => ([], s)
  | S fuel =>
      match skip_space s with
      | String "." s' =>
          match java_identifier (skip_space s') with
          | Some (segment, rest) => let '(more, rest) := java_segments fuel rest in (segment :: more, rest)
          | None => ([], s)
          end
      | _ => ([], s)
      end
  end.

(** [JAVA_NAME] with the white space inside it removed. *)
Definition java_name (s : string) : option (string * string) :=
  match java_identifier s with
  | Some (first, rest) =>
      let '(more, rest) := java_segments (String.length rest) rest in Some (join "." (first :: more), rest)
  | None => None
  end.

(** [\s*;] *)
Definition semicolon (s : string) : option string :=
  match skip_space s with String ";" rest => Some rest | _ => None end.

(** [\s*\.\s*\*], when it is there. *)
Definition wildcard (s : string) : option string :=
  match skip_space s with
  | String "." s' => match skip_space s' with String "*" rest => Some rest | _ => None end
  | _ => None
  end.

(** The keyword and the white space after it. *)
Definition keyword (word s : string) : option string :=
  if starts_with word s then
    let rest := drop_str (String.length word) s in
    if Nat.eqb (span_len is_space rest) 0 then None else Some (skip_space rest)
  else None.

(** [JAVA_PACKAGE] at the start of the text. *)
Definition match_package (s : string) : option (string * string) :=
  s ← keyword "package" s; found ← java_name s; rest ← semicolon found.2; Some (found.1, rest).

Definition match_imported (s : string) : option (string * string) :=
  found ← java_name s;
  rest ← semicolon (default found.2 (wildcard found.2));
  Some (found.1, rest).

(** [JAVA_IMPORT] at the start of the text; when [static] cannot be the
    modifier it is the imported name. *)
Definition match_import (s : string) : option (string * string) :=
  s ← keyword "import" s;
  match keyword "static" s with
  | Some rest => match match_imported rest with Some found => Some found | None => match_imported s end
  | None => match_imported s
  end.

(** The matches from left to right; [inside] tells whether the character
    before is a word character, so that there is no [\b] here. *)
Fixpoint all_matches (re : string → option (string * string)) (fuel : nat) (inside : bool) (s : string) : list string :=
  match fuel, s with
  | O, _ | _, "" => []
  | S fuel, String c s' =>
      match (if inside then None else re s) with
      | Some (found, rest) => found :: all_matches re fuel false rest
      | None => all_matches re fuel (word_char c) s'
      end
  end.

Record JavaDeclarations := { java_package : option string; java_imports : list string }.

Definition parseJavaDeclarations (source : string) : JavaDeclarations :=
  let code := stripJavaCommentsAndLiterals source in
  {| java_package := head (all_matches match_package (String.length code) false code);
     java_imports := all_matches match_import (String.length code) false code |}.

Example declarations_sample :
  parseJavaDeclarations ("package com . acme.shop;" +:+ NL +:+
    "import java.util.*; import static com.acme.cart.Cart.of; // import x.Y;" +:+ NL +:+ "int reimport; import  a.B ;") =
    {| java_package := Some "com.acme.shop"; java_imports := ["java.util"; "com.acme.cart.Cart.of"; "a.B"] |}.
Proof. reflexivity. Qed.

(** ** The level *)

Record JavaLevelInput := { java_sources : list (string * string); basePackage : string; java_depth : Z }.

(** [nodeOf] of [javaPackagesLevel] *)
Definition java_node (base : string) (depth : Z) (pkg : option string) : option string :=
  match pkg with
  | None => None
  | Some pkg =>
      if String.eqb pkg base then Some base
      else if starts_with (base +:+ ".") pkg
           then Some (base +:+ "." +:+ collapse depth (drop_str (S (String.length base)) pkg))
           else None
  end.

Definition java_files (input : JavaLevelInput) : list (string * JavaDeclarations) :=
  map (λ s, (s.1, parseJavaDeclarations s.2)) (own_entries (java_sources input)).

Definition declared_packages (input : JavaLevelInput) : list (string * string) :=
  fold_left (λ declared file,
    match java_package file.2, java_node (basePackage input) (java_depth input) (java_package file.2) with
    | Some pkg, Some _ => put pkg pkg declared
    | _, _ => declared
    end) (java_files input) [].

(** The files that belong to a node. *)
Definition placed_files (input : JavaLevelInput) : list (string * string * list string) :=
  omap (λ file : string * JavaDeclarations,
    from ← java_node (basePackage input) (java_depth input) (java_package file.2);
    Some (file.1, from, java_imports file.2)) (java_files input).

Definition java_edges (input : JavaLevelInput) : list Edge :=
  flat_map (λ file : string * string * list string,
    omap (λ name, to ← java_node (basePackage input) (java_depth input) (longestDottedPrefix name (declared_packages input));
                  Some (file.1.2, to)) file.2) (placed_files input).

Definition javaPackagesLevel (input : JavaLevelInput) : GraphLevel :=
  let files := placed_files input in
  let rs := put_all (map (λ file, (dirname file.1.1, file.1.2)) files) [] in
  with_roots (pruneRoots rs) None (normalizeLevel (new_set (map (λ file, file.1.2) files)) (java_edges input) None).

(** ** Nothing is left to blank *)

Fixpoint bare (s : string) : Prop :=
  match s with "" => True | String _ s' => blanked s = None ∧ bare s' end.

Lemma starts_with_length p s : starts_with p s = true → (String.length p <= String.length s)%nat.
Proof. intros [t ->]%starts_with_spec. rewrite str_length_app. lia. Qed.

Lemma seek_cons p c s : seek p (String c s) = if starts_with p (String c s) then String c s else seek p s.
Proof. done. Qed.

Lemma seek_length p s : (String.length (seek p s) <= String.length s)%nat.
Proof. induction s as [|c s IH]; cbn [seek]; [done|]. destruct (starts_with p (String c s)); cbn; lia. Qed.

Lemma drop_str_shorter n s : (String.length (drop_str n s) <= String.length s)%nat.
Proof. revert s. induction n as [|n IH]; intros [|c s]; cbn; try lia. specialize (IH s). lia. Qed.

Lemma skipQuoted_length q s : (String.length (skipQuoted q s) <= String.length s)%nat.
Proof.
  enough (∀ n s, (String.length s <= n)%nat → (String.length (skipQuoted q s) <= String.length s)%nat) by eauto.
  clear s. induction n as [|n IH]; intros [|c s] Hn; cbn [String.length] in Hn; [cbn; lia..|cbn; lia|].
  cbn [skipQuoted]. destruct (Ascii.eqb c "\"); [destruct s as [|d s]; cbn [String.length] in *; [lia|specialize (IH s); lia]|].
  destruct (starts_with q (String c s)); [apply drop_str_shorter|].
  destruct (_ && _); [done|]. specialize (IH s). cbn [String.length]. lia.
Qed.

(** Blanking a comment or literal makes progress. *)
Lemma blanked_shorter s rest : blanked s = Some rest → (String.length rest < String.length s)%nat.
Proof.
  unfold blanked. destruct s as [|c s]; [done|].
  destruct (starts_with "//" (String c s)) eqn:H1.
  { intros <-%(inj Some). rewrite seek_cons. assert (starts_with NL (String c s) = false) as ->.
    { apply starts_with_spec in H1 as [t Ht]. by injection Ht as -> _. }
    pose proof (seek_length NL s). cbn. lia. }
  destruct (starts_with "/*" (String c s)) eqn:H2.
  { intros <-%(inj Some). apply starts_with_length in H2. destruct s as [|d s]; [cbn in H2; lia|].
    pose proof (drop_str_shorter 2 (seek "*/" s)). pose proof (seek_length "*/" s). cbn [drop_str String.length] in *. lia. }
  destruct (starts_with TEXT_BLOCK (String c s)) eqn:H3.
  { intros <-%(inj Some). pose proof (skipQuoted_length TEXT_BLOCK (drop_str 3 (String c s))) as Hq.
    change (drop_str 3 (String c s)) with (drop_str 2 s) in *. pose proof (drop_str_shorter 2 s). cbn [String.length]. lia. }
  destruct (_ || _); [|done]. intros <-%(inj Some). pose proof (skipQuoted_length (String c "") s). cbn [String.length]. lia.
Qed.

Definition first_char (s : string) : option ascii := match s with "" => None | String c _ => Some c end.

Lemma strip_first fuel s : first_char (strip fuel s) = first_char s ∨ first_char (strip fuel s) = Some " "%char ∨ strip fuel s = "".
Proof. destruct fuel, s; cbn [strip]; auto. destruct (blanked (String a s)); auto. Qed.

(** Whether something starts here is decided by this character and, for a slash, the next. *)
Lemma blanked_None c s :
  blanked (String c s) = None ↔
  c ≠ QUOTE ∧ c ≠ "'"%char ∧ (c = "/"%char → first_char s ≠ Some "/"%char ∧ first_char s ≠ Some "*"%char).
Proof.
  unfold blanked.
  assert (H1 : ∀ d, starts_with (String "/" (String d "")) (String c s) = true ↔ c = "/"%char ∧ first_char s = Some d).
  { intros d. rewrite starts_with_spec. split.
    - intros [t Ht]. injection Ht as -> ->. done.
    - destruct s as [|e s]; [by intros [_ ?]|]. intros [-> [= ->]]. by exists s. }
  pose proof (H1 "/"%char) as Hs. pose proof (H1 "*"%char) as Hc.
  destruct (starts_with "//" (String c s)); [split; [done|]; intros (_ & _ & H); destruct (proj1 Hs eq_refl) as [Hx Hy]; by destruct (H Hx)|].
  destruct (starts_with "/*" (String c s)); [split; [done|]; intros (_ & _ & H); destruct (proj1 Hc eq_refl) as [Hx Hy]; by destruct (H Hx)|].
  destruct (starts_with TEXT_BLOCK (String c s)) eqn:H3.
  { apply starts_with_spec in H3 as [t Ht]. injection Ht as -> _. split; [done|]. by intros []. }
  destruct (Ascii.eqb_spec c QUOTE) as [->|Hq]; cbn [orb]; [split; [done|by intros []]|].
  destruct (Ascii.eqb_spec c "'") as [->|Hq']; cbn [orb]; [split; [done|by intros (_ & ? & _)]|].
  split; [|done]. intros _. split_and!; [done|done|]. intros ->. split; intros H; [by assert (false = true) by by apply Hs|by assert (false = true) by by apply Hc].
Qed.

Lemma strip_bare fuel s : (String.length s <= fuel)%nat → bare (strip fuel s).
Proof.
  revert s. induction fuel as [|fuel IH]; intros [|c s] Hs; [done..|]. cbn [strip]. cbn [String.length] in Hs.
  destruct (blanked (String c s)) as [rest|] eqn:Hb; cbn [bare].
  - apply blanked_shorter in Hb. cbn [String.length] in Hb. split; [by apply blanked_None|]. apply IH. lia.
  - split; [|apply IH; lia]. apply blanked_None in Hb as (Hq & Hq' & Hslash). apply blanked_None. split_and!; [done|done|].
    intros Hc. destruct (Hslash Hc). by destruct (strip_first fuel s) as [->|[->| ->]].
Qed.

Lemma strip_of_bare fuel s : bare s → (String.length s <= fuel)%nat → strip fuel s = s.
Proof.
  revert s. induction fuel as [|fuel IH]; intros [|c s] Hb Hs; cbn [String.length] in Hs; [done|lia|done|].
  destruct Hb as [Hb Hs']. cbn [strip]. rewrite Hb. f_equal. apply IH; [done|lia].
Qed.

(** The blanked Java source has nothing left to blank, so the imports found
    in it are in no comment and no literal: no quote remains, no slash is
    followed by a slash or a star, and blanking again gives the same text, also
    for unterminated comments and literals and for escapes at the very end. *)
Lemma stripped_source_is_bare source :
  let code := stripJavaCommentsAndLiterals source in
  stripJavaCommentsAndLiterals code = code ∧ all_chars (λ c, negb (Ascii.eqb c QUOTE) && negb (Ascii.eqb c "'")) code = true ∧
  ∀ before c rest, code = before +:+ String "/" (String c rest) → c ≠ "/"%char ∧ c ≠ "*"%char.
Proof.
  cbv zeta. unfold stripJavaCommentsAndLiterals. pose proof (strip_bare (String.length source) source ltac:(done)) as Hb.
  revert Hb. generalize (strip (String.length source) source). intros code Hb. split_and!.
  - by apply strip_of_bare.
  - induction code as [|c code IH]; [done|]. destruct Hb as [(Hq & Hq' & _)%blanked_None Hb]. cbn [all_chars].
    rewrite IH, andb_true_r by done. by rewrite (proj2 (Ascii.eqb_neq _ _) Hq), (proj2 (Ascii.eqb_neq _ _) Hq').
  - intros before c rest ->. induction before as [|b before IH]; [|apply IH; apply Hb].
    cbn [String.append] in Hb. destruct Hb as [(_ & _ & H)%blanked_None _]. destruct (H eq_refl) as [H1 H2]. cbn [first_char] in *. split; congruence.
Qed.

Lemma stripped_source_is_bare_witness :
  let source := "a /* x " +:+ quote "y" +:+ " */ / 'z' // w" in
  stripJavaCommentsAndLiterals source = "a   /    " ∧
  ∀ before c rest, stripJavaCommentsAndLiterals source = before +:+ String "/" (String c rest) → c ≠ "/"%char ∧ c ≠ "*"%char.
Proof. intros source. split; [vm_compute; reflexivity|]. apply (stripped_source_is_bare source). Defined.
