(* ===== verification/ArchRender.v ===== *)
(** * Generated architecture documents

    Mermaid diagrams, the documents under [docs/architecture], the command
    line and the stop hook of [src/tools/architecture-graph.ts].  The
    documents on disk are a map from paths to contents. *)
From Stdlib Require Import DecimalString DecimalZ.
From stdpp Require Import gmap.
From S2P Require Import Prelude JsString JsNum JsValue RuntimeErrors CanonicalJson Posix ArchConfig ArchGraph.

(** ** Mermaid *)

(** [node.replace(/[^A-Za-z0-9]+/gu, '_')]; [inside] is true within a run of
    replaced characters. *)
Fixpoint underscore_runs (inside : bool) (s : string) : string :=
  match s with
  | "" => ""
  | String c s' =>
      if is_alnum c then String c (underscore_runs false s')
      else if inside then underscore_runs true s' else String "_" (underscore_runs true s')
  end.

Definition id_base (node : string) : string := "n_" +:+ underscore_runs false node.
Definition numbered (base : string) (suffix : nat) : string := base +:+ "_" +:+ show_nat suffix.

(** [for (let suffix = 2; used.has(id); suffix += 1) id = `${base}_${suffix}`;] *)
Fixpoint free_id (fuel : nat) (used : list string) (base id : string) (suffix : nat) : string :=
  match fuel with
  | O => id
  | S fuel => if includes used id then free_id fuel used base (numbered base suffix) (S suffix) else id
  end.

(** The ids in node order; the used ids are the values given so far. *)
Fixpoint assign_ids (used : list string) (ids : list (string * string)) (nodes : list string) : list (string * string) :=
  match nodes with
  | [] => ids
  | node :: rest =>
      let id := free_id (S (length used)) used (id_base node) (id_base node) 2 in
      assign_ids (id :: used) (put node id ids) rest
  end.
Definition mermaidIds (nodes : list string) : list (string * string) := assign_ids [] [] nodes.

(** [text.replaceAll(c, replacement)] for one character [c]. *)
Fixpoint replace_char (c : ascii) (replacement s : string) : string :=
  match s with
  | "" => ""
  | String d s' => if Ascii.eqb c d then replacement +:+ replace_char c replacement s' else String d (replace_char c replacement s')
  end.

(** [text.replace(/\s+/gu, ' ')] *)
Fixpoint space_runs (inside : bool) (s : string) : string :=
  match s with
  | "" => ""
  | String c s' =>
      if is_space c then (if inside then space_runs true s' else String " " (space_runs true s'))
      else String c (space_runs false s')
  end.

Definition mermaidLabel (text : string) : string :=
  let escaped := replace_char "#" "#35;" text in
  let escaped := replace_char "034" "#quot;" escaped in
  let escaped := replace_char "&" "#amp;" escaped in
  let escaped := replace_char "<" "#lt;" escaped in
  let escaped := replace_char ">" "#gt;" escaped in
  let escaped := replace_char "`" "#96;" escaped in
  trim (space_runs false escaped).

Example mermaid_samples :
  mermaidIds ["a.b"; "a-b"; "a_b_2"; "a/b"] = [("a.b", "n_a_b"); ("a-b", "n_a_b_2"); ("a_b_2", "n_a_b_2_2"); ("a/b", "n_a_b_3")] ∧
  mermaidLabel (" <a>  &" +:+ quote "#") = "#lt;a#gt; #amp;#quot;#35;#quot;".
Proof. done. Qed.

Definition missing_endpoint (node : string) : string := "Edge endpoint " +:+ quote node +:+ " is not a node of the level.".

(** [idOf]; an id is never empty. *)
Definition id_of (ids : list (string * string)) (node : string) : result string string :=
  match table_find ids node with Some id => Ok id | None => Err (missing_endpoint node) end.

Definition node_label (level_tags : option (list (string * string))) (node : string) : string :=
  match level_tags ≫= λ ts, table_find ts node with
  | Some tag => if String.eqb tag "" then mermaidLabel node else mermaidLabel node +:+ "<br/>" +:+ mermaidLabel tag
  | None => mermaidLabel node
  end.

Definition node_line (ids : list (string * string)) (level_tags : option (list (string * string))) (node : string) : result string string :=
  id ← id_of ids node; Ok ("  " +:+ id +:+ "[" +:+ quote (node_label level_tags node) +:+ "]").

Definition edge_line (ids : list (string * string)) (e : Edge) : result string string :=
  from ← id_of ids e.1; to ← id_of ids e.2; Ok ("  " +:+ from +:+ " --> " +:+ to).

Definition NEWLINE_TEXT : string := String "010" "".

Definition renderMermaid (level : GraphLevel) : result string string :=
  let ids := mermaidIds (nodes level) in
  node_lines ← mapM_idx (λ _, node_line ids (tags level)) (nodes level);
  edge_lines ← mapM_idx (λ _, edge_line ids) (edges level);
  Ok (join NEWLINE_TEXT ("flowchart LR" :: node_lines ++ edge_lines)).

(** ** Documents *)

Definition GENERATED_NOTICE : string :=
  "<!-- Generated by tools/architecture-graph.ts --write. Do not edit by hand. -->".
Definition DOCS_DIRECTORY : string := "docs/architecture".

Definition renderDoc (title intro : string) (level : GraphLevel) : result string string :=
  diagram ← renderMermaid level;
  Ok (join NEWLINE_TEXT [GENERATED_NOTICE; "# " +:+ title; ""; intro; ""; "```mermaid"; diagram; "```"; ""]).

Abbreviation ArchitectureGraph := (list (string * GraphLevel)).

Record GeneratedDoc := { doc_path : string; doc_content : string }.

Definition output_path (output : string) : string := DOCS_DIRECTORY +:+ "/" +:+ output.

Definition render_level (graph : ArchitectureGraph) (level : LevelConfig) : result string GeneratedDoc :=
  let base := cfg_base level in
  match table_find graph (cfg_id base) with
  | None => Err ("The graph has no level " +:+ quote (cfg_id base) +:+ ".")
  | Some graphLevel =>
      content ← renderDoc (cfg_title base) (cfg_intro base) graphLevel;
      Ok {| doc_path := output_path (cfg_output base); doc_content := content |}
  end.

Definition renderDocs (graph : ArchitectureGraph) (config : ArchitectureConfig) : result string (list GeneratedDoc) :=
  mapM_idx (λ _, render_level graph) config.

(** [text?.replaceAll('\r\n', '\n')] *)
Fixpoint normalizeLineEndings (text : string) : string :=
  match text with
  | "" => ""
  | String c rest =>
      if Ascii.eqb c "013" then
        match rest with
        | String d rest' => if Ascii.eqb d "010" then String d (normalizeLineEndings rest') else String c (normalizeLineEndings rest)
        | "" => String c ""
        end
      else String c (normalizeLineEndings rest)
  end.

Definition is_stale (readDoc : string → option string) (doc : GeneratedDoc) : bool :=
  negb (bool_decide (normalizeLineEndings <$> readDoc (doc_path doc) = Some (doc_content doc))).

Definition staleDocs (docs : list GeneratedDoc) (readDoc : string → option string) : list string :=
  map doc_path (List.filter (is_stale readDoc) docs).

Definition staleMessage (paths : list string) : string :=
  join NEWLINE_TEXT ["Architecture docs are stale: " +:+ join ", " paths +:+ ".";
                     "Run `pnpm run architecture:update` and commit the result."].

(** ** Command line *)

Record cli_options := {
  opt_write : bool; opt_check : bool; opt_root : option string; opt_config : option string; opt_usage_error : bool }.

(** The loop over the arguments; [argv[index + 1]] counts when it is not empty. *)
Fixpoint read_arguments (argv : list string) (o : cli_options) : cli_options :=
  match argv with
  | [] => o
  | arg :: rest =>
      let error := {| opt_write := opt_write o; opt_check := opt_check o; opt_root := opt_root o;
                      opt_config := opt_config o; opt_usage_error := true |} in
      if String.eqb arg "--write" then
        read_arguments rest {| opt_write := true; opt_check := opt_check o; opt_root := opt_root o;
                               opt_config := opt_config o; opt_usage_error := opt_usage_error o |}
      else if String.eqb arg "--check" then
        read_arguments rest {| opt_write := opt_write o; opt_check := true; opt_root := opt_root o;
                               opt_config := opt_config o; opt_usage_error := opt_usage_error o |}
      else
        match rest with
        | value :: rest' =>
            if String.eqb arg "--root" && bool_decide (opt_root o = None) && negb (String.eqb value "") then
              read_arguments rest' {| opt_write := opt_write o; opt_check := opt_check o; opt_root := Some value;
                                      opt_config := opt_config o; opt_usage_error := opt_usage_error o |}
            else if String.eqb arg "--config" && bool_decide (opt_config o = None) && negb (String.eqb value "") then
              read_arguments rest' {| opt_write := opt_write o; opt_check := opt_check o; opt_root := opt_root o;
                                      opt_config := Some value; opt_usage_error := opt_usage_error o |}
            else read_arguments rest error
        | [] => error
        end
  end.

Definition no_options : cli_options :=
  {| opt_write := false; opt_check := false; opt_root := None; opt_config := None; opt_usage_error := false |}.

(** The stored documents and what was printed. *)
Record cli_state := { stored : gmap string string; stdout : list string; stderr : list string }.

Definition print (text : string) (s : cli_state) : cli_state :=
  {| stored := stored s; stdout := stdout s ++ [text]; stderr := stderr s |}.
Definition complain (text : string) (s : cli_state) : cli_state :=
  {| stored := stored s; stdout := stdout s; stderr := stderr s ++ [text] |}.
Definition writeDoc (s : cli_state) (doc : GeneratedDoc) : cli_state :=
  {| stored := <[doc_path doc := doc_content doc]> (stored s); stdout := stdout s; stderr := stderr s |}.

Definition USAGE : string :=
  join NEWLINE_TEXT [
    "Usage: node tools/architecture-graph.ts [--write | --check | --hook] [--root <dir>] [--config <file>]";
    "  (no flag)        print the architecture graph as JSON";
    "  --write          regenerate docs/architecture/*.md";
    "  --check          exit 1 when docs/architecture/*.md are stale";
    "  --hook           Claude Code Stop hook: --check, the exception gate and the";
    "                   python levels' import-linter contracts, after relevant changes";
    "  --root <dir>     read the workspace at <dir> instead of this checkout";
    "                   (it needs its own node_modules for nx)";
    "  --config <file>  read the levels from <file> instead of <root>/architecture-graph.config.json"; ""].

Section cli.
(** What [openIo(root)] gives: the configuration file, and the graph collected
  from the sources; the indented JSON text of a graph. *)
Variable loadConfig : option string → option string → result string ArchitectureConfig.
Variable collectGraph : option string → ArchitectureConfig → result string ArchitectureGraph.
Variable graph_json : ArchitectureGraph → string.

(** The exit code and the state after it; an error is what the caller sees thrown. *)
Definition runCli (argv : list string) (s : cli_state) : result string (Z * cli_state) :=
let o := read_arguments argv no_options in
if opt_usage_error o || (opt_write o && opt_check o) then Ok (2, complain USAGE s)
else
  config ← loadConfig (opt_root o) (opt_config o);
  graph ← collectGraph (opt_root o) config;
  if negb (opt_write o) && negb (opt_check o) then Ok (0, print (graph_json graph +:+ NEWLINE_TEXT) s)
  else
    docs ← renderDocs graph config;
    if opt_write o then
      let s := fold_left writeDoc docs s in
      Ok (0, print ("Wrote " +:+ show_nat (length docs) +:+ " architecture docs." +:+ NEWLINE_TEXT) s)
    else
      match staleDocs docs (λ path, stored s !! path) with
      | [] => Ok (0, print ("Architecture docs are up to date." +:+ NEWLINE_TEXT) s)
      | stale => Ok (1, complain (staleMessage stale +:+ NEWLINE_TEXT) s)
      end.
End cli.

(** ** The stop hook *)

(** The base names of [ARCHITECTURE_CONFIG_CHANGE] that [.json] follows. *)
Definition config_json_name (name : string) : bool :=
  includes ["package"; "project"; "nx"; ".oxlintrc"; ".dependency-cruiser-known-violations"] name ||
  starts_with "tsconfig" name || ends_with "eslint-suppressions" name.

(** The pattern is tested on the last segment: none of its parts matches a slash. *)
Definition ARCHITECTURE_CONFIG_CHANGE (path : string) : bool :=
  let name := List.last (split_on "/" path) "" in
  (ends_with ".json" name && config_json_name (take_str (String.length name - 5) name)) ||
  includes ["importlinter.toml"; ".dependency-cruiser.js"; ".dependency-cruiser.cjs"] name.

Definition SOURCE_FILE (path : string) : bool :=
  existsb (λ suffix, ends_with suffix path) [".ts"; ".tsx"; ".mts"; ".cts"; ".js"; ".mjs"; ".cjs"; ".py"; ".java"].

Definition isUnder (path directory : string) : bool :=
  String.eqb directory "." || String.eqb path directory || starts_with (directory +:+ "/") path.

(** [entry.split(' -> ')] *)
Fixpoint split_arrow (skip : nat) (s : string) : list string :=
  match s with
  | "" => [""]
  | String c s' =>
      match skip with
      | S k => split_arrow k s'
      | O => if starts_with " -> " s then "" :: split_arrow 3 s'
             else match split_arrow O s' with
                  | [] => [String c ""]
                  | w :: ws => String c w :: ws
                  end
      end
  end.

(** The text between two double quotes at the ends; the dot of the pattern matches no line break. *)
Definition unquote (s : string) : string :=
  match s with
  | String c s' =>
      if Ascii.eqb c "034" && ends_with (String "034" "") s' &&
         all_chars (λ d, negb (Ascii.eqb d "010") && negb (Ascii.eqb d "013")) (take_str (String.length s' - 1) s')
      then take_str (String.length s' - 1) s' else s
  | "" => ""
  end.

Definition hookPaths (changed : list string) : list string :=
  List.filter (λ path, negb (String.eqb path ""))
    (map (λ path, replace_char "\" "/" (unquote (trim path))) (flat_map (split_arrow 0) changed)).

(** The directories and configuration files a level reads. *)
Definition level_directories (kind : level_kind) : list string :=
  match kind with
  | KNx _ => ["."]
  | KPython python => [py_sourceDir python]
  | KTypeScript typescript => ts_sourceRoots typescript
  | KJava java => java_sourceRoots java
  end.
Definition level_files (kind : level_kind) : list string :=
  match kind with
  | KPython python => option_list (py_importLinterConfig python)
  | KTypeScript typescript => ts_tsconfig typescript :: option_list (ts_sheriffConfig typescript)
  | KNx _ | KJava _ => []
  end.

Definition CONFIG_FILE : string := "architecture-graph.config.json".

Definition isArchitectureChange (path : string) (config : ArchitectureConfig) : bool :=
  let configFiles := CONFIG_FILE :: flat_map (level_files ∘ cfg_kind) config in
  let sourceDirectories := flat_map (level_directories ∘ cfg_kind) config in
  includes configFiles path || ARCHITECTURE_CONFIG_CHANGE path ||
  (SOURCE_FILE path && existsb (isUnder path) sourceDirectories).

Section hook.
Variable checkDocs : Z.
Variable checkExceptions : Z.
Variable lintPython : LevelConfigBase → PythonLevelConfig → Z.

Definition contracts_changed (paths : list string) (python : PythonLevelConfig) : bool :=
match py_importLinterConfig python with
| None => false
| Some contracts =>
    existsb (λ path, String.eqb path contracts || (ends_with ".py" path && isUnder path (py_sourceDir python))) paths
end.

(** The checks that run, with their results: the documents, the exceptions and
  the contracts of the levels that changed. *)
Definition hook_results (paths : list string) (config : ArchitectureConfig) : list Z :=
checkDocs :: checkExceptions ::
flat_map (λ level, match cfg_kind level with
                   | KPython python => if contracts_changed paths python then [lintPython (cfg_base level) python] else []
                   | _ => []
                   end) config.

Definition runHook (stopHookActive : bool) (changed : list string) (config : ArchitectureConfig) : Z :=
if stopHookActive then 0
else
  let paths := hookPaths changed in
  if negb (existsb (λ path, isArchitectureChange path config) paths) then 0
  else if forallb (Z.eqb 0) (hook_results paths config) then 0 else 2.
End hook.

(** ** Every node has an id of its own *)

Lemma show_Z_inj x y : show_Z x = show_Z y → x = y.
Proof.
  intros H. apply (f_equal NilEmpty.int_of_string) in H. unfold show_Z in H. rewrite !NilEmpty.isi in H.
  injection H as H. apply (f_equal Z.of_int) in H. by rewrite !DecimalZ.of_to in H.
Qed.

Lemma numbered_inj base m n : numbered base m = numbered base n → m = n.
Proof.
  unfold numbered. intros H%str_app_cancel%str_app_cancel. apply show_Z_inj in H. lia.
Qed.

Lemma numbered_longer base n : numbered base n ≠ base.
Proof.
  intros H. apply (f_equal String.length) in H. unfold numbered in H. rewrite !str_length_app in H. cbn in H. lia.
Qed.

Lemma free_id_cases fuel used base id suffix :
  free_id fuel used base id suffix ∉ used ∨
  ∀ k, (k < fuel)%nat → (if Nat.eqb k 0 then id else numbered base (suffix + k - 1)) ∈ used.
Proof.
  revert id suffix. induction fuel as [|fuel IH]; intros id suffix; [right; lia|].
  cbn [free_id]. destruct (includes used id) eqn:Hid; bsimp; [|by left].
  destruct (IH (numbered base suffix) (S suffix)) as [|Hall]; [by left|]. right. intros [|k] Hk; [done|]. cbn.
  specialize (Hall k ltac:(lia)). destruct k as [|k]; cbn [Nat.eqb] in Hall |- *.
  - by replace (suffix + 1 - 1)%nat with suffix by lia.
  - by replace (suffix + S (S k) - 1)%nat with (S suffix + S k - 1)%nat by lia.
Qed.

(** One more try than there are used ids ends at a free one. *)
Lemma free_id_free used base : free_id (S (length used)) used base base 2 ∉ used.
Proof.
  destruct (free_id_cases (S (length used)) used base base 2) as [|Hall]; [done|].
  set (candidate k := if Nat.eqb k 0 then base else numbered base (2 + k - 1)).
  assert (Hsub : map candidate (seq 0 (S (length used))) ⊆ used).
  { intros x (k & -> & Hk%elem_of_seq)%list_elem_of_fmap. apply Hall. lia. }
  assert (Hnd : NoDup (map candidate (seq 0 (S (length used))))).
  { apply NoDup_fmap_2_strong, NoDup_seq. intros [|j] [|k] _ _; unfold candidate; cbn; intros Hjk; [done| | |].
    - by edestruct numbered_longer.
    - by edestruct numbered_longer.
    - apply numbered_inj in Hjk. lia. }
  pose proof (submseteq_length _ _ (NoDup_submseteq _ _ Hnd Hsub)) as Hlen. rewrite length_map, length_seq in Hlen. lia.
Qed.

Lemma put_values {A} k (v : A) r x : x ∈ map snd (put k v r) → x = v ∨ x ∈ map snd r.
Proof.
  induction r as [|[k' v'] r IH]; cbn; [by intros ->%list_elem_of_singleton; left|].
  destruct (String.eqb k k'); cbn; rewrite !elem_of_cons; naive_solver.
Qed.

Lemma put_values_NoDup {A} k (v : A) r : v ∉ map snd r → NoDup (map snd r) → NoDup (map snd (put k v r)).
Proof.
  induction r as [|[k' v'] r IH]; cbn; [intros; apply NoDup_singleton|].
  intros [Hv Hr]%not_elem_of_cons [Hv' Hnd]%NoDup_cons.
  destruct (String.eqb k k'); cbn; apply NoDup_cons; [done|]. split; [|auto].
  intros [->|?]%put_values; done.
Qed.

Definition id_text (id : string) : Prop := all_chars is_word id = true.

Lemma underscore_runs_word b s : id_text (underscore_runs b s).
Proof.
  unfold id_text. revert b. induction s as [|c s IH]; intros b; cbn; [done|].
  destruct (is_alnum c) eqn:Hc; [cbn; unfold is_word; by rewrite Hc, IH|]. destruct b; [done|cbn; by rewrite IH].
Qed.

Lemma show_nat_word n : id_text (show_nat n).
Proof.
  unfold id_text, show_nat, show_Z. generalize (Nat2Z.is_nonneg n). generalize (Z.of_nat n). intros z Hz.
  destruct z as [|p|p]; [done| |lia]. cbn. generalize (Pos.to_uint p). intros u. by induction u; cbn.
Qed.

Lemma free_id_text fuel used base id suffix : id_text base → id_text id → id_text (free_id fuel used base id suffix).
Proof.
  unfold id_text. intros Hb. revert id suffix. induction fuel as [|fuel IH]; intros id suffix Hid; cbn; [done|].
  destruct (includes used id); [|done]. apply IH. unfold numbered. rewrite !all_chars_app, Hb.
  by rewrite (show_nat_word suffix : all_chars is_word _ = true).
Qed.

Lemma assign_ids_spec used ids nodes :
  map snd ids ⊆ used → NoDup (map fst ids) → NoDup (map snd ids) → Forall id_text (map snd ids) →
  NoDup (map fst (assign_ids used ids nodes)) ∧ NoDup (map snd (assign_ids used ids nodes)) ∧
  Forall id_text (map snd (assign_ids used ids nodes)) ∧
  ∀ n, n ∈ map fst (assign_ids used ids nodes) ↔ n ∈ map fst ids ∨ n ∈ nodes.
Proof.
  revert used ids. induction nodes as [|node nodes IH]; intros used ids Hsub Hk Hv Ht; cbn [assign_ids].
  { split_and!; try done. intros n. rewrite elem_of_nil. tauto. }
  pose proof (free_id_free used (id_base node)) as Hfree.
  pose proof (free_id_text (S (length used)) used (id_base node) (id_base node) 2) as Htext.
  set (id := free_id _ _ _ _ _) in *. destruct (IH (id :: used) (put node id ids)) as (Hnd1 & Hnd2 & Htx & Hel).
  - intros x [->|Hx]%put_values; apply elem_of_cons; [by left|right; by apply Hsub].
  - by apply put_NoDup.
  - apply put_values_NoDup; [|done]. intros Hin. by apply Hfree, Hsub.
  - apply Forall_forall. rewrite Forall_forall in Ht. intros x [->|Hx]%put_values; [|by apply Ht].
    apply Htext; unfold id_base, id_text; cbn; apply underscore_runs_word.
  - split_and!; try done. intros n. rewrite Hel, put_keys, elem_of_cons. tauto.
Qed.

Lemma mermaidIds_spec nodes :
  NoDup (map fst (mermaidIds nodes)) ∧ NoDup (map snd (mermaidIds nodes)) ∧
  Forall id_text (map snd (mermaidIds nodes)) ∧ ∀ n, n ∈ map fst (mermaidIds nodes) ↔ n ∈ nodes.
Proof.
  destruct (assign_ids_spec [] [] nodes) as (? & ? & ? & Hel); [intros x Hx; exact Hx|constructor..|].
  split_and!; try done. intros n. rewrite Hel. cbn. rewrite elem_of_nil. tauto.
Qed.

(** In a diagram every node has an id, made of letters, digits and
    underscores, and no two nodes share one, whatever the names are and
    however the replaced characters and the numbers make them collide: the
    search for a free number always ends. *)
Lemma nodes_have_their_own_ids nodes :
  (∀ n, n ∈ nodes → ∃ id, table_find (mermaidIds nodes) n = Some id ∧ all_chars is_word id = true) ∧
  ∀ n n' id, table_find (mermaidIds nodes) n = Some id → table_find (mermaidIds nodes) n' = Some id → n = n'.
Proof.
  destruct (mermaidIds_spec nodes) as (Hk & Hv & Ht & Hel). split.
  - intros n Hn. apply Hel in Hn. destruct (table_find (mermaidIds nodes) n) as [id|] eqn:Hf.
    + exists id. split; [done|]. rewrite Forall_forall in Ht. apply Ht.
      apply table_find_Some in Hf; [|done]. by apply (list_elem_of_fmap_2 snd _ (n, id)).
    + by apply table_find_None in Hf.
  - intros n n' id Hn Hn'. apply table_find_Some in Hn, Hn'; try done.
    apply list_elem_of_lookup in Hn as [i Hi], Hn' as [j Hj].
    assert (i = j) as <-.
    { apply (NoDup_lookup _ i j id Hv); change (map snd ?l) with (snd <$> l); by rewrite list_lookup_fmap, ?Hi, ?Hj. }
    congruence.
Qed.

Lemma nodes_have_their_own_ids_witness :
  table_find (mermaidIds ["a-b"; "a_b"; "a_b_2"]) "a_b_2" = Some "n_a_b_2_2" ∧
  ∀ n id, table_find (mermaidIds ["a-b"; "a_b"; "a_b_2"]) n = Some id → id = "n_a_b_2" → n = "a_b".
Proof.
  split; [reflexivity|]. intros n id Hn ->.
  apply (proj2 (nodes_have_their_own_ids ["a-b"; "a_b"; "a_b_2"]) n "a_b" "n_a_b_2" Hn). reflexivity.
Defined.

(** ** What is written is up to date *)

Definition not_cr (c : ascii) : bool := negb (Ascii.eqb c "013").
Definition no_cr (s : string) : Prop := all_chars not_cr s = true.

Lemma all_chars_impl (P Q : ascii → bool) s : (∀ c, P c = true → Q c = true) → all_chars P s = true → all_chars Q s = true.
Proof. intros HPQ. induction s as [|c s IH]; cbn; [done|]. rewrite !andb_true_iff. naive_solver. Qed.

Lemma all_chars_join P sep l : all_chars P sep = true → Forall (λ s, all_chars P s = true) l → all_chars P (join sep l) = true.
Proof.
  intros Hsep Hl. induction Hl as [|x l Hx Hl IH]; [done|]. destruct l as [|y l]; [done|].
  change (join sep (x :: y :: l)) with (x +:+ (sep +:+ join sep (y :: l))). by rewrite !all_chars_app, Hx, Hsep, IH.
Qed.

Lemma all_chars_trim P s : all_chars P s = true → all_chars P (trim s) = true.
Proof.
  intros H. unfold trim.
  assert (all_chars P (trim_start s) = true) as H'.
  { induction s as [|c s IH]; cbn; [done|]. destruct (is_space c); [|done]. apply IH. cbn in H. by destruct (P c). }
  revert H'. generalize (trim_start s). intros t. induction t as [|c t IH]; cbn; [done|].
  rewrite andb_true_iff. intros [Hc Ht]. specialize (IH Ht).
  destruct (trim_end t) as [|c' t']; [destruct (is_space c); cbn; by rewrite ?Hc|].
  change (P c && all_chars P (String c' t') = true). by rewrite Hc, IH.
Qed.

Lemma mermaidLabel_no_cr text : no_cr (mermaidLabel text).
Proof.
  unfold mermaidLabel, no_cr. cbv zeta. apply all_chars_trim. generalize (replace_char "`" "#96;"
    (replace_char ">" "#gt;" (replace_char "<" "#lt;" (replace_char "&" "#amp;"
      (replace_char "034" "#quot;" (replace_char "#" "#35;" text)))))). intros s.
  generalize false. induction s as [|c s IH]; intros b; cbn [space_runs all_chars]; [done|].
  destruct (is_space c) eqn:Hc; [destruct b; [done|by cbn [all_chars]; rewrite IH]|].
  cbn [all_chars]. rewrite IH, andb_true_r. unfold not_cr. by destruct (Ascii.eqb_spec c "013") as [->|].
Qed.

Lemma id_text_no_cr id : id_text id → no_cr id.
Proof.
  apply all_chars_impl. intros c Hc. unfold not_cr. by destruct (Ascii.eqb_spec c "013") as [->|].
Qed.

Lemma id_of_no_cr ns node id : id_of (mermaidIds ns) node = Ok id → no_cr id.
Proof.
  unfold id_of. destruct (table_find (mermaidIds ns) node) as [id'|] eqn:Hf; [|done]. intros [= <-].
  destruct (mermaidIds_spec ns) as (Hk & _ & Ht & _). apply id_text_no_cr. rewrite Forall_forall in Ht. apply Ht.
  apply table_find_Some in Hf; [|done]. by apply (list_elem_of_fmap_2 snd _ (node, id')).
Qed.

(** Decide that a text built from parts without carriage returns has none. *)
Ltac no_cr_parts :=
  unfold no_cr in *; repeat first [rewrite all_chars_app | progress cbn [all_chars String.append quote]];
  repeat match goal with H : all_chars not_cr _ = true |- _ => rewrite H end; try reflexivity.

Lemma mapM_no_cr {A} (f : nat → A → result string string) l lines :
  mapM_idx f l = Ok lines → (∀ i x line, f i x = Ok line → no_cr line) → Forall no_cr lines.
Proof.
  intros [Hlen H]%mapM_idx_Ok Hf. apply Forall_lookup_2. intros i line Hi.
  destruct (lookup_lt_is_Some_2 l i) as [x Hx]; [rewrite Hlen; by eapply lookup_lt_Some|]. eauto.
Qed.

Lemma node_label_no_cr ts node : no_cr (node_label ts node).
Proof.
  unfold node_label. pose proof (mermaidLabel_no_cr node). repeat case_match; [done| |done].
  pose proof (mermaidLabel_no_cr s). no_cr_parts.
Qed.

Lemma renderMermaid_no_cr level text : renderMermaid level = Ok text → no_cr text.
Proof.
  unfold renderMermaid. cbv zeta. intros H. apply bind_Ok in H as (ns & Hns & H). apply bind_Ok in H as (es & Hes & H).
  apply Ok_inj in H as <-. apply all_chars_join; [done|]. apply Forall_cons; split; [done|]. apply Forall_app; split.
  - eapply mapM_no_cr; [done|]. intros i x line Hl. unfold node_line in Hl. apply bind_Ok in Hl as (id & Hid%id_of_no_cr & Hl).
    apply Ok_inj in Hl as <-. pose proof (node_label_no_cr (tags level) x). unfold quote. no_cr_parts.
  - eapply mapM_no_cr; [done|]. intros i x line Hl. unfold edge_line in Hl. apply bind_Ok in Hl as (id & Hid%id_of_no_cr & Hl).
    apply bind_Ok in Hl as (id' & Hid'%id_of_no_cr & Hl). apply Ok_inj in Hl as <-. no_cr_parts.
Qed.

Lemma renderDoc_no_cr title intro level text :
  renderDoc title intro level = Ok text → no_cr title → no_cr intro → no_cr text.
Proof.
  unfold renderDoc. intros H Ht Hi. apply bind_Ok in H as (diagram & Hd%renderMermaid_no_cr & H). apply Ok_inj in H as <-.
  apply all_chars_join; [done|]. repeat (apply Forall_cons; split); done.
Qed.

Lemma normalizeLineEndings_no_cr s : no_cr s → normalizeLineEndings s = s.
Proof.
  unfold no_cr. induction s as [|c s IH]; cbn [all_chars normalizeLineEndings]; [done|].
  intros [Hc Hs]%andb_true_iff. unfold not_cr in Hc. apply negb_true_iff in Hc. by rewrite Hc, IH.
Qed.

Lemma written_docs docs s doc :
  NoDup (map doc_path docs) → doc ∈ docs → stored (fold_left writeDoc docs s) !! doc_path doc = Some (doc_content doc).
Proof.
  assert (Hkeep : ∀ docs s path, path ∉ map doc_path docs → stored (fold_left writeDoc docs s) !! path = stored s !! path).
  { clear. induction docs as [|d docs IH]; intros s path; cbn; [done|]. intros [? ?]%not_elem_of_cons.
    rewrite IH by done. cbn. by rewrite lookup_insert_ne. }
  revert s. induction docs as [|d docs IH]; intros s; cbn; [by intros _ ?%elem_of_nil|].
  intros [Hd Hnd]%NoDup_cons [->|Hin]%elem_of_cons; [|by apply IH].
  rewrite Hkeep by done. cbn. by rewrite lookup_insert_eq.
Qed.

Lemma rendered_docs graph config docs :
  renderDocs graph config = Ok docs → map doc_path docs = map (output_path ∘ cfg_output ∘ cfg_base) config ∧
  (Forall (λ level, no_cr (cfg_title (cfg_base level)) ∧ no_cr (cfg_intro (cfg_base level))) config →
   Forall (no_cr ∘ doc_content) docs).
Proof.
  intros [Hlen H]%mapM_idx_Ok.
  assert (Hone : ∀ i level doc, config !! i = Some level → docs !! i = Some doc → doc_path doc = output_path (cfg_output (cfg_base level)) ∧
    (no_cr (cfg_title (cfg_base level)) → no_cr (cfg_intro (cfg_base level)) → no_cr (doc_content doc))).
  { intros i level doc Hl Hd. specialize (H i level doc Hl Hd). unfold render_level in H. cbv zeta in H.
    destruct (table_find graph _) as [graphLevel|]; [|done]. apply bind_Ok in H as (content & Hc & [= <-]).
    split; [done|]. cbn. by eapply renderDoc_no_cr. }
  split.
  - apply list_eq. intros i. change (map ?f ?l) with (f <$> l). rewrite !list_lookup_fmap.
    destruct (docs !! i) as [doc|] eqn:Hd.
    + destruct (lookup_lt_is_Some_2 config i) as [level Hl]; [rewrite Hlen; by eapply lookup_lt_Some|].
      rewrite Hl. change (Some (doc_path doc) = Some (output_path (cfg_output (cfg_base level)))).
      f_equal. by apply (Hone i level doc).
    + apply lookup_ge_None in Hd. by rewrite (proj2 (lookup_ge_None config i)) by lia.
  - intros Hall. apply Forall_lookup_2. intros i doc Hd. destruct (lookup_lt_is_Some_2 config i) as [level Hl]; [rewrite Hlen; by eapply lookup_lt_Some|].
    rewrite Forall_lookup in Hall. destruct (Hall i level Hl). by eapply Hone.
Qed.

Lemma filter_none {A} (f : A → bool) l : Forall (λ x, f x = false) l → List.filter f l = [].
Proof. intros H. induction H as [|x l Hx Hl IH]; cbn; [done|]. by rewrite Hx. Qed.

Lemma output_path_inj x y : output_path x = output_path y → x = y.
Proof. unfold output_path. by intros ?%str_app_cancel%str_app_cancel. Qed.

Lemma docs_apart v levels graph docs :
  parseArchitectureConfig v = Ok levels → renderDocs graph levels = Ok docs → NoDup (map doc_path docs).
Proof.
  intros Hparse Hdocs. destruct (rendered_docs graph levels docs Hdocs) as [-> _].
  destruct (parsed_levels v levels Hparse) as (_ & _ & Hout).
  rewrite <-(map_map (cfg_output ∘ cfg_base) output_path levels : _ = map (output_path ∘ cfg_output ∘ cfg_base) levels).
  apply NoDup_fmap_2; [intros x y; apply output_path_inj|done].
Qed.

Lemma markdown_name_segments s : is_markdown_name s = true → segments_of (output_path s) = ["docs"; "architecture"; s].
Proof.
  intros Hs. assert (Hslash : index_of "/" s = None).
  { apply index_of_None. destruct s as [|c s]; [done|]. cbn in Hs. apply andb_true_iff in Hs as [[Hc Hs]%andb_true_iff _].
    apply (all_chars_impl (λ d, is_word d || Ascii.eqb d "." || Ascii.eqb d "-")).
    - intros d Hd. by destruct (Ascii.eqb_spec "/" d) as [<-|].
    - cbn [all_chars]. by rewrite Hc, Hs. }
  unfold segments_of, output_path, DOCS_DIRECTORY.
  change ("docs/architecture" +:+ "/" +:+ s) with ("docs" +:+ String "/" ("architecture" +:+ String "/" s)).
  rewrite !split_on_slash. rewrite (split_on_no_sep "/" s) by by apply index_of_None.
  cbn [split_on app resolve_segments starts_with negb String.append].
  destruct s as [|c [|d s]]; [done| |].
  - cbn in Hs. by rewrite andb_false_r in Hs.
  - cbn in Hs. apply andb_true_iff in Hs as [[Hc _]%andb_true_iff _].
    assert (c ≠ "."%char) by by intros ->. cbn. by destruct (Ascii.eqb_spec c ".").
Qed.

(** Every document goes to a file of its own directly in [docs/architecture]. *)
Lemma docs_have_their_own_files v levels graph docs :
  parseArchitectureConfig v = Ok levels → renderDocs graph levels = Ok docs →
  NoDup (map doc_path docs) ∧ Forall (λ doc, ∃ name, segments_of (doc_path doc) = ["docs"; "architecture"; name]) docs.
Proof.
  intros Hparse Hdocs. split; [by eapply docs_apart|].
  destruct (rendered_docs graph levels docs Hdocs) as [Hpaths _]. destruct (parsed_levels v levels Hparse) as (Hall & _ & _).
  apply Forall_forall. intros doc Hin. rewrite Forall_forall in Hall.
  assert (Hp : doc_path doc ∈ map doc_path docs) by by apply list_elem_of_fmap_2.
  rewrite Hpaths in Hp. apply list_elem_of_fmap in Hp as (level & Hp & Hl). exists (cfg_output (cfg_base level)).
  rewrite Hp. by apply markdown_name_segments, Hall.
Qed.

(** C30: After [--write] the check is satisfied: for a configuration that was
    accepted, whose titles and introductions hold no carriage return, and a
    graph that can be drawn, [--check] exits with 0 and reports no document,
    whatever was stored before and whatever names and tags the graph has. *)
Theorem written_docs_are_up_to_date loadConfig collectGraph graph_json v levels s s' :
  loadConfig None None = parseArchitectureConfig v → parseArchitectureConfig v = Ok levels →
  Forall (λ level, no_cr (cfg_title (cfg_base level)) ∧ no_cr (cfg_intro (cfg_base level))) levels →
  runCli loadConfig collectGraph graph_json ["--write"] s = Ok (0, s') →
  runCli loadConfig collectGraph graph_json ["--check"] s' = Ok (0, print ("Architecture docs are up to date." +:+ NEWLINE_TEXT) s').
Proof.
  intros Hload Hparse Hcr Hw. unfold runCli in *. cbn [read_arguments no_options opt_write opt_check opt_root opt_config opt_usage_error
    String.eqb Ascii.eqb Bool.eqb orb andb negb] in *.
  rewrite Hload, Hparse in *. cbn [mbind result_bind] in *.
  destruct (collectGraph None levels) as [graph|]; [|done]. cbn [mbind result_bind] in *.
  destruct (renderDocs graph levels) as [docs|] eqn:Hdocs; [|done]. cbn [mbind result_bind] in *. injection Hw as <-.
  destruct (rendered_docs graph levels docs Hdocs) as [Hpaths Hcontents]. specialize (Hcontents Hcr). rewrite Forall_forall in Hcontents.
  enough (Hnone : ∀ t, stored t = stored (fold_left writeDoc docs s) → staleDocs docs (λ path, stored t !! path) = []).
  { cbv beta zeta. by rewrite Hnone by done. }
  intros t Ht. unfold staleDocs. rewrite Ht. rewrite filter_none; [done|]. apply Forall_forall. intros doc Hin.
  unfold is_stale. rewrite written_docs by eauto using docs_apart.
  cbn. rewrite normalizeLineEndings_no_cr by by apply Hcontents. by rewrite bool_decide_eq_true_2.
Qed.

Definition sample_levels (intro : string) : js := Obj [("levels", Arr [
  Obj [("id", Str "projects"); ("kind", Str "nx"); ("title", Str "Projects"); ("output", Str "projects.md"); ("intro", Str intro)]])].
Definition sample_graph : ArchitectureGraph :=
  [("projects", normalizeLevel ["ui"; "api"] [("ui", "api")] (Some [("ui", "type:app")]))].
Definition sample_cli : cli_state := {| stored := ∅; stdout := []; stderr := [] |}.
Definition sample_run (intro : string) (argv : list string) (s : cli_state) : result string (Z * cli_state) :=
  runCli (λ _ _, parseArchitectureConfig (sample_levels intro)) (λ _ _, Ok sample_graph) (λ _, "{}") argv s.

Lemma written_docs_are_up_to_date_witness :
  exists levels written,
    parseArchitectureConfig (sample_levels "Every project.") = Ok levels ∧
    sample_run "Every project." ["--write"] sample_cli = Ok (0, written) ∧
    sample_run "Every project." ["--check"] written = Ok (0, print ("Architecture docs are up to date." +:+ NEWLINE_TEXT) written).
Proof.
  eexists _, _. split; [reflexivity|]. split; [vm_compute; reflexivity|].
  refine (written_docs_are_up_to_date (λ _ _, parseArchitectureConfig (sample_levels "Every project.")) (λ _ _, Ok sample_graph) (λ _, "{}")
    (sample_levels "Every project.") _ sample_cli _ _ _ _ _); [reflexivity|reflexivity| |vm_compute; reflexivity].
  by repeat constructor.
Defined.

(** A carriage return in an introduction makes the check fail for ever: the
    stored document is compared after its line endings are normalized, the
    rendered one before. *)
Lemma carriage_return_is_always_stale :
  exists written, sample_run ("One." +:+ String "013" NEWLINE_TEXT +:+ "Two.") ["--write"] sample_cli = Ok (0, written) ∧
    fst <$> sample_run ("One." +:+ String "013" NEWLINE_TEXT +:+ "Two.") ["--check"] written = Ok 1.
Proof. eexists. split; [vm_compute; reflexivity|vm_compute; reflexivity]. Qed.
