(* ===== verification/ArchDiff.v ===== *)
(** * The architecture section of a pull request

    [src/tools/architecture-diff.ts]: the node a file belongs to, the edges
    two graphs differ in, the part of the diagram to draw, and the section
    spliced into a description.  The Chinese texts are the UTF-8 bytes of the
    source; they are only concatenated. *)
From S2P Require Import Prelude JsString JsNum JsValue RuntimeErrors CanonicalJson Posix ArchGraph ArchSources ArchRender.

Record LevelReport := {
  rep_id : string; rep_label : string; rep_edges : list Edge; added : list Edge; removed : list Edge;
  touched : list string; rep_tags : list (string * string); rep_boundary : option boundary_kind }.

(** ** Changed files to nodes *)

Definition prefix_matches (file prefix : string) : bool :=
  String.eqb prefix "." || String.eqb file prefix || starts_with (prefix +:+ "/") file.
Definition root_length (prefix : string) : Z := if String.eqb prefix "." then 0 else slen prefix.

(** One round of the loop on [best] and [bestLength]. *)
Definition better_root (file : string) (best : option string * Z) (root : string * string) : option string * Z :=
  if prefix_matches file root.1 && (best.2 <? root_length root.1) then (Some root.2, root_length root.1) else best.

Definition nodeForFile (level : GraphLevel) (file : string) : option string :=
  (fold_left (better_root file) (default [] (roots level)) (None, -1)).1.

Definition touchedNodes (base head : GraphLevel) (files : list string) : list string :=
  let known := nodes base ++ nodes head in
  sort_keys (new_set (flat_map (λ file,
    List.filter (includes known) (omap (λ level, nodeForFile level file) [head; base])) files)).

(** ** Diff *)

Definition edgesMissingFrom (from to : GraphLevel) : list Edge :=
  let known := map edge_key (edges from) in
  List.filter (λ e, negb (includes known (edge_key e))) (edges to).

Definition EMPTY_LEVEL : GraphLevel :=
  {| nodes := []; edges := []; tags := None; roots := None; level_label := None; boundary := None |}.

(** [a ?? b] *)
Definition or_else {A} (a b : option A) : option A := match a with Some _ => a | None => b end.

Definition report_level (base head : ArchitectureGraph) (changedFiles : list string) (id : string) : LevelReport :=
  let before := default EMPTY_LEVEL (table_find base id) in
  let after := default EMPTY_LEVEL (table_find head id) in
  {| rep_id := id; rep_label := default id (or_else (level_label after) (level_label before));
     rep_edges := edges after; added := edgesMissingFrom before after; removed := edgesMissingFrom after before;
     touched := touchedNodes before after changedFiles;
     rep_tags := put_all (default [] (tags after)) (put_all (default [] (tags before)) []);
     rep_boundary := or_else (boundary after) (boundary before) |}.

Definition analyzeLevels (base head : ArchitectureGraph) (changedFiles : list string) : list LevelReport :=
  map (report_level base head changedFiles) (new_set (map fst (own_entries head) ++ map fst (own_entries base))).

Definition crossesBoundary (report : LevelReport) (e : Edge) : bool :=
  match rep_boundary report with
  | Some ByNode => true
  | Some ByTag =>
      match table_find (rep_tags report) e.1, table_find (rep_tags report) e.2 with
      | Some fromTag, Some toTag => negb (String.eqb fromTag toTag)
      | _, _ => false
      end
  | None => false
  end.

(** ** Neighbourhood *)

Record Neighbourhood := { hood_nodes : list string; hood_edges : list Edge; hood_removed : list Edge; omitted : Z }.

Definition endpoints (es : list Edge) : list string := flat_map (λ e : Edge, [e.1; e.2]) es.

Definition MAX_DIAGRAM_NODES : Z := 40.

Definition is_drawn (report : LevelReport) (e : Edge) : bool :=
  includes (touched report) e.1 || includes (touched report) e.2 ||
  includes (map edge_key (added report)) (edge_key e).

Definition selectNeighbourhood (report : LevelReport) (maxNodes : Z) : Neighbourhood :=
  let core := new_set (touched report ++ endpoints (added report) ++ endpoints (removed report)) in
  let drawn := List.filter (is_drawn report) (rep_edges report) in
  let all := new_set (core ++ endpoints drawn) in
  if Z.of_nat (length all) <=? maxNodes then
    {| hood_nodes := sort_keys all; hood_edges := drawn; hood_removed := removed report; omitted := 0 |}
  else
    {| hood_nodes := sort_keys core; hood_edges := added report; hood_removed := removed report;
       omitted := Z.of_nat (length all) - Z.of_nat (length core) |}.

(** ** Markdown *)

Definition TOUCHED_CLASS : string := "classDef touched fill:#fff3bf,stroke:#f08c00,stroke-width:2px,color:#1f2328".
Definition CROSSING_LINK_STYLE : string := "stroke:#d1242f,stroke-width:3px".

(** [ids.get(node) as string]: without the check a missing id prints as [undefined]. *)
Definition hood_id (ids : list (string * string)) (node : string) : string := default "undefined" (table_find ids node).

Definition change_label (report : LevelReport) (change : string) (e : Edge) : string :=
  if crossesBoundary report e then change +:+ ", crossing" else change.

Definition hood_edge_line (report : LevelReport) (ids : list (string * string)) (e : Edge) : string :=
  let arrow := if includes (map edge_key (added report)) (edge_key e)
               then "-->|" +:+ change_label report "added" e +:+ "|" else "-->" in
  "  " +:+ hood_id ids e.1 +:+ " " +:+ arrow +:+ " " +:+ hood_id ids e.2.

Definition removed_edge_line (report : LevelReport) (ids : list (string * string)) (e : Edge) : string :=
  "  " +:+ hood_id ids e.1 +:+ " -.->|" +:+ change_label report "removed" e +:+ "| " +:+ hood_id ids e.2.

(** The positions, among all drawn links, of the changed edges that cross. *)
Definition crossing_links (report : LevelReport) (hood : Neighbourhood) : list nat :=
  let is_added e := includes (map edge_key (added report)) (edge_key e) in
  let links := map (λ e, is_added e && crossesBoundary report e) (hood_edges hood) ++
               map (crossesBoundary report) (hood_removed hood) in
  map fst (List.filter snd (combine (seq 0 (length links)) links)).

Definition truthy_text (s : option string) : option string :=
  match s with Some t => if String.eqb t "" then None else Some t | None => None end.

Definition renderNeighbourhood (report : LevelReport) (hood : Neighbourhood) : result string string :=
  let shown := omap (λ node, pair node <$> truthy_text (table_find (rep_tags report) node)) (hood_nodes hood) in
  diagram ← renderMermaid {| nodes := hood_nodes hood; edges := [];
                             tags := match shown with [] => None | _ => Some (put_all shown []) end;
                             roots := None; level_label := None; boundary := None |};
  let ids := mermaidIds (hood_nodes hood) in
  let drawn := List.filter (has_entry ids) (touched report) in
  let crossing := crossing_links report hood in
  Ok (join NEWLINE_TEXT (
    diagram :: map (hood_edge_line report ids) (hood_edges hood) ++ map (removed_edge_line report ids) (hood_removed hood) ++
    match drawn with
    | [] => []
    | _ => ["  " +:+ TOUCHED_CLASS; "  class " +:+ join "," (map (hood_id ids) drawn) +:+ " touched"]
    end ++
    match crossing with
    | [] => []
    | _ => ["  linkStyle " +:+ join "," (map show_nat crossing) +:+ " " +:+ CROSSING_LINK_STYLE]
    end)).

Definition cell (text : string) : string :=
  "`" +:+ replace_char "`" "'" (replace_char "|" "\|" text) +:+ "`".

Definition edgeRow (report : LevelReport) (change : string) (e : Edge) : string :=
  let fromTag := table_find (rep_tags report) e.1 in
  let toTag := table_find (rep_tags report) e.2 in
  let tagCell := match truthy_text fromTag, truthy_text toTag with
                 | None, None => ""
                 | _, _ => cell (default "" fromTag) +:+ " → " +:+ cell (default "" toTag)
                 end in
  let crossingCell := if crossesBoundary report e then "是" else "" in
  "| " +:+ rep_label report +:+ " | " +:+ change +:+ " | " +:+ cell e.1 +:+ " | " +:+ cell e.2 +:+ " | " +:+
  tagCell +:+ " | " +:+ crossingCell +:+ " |".

Definition renderLevelDiagram (report : LevelReport) : result string (list string) :=
  let hood := selectNeighbourhood report MAX_DIAGRAM_NODES in
  match hood_nodes hood with
  | [] => Ok []
  | _ =>
      diagram ← renderNeighbourhood report hood;
      Ok (["#### " +:+ rep_label report; "";
           match touched report with
           | [] => "沒有動到的節點，只畫變動的邊。"
           | ts => "動到：" +:+ join "、" (map cell ts)
           end; ""] ++
          (if 0 <? omitted hood
           then ["節點超過 " +:+ show_Z MAX_DIAGRAM_NODES +:+ " 個，只畫動到的節點和變動的邊；省略了 " +:+
                 show_Z (omitted hood) +:+ " 個直接依賴節點。"; ""]
           else []) ++
          ["```mermaid"; diagram; "```"; ""])
  end.

Definition SECTION_START : string := "<!-- architecture:start -->".
Definition SECTION_END : string := "<!-- architecture:end -->".

Definition has_changes (report : LevelReport) : bool :=
  negb (bool_decide (added report = [])) || negb (bool_decide (removed report = [])).

Definition summary_row (report : LevelReport) : string :=
  "| " +:+ rep_label report +:+ " | " +:+ show_nat (length (touched report)) +:+ " | " +:+
  show_nat (length (added report)) +:+ " | " +:+ show_nat (length (removed report)) +:+ " |".

Definition change_rows (report : LevelReport) : list string :=
  map (edgeRow report "新增") (added report) ++ map (edgeRow report "刪除") (removed report).

Definition renderSection (reports : list LevelReport) : result string string :=
  let touchedAny := existsb (λ report, negb (bool_decide (touched report = []))) reports in
  let changed := List.filter has_changes reports in
  if negb touchedAny && bool_decide (changed = []) then
    Ok (join NEWLINE_TEXT [SECTION_START; "本 PR 沒有改到架構圖上的任何節點，也沒有新增或刪除依賴。"; SECTION_END])
  else
    diagrams ← mapM_idx (λ _, renderLevelDiagram) reports;
    Ok (join NEWLINE_TEXT (
      [SECTION_START; "## 架構"; "";
       "由 architecture-diff workflow 產生；每次推送都會覆寫這兩個隱藏標記之間的內容，標記以外的描述不受影響。"; "";
       "### 動到的範圍"; "";
       "`a --> b` 表示 a 依賴 b。黃底是本 PR 改到的檔案所屬的節點，其餘是它們上下游各一層的直接依賴。標 added 的實線是新增的依賴，標 removed 的虛線是刪除的依賴；標 crossing 的紅色粗線跨越 `type:*` 標籤或上下文。"; "";
       "| 層級 | 動到的節點 | 新增的依賴 | 刪除的依賴 |"; "| --- | --- | --- | --- |"] ++
      map summary_row reports ++ [""] ++
      (if touchedAny then [] else ["本 PR 沒有改到架構圖上的任何節點。"; ""]) ++
      concat diagrams ++ ["### 依賴變動"; ""] ++
      match changed with
      | [] => ["本 PR 沒有新增或刪除模組依賴。"]
      | _ => ["跨界：兩端的 `type:*` 標籤或上下文不同。"; ""; "| 層級 | 變動 | 依賴方 | 被依賴方 | 標籤 | 跨界 |";
              "| --- | --- | --- | --- | --- | --- |"] ++ flat_map change_rows changed
      end ++ [SECTION_END])).

(** ** Command line *)

(** [text.split(/\r?\n/u)]: a carriage return goes with the line feed after it. *)
Definition without_final_cr (s : string) : string :=
  if ends_with (String "013" "") s then take_str (String.length s - 1) s else s.
Definition text_lines (text : string) : list string :=
  let parts := split_on "010" text in
  map without_final_cr (removelast parts) ++ [List.last parts ""].

Definition parseChangedFiles (text : string) : list string :=
  List.filter (λ line, negb (String.eqb line "")) (map (λ line, replace_char "\" "/" (trim line)) (text_lines text)).

Definition VALUE_FLAGS : list string := ["--base"; "--head"; "--changed-files"; "--splice-body"; "--section"].

Fixpoint parseArgs (argv : list string) (options : list (string * string)) (comment : bool) : option (list (string * string) * bool) :=
  match argv with
  | [] => Some (options, comment)
  | flag :: rest =>
      if String.eqb flag "--comment" && negb comment then parseArgs rest options true
      else match rest with
           | value :: rest' =>
               if negb (includes VALUE_FLAGS flag) || String.eqb value "" || has_entry options flag then None
               else parseArgs rest' (put flag value options) comment
           | [] => None
           end
  end.

(** What the parsed flags ask for. *)
Inductive request : Type :=
| Splice (body section : string)
| Report (base head changed_files : string) (comment : bool)
| BadUsage.

Definition requested (argv : list string) : request :=
  match parseArgs argv [] false with
  | None => BadUsage
  | Some (options, comment) =>
      let flags := join " " (sort_keys (map fst options)) in
      let path flag := default "" (table_find options flag) in
      if negb comment && String.eqb flags "--section --splice-body" then Splice (path "--splice-body") (path "--section")
      else if String.eqb flags "--base --changed-files --head"
           then Report (path "--base") (path "--head") (path "--changed-files") comment
           else BadUsage
  end.

(** ** The reported changes *)

Lemma sublist_filter_bool {A} (f : A → bool) l : sublist (List.filter f l) l.
Proof. induction l as [|x l IH]; cbn; [constructor|]. destruct (f x); by constructor. Qed.

Lemma entry_found {A} (r : list (string * A)) k : k ∈ map fst r → ∃ v, table_find r k = Some v.
Proof.
  intros Hk. destruct (table_find r k) as [v|] eqn:Hf; [by exists v|]. by apply table_find_None in Hf.
Qed.

Lemma missing_spec from to e :
  Forall without_nul (edges from) → Forall without_nul (edges to) →
  e ∈ edgesMissingFrom from to ↔ e ∈ edges to ∧ e ∉ edges from.
Proof.
  intros Hf Ht. unfold edgesMissingFrom. rewrite list_elem_of_In, filter_In, <-list_elem_of_In, negb_true_iff, includes_false.
  rewrite Forall_forall in Hf, Ht. split; intros [He Hk]; (split; [done|]); contradict Hk.
  - by apply list_elem_of_fmap_2.
  - apply list_elem_of_fmap in Hk as (e' & Hk & He'). by rewrite (edge_key_inj e e') by auto.
Qed.

Definition level_of (graph : ArchitectureGraph) (id : string) : GraphLevel := default EMPTY_LEVEL (table_find graph id).

(** C33: Every level of either graph is reported once, and its report is exact:
    the added edges are those of the head that the base does not have, the
    removed ones those of the base that the head does not have, in the order
    of their level. *)
Theorem reported_changes_are_exact base head changedFiles :
  Forall (λ level, Forall without_nul (edges level.2)) (base ++ head) →
  NoDup (map rep_id (analyzeLevels base head changedFiles)) ∧
  (∀ id, id ∈ map rep_id (analyzeLevels base head changedFiles) ↔ id ∈ map fst head ∨ id ∈ map fst base) ∧
  ∀ report, report ∈ analyzeLevels base head changedFiles →
    let before := level_of base (rep_id report) in
    let after := level_of head (rep_id report) in
    (∀ e, e ∈ added report ↔ e ∈ edges after ∧ e ∉ edges before) ∧
    (∀ e, e ∈ removed report ↔ e ∈ edges before ∧ e ∉ edges after) ∧
    sublist (added report) (edges after) ∧ sublist (removed report) (edges before).
Proof.
  intros Hnul. unfold analyzeLevels. rewrite map_map. cbn [rep_id report_level]. rewrite map_id.
  destruct (new_set_spec (map fst (own_entries head) ++ map fst (own_entries base))) as [Hnd Hel]. split_and!; [done| |].
  - intros id. by rewrite Hel, elem_of_app, !own_entries_perm.
  - intros report (id & -> & Hid)%list_elem_of_fmap. cbv zeta. cbn [rep_id added removed report_level].
    assert (Hlevel : ∀ graph, graph ⊆ base ++ head → Forall without_nul (edges (level_of graph id))).
    { intros graph Hg. unfold level_of. destruct (table_find graph id) as [level|] eqn:Hfind; [|constructor].
      unfold table_find in Hfind. destruct (List.find _ graph) as [[k l]|] eqn:Hf; [|done]. injection Hfind as <-.
      apply find_some in Hf as [Hin _]. rewrite Forall_forall in Hnul. apply (Hnul (k, l)), Hg. by apply list_elem_of_In. }
    assert (Hb := Hlevel base ltac:(intros x ?; apply elem_of_app; by left)).
    assert (Hh := Hlevel head ltac:(intros x ?; apply elem_of_app; by right)).
    split_and!; [by intros e; apply missing_spec..| |]; unfold edgesMissingFrom; apply sublist_filter_bool.
Qed.

(** ** The drawn part of a diagram *)

Lemma endpoints_elem es n : n ∈ endpoints es ↔ ∃ e, e ∈ es ∧ (n = e.1 ∨ n = e.2).
Proof.
  unfold endpoints. rewrite list_elem_of_In, in_flat_map. setoid_rewrite <-list_elem_of_In. split.
  - intros (e & He & Hn). exists e. rewrite !elem_of_cons, elem_of_nil in Hn. tauto.
  - intros (e & He & Hn). exists e. split; [done|]. rewrite !elem_of_cons, elem_of_nil. tauto.
Qed.

(** A drawn link never points at a node the diagram leaves out: every edge
    chosen for a diagram joins two of its nodes, so both have an id; every
    touched node and every change of the level is drawn; and only the touched
    nodes and the ends of changes may exceed the limit. *)
Lemma drawn_links_have_nodes report maxNodes :
  added report ⊆ rep_edges report →
  let hood := selectNeighbourhood report maxNodes in
  (∀ e, e ∈ hood_edges hood ++ hood_removed hood → ∃ from to,
     table_find (mermaidIds (hood_nodes hood)) e.1 = Some from ∧ table_find (mermaidIds (hood_nodes hood)) e.2 = Some to) ∧
  touched report ⊆ hood_nodes hood ∧ added report ⊆ hood_edges hood ∧ hood_removed hood = removed report ∧
  (∀ e, e ∈ hood_edges hood → e ∈ rep_edges report) ∧
  (Z.of_nat (length (hood_nodes hood)) <= maxNodes ∨
   ∀ n, n ∈ hood_nodes hood → n ∈ touched report ∨ n ∈ endpoints (added report ++ removed report)).
Proof.
  intros Hadded. cbv zeta. unfold selectNeighbourhood. cbv zeta.
  
  set (core := new_set (touched report ++ endpoints (added report) ++ endpoints (removed report))).
  set (drawn := List.filter _ _). set (all := new_set (core ++ _)).
  assert (Hcore : ∀ n, n ∈ core ↔ n ∈ touched report ∨ n ∈ endpoints (added report) ∨ n ∈ endpoints (removed report)).
  { intros n. unfold core. rewrite (proj2 (new_set_spec _)), !elem_of_app. tauto. }
  assert (Hall : ∀ n, n ∈ all ↔ n ∈ core ∨ n ∈ endpoints drawn).
  { intros n. unfold all. by rewrite (proj2 (new_set_spec _)), elem_of_app. }
  assert (Hdrawn : added report ⊆ drawn).
  { intros e He. unfold drawn. apply list_elem_of_In, filter_In. split; [by apply list_elem_of_In, Hadded|].
    unfold is_drawn. rewrite (proj2 (includes_spec (map edge_key (added report)) (edge_key e))) by by apply list_elem_of_fmap_2.
    by rewrite orb_true_r. }
  assert (Hid : ∀ ns e, e.1 ∈ ns → e.2 ∈ ns → ∃ from to,
    table_find (mermaidIds (sort_keys ns)) e.1 = Some from ∧ table_find (mermaidIds (sort_keys ns)) e.2 = Some to).
  { intros ns e H1 H2. destruct (mermaidIds_spec (sort_keys ns)) as (_ & _ & _ & Hel).
    rewrite <-(sort_keys_perm ns), <-Hel in H1, H2. apply entry_found in H1 as [from ->], H2 as [to ->]. by exists from, to. }
  assert (Hends : ∀ es e, e ∈ es → e.1 ∈ endpoints es ∧ e.2 ∈ endpoints es).
  { intros es e He. rewrite !endpoints_elem. split; exists e; auto. }
  destruct (Z.leb_spec (Z.of_nat (length all)) maxNodes); cbn [hood_nodes hood_edges hood_removed]; split_and!; try done.
  - intros e [He|He]%elem_of_app; apply Hid; apply Hall; try (right; by apply Hends); left; apply Hcore; right; right; by apply Hends.
  - intros n Hn. rewrite sort_keys_perm. apply Hall. left. apply Hcore. by left.
  - intros e He. unfold drawn in He. apply list_elem_of_In, filter_In in He as [He _]. by apply list_elem_of_In.
  - left. by rewrite sort_keys_perm.
  - intros e [He|He]%elem_of_app; apply Hid; apply Hcore; right; [left|left|right|right]; by apply Hends.
  - intros n Hn. rewrite sort_keys_perm. apply Hcore. by left.
  - right. intros n Hn. rewrite sort_keys_perm in Hn. apply Hcore in Hn as [Hn|Hn]; [by left|]. right. unfold endpoints in *. rewrite flat_map_app, elem_of_app. tauto.
Qed.

Lemma drawn_links_have_nodes_witness :
  let report := {| rep_id := "l"; rep_label := "L"; rep_edges := [("a", "b"); ("b", "c"); ("d", "e")]; added := [("d", "e")];
                   removed := [("b", "f")]; touched := ["a"]; rep_tags := []; rep_boundary := Some ByNode |} in
  hood_nodes (selectNeighbourhood report 40) = ["a"; "b"; "d"; "e"; "f"] ∧
  hood_edges (selectNeighbourhood report 3) = [("d", "e")] ∧ omitted (selectNeighbourhood report 4) = 0 ∧
  (Z.of_nat (length (hood_nodes (selectNeighbourhood report 40))) <= 40 ∨
   ∀ n, n ∈ hood_nodes (selectNeighbourhood report 40) → n ∈ touched report ∨ n ∈ endpoints (added report ++ removed report)).
Proof.
  intros report. split; [reflexivity|]. split; [reflexivity|]. split; [reflexivity|].
  apply (drawn_links_have_nodes report 40).
  intros e He. apply list_elem_of_singleton in He as ->. cbn. rewrite !elem_of_cons. tauto.
Defined.

Lemma reported_changes_are_exact_witness :
  let base := [("p", normalizeLevel ["a"; "b"; "c"] [("a", "b"); ("b", "c")] None)] in
  let head := [("p", normalizeLevel ["a"; "b"; "c"] [("a", "b"); ("c", "a")] None); ("q", EMPTY_LEVEL)] in
  map added (analyzeLevels base head []) = [[("c", "a")]; []] ∧ map removed (analyzeLevels base head []) = [[("b", "c")]; []] ∧
  NoDup (map rep_id (analyzeLevels base head [])).
Proof.
  intros base head. split; [reflexivity|]. split; [reflexivity|].
  apply (reported_changes_are_exact base head []). by repeat constructor.
Defined.
