(* ===== verification/ArchOwners.v ===== *)
(** * The node a file belongs to

    The lookup by longest prefix of [src/tools/architecture-diff.ts] is the
    walk to the nearest ancestor with an entry; pruning roots and the module
    of a scanned file in [src/tools/architecture-graph.ts] agree with it. *)
From S2P Require Import Prelude JsString JsNum JsValue CanonicalJson Posix ArchGraph ArchSources ArchRender ArchDiff.

(** ** Paths as lists of names, last name first *)

Definition proper (s : string) : Prop := s ≠ "" ∧ s ≠ ".".
Definition plain_path (path : string) : Prop := Forall proper (split_on "/" path).
Definition names (rs : list string) : Prop := Forall (λ s, proper s ∧ index_of "/" s = None) rs.
Definition path_of (rs : list string) : string := join "/" (rev rs).

Lemma join_snoc sep l b : l ≠ [] → join sep (l ++ [b]) = join sep l +:+ sep +:+ b.
Proof.
  induction l as [|x l IH]; [done|]. intros _. destruct l as [|y l]; [done|].
  change (join sep ((x :: y :: l) ++ [b])) with (x +:+ sep +:+ join sep ((y :: l) ++ [b])). rewrite IH by done.
  change (join sep (x :: y :: l)) with (x +:+ sep +:+ join sep (y :: l)). by rewrite <-!str_app_assoc.
Qed.

Lemma rev_not_nil {A} (l : list A) : l ≠ [] → rev l ≠ [].
Proof. intros Hl H. apply Hl. by rewrite <-(rev_involutive l), H. Qed.

Lemma path_of_cons b rs : rs ≠ [] → path_of (b :: rs) = path_of rs +:+ String "/" b.
Proof. intros Hrs. unfold path_of. cbn [rev]. rewrite join_snoc; [done|by apply rev_not_nil]. Qed.

Lemma split_path_of rs : names rs → rs ≠ [] → split_on "/" (path_of rs) = rev rs.
Proof.
  intros Hn Hrs. unfold path_of. apply split_on_join.
  - by apply rev_not_nil.
  - apply Forall_rev. eapply Forall_impl; [exact Hn|]. by intros s [_ ?].
Qed.

Lemma plain_path_names path : plain_path path → names (rev (split_on "/" path)) ∧ path_of (rev (split_on "/" path)) = path ∧ rev (split_on "/" path) ≠ [].
Proof.
  intros Hp. split_and!.
  - apply Forall_rev, Forall_forall. intros s Hs. split; [|by eapply split_on_in_no_sep].
    unfold plain_path in Hp. rewrite Forall_forall in Hp. auto.
  - unfold path_of. rewrite rev_involutive. apply (join_split_on "/").
  - apply rev_not_nil, split_on_nonempty.
Qed.

Lemma path_of_inj rs ks : names rs → names ks → rs ≠ [] → ks ≠ [] → path_of rs = path_of ks → rs = ks.
Proof.
  intros Hr Hk ? ? H%(f_equal (split_on "/")). rewrite !split_path_of in H by done.
  by rewrite <-(rev_involutive rs), H, rev_involutive.
Qed.

Lemma path_of_app l ks : l ≠ [] → ks ≠ [] → path_of (l ++ ks) = path_of ks +:+ String "/" (path_of l).
Proof.
  intros Hl Hk. induction l as [|b l IH]; [done|]. destruct l as [|c l].
  - by apply path_of_cons.
  - rewrite (path_of_cons b (c :: l)) by done. change ((b :: c :: l) ++ ks) with (b :: ((c :: l) ++ ks)).
    rewrite path_of_cons by done. rewrite IH by done. by rewrite <-str_app_assoc.
Qed.

Lemma names_not_top rs : names rs → rs ≠ [] → at_top (path_of rs) = false.
Proof.
  intros Hn Hrs. unfold at_top. apply orb_false_iff. pose proof (split_path_of rs Hn Hrs) as Hs.
  assert (Hall : Forall (λ s, proper s ∧ index_of "/" s = None) (rev rs)) by by apply Forall_rev.
  rewrite <-Hs in Hall. split; apply String.eqb_neq; intros Heq; rewrite Heq in Hall; cbn in Hall;
    apply Forall_cons in Hall as [[[H1 H2] _] _]; done.
Qed.

(** The directory of a path of names, and its ancestors from the nearest. *)
Definition dir_of (rs : list string) : string := match rs with [] => "." | _ => path_of rs end.

Fixpoint ancestors (rs : list string) : list string :=
  match rs with
  | [] => []
  | _ :: up => path_of rs :: ancestors up
  end.

Lemma path_starts rs : names rs → rs ≠ [] → path_of rs ≠ "" ∧ starts_with "/" (path_of rs) = false.
Proof.
  intros Hn Hrs. pose proof (split_path_of rs Hn Hrs) as Hs.
  assert (Hall : Forall (λ s, proper s ∧ index_of "/" s = None) (rev rs)) by by apply Forall_rev.
  rewrite <-Hs in Hall. destruct (path_of rs) as [|c p]; cbn in Hall.
  - apply Forall_cons in Hall as [[[H1 _] _] _]. done.
  - split; [done|]. cbn [starts_with]. rewrite andb_true_r. apply Ascii.eqb_neq. intros <-.
    cbn in Hall. apply Forall_cons in Hall as [[[H1 _] _] _]. done.
Qed.

Lemma dirname_path_of b rs : names (b :: rs) → dirname (path_of (b :: rs)) = dir_of rs.
Proof.
  intros [[[Hb _] Hb'] Hrs]%Forall_cons. destruct rs as [|c rs].
  - apply dirname_name. by split.
  - rewrite path_of_cons by done. destruct (path_starts (c :: rs)) as [? ?]; [done..|]. by apply dirname_app; [split| |].
Qed.

Lemma climb_ancestors fuel stop rs :
  names rs → (length rs < fuel)%nat → climb fuel stop (dir_of rs) = default "." (List.find stop (ancestors rs)).
Proof.
  revert rs. induction fuel as [|fuel IH]; intros rs Hn Hf; [lia|]. destruct rs as [|b rs]; [done|].
  cbn [climb dir_of]. rewrite names_not_top by done. cbn [orb ancestors List.find].
  destruct (stop (path_of (b :: rs))); [done|]. rewrite dirname_path_of by done.
  apply IH; [by apply Forall_cons in Hn as [_ ?]|cbn in Hf; lia].
Qed.

Lemma path_of_length rs : names rs → (length rs <= String.length (path_of rs))%nat.
Proof.
  induction rs as [|b rs IH]; [cbn; lia|]. intros [[[Hb _] _] Hrs]%Forall_cons.
  assert (1 <= String.length b)%nat by (destruct b; cbn; [done|lia]). destruct rs as [|c rs]; [cbn in *; lia|].
  rewrite path_of_cons by done. specialize (IH Hrs). rewrite str_length_app. cbn [String.length List.length] in *. lia.
Qed.

Lemma climb_from_ancestors stop b rs :
  names (b :: rs) → climb_from stop (path_of (b :: rs)) = default "." (List.find stop (ancestors rs)).
Proof.
  intros Hn. unfold climb_from. rewrite dirname_path_of by done.
  pose proof (path_of_length _ Hn) as Hlen. cbn [List.length] in Hlen.
  apply climb_ancestors; [by apply Forall_cons in Hn as [_ ?]|lia].
Qed.

(** ** The longest root is the nearest ancestor *)

Lemma prefix_matches_spec fs ks :
  names fs → names ks → fs ≠ [] → ks ≠ [] → prefix_matches (path_of fs) (path_of ks) = true ↔ ∃ l, fs = l ++ ks.
Proof.
  intros Hf Hk Hfs Hks. unfold prefix_matches.
  assert (String.eqb (path_of ks) "." = false) as ->.
  { pose proof (names_not_top ks Hk Hks) as Ht. unfold at_top in Ht. by apply orb_false_iff in Ht as [-> _]. }
  cbn [orb]. rewrite orb_true_iff, String.eqb_eq, starts_with_spec. split.
  - intros [Heq|[t Ht]].
    + exists []. by apply path_of_inj.
    + exists (rev (split_on "/" t)). apply (f_equal (split_on "/")) in Ht.
      rewrite <-str_app_assoc in Ht. change ("/" +:+ t) with (String "/" t) in Ht.
      rewrite split_on_slash, !split_path_of in Ht by done.
      by rewrite <-(rev_involutive fs), Ht, rev_app_distr, rev_involutive.
  - intros [l ->]. destruct l as [|b l]; [by left|]. right. exists (path_of (b :: l)).
    rewrite path_of_app by done. by rewrite <-str_app_assoc.
Qed.

Lemma ancestors_elem rs p : p ∈ ancestors rs ↔ ∃ l ks, rs = l ++ ks ∧ ks ≠ [] ∧ p = path_of ks.
Proof.
  induction rs as [|b rs IH]; cbn [ancestors].
  - rewrite elem_of_nil. split; [done|]. intros (l & ks & H & ? & _). by destruct l, ks.
  - rewrite elem_of_cons, IH. split.
    + intros [->|(l & ks & -> & ? & ->)]; [by exists [], (b :: rs)|by exists (b :: l), ks].
    + intros ([|c l] & ks & H & ? & ->); [cbn in H; by left; rewrite H|]. injection H as <- ->. right. eauto.
Qed.

(** The value at the nearest ancestor that has one. *)
Definition lookup_up (r : list (string * string)) (rs : list string) : option string :=
  first_some (map (table_find r) (ancestors rs)).

Definition plain_roots (r : list (string * string)) : Prop := NoDup (map fst r) ∧ Forall (λ root, plain_path root.1) r.

Lemma best_root_ext f g r best :
  Forall (λ root, prefix_matches f root.1 = prefix_matches g root.1) r →
  fold_left (better_root f) r best = fold_left (better_root g) r best.
Proof.
  intros H. revert best. induction H as [|root r Hr H IH]; intros best; cbn; [done|].
  unfold better_root at 2 4. by rewrite Hr, IH.
Qed.

Lemma best_root_none f r best :
  Forall (λ root, prefix_matches f root.1 = false) r → fold_left (better_root f) r best = best.
Proof. intros H. induction H as [|root r Hr H IH]; cbn; [done|]. unfold better_root at 2. by rewrite Hr. Qed.

Lemma best_root_max f r k n best :
  prefix_matches f k = true →
  Forall (λ root, prefix_matches f root.1 = true → root = (k, n) ∨ root_length root.1 < root_length k) r →
  (best = (Some n, root_length k) ∨ best.2 < root_length k ∧ (k, n) ∈ r) →
  fold_left (better_root f) r best = (Some n, root_length k).
Proof.
  intros Hk H. revert best. induction H as [|root r Hr H IH]; intros best Hb; cbn.
  - destruct Hb as [->|[_ ?%elem_of_nil]]; done.
  - apply IH. unfold better_root. destruct (prefix_matches f root.1) eqn:Hm; cbn [andb].
    + destruct (Hr eq_refl) as [->|Hlt]; cbn [fst snd].
      * destruct (Z.ltb_spec best.2 (root_length k)); [by left|]. destruct Hb as [->|[? _]]; [by left|lia].
      * destruct Hb as [->|[Hb [<-|Hin]%elem_of_cons]]; [left|cbn in *; lia|].
        -- cbn. by destruct (Z.ltb_spec (root_length k) (root_length root.1)); [lia|].
        -- right. split; [|done]. by destruct (Z.ltb_spec best.2 (root_length root.1)).
    + destruct Hb as [->|[Hb [<-|Hin]%elem_of_cons]]; [by left|cbn in Hm; congruence|by right].
Qed.

Lemma root_length_path rs : names rs → rs ≠ [] → root_length (path_of rs) = slen (path_of rs).
Proof.
  intros Hn Hrs. unfold root_length. pose proof (names_not_top rs Hn Hrs) as Ht. unfold at_top in Ht.
  by apply orb_false_iff in Ht as [-> _].
Qed.

Lemma path_of_suffix_shorter l ks : l ≠ [] → ks ≠ [] → slen (path_of ks) < slen (path_of (l ++ ks)).
Proof. intros Hl Hk. rewrite path_of_app, slen_app by done. unfold slen. cbn [String.length]. lia. Qed.

Lemma plain_root_in r root : plain_roots r → root ∈ r → ∃ ks, names ks ∧ ks ≠ [] ∧ root.1 = path_of ks.
Proof.
  intros [_ H] Hin. rewrite Forall_forall in H. destruct (plain_path_names _ (H _ Hin)) as (? & Hp & ?). by exists (rev (split_on "/" root.1)).
Qed.

Lemma best_root_up r rs :
  plain_roots r → names rs → rs ≠ [] → (fold_left (better_root (path_of rs)) r (None, -1)).1 = lookup_up r rs.
Proof.
  intros Hr. induction rs as [|b up IH]; intros Hn Hrs; [done|]. unfold lookup_up. cbn [ancestors map first_some].
  destruct (table_find r (path_of (b :: up))) as [n|] eqn:Hf.
  - apply table_find_Some in Hf; [|apply Hr].
    rewrite (best_root_max _ r (path_of (b :: up)) n); [done| | |].
    + apply prefix_matches_spec; try done. by exists [].
    + apply Forall_forall. intros [k v] Hin Hm. destruct (plain_root_in r _ Hr Hin) as (ks & Hk & Hks & Heq). cbn [fst] in *. subst k.
      apply prefix_matches_spec in Hm as [[|c l] Hl]; try done.
      * left. cbn in Hl. subst ks. f_equal. destruct Hr as [Hnd _]. apply table_find_Some in Hin, Hf; try done. congruence.
      * right. rewrite !root_length_path, Hl by done. by apply path_of_suffix_shorter.
    + right. split; [|done]. rewrite root_length_path by done. change (-1 < slen (path_of (b :: up))). pose proof (slen_nonneg (path_of (b :: up))). lia.
  - assert (Hother : ∀ root, root ∈ r → ∃ ks, names ks ∧ ks ≠ [] ∧ root.1 = path_of ks ∧ ks ≠ b :: up).
    { intros root Hin. destruct (plain_root_in r root Hr Hin) as (ks & Hk & Hks & Heq). exists ks. split_and!; try done.
      intros ->. apply table_find_None in Hf. apply Hf. rewrite <-Heq. by apply list_elem_of_fmap_2. }
    assert (Hup : names up) by by apply Forall_cons in Hn as [_ ?].
    destruct up as [|c up].
    + rewrite best_root_none; [done|]. apply Forall_forall. intros root Hin. destruct (Hother root Hin) as (ks & Hk & Hks & Heq & Hne).
      apply not_true_iff_false. rewrite Heq, prefix_matches_spec by done. intros [[|d l] Hl]; [done|]. by destruct l, ks.
    + rewrite (best_root_ext _ (path_of (c :: up))); [by apply IH|]. apply Forall_forall. intros root Hin.
      destruct (Hother root Hin) as (ks & Hk & Hks & Heq & Hne). rewrite Heq. apply eq_true_iff_eq. rewrite !prefix_matches_spec by done. split.
      * intros [[|d l] Hl]; [by cbn in Hl|]. injection Hl as _ Hl. by exists l.
      * intros [l Hl]. exists (b :: l). cbn. by rewrite Hl.
Qed.

Lemma nodeForFile_up level r file :
  roots level = Some r → plain_roots r → plain_path file → nodeForFile level file = lookup_up r (rev (split_on "/" file)).
Proof.
  intros Hroots Hr Hf. destruct (plain_path_names file Hf) as (Hn & Hp & Hne).
  unfold nodeForFile. rewrite Hroots. cbn [default]. rewrite <-(best_root_up r _ Hr Hn Hne), Hp. done.
Qed.

Lemma table_find_filter (f : string * string → bool) r k :
  NoDup (map fst r) →
  table_find (List.filter f r) k = (v ← table_find r k; if f (k, v) then Some v else None) ∧ NoDup (map fst (List.filter f r)).
Proof.
  induction r as [|[k' v'] r IH]; [done|]. cbn [map fst]. intros [Hk Hnd]%NoDup_cons. destruct (IH Hnd) as [IH1 IH2].
  rewrite table_find_cons. cbn [List.filter]. assert (Hsub : map fst (List.filter f r) ⊆ map fst r).
  { intros x (y & -> & Hy)%list_elem_of_fmap. apply list_elem_of_In, filter_In in Hy as [Hy _]. apply list_elem_of_fmap_2. by apply list_elem_of_In. }
  destruct (f (k', v')) eqn:Hf; rewrite ?table_find_cons, IH1.
  - split; [|cbn; apply NoDup_cons; split; [by intros ?%Hsub|done]]. destruct (String.eqb_spec k k') as [->|]; [|done]. cbn. by rewrite Hf.
  - split; [|done]. destruct (String.eqb_spec k k') as [->|]; [|done]. cbn. rewrite Hf.
    by rewrite (proj2 (table_find_None r k') Hk).
Qed.

Lemma first_some_find (r : list (string * string)) ps :
  first_some (map (table_find r) ps) = (List.find (has_entry r) ps ≫= table_find r).
Proof.
  induction ps as [|p ps IH]; [done|]. cbn. unfold has_entry at 1. destruct (table_find r p) as [v|] eqn:Hp.
  - assert (includes (map fst r) p = true) as ->; [|cbn; by rewrite Hp].
    apply includes_spec. destruct (decide (p ∈ map fst r)); [done|]. apply table_find_None in n. congruence.
  - assert (includes (map fst r) p = false) as ->; [|done]. apply includes_false. by apply table_find_None.
Qed.

Lemma no_dot_root r : plain_roots r → table_find r "." = None.
Proof.
  intros [_ H]. apply table_find_None. intros ([k v] & Hk & Hin)%list_elem_of_fmap. rewrite Forall_forall in H. specialize (H _ Hin).
  cbn in *. subst k. unfold plain_path in H. cbn in H. apply Forall_cons in H as [[_ ?] _]. done.
Qed.

(** A root is dropped exactly when its ancestors already give its node. *)
Lemma pruned_find all b up :
  plain_roots all → names (b :: up) →
  table_find (pruneRoots all) (path_of (b :: up)) =
    (n ← table_find all (path_of (b :: up)); if bool_decide (lookup_up all up = Some n) then None else Some n).
Proof.
  intros Hall Hn. unfold pruneRoots. destruct (table_find_filter (keeps_root all) all (path_of (b :: up)) (proj1 Hall)) as [Hf Hnd].
  rewrite <-(table_find_perm _ _ _ Hnd (symmetry (sortedRecord_perm _))), Hf.
  destruct (table_find all (path_of (b :: up))) as [n|]; [|done]. cbn [mbind option_bind].
  unfold keeps_root. cbn [fst snd]. rewrite climb_from_ancestors by done. unfold lookup_up. rewrite first_some_find.
  destruct (List.find (has_entry all) (ancestors up)) as [a|]; cbn [default mbind option_bind].
  - by repeat case_bool_decide.
  - by rewrite (no_dot_root all Hall), !bool_decide_eq_false_2.
Qed.

Lemma pruned_plain all : plain_roots all → plain_roots (pruneRoots all).
Proof.
  intros [Hnd Hall]. split.
  - unfold pruneRoots. rewrite sortedRecord_perm. by apply (table_find_filter _ _ ".").
  - unfold pruneRoots. rewrite sortedRecord_perm. apply Forall_forall. intros x Hx. rewrite Forall_forall in Hall. apply Hall.
    apply list_elem_of_In in Hx. apply filter_In in Hx as [Hx _]. by apply list_elem_of_In.
Qed.

Lemma pruned_lookup all rs : plain_roots all → names rs → lookup_up (pruneRoots all) rs = lookup_up all rs.
Proof.
  intros Hall. induction rs as [|b up IH]; intros Hn; [done|]. specialize (IH (proj2 (proj1 (Forall_cons _ _ _) Hn))).
  unfold lookup_up in *. cbn [ancestors map first_some]. rewrite pruned_find by done.
  destruct (table_find all (path_of (b :: up))) as [n|]; cbn [mbind option_bind]; [|done].
  unfold lookup_up. destruct (bool_decide_reflect (first_some (map (table_find all) (ancestors up)) = Some n)) as [Hup|]; [by rewrite IH|done].
Qed.

(** Dropping the roots whose nearest ancestor root already maps to the
    same node changes no answer of the lookup by longest prefix, for every
    file below the checkout, when no root is the checkout itself. *)
Lemma pruned_roots_answer_the_same level all file :
  plain_roots all → plain_path file →
  nodeForFile (with_roots (pruneRoots all) (boundary level) level) file = nodeForFile (with_roots all (boundary level) level) file.
Proof.
  intros Hall Hf. rewrite (nodeForFile_up _ (pruneRoots all)), (nodeForFile_up _ all); try done; [|by apply pruned_plain].
  apply pruned_lookup; [done|]. by apply plain_path_names.
Qed.

Definition sample_roots : list (string * string) :=
  [("src/a", "x"); ("src/a/b", "x"); ("src/a/b/c", "y"); ("src/a/b/c/d", "y"); ("src/a/b/c/d/e", "x")].

Lemma pruned_roots_answer_the_same_witness :
  pruneRoots sample_roots = [("src/a", "x"); ("src/a/b/c", "y"); ("src/a/b/c/d/e", "x")] ∧
  nodeForFile (with_roots (pruneRoots sample_roots) None EMPTY_LEVEL) "src/a/b/c/d/F.java" =
  nodeForFile (with_roots sample_roots None EMPTY_LEVEL) "src/a/b/c/d/F.java".
Proof.
  split; [reflexivity|]. apply (pruned_roots_answer_the_same EMPTY_LEVEL).
  - split; [apply (bool_decide_unpack (NoDup _)); vm_compute; exact I|]. by repeat constructor.
  - by repeat constructor.
Defined.

(** The checkout itself as a root is its own nearest ancestor, so it is
    dropped although nothing else answers for its files. *)
Lemma checkout_root_is_lost :
  nodeForFile (with_roots [(".", "com.acme")] None EMPTY_LEVEL) "Main.java" = Some "com.acme" ∧
  nodeForFile (with_roots (pruneRoots [(".", "com.acme")]) None EMPTY_LEVEL) "Main.java" = None.
Proof. done. Qed.

(** ** The owner of a scanned TypeScript file *)

Lemma put_all_find {A} (g : string → A) ms r k :
  table_find (put_all (map (λ m, (m, g m)) ms) r) k = if includes ms k then Some (g k) else table_find r k.
Proof.
  revert r. induction ms as [|m ms IH]; intros r; [done|]. unfold put_all in *. cbn [map fold_left fst snd]. rewrite IH, put_find.
  change (includes (m :: ms) k) with (String.eqb k m || includes ms k).
  destruct (includes ms k); [by rewrite orb_true_r|]. rewrite orb_false_r. by destruct (String.eqb_spec k m) as [->|].
Qed.

Lemma put_all_keys {A} (entries r : list (string * A)) :
  NoDup (map fst r) → NoDup (map fst (put_all entries r)) ∧
  ∀ k, k ∈ map fst (put_all entries r) → k ∈ map fst r ∨ k ∈ map fst entries.
Proof.
  revert r. induction entries as [|[k v] entries IH]; intros r Hr; cbn; [by split; [|left]|].
  destruct (IH (put k v r)) as [Hnd Hel]; [by apply put_NoDup|]. split; [done|]. intros k' [Hk|Hk]%Hel; rewrite elem_of_cons; [|by right; right].
  apply put_keys in Hk as [->|]; [by right; left|by left].
Qed.

Lemma add_directories_elem fuel rs directories d :
  names rs → d ∈ add_directories fuel (dir_of rs) directories → d ∈ directories ∨ d ∈ ancestors rs.
Proof.
  revert rs directories. induction fuel as [|fuel IH]; intros rs directories Hn; cbn [add_directories]; [by left|].
  destruct (at_top (dir_of rs) || includes directories (dir_of rs)) eqn:Htop; [by left|].
  destruct rs as [|b up]; [done|]. cbn [dir_of]. rewrite dirname_path_of by done.
  intros [Hd|Hd]%IH; [| |by apply Forall_cons in Hn as [_ ?]]; cbn [ancestors]; rewrite elem_of_cons; [|by right; right].
  apply elem_of_app in Hd as [?|Hd]; [by left|]. apply list_elem_of_singleton in Hd as ->. by right; left.
Qed.

Lemma sourceDirectories_elem files d :
  Forall plain_path files → d ∈ sourceDirectories files → ∃ rs, names rs ∧ rs ≠ [] ∧ d = path_of rs.
Proof.
  intros Hf. unfold sourceDirectories.
  assert (∀ ds, d ∈ fold_left (λ directories file, add_directories (S (String.length file)) (dirname file) directories) files ds →
    d ∈ ds ∨ ∃ rs, names rs ∧ rs ≠ [] ∧ d = path_of rs) as H; [|by intros [?%elem_of_nil|]%H].
  induction Hf as [|file files Hfile Hf IH]; intros ds; cbn [fold_left]; [by left|].
  intros [Hd|]%IH; [|by right]. destruct (plain_path_names file Hfile) as (Hn & Hp & Hne).
  destruct (rev (split_on "/" file)) as [|b up] eqn:Hrev; [done|]. rewrite <-Hp, dirname_path_of in Hd by done.
  assert (Hup : names up) by by apply Forall_cons in Hn as [_ ?].
  apply add_directories_elem in Hd as [?|Hd]; [by left| |done]. apply ancestors_elem in Hd as (l & ks & -> & Hks & ->).
  right. exists ks. by apply Forall_app in Hup as [_ ?].
Qed.

Lemma module_tags_plain input m :
  Forall plain_path (map fst (own_entries (sources input))) → m ∈ map fst (module_tags input) → ∃ rs, names rs ∧ rs ≠ [] ∧ m = path_of rs.
Proof.
  intros Hf ([m' ts] & -> & (d & Hd & Hin)%list_elem_of_omap)%list_elem_of_fmap. cbn.
  destruct (directory_tags d _) as [ts'|] in Hin; [|done]. injection Hin as <- <-. by eapply sourceDirectories_elem.
Qed.

Lemma path_of_plain rs : names rs → rs ≠ [] → plain_path (path_of rs).
Proof.
  intros Hn Hrs. unfold plain_path. rewrite split_path_of by done. apply Forall_rev. eapply Forall_impl; [exact Hn|]. by intros s [? _].
Qed.

Lemma find_split {A} (f : A → bool) ps m :
  List.find f ps = Some m → ∃ before after, ps = before ++ m :: after ∧ Forall (λ p, f p = false) before ∧ f m = true.
Proof.
  induction ps as [|p ps IH]; cbn; [done|]. destruct (f p) eqn:Hp.
  - intros [= ->]. by exists [], ps.
  - intros (before & after & -> & Hb & Hm)%IH. exists (p :: before), after. by repeat constructor.
Qed.

Lemma ancestors_before rs before m after p :
  ancestors rs = before ++ m :: after → p ∈ before → starts_with (m +:+ "/") p = true.
Proof.
  revert before. induction rs as [|b up IH]; intros before Hsplit Hp; [by destruct before|].
  destruct before as [|q before]; [by apply elem_of_nil in Hp|]. cbn [ancestors app] in Hsplit. injection Hsplit as <- Hsplit.
  apply elem_of_cons in Hp as [->|Hp]; [|by eapply IH].
  assert (Hm : m ∈ ancestors up) by (rewrite Hsplit, elem_of_app, elem_of_cons; tauto).
  apply ancestors_elem in Hm as (l & ks & -> & Hks & ->). apply starts_with_spec. exists (path_of (b :: l)).
  pose proof (path_of_app (b :: l) ks) as Ha. cbn [app] in Ha. rewrite Ha by done. by rewrite <-str_app_assoc.
Qed.

Lemma first_some_skip (r : list (string * string)) before p after v :
  Forall (λ q, table_find r q = None) before → table_find r p = Some v →
  first_some (map (table_find r) (before ++ p :: after)) = Some v.
Proof. intros H Hp. induction H as [|q before Hq H IH]; cbn; [by rewrite Hp|]. by rewrite Hq. Qed.

Definition scanned_files (input : UiModuleInput) : list string := map fst (own_entries (sources input)).

(** Paths of names only; a file is not a directory, and no scanned directory
    is inside a module. *)
Record laid_out (input : UiModuleInput) : Prop := {
  files_plain : Forall plain_path (scanned_files input);
  roots_plain : Forall plain_path (sourceRoots input);
  files_not_modules : ∀ f, f ∈ scanned_files input → f ∉ map fst (module_tags input);
  no_root_inside : ∀ r m, r ∈ sourceRoots input → m ∈ map fst (module_tags input) → starts_with (m +:+ "/") r = false }.

Section owner.
Variable input : UiModuleInput.
Hypothesis layout : laid_out input.
Let files := scanned_files input.
Let tagged := map fst (module_tags input).

Let module_nodes := new_set (map (moduleOf (module_tags input)) files).
Let owners := sortedRecord (module_roots input (module_tags input) module_nodes).

Lemma owners_plain : plain_roots owners.
Proof.
unfold owners, module_roots. destruct (put_all_keys (map (λ r, (r, ROOT_MODULE)) (sourceRoots input)) []) as [Hnd Hel]; [apply NoDup_nil_2|].
set (scanned := if includes module_nodes ROOT_MODULE then _ else _).
destruct (put_all_keys scanned []) as [Hnd1 Hel1]; [apply NoDup_nil_2|].
destruct (put_all_keys (map (λ m, (m, m)) (List.filter (includes module_nodes) tagged)) (put_all scanned [])) as [Hnd2 Hel2]; [done|].
split; rewrite sortedRecord_perm; [done|]. apply Forall_forall. intros root Hroot. specialize (Hel2 root.1 (list_elem_of_fmap_2 fst _ _ Hroot)).
destruct Hel2 as [Hin|Hin]; [apply Hel1 in Hin as [Hin|Hin]; [by apply elem_of_nil in Hin|]|].
- unfold scanned in Hin. destruct (includes module_nodes ROOT_MODULE); [|by apply elem_of_nil in Hin].
  rewrite map_map in Hin. cbn in Hin. rewrite map_id in Hin. pose proof (roots_plain input layout) as Hp. rewrite Forall_forall in Hp. auto.
- rewrite map_map in Hin. cbn in Hin. rewrite map_id in Hin. apply list_elem_of_In, filter_In in Hin as [Hin _]. apply list_elem_of_In in Hin.
  destruct (module_tags_plain input root.1 (files_plain input layout) Hin) as (rs & Hn & Hne & ->). by apply path_of_plain.
Qed.

Lemma owners_find k :
table_find owners k =
  if includes (List.filter (includes module_nodes) tagged) k then Some k
  else if includes module_nodes ROOT_MODULE && includes (sourceRoots input) k then Some ROOT_MODULE else None.
Proof.
assert (Hnd : NoDup (map fst (module_roots input (module_tags input) module_nodes))).
{ unfold module_roots. apply put_all_keys, put_all_keys. apply NoDup_nil_2. }
unfold owners. rewrite <-(table_find_perm _ _ _ Hnd (symmetry (sortedRecord_perm _))). unfold module_roots.
rewrite (put_all_find (λ m, m)). destruct (includes _ k); [done|].
destruct (includes module_nodes ROOT_MODULE); [|done]. by rewrite (put_all_find (λ _, ROOT_MODULE)).
Qed.

Lemma moduleOf_cases b up :
names (b :: up) → path_of (b :: up) ∉ tagged →
match List.find (has_entry (module_tags input)) (ancestors (b :: up)) with
| Some m => moduleOf (module_tags input) (path_of (b :: up)) = m ∧ m ∈ tagged
| None => moduleOf (module_tags input) (path_of (b :: up)) = ROOT_MODULE
end.
Proof.
intros Hn Hfile. cbn [ancestors List.find]. unfold has_entry at 1.
rewrite (proj2 (includes_false (map fst (module_tags input)) _) Hfile). unfold moduleOf. rewrite climb_from_ancestors by done.
destruct (List.find (has_entry (module_tags input)) (ancestors up)) as [m|] eqn:Hm; [|done].
apply find_some in Hm as [Hin Hm]. apply list_elem_of_In, ancestors_elem in Hin as (l & ks & -> & Hks & ->).
apply includes_spec in Hm. change (default "." (Some (path_of ks))) with (path_of ks). rewrite names_not_top; [done| |done].
apply Forall_cons in Hn as [_ Hn]. by apply Forall_app in Hn as [_ ?].
Qed.

Lemma owner_found file :
file ∈ files → (∃ r, r ∈ sourceRoots input ∧ starts_with (r +:+ "/") file = true) →
lookup_up owners (rev (split_on "/" file)) = Some (moduleOf (module_tags input) file).
Proof.
intros Hfile (r & Hr & Hunder). pose proof (files_plain input layout) as Hp. rewrite Forall_forall in Hp.
destruct (plain_path_names file (Hp _ Hfile)) as (Hn & Hpath & Hne).
pose proof (files_not_modules input layout file Hfile) as Hnot.
assert (Hnode : moduleOf (module_tags input) file ∈ module_nodes).
{ apply new_set_spec. by apply list_elem_of_fmap_2. }
destruct (rev (split_on "/" file)) as [|b up]; [done|]. rewrite <-Hpath in Hnot, Hnode, Hunder |- *.
pose proof (moduleOf_cases b up Hn Hnot) as Hcase. unfold lookup_up.
destruct (List.find _ _) as [m|] eqn:Hfind.
- destruct Hcase as [Hm Hin]. rewrite Hm in *. apply find_split in Hfind as (before & after & Hsplit & Hbefore & _). rewrite Hsplit.
  apply first_some_skip.
  + rewrite Forall_forall in Hbefore. apply Forall_forall. intros q Hq. rewrite owners_find.
    assert (Hqt : q ∉ tagged) by (apply includes_false; by apply Hbefore).
    rewrite (proj2 (includes_false _ _)) by (intros [? _]%list_elem_of_In%filter_In; apply Hqt; by apply list_elem_of_In).
    destruct (includes module_nodes ROOT_MODULE); [|done]. cbn [andb]. destruct (includes (sourceRoots input) q) eqn:Hqr; [|done].
    apply includes_spec in Hqr. pose proof (no_root_inside input layout q m Hqr Hin) as Hno.
    by rewrite (ancestors_before _ _ _ _ _ Hsplit Hq) in Hno.
  + rewrite owners_find. assert (includes (List.filter (includes module_nodes) tagged) m = true) as ->; [|done].
    apply includes_spec, list_elem_of_In, filter_In. split; [by apply list_elem_of_In|]. by apply includes_spec.
- rewrite Hcase in *.
  assert (Hall : ∀ q, q ∈ ancestors (b :: up) → table_find owners q = if includes (sourceRoots input) q then Some ROOT_MODULE else None).
  { intros q Hq. rewrite owners_find. apply find_none_iff in Hfind. rewrite Forall_forall in Hfind.
    assert (Hqt : q ∉ tagged) by (apply includes_false; by apply Hfind).
    rewrite (proj2 (includes_false _ _)) by (intros [? _]%list_elem_of_In%filter_In; apply Hqt; by apply list_elem_of_In).
    by rewrite (proj2 (includes_spec module_nodes ROOT_MODULE) Hnode). }
  assert (Hr' : r ∈ ancestors (b :: up)).
  { pose proof (roots_plain input layout) as Hrp. rewrite Forall_forall in Hrp. destruct (plain_path_names r (Hrp _ Hr)) as (Hrn & Hrpath & Hrne).
    apply ancestors_elem. destruct (proj1 (prefix_matches_spec (b :: up) (rev (split_on "/" r)) Hn Hrn Hne Hrne)) as [l Hl]; [|by exists l, (rev (split_on "/" r))].
    unfold prefix_matches. rewrite Hrpath, Hunder. by rewrite orb_true_r. }
  clear Hcase Hfind. revert Hall Hr'. generalize (ancestors (b :: up)). intros ps Hall Hr'. induction ps as [|p ps IH]; [by apply elem_of_nil in Hr'|].
  cbn [map first_some]. rewrite Hall by by apply elem_of_cons; left. destruct (includes (sourceRoots input) p) eqn:Hpr; [done|].
  apply elem_of_cons in Hr' as [->|Hr']; [by apply includes_false in Hpr|]. apply IH; [|done]. intros q Hq. apply Hall, elem_of_cons. by right.
Qed.
End owner.


Definition shop_input : UiModuleInput := {|
  modules := [("libs/<lib>", ["scope:<lib>"]); ("libs/<lib>/ui", ["ui"; "scope:<lib>"])];
  sources := [("libs/shop/a.ts", ""); ("libs/shop/ui/b.ts", ""); ("libs/main.ts", "")];
  aliases := []; sourceRoots := ["libs"] |}.

Lemma shop_laid_out : laid_out shop_input.
Proof.
  split.
  - by repeat constructor.
  - by repeat constructor.
  - apply Forall_forall. apply (bool_decide_unpack (Forall _ _)). vm_compute. exact I.
  - intros r m Hr. apply list_elem_of_singleton in Hr as ->. revert m. apply (Forall_forall (λ m, starts_with (m +:+ "/") "libs" = false)).
    apply (bool_decide_unpack (Forall _ _)). vm_compute. exact I.
Qed.

