(* ===== verification/ArchSplice.v ===== *)
(** * Splicing a section into a description

    [spliceSection] and [markerLine] of [src/tools/architecture-diff.ts]: the
    marked section of a pull request description is replaced or appended. *)
From S2P Require Import Prelude JsString JsNum JsValue RuntimeErrors CanonicalJson Posix ArchGraph ArchSources ArchRender ArchDiff.

Definition LF : ascii := "010".
Definition CR : ascii := "013".
Definition lf : string := String LF "".
Definition crlf : string := String CR lf.

(** [s.indexOf(pattern)], [s.indexOf(pattern, from)] *)
Fixpoint index_sub (pattern s : string) : option nat :=
  if starts_with pattern s then Some O
  else match s with "" => None | String _ s' => S <$> index_sub pattern s' end.
Definition index_sub_from (pattern s : string) (from : nat) : option nat :=
  (λ i, (from + i)%nat) <$> index_sub pattern (drop_str from s).

(** [s.split(pattern).length - 1] *)
Fixpoint occurrences (pattern : string) (skip : nat) (s : string) : nat :=
  match s with
  | "" => O
  | String _ s' =>
      match skip with
      | S k => occurrences pattern k s'
      | O => if starts_with pattern s then S (occurrences pattern (Nat.pred (String.length pattern)) s')
             else occurrences pattern O s'
      end
  end.

(** [section.replace(/\r?\n$/u, '')] *)
Definition trim_section (section : string) : string :=
  if ends_with lf section then without_final_cr (take_str (String.length section - 1) section) else section.

(** [trimmed.replace(/\r?\n/gu, eol)] *)
Fixpoint with_eol (eol s : string) : string :=
  match s with
  | "" => ""
  | String c rest =>
      if Ascii.eqb c LF then eol +:+ with_eol eol rest
      else if Ascii.eqb c CR then
        match rest with
        | String d rest' => if Ascii.eqb d LF then eol +:+ with_eol eol rest' else String c (with_eol eol rest)
        | "" => String c ""
        end
      else String c (with_eol eol rest)
  end.

(** [/^(\r?\n|$)/u.test(after)] *)
Definition is_line_end (after : string) : bool := String.eqb after "" || starts_with lf after || starts_with crlf after.

(** [index === 0 || body[index - 1] === '\n'] *)
Definition is_line_start (body : string) (index : nat) : bool :=
  match index with O => true | S i => starts_with lf (drop_str i body) end.

Fixpoint marker_line (fuel : nat) (body marker : string) (from : nat) : option nat :=
  match fuel with
  | O => None
  | S fuel =>
      match index_sub_from marker body from with
      | None => None
      | Some index =>
          if is_line_start body index && is_line_end (drop_str (index + String.length marker) body) then Some index
          else marker_line fuel body marker (index + String.length marker)
      end
  end.
(** Every round starts further to the right. *)
Definition markerLine (body marker : string) (from : nat) : option nat := marker_line (S (String.length body)) body marker from.

Definition bad_section : string := "The section must start with " +:+ SECTION_START +:+ " and end with " +:+ SECTION_END +:+ ", once each.".
Definition bad_description : string :=
  "The description has " +:+ SECTION_START +:+ " without " +:+ SECTION_END +:+ " after it; fix the markers by hand.".

Definition well_marked (trimmed : string) : bool :=
  starts_with SECTION_START trimmed && ends_with SECTION_END trimmed &&
  Nat.eqb (occurrences SECTION_START 0 trimmed) 1 && Nat.eqb (occurrences SECTION_END 0 trimmed) 1.

(** [body.includes('\r\n') ? '\r\n' : '\n'] *)
Definition eol_of (body : string) : string := match index_sub crlf body with Some _ => crlf | None => lf end.

Definition spliceSection (body section : string) : result string string :=
  let trimmed := trim_section section in
  if negb (well_marked trimmed) then Err bad_section
  else
    let eol := eol_of body in
    let block := with_eol eol trimmed in
    match markerLine body SECTION_START 0 with
    | Some start =>
        match markerLine body SECTION_END (start + String.length SECTION_START) with
        | None => Err bad_description
        | Some end_ => Ok (take_str start body +:+ block +:+ drop_str (end_ + String.length SECTION_END) body)
        end
    | None =>
        if String.eqb body "" then Ok block
        else Ok (body +:+ (if ends_with lf body then eol else eol +:+ eol) +:+ block)
    end.

(** ** Characters by position *)

Definition chars (s : string) : list ascii := list_ascii_of_string s.

Lemma chars_app s t : chars (s +:+ t) = chars s ++ chars t.
Proof. unfold chars. induction s as [|c s IH]; cbn; [done|]. by rewrite IH. Qed.

Lemma chars_length s : length (chars s) = String.length s.
Proof. unfold chars. induction s as [|c s IH]; cbn; congruence. Qed.

Lemma chars_inj s t : chars s = chars t → s = t.
Proof. intros H%(f_equal string_of_list_ascii). unfold chars in H. by rewrite !string_of_list_ascii_of_string in H. Qed.

Lemma chars_drop n s : chars (drop_str n s) = drop n (chars s).
Proof. revert s. induction n as [|n IH]; intros [|c s]; cbn; [done..|apply IH]. Qed.

Lemma chars_take n s : chars (take_str n s) = take n (chars s).
Proof. revert s. induction n as [|n IH]; intros [|c s]; cbn; [done..|]. f_equal. apply IH. Qed.

Lemma starts_with_chars p s : starts_with p s = true ↔ chars p `prefix_of` chars s.
Proof.
  rewrite starts_with_spec. split.
  - intros [t ->]. rewrite chars_app. by apply prefix_app_r.
  - intros [k Hk]. exists (string_of_list_ascii k). apply chars_inj. rewrite chars_app, Hk. f_equal.
    unfold chars. by rewrite list_ascii_of_string_of_list_ascii.
Qed.

(** ** A marker that fills a line *)

Section marker.
Variable marker : string.

Definition occurs_at (s : list ascii) (i : nat) : Prop := chars marker `prefix_of` drop i s.
Definition after_break (s : list ascii) (i : nat) : Prop := i = O ∨ ∃ j, i = S j ∧ s !! j = Some LF.
Definition before_break (s : list ascii) (i : nat) : Prop :=
s !! i = None ∨ s !! i = Some LF ∨ s !! i = Some CR ∧ s !! S i = Some LF.
Definition line_at (s : list ascii) (i : nat) : Prop :=
occurs_at s i ∧ after_break s i ∧ before_break s (i + String.length marker).

Lemma occurs_at_lookup s i k : occurs_at s i → (k < String.length marker)%nat → s !! (i + k)%nat = chars marker !! k.
Proof.
intros [t Ht] Hk. rewrite <-lookup_drop, Ht. apply lookup_app_l. by rewrite chars_length.
Qed.

Lemma is_line_start_spec body i : is_line_start body i = true ↔ after_break (chars body) i.
Proof.
unfold after_break. destruct i as [|i]; cbn [is_line_start]; [naive_solver|].
rewrite starts_with_chars, chars_drop. split.
- intros [t Ht]. right. exists i. split; [done|]. rewrite <-(Nat.add_0_r i), <-lookup_drop, Ht. done.
- intros [?|(j & [= <-] & Hj)]; [done|]. rewrite (drop_S _ _ _ Hj). by exists (drop (S i) (chars body)).
Qed.

Lemma is_line_end_spec body i : is_line_end (drop_str i body) = true ↔ before_break (chars body) i.
Proof.
unfold is_line_end, before_break. rewrite !orb_true_iff, String.eqb_eq, !starts_with_chars, chars_drop. split.
- intros [[He|[t Ht]]|[t Ht]].
  + left. apply (f_equal chars) in He. rewrite chars_drop in He. apply lookup_ge_None. apply (f_equal length) in He. rewrite length_drop in He. cbn in He. lia.
  + right. left. rewrite <-(Nat.add_0_r i), <-lookup_drop, Ht. done.
  + right. right. rewrite <-(Nat.add_0_r i) at 1. rewrite <-(Nat.add_1_r i), <-!lookup_drop, Ht. done.
- intros [Hn|[Hl|[Hc Hl]]].
  + left. left. apply chars_inj. rewrite chars_drop. apply drop_ge. by apply lookup_ge_None.
  + left. right. rewrite (drop_S _ _ _ Hl). by exists (drop (S i) (chars body)).
  + right. rewrite (drop_S _ _ _ Hc), (drop_S _ _ _ Hl). by exists (drop (S (S i)) (chars body)).
Qed.
End marker.

Section scan.
Variable marker : string.
Variable rest : list ascii.
Hypothesis marker_chars : chars marker = "<"%char :: rest.
Hypothesis no_second : "<"%char ∉ rest.
Hypothesis no_break : (LF ∉ chars marker) ∧ (CR ∉ chars marker).

Lemma marker_length : String.length marker = S (length rest).
Proof. by rewrite <-chars_length, marker_chars. Qed.

Lemma occurs_in_text s i : occurs_at marker s i → (i + String.length marker <= length s)%nat.
Proof. intros Ho%prefix_length. rewrite length_drop, chars_length in Ho. pose proof marker_length. lia. Qed.

(** Two occurrences do not overlap. *)
Lemma occurs_apart s i j : occurs_at marker s i → occurs_at marker s j → (i < j)%nat → (i + String.length marker <= j)%nat.
Proof.
intros Hi Hj Hlt. destruct (Nat.le_gt_cases (i + String.length marker) j) as [|Hin]; [done|]. exfalso.
pose proof marker_length as Hlen. pose proof (occurs_at_lookup marker s j 0 Hj ltac:(lia)) as H0.
pose proof (occurs_at_lookup marker s i (j - i) Hi ltac:(lia)) as H1.
replace (i + (j - i))%nat with (j + 0)%nat in H1 by lia. rewrite H0, marker_chars in H1. cbn in H1.
replace (j - i)%nat with (S (j - i - 1)) in H1 by lia. cbn in H1. symmetry in H1. apply no_second. by apply list_elem_of_lookup_2 in H1.
Qed.

Lemma index_sub_spec s :
match index_sub marker s with
| Some i => occurs_at marker (chars s) i ∧ ∀ j, (j < i)%nat → ¬ occurs_at marker (chars s) j
| None => ∀ j, ¬ occurs_at marker (chars s) j
end.
Proof.
induction s as [|c s IH]; cbn [index_sub].
- assert (starts_with marker "" = false) as ->.
  { apply not_true_iff_false. rewrite starts_with_chars, marker_chars. by intros [t Ht]. }
  intros j Hj%occurs_in_text. pose proof marker_length. cbn in Hj. lia.
- destruct (starts_with marker (String c s)) eqn:Hs.
  + apply starts_with_chars in Hs. split; [done|lia].
  + assert (H0 : ¬ occurs_at marker (chars (String c s)) 0) by (unfold occurs_at; rewrite drop_0, <-starts_with_chars; congruence).
    destruct (index_sub marker s) as [i|]; cbn [fmap option_fmap option_map].
    * destruct IH as [Hi Hj]. split; [done|]. intros [|j] Hlt; [done|]. apply (Hj j). lia.
    * intros [|j]; [done|]. apply IH.
Qed.

Lemma occurs_at_drop s n i : occurs_at marker (chars (drop_str n s)) i ↔ occurs_at marker (chars s) (n + i).
Proof. unfold occurs_at. by rewrite chars_drop, drop_drop. Qed.

Lemma index_sub_from_spec s from :
match index_sub_from marker s from with
| Some i => (from <= i)%nat ∧ occurs_at marker (chars s) i ∧ ∀ j, (from <= j < i)%nat → ¬ occurs_at marker (chars s) j
| None => ∀ j, (from <= j)%nat → ¬ occurs_at marker (chars s) j
end.
Proof.
unfold index_sub_from. pose proof (index_sub_spec (drop_str from s)) as H.
destruct (index_sub marker (drop_str from s)) as [i|]; cbn [fmap option_fmap option_map].
- destruct H as [Hi Hj]. split_and!; [lia|by apply occurs_at_drop|]. intros j Hlt Ho. apply (Hj (j - from)%nat); [lia|].
  apply occurs_at_drop. by replace (from + (j - from))%nat with j by lia.
- intros j Hlt Ho. apply (H (j - from)%nat), occurs_at_drop. by replace (from + (j - from))%nat with j by lia.
Qed.

Lemma marker_line_spec fuel body from :
(String.length body < fuel + from)%nat →
match marker_line fuel body marker from with
| Some i => (from <= i)%nat ∧ line_at marker (chars body) i ∧ ∀ j, (from <= j < i)%nat → ¬ line_at marker (chars body) j
| None => ∀ j, (from <= j)%nat → ¬ line_at marker (chars body) j
end.
Proof.
revert from. induction fuel as [|fuel IH]; intros from Hf; cbn [marker_line].
{ intros j Hj [Ho%occurs_in_text _]. rewrite chars_length in Ho. lia. }
pose proof (index_sub_from_spec body from) as H. pose proof marker_length as Hlen.
destruct (index_sub_from marker body from) as [i|]; [|by intros j Hj [Ho _]; apply (H j)].
destruct H as (Hle & Hi & Hbefore).
destruct (is_line_start body i && is_line_end (drop_str (i + String.length marker) body)) eqn:Hline.
- apply andb_true_iff in Hline as [Hs%is_line_start_spec He%is_line_end_spec]. split_and!; [done|done|].
  intros j Hj [Ho _]. by apply (Hbefore j).
- assert (Hnot : ¬ line_at marker (chars body) i).
  { intros (_ & Hs%is_line_start_spec & He%is_line_end_spec). by rewrite Hs, He in Hline. }
  assert (Hskip : ∀ j, (from <= j < i + String.length marker)%nat → ¬ line_at marker (chars body) j).
  { intros j Hj Hl. destruct (Nat.lt_trichotomy j i) as [|[->|]]; [|done|].
    - apply (Hbefore j); [lia|apply Hl].
    - pose proof (occurs_apart _ i j Hi (proj1 Hl)). lia. }
  specialize (IH (i + String.length marker)%nat ltac:(lia)).
  destruct (marker_line fuel body marker (i + String.length marker)) as [k|].
  + destruct IH as (Hk & Hl & Hb). split_and!; [lia|done|]. intros j Hj.
    destruct (Nat.lt_ge_cases j (i + String.length marker)); [apply Hskip; lia|apply Hb; lia].
  + intros j Hj. destruct (Nat.lt_ge_cases j (i + String.length marker)); [apply Hskip; lia|by apply IH].
Qed.

Lemma markerLine_Some body from i :
(from <= i)%nat → line_at marker (chars body) i → (∀ j, (from <= j < i)%nat → ¬ line_at marker (chars body) j) →
markerLine body marker from = Some i.
Proof.
intros Hle Hl Hb. unfold markerLine. pose proof (marker_line_spec (S (String.length body)) body from ltac:(lia)) as H.
destruct (marker_line _ body marker from) as [k|]; [|by destruct (H i)].
destruct H as (Hk & Hlk & Hbk). f_equal. destruct (Nat.lt_trichotomy k i) as [|[|]]; [|done|].
- by destruct (Hb k).
- by destruct (Hbk i).
Qed.

(** A line that is not the marker holds none. *)
Lemma no_marker_line before l after j :
LF ∉ l → l ≠ chars marker → l ≠ chars marker ++ [CR] →
(length before <= j <= length before + length l)%nat → ¬ line_at marker (before ++ l ++ LF :: after) j.
Proof.
intros Hl Hne1 Hne2 Hj (Ho & Hs & He). pose proof marker_length as Hlen.
assert (Hat : ∀ k, (k < length l)%nat → (before ++ l ++ LF :: after) !! (length before + k)%nat = l !! k).
{ intros k Hk. rewrite lookup_app_r by lia. replace (length before + k - length before)%nat with k by lia. by apply lookup_app_l. }
assert (Hbreak : (before ++ l ++ LF :: after) !! (length before + length l)%nat = Some LF).
{ rewrite lookup_app_r by lia. replace (length before + length l - length before)%nat with (length l) by lia. by apply list_lookup_middle. }
assert (j = length before) as ->.
{ destruct (decide (j = length before)) as [|Hd]; [done|]. destruct Hs as [->|(k & -> & Hk)]; [lia|]. destruct Hl.
  apply list_elem_of_lookup. exists (k - length before)%nat. rewrite <-Hat by lia. by replace (length before + (k - length before))%nat with k by lia. }
assert (Hshort : (String.length marker <= length l)%nat).
{ destruct (Nat.le_gt_cases (String.length marker) (length l)) as [|Hgt]; [done|]. destruct no_break as [Hno _]. destruct Hno.
  rewrite (occurs_at_lookup marker _ _ (length l) Ho Hgt) in Hbreak. by apply list_elem_of_lookup_2 in Hbreak. }
assert (Hpre : take (String.length marker) l = chars marker).
{ apply list_eq. intros k. destruct (Nat.lt_ge_cases k (String.length marker)) as [Hk|Hk].
  - rewrite lookup_take_lt by done. rewrite <-Hat by lia. by apply occurs_at_lookup.
  - rewrite lookup_take_ge by done. symmetry. apply lookup_ge_None. by rewrite chars_length. }
destruct (decide (String.length marker = length l)) as [Heq|Hlt].
{ apply Hne1. by rewrite <-Hpre, Heq, take_ge. }
unfold before_break in He. rewrite !Hat in He by lia. destruct He as [He|[He|[He1 He2]]].
- apply lookup_ge_None in He. lia.
- apply Hl. by apply list_elem_of_lookup_2 in He.
- destruct (decide (S (String.length marker) = length l)) as [Heq|Hlt'].
  + apply Hne2. rewrite <-Hpre, <-(take_drop (String.length marker) l) at 1. f_equal.
    rewrite (drop_S _ _ _ He1). f_equal. apply drop_ge. lia.
  + rewrite <-Nat.add_succ_r, Hat in He2 by lia. apply Hl. by apply list_elem_of_lookup_2 in He2.
Qed.
End scan.

(** ** Blocks of lines *)

Definition unbroken (s : string) : Prop := (CR ∉ chars s) ∧ (LF ∉ chars s).

Lemma with_eol_unbroken eol l s : unbroken l → with_eol eol (l +:+ s) = l +:+ with_eol eol s.
Proof.
  unfold unbroken, chars. induction l as [|c l IH]; [done|]. cbn [list_ascii_of_string]. intros [[Hc1 Hl1]%not_elem_of_cons [Hc2 Hl2]%not_elem_of_cons].
  cbn [String.append with_eol]. destruct (Ascii.eqb_spec c LF); [done|]. destruct (Ascii.eqb_spec c CR); [done|]. by rewrite IH.
Qed.

Lemma with_eol_join eol ls : Forall unbroken ls → with_eol eol (join lf ls) = join eol ls.
Proof.
  intros H. induction H as [|l ls Hl H IH]; [done|]. destruct ls as [|l' ls].
  - cbn. rewrite <-(str_app_nil_r l) at 1. rewrite with_eol_unbroken by done. apply str_app_nil_r.
  - change (join lf (l :: l' :: ls)) with (l +:+ String LF (join lf (l' :: ls))).
    change (join eol (l :: l' :: ls)) with (l +:+ (eol +:+ join eol (l' :: ls))). rewrite with_eol_unbroken by done. cbn [with_eol]. by rewrite IH.
Qed.

(** The characters of complete lines; [cr] is the part of the line ending before the line feed. *)
Definition lines_of (cr : list ascii) (ls : list string) : list ascii := concat (map (λ l, chars l ++ cr ++ [LF]) ls).

Lemma chars_join_lines eol cr ls last :
  chars eol = cr ++ [LF] → chars (join eol (ls ++ [last])) = lines_of cr ls ++ chars last.
Proof.
  intros Heol. induction ls as [|l ls IH]; [done|]. cbn [app]. unfold lines_of in *. cbn [map concat].
  destruct (ls ++ [last]) as [|l' rest] eqn:Hls; [by destruct ls|].
  change (join eol (l :: l' :: rest)) with (l +:+ (eol +:+ join eol (l' :: rest))).
  by rewrite !chars_app, IH, Heol, <-!app_assoc.
Qed.

Definition line_break (eol : string) (cr : list ascii) : Prop := eol = lf ∧ cr = [] ∨ eol = crlf ∧ cr = [CR].

Lemma line_break_chars eol cr : line_break eol cr → chars eol = cr ++ [LF].
Proof. by intros [[-> ->]|[-> ->]]. Qed.

Section lines.
Variable marker : string.
Variable rest : list ascii.
Hypothesis marker_chars : chars marker = "<"%char :: rest.
Hypothesis no_second : "<"%char ∉ rest.
Hypothesis no_break : unbroken marker.

Lemma no_marker_lines cr eol before ls after j :
line_break eol cr → Forall (λ l, unbroken l ∧ l ≠ marker) ls →
(length before <= j < length before + length (lines_of cr ls))%nat → ¬ line_at marker (before ++ lines_of cr ls ++ after) j.
Proof.
intros Hcr Hls. revert before. induction Hls as [|l ls [Hl Hne] Hls IH]; intros before Hj; [cbn in Hj; lia|].
unfold lines_of in *. cbn [map concat] in *. set (more := concat _) in *.
assert (Hline : before ++ ((chars l ++ cr ++ [LF]) ++ more) ++ after = before ++ (chars l ++ cr) ++ LF :: (more ++ after)).
{ by rewrite <-!app_assoc. }
rewrite !length_app in Hj. cbn [length] in Hj.
destruct (Nat.le_gt_cases j (length before + length (chars l ++ cr))) as [Hin|Hout].
- rewrite Hline. eapply (no_marker_line marker rest); try done.
  + destruct no_break. by split.
  + destruct Hl as [_ Hl]. rewrite not_elem_of_app. split; [done|]. destruct Hcr as [[_ ->]|[_ ->]]; [apply not_elem_of_nil|]. by intros ?%list_elem_of_singleton.
  + intros Heq. apply Hne, chars_inj. destruct Hcr as [[_ ->]|[_ ->]]; [by rewrite app_nil_r in Heq|].
    destruct no_break as [Hcr _]. rewrite <-Heq in Hcr. by destruct Hcr; apply elem_of_app; right; left.
  + intros Heq. destruct Hcr as [[_ ->]|[_ ->]].
    * rewrite app_nil_r in Heq. destruct Hl as [Hl _]. rewrite Heq in Hl. by destruct Hl; apply elem_of_app; right; left.
    * apply app_inj_tail in Heq as [Heq _]. by apply Hne, chars_inj.
  + lia.
- replace (before ++ ((chars l ++ cr ++ [LF]) ++ more) ++ after) with ((before ++ chars l ++ cr ++ [LF]) ++ more ++ after) by by rewrite <-!app_assoc.
  apply IH. rewrite !length_app in *. cbn [length] in *. lia.
Qed.

Lemma occurs_at_intro s i : (∀ k, (k < String.length marker)%nat → s !! (i + k)%nat = chars marker !! k) → occurs_at marker s i.
Proof.
intros H. exists (drop (String.length marker) (drop i s)).
rewrite <-(take_drop (String.length marker) (drop i s)) at 1. f_equal. apply list_eq. intros k.
destruct (Nat.lt_ge_cases k (String.length marker)) as [Hk|Hk].
- rewrite lookup_take_lt, lookup_drop by done. by apply H.
- rewrite lookup_take_ge by done. symmetry. apply lookup_ge_None. by rewrite chars_length.
Qed.

Lemma not_in_marker (s : list ascii) j k c :
occurs_at marker s j → (j <= k < j + String.length marker)%nat → s !! k = Some c → c ∈ chars marker.
Proof.
intros Ho Hk Hc. pose proof (occurs_at_lookup marker s j (k - j) Ho ltac:(lia)) as H.
replace (j + (k - j))%nat with k in H by lia. rewrite Hc in H. symmetry in H. by apply list_elem_of_lookup_2 in H.
Qed.

(** What precedes a line start holds the same markers whatever follows. *)
Lemma kept_before before x y j :
(j <= length before)%nat → line_at marker (before ++ [LF] ++ x) j → line_at marker (before ++ [LF] ++ y) j.
Proof.
intros Hj (Ho & Hs & He). assert (Hmid : ∀ z : list ascii, (before ++ [LF] ++ z) !! length before = Some LF) by (intros z; by apply list_lookup_middle).
assert (Hsame : ∀ k, (k <= length before)%nat → (before ++ [LF] ++ x) !! k = (before ++ [LF] ++ y) !! k).
{ intros k Hk. destruct (decide (k = length before)) as [->|]; [by rewrite !Hmid|]. by rewrite !lookup_app_l by lia. }
assert (Hend : (j + String.length marker <= length before)%nat).
{ destruct (Nat.le_gt_cases (j + String.length marker) (length before)) as [|Hgt]; [done|]. destruct no_break as [_ Hno]. destruct Hno.
  eapply (not_in_marker _ j (length before)); [done|lia|apply Hmid]. }
split_and!.
- apply occurs_at_intro. intros k Hk. rewrite <-Hsame by lia. by apply occurs_at_lookup.
- destruct Hs as [->|(k & -> & Hk)]; [by left|right]. exists k. split; [done|]. by rewrite <-Hsame by lia.
- unfold before_break in *. rewrite <-(Hsame (j + String.length marker)%nat) by lia.
  destruct He as [He|[He|[He1 He2]]]; [by left|by right; left|]. right. right. split; [done|].
  destruct (decide (j + String.length marker = length before)%nat) as [Heq|]; [by rewrite Heq, Hmid in He1|]. by rewrite <-Hsame by lia.
Qed.

(** Line breaks after a text without the marker bring none, unless they
  complete a carriage return at its end. *)
Lemma no_marker_before_breaks body breaks x j :
(∀ k, ¬ line_at marker body k) → (∀ u, body ≠ u ++ [CR]) → Forall (λ c, c = CR ∨ c = LF) breaks → breaks ≠ [] →
(j < length body + length breaks)%nat → ¬ line_at marker (body ++ breaks ++ x) j.
Proof.
intros Hno Hcr Hbreaks Hne Hj (Ho & Hs & He).
pose proof (eq_trans (eq_sym (chars_length marker)) (f_equal length marker_chars)) as Hlen. cbn in Hlen.
assert (Hsame : ∀ k, (k < length body)%nat → (body ++ breaks ++ x) !! k = body !! k) by (intros k Hk; by apply lookup_app_l).
assert (Hend : (j + String.length marker <= length body)%nat).
{ destruct (Nat.le_gt_cases (j + String.length marker) (length body)) as [|Hgt]; [done|]. exfalso.
  destruct (lookup_lt_is_Some_2 breaks (Nat.max j (length body) - length body)) as [c Hc].
  { assert (0 < length breaks)%nat by (destruct breaks; cbn; [done|lia]). lia. }
  assert (c ∈ chars marker) as Hin.
  { apply (not_in_marker (body ++ breaks ++ x) j (Nat.max j (length body))); [done|lia|].
    rewrite lookup_app_r by lia. rewrite lookup_app_l; [done|by eapply lookup_lt_Some]. }
  rewrite Forall_lookup in Hbreaks. destruct no_break. by destruct (Hbreaks _ _ Hc) as [->| ->]. }
apply (Hno j). split_and!.
- apply occurs_at_intro. intros k Hk. rewrite <-Hsame by lia. by apply occurs_at_lookup.
- destruct Hs as [->|(k & -> & Hk)]; [by left|right]. exists k. split; [done|]. by rewrite <-Hsame by lia.
- unfold before_break in *. destruct (decide (j + String.length marker = length body)%nat) as [Heq|]; [left; apply lookup_ge_None; lia|].
  rewrite Hsame in He by lia. destruct He as [He|[He|[He1 He2]]]; [by left|by right; left|]. right. right. split; [done|].
  destruct (decide (S (j + String.length marker) = length body)%nat) as [Heq|]; [|by rewrite <-Hsame by lia].
  destruct (Hcr (take (j + String.length marker) body)). rewrite <-(take_drop (j + String.length marker) body) at 1. f_equal.
  rewrite (drop_S _ _ _ He1). f_equal. apply drop_ge. lia.
Qed.
End lines.

(** ** Line endings *)

Definition has_crlf (s : list ascii) : Prop := ∃ u v, s = u ++ CR :: LF :: v.

Lemma index_sub_found p s : is_Some (index_sub p s) ↔ ∃ u v, chars s = u ++ chars p ++ v.
Proof.
  induction s as [|c s IH]; cbn [index_sub].
  - destruct (starts_with p "") eqn:Hs.
    + split; [|by eexists]. apply starts_with_chars in Hs as [t Ht]. intros _. by exists [], t.
    + split; [by intros []|]. intros (u & v & H). apply not_true_iff_false in Hs. destruct Hs. apply starts_with_chars. exists v. by destruct u.
  - destruct (starts_with p (String c s)) eqn:Hs.
    + split; [|by eexists]. apply starts_with_chars in Hs as [t Ht]. intros _. by exists [], t.
    + rewrite fmap_is_Some, IH. split.
      * intros (u & v & H). exists (c :: u), v. change (chars (String c s)) with (c :: chars s). by rewrite H.
      * intros ([|d u] & v & H); [|change (chars (String c s)) with (c :: chars s) in H; injection H as _ H; by exists u, v].
        apply not_true_iff_false in Hs. destruct Hs. apply starts_with_chars. by exists v.
Qed.

Lemma eol_of_spec s : has_crlf (chars s) ∧ eol_of s = crlf ∨ ¬ has_crlf (chars s) ∧ eol_of s = lf.
Proof.
  unfold eol_of. pose proof (index_sub_found crlf s) as H. destruct (index_sub crlf s) as [i|].
  - left. split; [|done]. destruct (proj1 H) as (u & v & Huv); [by eexists|]. by exists u, v.
  - right. split; [|done]. intros (u & v & Huv). destruct (proj2 H) as [? Hs]; [|done]. by exists u, v.
Qed.

Lemma has_crlf_app s t :
  has_crlf (s ++ t) ↔ has_crlf s ∨ has_crlf t ∨ ∃ u v, s = u ++ [CR] ∧ t = LF :: v.
Proof.
  split.
  - intros (u & v & H). apply app_eq_app in H as (m & [[-> Hm]|[-> Hm]]).
    + destruct m as [|x [|y m]]; cbn in Hm.
      * right. left. by exists [], v.
      * injection Hm as <- Hm. right. right. by exists u, v.
      * injection Hm as <- <- Hm. left. by exists u, m.
    + right. left. rewrite Hm. by exists m, v.
  - intros [(u & v & ->)|[(u & v & ->)|(u & v & -> & ->)]].
    + exists u, (v ++ t). by rewrite <-app_assoc.
    + exists (s ++ u), v. by rewrite <-app_assoc.
    + exists u, v. by rewrite <-app_assoc.
Qed.

Lemma no_cr_no_crlf s : CR ∉ s → ¬ has_crlf s.
Proof. intros H (u & v & ->). apply H, elem_of_app. by right; left. Qed.

(** ** The markers of the source *)

(** Decide that a character is not in a given text. *)
Ltac not_in_text :=
  let H := fresh in intros H; repeat (apply elem_of_cons in H as [H|H]; [discriminate H|]); by apply elem_of_nil in H.

Lemma start_chars : ∃ rest, chars SECTION_START = "<"%char :: rest ∧ "<"%char ∉ rest.
Proof. let t := eval vm_compute in (tl (chars SECTION_START)) in exists t. split; [vm_compute; reflexivity|not_in_text]. Qed.
Lemma end_chars : ∃ rest, chars SECTION_END = "<"%char :: rest ∧ "<"%char ∉ rest.
Proof. let t := eval vm_compute in (tl (chars SECTION_END)) in exists t. split; [vm_compute; reflexivity|not_in_text]. Qed.
Lemma start_unbroken : unbroken SECTION_START.
Proof. let t := eval vm_compute in (chars SECTION_START) in change (unbroken SECTION_START) with ((CR ∉ t) ∧ (LF ∉ t)). split; not_in_text. Qed.
Lemma end_unbroken : unbroken SECTION_END.
Proof. let t := eval vm_compute in (chars SECTION_END) in change (unbroken SECTION_END) with ((CR ∉ t) ∧ (LF ∉ t)). split; not_in_text. Qed.
Lemma start_not_end : SECTION_START ≠ SECTION_END.
Proof. done. Qed.

(** Nothing before, or a complete line. *)
Definition line_start (before : list ascii) : Prop := before = [] ∨ ∃ u, before = u ++ [LF].

Section stable.
Variable before after : string.
Variable ls : list string.
Variable eol : string.
Variable cr : list ascii.
Hypothesis breaks : line_break eol cr.
Hypothesis ls_plain : Forall (λ l, unbroken l ∧ l ≠ SECTION_END) ls.
Hypothesis starts_line : line_start (chars before).
Hypothesis ends_line : before_break (chars after) 0.

Let block := join eol (SECTION_START :: ls ++ [SECTION_END]).
Let out := before +:+ block +:+ after.

Lemma block_chars : chars block = lines_of cr (SECTION_START :: ls) ++ chars SECTION_END.
Proof. unfold block. apply (chars_join_lines eol cr (SECTION_START :: ls)). by apply line_break_chars. Qed.

Lemma block_begins : ∃ t, chars block = chars SECTION_START ++ cr ++ LF :: t.
Proof. rewrite block_chars. unfold lines_of. cbn [map concat]. exists (concat (map (λ l, chars l ++ cr ++ [LF]) ls) ++ chars SECTION_END). by rewrite <-!app_assoc. Qed.

Lemma block_ends : ∃ t, chars block = t ++ LF :: chars SECTION_END.
Proof.
rewrite block_chars. unfold lines_of. destruct (exists_last (l := SECTION_START :: ls)) as (ls' & l & ->); [done|].
rewrite map_app, concat_app. cbn [map concat]. rewrite app_nil_r.
exists (concat (map (λ l, chars l ++ cr ++ [LF]) ls') ++ chars l ++ cr). by rewrite <-!app_assoc.
Qed.

Lemma start_at_before : line_at SECTION_START (chars out) (length (chars before)).
Proof.
unfold out. rewrite !chars_app. destruct block_begins as [t ->]. rewrite <-!app_assoc. split_and!.
- unfold occurs_at. rewrite drop_app_length. by apply prefix_app_r.
- destruct starts_line as [->|[u ->]]; [by left|]. right. exists (length u). split; [rewrite length_app; cbn; lia|].
  rewrite <-app_assoc. by apply list_lookup_middle.
- unfold before_break. rewrite <-(chars_length SECTION_START).
  assert (Hk : ∀ k x, (chars before ++ chars SECTION_START ++ x) !! (length (chars before) + length (chars SECTION_START) + k)%nat = x !! k).
  { intros k x. rewrite app_assoc, <-length_app. rewrite lookup_app_r by lia. f_equal. lia. }
  set (n := (length (chars before) + length (chars SECTION_START))%nat) in *.
  rewrite <-(Nat.add_1_r n), <-(Nat.add_0_r n), <-Nat.add_assoc, !Hk.
  destruct breaks as [[_ ->]|[_ ->]]; [by right; left|by right; right].
Qed.

Lemma start_found :
(∀ j, (j < length (chars before))%nat → ¬ line_at SECTION_START (chars out) j) →
markerLine out SECTION_START 0 = Some (length (chars before)).
Proof.
intros H. destruct start_chars as (rest & Hr1 & Hr2). apply (markerLine_Some SECTION_START rest Hr1 Hr2); [lia|apply start_at_before|].
intros j Hj. apply H. lia.
Qed.

Lemma end_found :
markerLine out SECTION_END (length (chars before) + String.length SECTION_START) =
  Some (length (chars before) + length (lines_of cr (SECTION_START :: ls)))%nat.
Proof.
destruct end_chars as (rest & Hr1 & Hr2).
assert (Hout : chars out = chars before ++ lines_of cr (SECTION_START :: ls) ++ (chars SECTION_END ++ chars after)).
{ unfold out. by rewrite !chars_app, block_chars, <-!app_assoc. }
assert (Hlen : (String.length SECTION_START <= length (lines_of cr (SECTION_START :: ls)))%nat).
{ unfold lines_of. cbn [map concat]. rewrite !length_app, chars_length. lia. }
apply (markerLine_Some SECTION_END rest Hr1 Hr2); [lia| |].
- rewrite Hout. split_and!.
  + unfold occurs_at. rewrite app_assoc, drop_app_length' by by rewrite length_app. by apply prefix_app_r.
  + right. destruct (exists_last (l := SECTION_START :: ls)) as (ls' & l & Hl); [done|]. rewrite Hl. unfold lines_of. rewrite map_app, concat_app.
    cbn [map concat]. rewrite app_nil_r. set (u := concat _).
    exists (length (chars before) + length u + length (chars l) + length cr)%nat. split; [rewrite !length_app; cbn; lia|].
    replace (chars before ++ (u ++ chars l ++ cr ++ [LF]) ++ chars SECTION_END ++ chars after)
      with ((chars before ++ u ++ chars l ++ cr) ++ LF :: (chars SECTION_END ++ chars after)) by by rewrite <-!app_assoc.
    apply list_lookup_middle. rewrite !length_app. lia.
  + unfold before_break. rewrite <-(chars_length SECTION_END).
    set (n := (length (chars before) + length (lines_of cr (SECTION_START :: ls)) + length (chars SECTION_END))%nat).
    assert (Hk : ∀ k, (chars before ++ lines_of cr (SECTION_START :: ls) ++ chars SECTION_END ++ chars after) !! (n + k)%nat = chars after !! k).
    { intros k. rewrite !lookup_app_r by lia. f_equal. lia. }
    rewrite <-(Nat.add_1_r n), <-(Nat.add_0_r n), <-Nat.add_assoc, !Hk. apply ends_line.
- intros j Hj. rewrite Hout. apply (no_marker_lines SECTION_END rest Hr1 end_unbroken cr eol); [done| |lia].
  apply Forall_cons. split; [|done]. split; [apply start_unbroken|apply start_not_end].
Qed.

Lemma splice_again section :
(∀ j, (j < length (chars before))%nat → ¬ line_at SECTION_START (chars out) j) → eol_of out = eol →
trim_section section = join lf (SECTION_START :: ls ++ [SECTION_END]) → well_marked (trim_section section) = true →
spliceSection out section = Ok out.
Proof.
intros Hfirst Heol Htrim Hwell. unfold spliceSection. cbv zeta. rewrite Hwell, Heol. cbn [negb].
rewrite start_found by done. rewrite end_found. f_equal.
rewrite Htrim, with_eol_join.
- fold block. unfold out at 1. rewrite chars_length, take_str_app. f_equal. f_equal.
  apply chars_inj. rewrite chars_drop. unfold out. rewrite !chars_app, block_chars.
  rewrite app_assoc, drop_app_length'; [done|]. rewrite !length_app, !chars_length. lia.
- apply Forall_cons. split; [apply start_unbroken|]. apply Forall_app. split; [|repeat constructor; apply end_unbroken].
  eapply Forall_impl; [exact ls_plain|]. by intros l [? _].
Qed.
End stable.

(** ** What splicing keeps *)

Lemma occurs_split marker s i :
  occurs_at marker s i → s = take i s ++ chars marker ++ drop (i + String.length marker) s.
Proof.
  intros [t Ht]. rewrite <-(take_drop i s) at 1. f_equal. rewrite Ht. f_equal.
  rewrite <-drop_drop, Ht, <-chars_length. by rewrite drop_app_length.
Qed.

Lemma after_break_line_start s i : after_break s i → (i <= length s)%nat → line_start (take i s).
Proof.
  intros [->|(j & -> & Hj)] Hi; [by left|]. right. exists (take j s). by apply take_S_r.
Qed.

Lemma before_break_drop s i : before_break s i ↔ before_break (drop i s) 0.
Proof. unfold before_break. by rewrite !lookup_drop, Nat.add_0_r, Nat.add_1_r. Qed.

(** The two results of a splice, as the program computes them. *)
Lemma splice_cases body section out :
  spliceSection body section = Ok out →
  let block := with_eol (eol_of body) (trim_section section) in
  well_marked (trim_section section) = true ∧
  ((∃ before inner after, body = before +:+ SECTION_START +:+ inner +:+ SECTION_END +:+ after ∧ out = before +:+ block +:+ after ∧
      line_start (chars before) ∧ before_break (chars after) 0 ∧
      ∀ j, (j < length (chars before))%nat → ¬ line_at SECTION_START (chars body) j) ∨
   (∀ j, ¬ line_at SECTION_START (chars body) j) ∧
   out = body +:+ (if String.eqb body "" then "" else if ends_with lf body then eol_of body else eol_of body +:+ eol_of body) +:+ block).
Proof.
  unfold spliceSection. cbv zeta. destruct (well_marked (trim_section section)); [|done]. cbn [negb]. intros H. split; [done|].
  destruct start_chars as (rs & Hs1 & Hs2), end_chars as (re & He1 & He2).
  pose proof (marker_line_spec SECTION_START rs Hs1 Hs2 (S (String.length body)) body 0 ltac:(lia)) as Hstart.
  fold (markerLine body SECTION_START 0) in Hstart. destruct (markerLine body SECTION_START 0) as [start|].
  - left. destruct Hstart as (_ & (Hso & Hsb & Hse) & Hfirst).
    pose proof (marker_line_spec SECTION_END re He1 He2 (S (String.length body)) body (start + String.length SECTION_START) ltac:(lia)) as Hend.
    fold (markerLine body SECTION_END (start + String.length SECTION_START)) in Hend.
    destruct (markerLine body SECTION_END _) as [end_|]; [|done]. injection H as <-. destruct Hend as (Hle & (Heo & _ & Hee) & _).
    pose proof (occurs_in_text SECTION_START rs Hs1 _ _ Hso) as Hin. pose proof (occurs_split _ _ _ Hso) as Hsplit.
    assert (Heo' : occurs_at SECTION_END (drop (start + String.length SECTION_START) (chars body)) (end_ - (start + String.length SECTION_START))).
    { unfold occurs_at in *. rewrite drop_drop. by replace (start + String.length SECTION_START + (end_ - (start + String.length SECTION_START)))%nat with end_ by lia. }
    apply occurs_split in Heo'. rewrite drop_drop in Heo'.
    replace (start + String.length SECTION_START + (end_ - (start + String.length SECTION_START) + String.length SECTION_END))%nat
      with (end_ + String.length SECTION_END)%nat in Heo' by lia.
    exists (take_str start body), (take_str (end_ - (start + String.length SECTION_START)) (drop_str (start + String.length SECTION_START) body)),
      (drop_str (end_ + String.length SECTION_END) body).
    assert (Hlen : length (chars (take_str start body)) = start) by (rewrite chars_take, length_take; lia).
    split_and!.
    + apply chars_inj. rewrite !chars_app, !chars_take, !chars_drop, <-Heo'. done.
    + done.
    + rewrite chars_take. apply after_break_line_start; [done|lia].
    + rewrite chars_drop. by apply (proj1 (before_break_drop _ _)).
    + rewrite Hlen. intros j Hj. apply Hfirst. lia.
  - right. split; [intros j; apply Hstart; lia|]. revert H. destruct (String.eqb_spec body "") as [->|]; by intros [= <-].
Qed.

(** C28: Splicing touches the section only: either the description is three
    parts with the marked section in the middle, on lines of their own, and
    the outer parts are kept as they are, or it has no section line and is
    kept whole in front, followed by line breaks and the section.  The section
    has the line endings of the description. *)
Theorem splice_keeps_the_description body section out :
  spliceSection body section = Ok out →
  let block := with_eol (eol_of body) (trim_section section) in
  (∃ before inner after, body = before +:+ SECTION_START +:+ inner +:+ SECTION_END +:+ after ∧ out = before +:+ block +:+ after ∧
     line_start (chars before) ∧ before_break (chars after) 0) ∨
  (∀ j, ¬ line_at SECTION_START (chars body) j) ∧
  ∃ breaks, out = body +:+ breaks +:+ block ∧ Forall (λ c, c = CR ∨ c = LF) (chars breaks).
Proof.
  intros H%splice_cases. cbv zeta in *. destruct H as [_ [(before & inner & after & ? & ? & ? & ? & _)|[Hno Hout]]]; [left; eauto 10|right].
  split; [done|]. eexists. split; [exact Hout|].
  assert (Heol : Forall (λ c, c = CR ∨ c = LF) (chars (eol_of body))).
  { destruct (eol_of_spec body) as [[_ ->]|[_ ->]]; [apply (Forall_cons_2 _ CR); [by left|]|]; (apply (Forall_cons_2 _ LF); [by right|constructor]). }
  destruct (String.eqb body ""); [constructor|]. destruct (ends_with lf body); [done|]. rewrite chars_app. by apply Forall_app.
Qed.

(** ** Splicing twice *)

Lemma with_eol_block body ls eol cr :
  line_break eol cr → Forall (λ l, unbroken l ∧ l ≠ SECTION_END) ls →
  with_eol eol (join lf (SECTION_START :: ls ++ [SECTION_END])) = join eol (SECTION_START :: ls ++ [SECTION_END]) ∧
  (has_crlf (chars body) → eol = crlf → has_crlf (chars (join eol (SECTION_START :: ls ++ [SECTION_END])))) ∧
  (eol = lf → CR ∉ chars (join eol (SECTION_START :: ls ++ [SECTION_END]))).
Proof.
  intros Hb Hls.
  assert (Hall : Forall unbroken (SECTION_START :: ls ++ [SECTION_END])).
  { apply Forall_cons. split; [apply start_unbroken|]. apply Forall_app. split; [|repeat constructor; apply end_unbroken].
    eapply Forall_impl; [exact Hls|]. by intros l [? _]. }
  split_and!; [by apply with_eol_join| |].
  - intros _ ->. destruct Hb as [[? _]|[_ ->]]; [done|]. destruct (block_begins ls crlf [CR]) as [t Ht]; [by right|].
    rewrite Ht. by exists (chars SECTION_START), t.
  - intros ->. destruct Hb as [[_ ->]|[? _]]; [|done]. pose proof (chars_join_lines lf [] (SECTION_START :: ls) SECTION_END eq_refl) as Hc. cbn [app] in Hc. rewrite Hc.
    rewrite not_elem_of_app. split; [|apply end_unbroken]. unfold lines_of. intros Hin.
    apply list_elem_of_In, in_concat in Hin as (x & (l & <- & Hl)%in_map_iff & Hx). apply list_elem_of_In in Hl, Hx. cbn [app] in Hx.
    apply elem_of_app in Hx as [Hx|Hx]; [|by apply list_elem_of_singleton in Hx]. rewrite Forall_forall in Hall.
    assert (l ∈ SECTION_START :: ls ++ [SECTION_END]) as Hl' by (rewrite elem_of_cons, elem_of_app in *; tauto).
    by apply (proj1 (Hall l Hl')).
Qed.

(** The line endings seen after a splice are those seen before. *)
Lemma eol_kept body before block after extra :
  (has_crlf (chars body) → has_crlf (chars block)) →
  (¬ has_crlf (chars body) → CR ∉ chars block) →
  (¬ has_crlf (chars body) → ¬ has_crlf (chars before ++ extra) ∧ ¬ has_crlf (chars after)) →
  (∃ t, chars block = "<"%char :: t) → (∃ t, chars block = t ++ [">"%char]) →
  ∀ out, chars out = (chars before ++ extra) ++ chars block ++ chars after → eol_of out = eol_of body.
Proof.
  intros Hyes Hno Hparts (t & Ht) (t' & Ht') out Hout.
  destruct (eol_of_spec body) as [[Hb ->]|[Hb ->]], (eol_of_spec out) as [[Ho ->]|[Ho ->]]; [done| | |done]; exfalso.
  - apply Ho. rewrite Hout, (has_crlf_app _ (chars block ++ _)), (has_crlf_app (chars block)). auto.
  - rewrite Hout in Ho. destruct (Hparts Hb) as [H1 H2].
    apply has_crlf_app in Ho as [Ho|[Ho|(u & v & _ & Hu)]]; [done| |by rewrite Ht in Hu].
    apply has_crlf_app in Ho as [Ho|[Ho|(u & v & Hu & _)]]; [by apply (no_cr_no_crlf (chars block)); [apply Hno|]|done|].
    rewrite Ht' in Hu. by apply app_inj_tail in Hu as [_ ?].
Qed.

Lemma block_ends_gt ls eol cr : line_break eol cr → ∃ t, chars (join eol (SECTION_START :: ls ++ [SECTION_END])) = t ++ [">"%char].
Proof.
  intros Hb. destruct (block_ends ls eol cr Hb) as [t Ht]. exists (t ++ LF :: removelast (chars SECTION_END)).
  rewrite Ht, <-app_assoc. done.
Qed.

Lemma block_starts_lt ls eol cr : line_break eol cr → ∃ t, chars (join eol (SECTION_START :: ls ++ [SECTION_END])) = "<"%char :: t.
Proof. intros Hb. destruct (block_begins ls eol cr Hb) as [t Ht]. rewrite Ht. by eexists. Qed.

Lemma ends_with_char c s : ends_with (String c "") s = true ↔ ∃ u, chars s = u ++ [c].
Proof.
  unfold ends_with. rewrite andb_true_iff, Nat.leb_le, String.eqb_eq. cbn [String.length]. split.
  - intros [Hle Hs]. exists (take (String.length s - 1) (chars s)). rewrite <-(take_drop (String.length s - 1) (chars s)) at 1.
    by rewrite <-chars_drop, Hs.
  - intros [u Hu]. assert (Hlen := f_equal length Hu). rewrite chars_length, length_app in Hlen. cbn in Hlen. split; [lia|].
    apply chars_inj. rewrite chars_drop, Hu, Hlen. replace (length u + 1 - 1)%nat with (length u) by lia. by rewrite drop_app_length.
Qed.

Lemma sep_breaks body cr :
  line_break (eol_of body) cr →
  ∃ s, chars (if ends_with lf body then eol_of body else eol_of body +:+ eol_of body) = s ++ [LF] ∧
    Forall (λ c, c = CR ∨ c = LF) (chars (if ends_with lf body then eol_of body else eol_of body +:+ eol_of body)) ∧
    (eol_of body = lf → CR ∉ chars (if ends_with lf body then eol_of body else eol_of body +:+ eol_of body)).
Proof.
  intros Hb.
  assert (Heol : Forall (λ c, c = CR ∨ c = LF) (cr ++ [LF])).
  { destruct Hb as [[_ ->]|[_ ->]]; [|apply Forall_cons; split; [by left|]]; (apply Forall_cons; split; [by right|constructor]). }
  assert (Hno : eol_of body = lf → CR ∉ cr ++ [LF]).
  { intros Hlf. destruct Hb as [[_ ->]|[Hc _]]; [cbn; by intros ?%list_elem_of_singleton|by rewrite Hlf in Hc]. }
  destruct (ends_with lf body); rewrite ?chars_app, (line_break_chars _ _ Hb).
  - by exists cr.
  - exists ((cr ++ [LF]) ++ cr). split_and!; [by rewrite <-!app_assoc|by apply Forall_app|].
    intros Hlf. rewrite not_elem_of_app. by split; apply Hno.
Qed.

(** C27: A second splice of the same section changes nothing: for a section of
    complete lines between its markers, as the tool prints it, and every
    description that does not end in a lone carriage return, whether the
    section replaced an older one or was appended, whatever line endings and
    quoted markers the description has. *)
Theorem second_splice_changes_nothing body section ls out :
  trim_section section = join lf (SECTION_START :: ls ++ [SECTION_END]) →
  Forall (λ l, unbroken l ∧ l ≠ SECTION_END) ls → ends_with (String CR "") body = false →
  spliceSection body section = Ok out → spliceSection out section = Ok out.
Proof.
  intros Htrim Hls Hcr Hsplice. apply splice_cases in Hsplice as [Hwell Hcases]. cbv zeta in Hcases. rewrite Htrim in Hcases.
  assert (∃ cr, line_break (eol_of body) cr) as [cr Hbreak].
  { destruct (eol_of_spec body) as [[_ ->]|[_ ->]]; [exists [CR]; by right|exists []; by left]. }
  destruct (with_eol_block body ls (eol_of body) cr Hbreak Hls) as (Hblock & Hyes & Hno). rewrite Hblock in Hcases.
  set (block := join (eol_of body) _) in *.
  assert (Hyes' : has_crlf (chars body) → has_crlf (chars block)).
  { intros H. apply Hyes; [done|]. by destruct (eol_of_spec body) as [[_ ?]|[? _]]. }
  assert (Hno' : ¬ has_crlf (chars body) → CR ∉ chars block).
  { intros H. apply Hno. by destruct (eol_of_spec body) as [[? _]|[_ ?]]. }
  destruct Hcases as [(before & inner & after & Hbody & -> & Hstart & Hend & Hfirst)|[Hnone Hout]].
  - apply (splice_again before after ls (eol_of body) cr Hbreak Hls Hstart Hend section); [| |done|done].
    + intros j Hj Hl. apply (Hfirst j Hj). rewrite Hbody. rewrite chars_app in Hl |- *. destruct Hstart as [Hs|[u Hu]]; [rewrite Hs in Hj; cbn in Hj; lia|].
      rewrite Hu, <-app_assoc in Hl |- *. rewrite Hu, length_app in Hj. cbn in Hj. apply (kept_before SECTION_START start_unbroken u _ _ j ltac:(lia) Hl).
    + eapply (eol_kept body before block after []); [done|done| |by eapply block_starts_lt|by eapply block_ends_gt|by rewrite !chars_app, app_nil_r].
      intros Hb. rewrite app_nil_r. rewrite Hbody, chars_app, has_crlf_app in Hb. split; [tauto|].
      intros Ha. apply Hb. right. left. rewrite !chars_app, !has_crlf_app. tauto.
  - set (sep := if String.eqb body "" then _ else _) in Hout.
    assert (Hsep : body = "" ∧ chars sep = [] ∨ ∃ s, chars sep = s ++ [LF] ∧ Forall (λ c, c = CR ∨ c = LF) (chars sep) ∧
      (eol_of body = lf → CR ∉ chars sep)).
    { unfold sep. destruct (String.eqb_spec body "") as [|_]; [by left|]. right. by apply sep_breaks with (cr := cr). }
    assert (Hend : ∀ u, chars body ≠ u ++ [CR]).
    { intros u Hu. apply not_true_iff_false in Hcr. destruct Hcr. apply ends_with_char. by exists u. }
    rewrite <-(str_app_nil_r out). rewrite Hout, str_app_assoc, <-(str_app_assoc (body +:+ sep)).
    apply (splice_again (body +:+ sep) "" ls (eol_of body) cr Hbreak Hls); try done.
    + rewrite chars_app. destruct Hsep as [[-> ->]|(s & -> & _)]; [by left|]. right. exists (chars body ++ s). by rewrite app_assoc.
    + by left.
    + intros j Hj. rewrite !chars_app in *. rewrite <-app_assoc. destruct start_chars as (rs & Hs1 & Hs2).
      destruct Hsep as [[Hempty Hs]|(s & Hs & Hbr & _)]; [rewrite Hempty, Hs in Hj; cbn in Hj; lia|].
      apply (no_marker_before_breaks SECTION_START rs Hs1 start_unbroken); [done..| |by rewrite <-length_app].
      rewrite Hs. by destruct s.
    + apply (eol_kept body body block "" (chars sep)); [done|done| |by eapply block_starts_lt|by eapply block_ends_gt|by rewrite !chars_app].
      intros Hb. assert (Heol : eol_of body = lf) by by destruct (eol_of_spec body) as [[? _]|[_ ?]].
      split; [|by apply no_cr_no_crlf, not_elem_of_nil]. rewrite has_crlf_app. destruct Hsep as [[_ Hs]|(s & Hs & _ & Hlf)].
      * rewrite Hs. intros [?|[(u & v & Hu)|(u & v & _ & Hu)]]; [done|by destruct u|done].
      * intros [?|[?|(u & v & Hu & _)]]; [done| |by apply (Hend u)]. by apply (no_cr_no_crlf (chars sep)); [apply Hlf|].
Qed.

Definition sample_section : string := join lf [SECTION_START; "## A"; SECTION_END] +:+ lf.

Lemma second_splice_changes_nothing_witness :
  let body := "Quoting `" +:+ SECTION_START +:+ "`." +:+ crlf in
  exists out, spliceSection body sample_section = Ok out ∧ spliceSection out sample_section = Ok out.
Proof.
  intros body. eexists. split; [vm_compute; reflexivity|].
  apply (second_splice_changes_nothing body sample_section ["## A"]); [reflexivity| |reflexivity|vm_compute; reflexivity].
  repeat constructor; try done; not_in_text.
Defined.

Lemma splice_keeps_the_description_witness :
  let body := "Intro." +:+ lf +:+ SECTION_START +:+ lf +:+ "old" +:+ lf +:+ SECTION_END +:+ lf +:+ "Outro." in
  spliceSection body sample_section = Ok ("Intro." +:+ lf +:+ SECTION_START +:+ lf +:+ "## A" +:+ lf +:+ SECTION_END +:+ lf +:+ "Outro.") ∧
  ((∃ before inner after, body = before +:+ SECTION_START +:+ inner +:+ SECTION_END +:+ after) ∨
   (∀ j, ¬ line_at SECTION_START (chars body) j)).
Proof.
  intros body. split; [vm_compute; reflexivity|].
  destruct (splice_keeps_the_description body sample_section _ eq_refl) as [(before & inner & after & H & _)|[H _]]; [left; eauto|by right].
Defined.

(** A description that ends in a lone carriage return: the line feeds appended
    after it complete a CRLF, so the second splice changes the line endings. *)
Lemma lone_carriage_return_is_completed :
  exists once twice, spliceSection ("Text." +:+ String CR "") sample_section = Ok once ∧ spliceSection once sample_section = Ok twice ∧ once ≠ twice.
Proof. eexists _, _. split; [vm_compute; reflexivity|]. split; [vm_compute; reflexivity|done]. Qed.
