(* ===== verification/WorkerStages.v ===== *)
(** * Worker stages of a failed OCR run

    [src/tools/generated-worker-stage-policy.ts]: the stage names that may
    leave the worker, and the bounded sequence of them that a failure keeps. *)
From S2P Require Import Prelude JsString RuntimeErrors.

(** ** The policy *)

Definition MAX_WORKER_DIAGNOSTIC_STAGES : nat := 32.
Definition MAX_WORKER_DIAGNOSTIC_STAGE_LENGTH : Z := 128.
Definition WORKER_STAGE_STARTUP_HEAD_COUNT : nat := 16.
Definition WORKER_STAGE_FAILURE_TAIL_COUNT : nat := 8.

Definition WORKER_STAGE_EXCEPTION_NAMES : list string :=
  ["arithmeticerror"; "assertionerror"; "attributeerror"; "connectionerror"; "engineruntimeunavailableerror";
  "eoferror"; "filenotfounderror"; "importerror"; "indexerror"; "keyerror"; "memoryerror"; "modulenotfounderror";
  "nameerror"; "notexisterror"; "notimplementederror"; "ocrexecutionevidenceerror"; "ocrinferencecleanuperror";
  "oserror"; "overflowerror"; "paddleresultnormalizationerror"; "permissionerror"; "runtimeerror"; "timeouterror";
  "typeerror"; "unknown"; "unknownexecutionprovidererror"; "valueerror"; "zerodivisionerror"].

Definition SPEECH_EXCEPTIONS : list string :=
  List.filter (λ name, negb (String.eqb name "paddleresultnormalizationerror")) WORKER_STAGE_EXCEPTION_NAMES.

Definition LOAD_FAILURES : list string :=
  ["dependency-missing"; "symbol-missing"; "bad-image"; "initialization-failed"; "resource-exhausted"; "blocked";
  "side-by-side"; "unknown"].

Definition LIBRARIES : list string :=
  ["onnxruntime"; "directml"; "opencv"; "numpy"; "pandas"; "shapely"; "pyclipper"; "pillow"; "pydantic-core"; "rpds";
  "tokenizers"; "chardet"; "charset-normalizer"; "aiohttp"; "multidict"; "yarl"; "frozenlist"; "propcache";
  "vc-runtime"; "python-runtime"; "paddlex"; "paddleocr"; "unknown"].

Definition WORKER_STAGE_EXACT_STAGES : list string :=
  ["diarization-assets-probe-complete"; "diarization-assets-probe-start"; "diarization-audio-decode-complete";
  "diarization-audio-decode-start"; "diarization-device-cpu"; "diarization-device-cuda"; "diarization-gpu-fallback";
  "diarization-inference-complete"; "diarization-inference-start"; "diarization-model-load-complete";
  "diarization-model-load-start"; "diarization-output-empty"; "ocr-dml-device-id-mismatch";
  "ocr-dml-device-id-unobservable"; "ocr-execution-evidence-prepare"; "ocr-native-map-after";
  "ocr-native-map-before"; "ocr-normalize-failed-unknown"; "ocr-output-empty"; "ocr-paddle-factory";
  "ocr-pdf-render-complete"; "ocr-pdf-render-start"; "ocr-pipeline-create-complete";
  "ocr-pipeline-create-failed-unknown"; "ocr-pipeline-create-start"; "ocr-predict-complete";
  "ocr-predict-failed-unknown"; "ocr-predict-start"; "ocr-probe-assets-missing-unknown"; "ocr-probe-assets-ready";
  "ocr-probe-complete"; "ocr-probe-modules-missing-unknown"; "ocr-probe-modules-ready"; "ocr-probe-modules-start";
  "ocr-probe-providers-error"; "ocr-probe-providers-unknown"; "ocr-probe-start";
  "ocr-provider-evidence-failed-unknown"; "ocr-provider-evidence-start"; "ocr-provider-evidence-unknown";
  "python-import-av-complete"; "python-import-av-start"; "python-import-capture-runtime-complete";
  "python-import-capture-runtime-failed"; "python-import-capture-runtime-start";
  "python-import-engine-adapters-complete"; "python-import-engine-adapters-dependency-failed";
  "python-import-engine-adapters-failed"; "python-import-engine-adapters-module-missing";
  "python-import-engine-adapters-os-failed"; "python-import-engine-adapters-os-failed-winerror-unknown";
  "python-import-engine-adapters-start"; "python-import-librosa-complete"; "python-import-librosa-start";
  "python-import-numpy-complete"; "python-import-numpy-start"; "python-import-onnxruntime-complete";
  "python-import-onnxruntime-failed-unknown"; "python-import-onnxruntime-start"; "python-import-paddleocr-complete";
  "python-import-paddleocr-failed-unknown"; "python-import-paddleocr-start"; "python-import-pdfium-complete";
  "python-import-pdfium-start"; "python-import-pillow-complete"; "python-import-pillow-start";
  "python-import-torch-complete"; "python-import-torch-start"; "python-import-transformers-complete";
  "python-import-transformers-start"; "python-import-worker-contracts-complete";
  "python-import-worker-contracts-dependency-failed"; "python-import-worker-contracts-failed";
  "python-import-worker-contracts-module-missing"; "python-import-worker-contracts-os-failed";
  "python-import-worker-contracts-os-failed-winerror-unknown"; "python-import-worker-contracts-start";
  "python-import-worker-server-complete"; "python-import-worker-server-dependency-failed";
  "python-import-worker-server-failed"; "python-import-worker-server-module-missing";
  "python-import-worker-server-os-failed"; "python-import-worker-server-os-failed-winerror-unknown";
  "python-import-worker-server-start"; "speech-assets-probe-complete"; "speech-assets-probe-start";
  "speech-device-probe-complete"; "speech-device-probe-start"; "speech-gpu-fallback";
  "speech-model-load-cpu-complete"; "speech-model-load-cpu-failed-unknown"; "speech-model-load-cpu-fallback-float32";
  "speech-model-load-cpu-reused"; "speech-model-load-cpu-start"; "speech-model-load-cuda-complete";
  "speech-model-load-cuda-failed-unknown"; "speech-model-load-cuda-reused"; "speech-model-load-cuda-start";
  "speech-output-empty"; "speech-output-empty-window"; "speech-transcription-call-complete";
  "speech-transcription-call-start"; "speech-transcription-complete"; "speech-transcription-iteration-start";
  "worker-entry-start"; "worker-process-entry-missing"; "worker-process-exit-before-response";
  "worker-process-exit-nonzero"; "worker-process-no-response"; "worker-process-response-error";
  "worker-process-termination"; "worker-process-timeout"; "worker-stage-sequence-truncated"].

(** The parts of a family pattern. *)
Inductive part : Type := Text (s : string) | OneOf (l : list string) | Digits (least most : nat).

(** The anchored pattern made of the parts matches the whole text. *)
Fixpoint match_parts (ps : list part) (s : string) : bool :=
  match ps with
  | [] => String.eqb s ""
  | Text t :: ps' => starts_with t s && match_parts ps' (drop_str (String.length t) s)
  | OneOf l :: ps' => existsb (λ t, starts_with t s && match_parts ps' (drop_str (String.length t) s)) l
  | Digits least most :: ps' =>
      existsb (λ n, (n <=? span_len is_digit s)%nat && match_parts ps' (drop_str n s)) (seq least (S most - least))
  end.

Definition WORKER_STAGE_FAMILY_PATTERNS : list (list part) := [
  [Text "ocr-probe-modules-missing-"; Digits 1 3];
  [Text "ocr-probe-assets-missing-"; Digits 1 4];
  [Text "ocr-probe-providers-"; Digits 1 6; Text "-cpu-"; OneOf ["yes"; "no"]; Text "-dml-"; OneOf ["yes"; "no"]];
  [Text "ocr-provider-evidence-dml-"; Digits 1 6; Text "-cpu-"; Digits 1 6];
  [Text "ocr-"; OneOf ["pipeline-create"; "predict"; "normalize"; "provider-evidence"]; Text "-failed-"; OneOf WORKER_STAGE_EXCEPTION_NAMES];
  [Text "python-import-"; OneOf ["onnxruntime"; "paddleocr"]; Text "-failed-"; OneOf WORKER_STAGE_EXCEPTION_NAMES];
  [Text "python-import-"; OneOf ["onnxruntime"; "paddleocr"]; Text "-failed-"; OneOf WORKER_STAGE_EXCEPTION_NAMES; Text "-"; OneOf ["missing-module"; "native-load"; "cannot-import-symbol"; "partial-init"; "other"]; Text "-"; OneOf ["onnxruntime"; "paddleocr"; "paddlex"; "unknown"]];
  [Text "python-import-"; OneOf ["onnxruntime"; "paddleocr"]; Text "-failed-"; OneOf WORKER_STAGE_EXCEPTION_NAMES; Text "-native-load-"; OneOf ["onnxruntime"; "paddleocr"; "paddlex"; "unknown"]; Text "-"; OneOf LOAD_FAILURES; Text "-"; OneOf LIBRARIES];
  [Text "python-import-"; OneOf ["engine-adapters"; "worker-contracts"; "worker-server"]; Text "-os-failed-winerror-"; Digits 1 5];
  [Text "speech-model-load-"; OneOf ["cpu"; "cuda"]; Text "-failed-"; OneOf SPEECH_EXCEPTIONS];
  [Text "worker-process-"; OneOf ["timeout"; "exit-before-response"; "no-response"; "response-error"; "exit-nonzero"]; Text "-bootloader"]].

Definition WORKER_STAGE_UNKNOWN_PREFIXES : list (string * string) := [
  ("ocr-probe-modules-missing-", "ocr-probe-modules-missing-unknown");
  ("ocr-probe-assets-missing-", "ocr-probe-assets-missing-unknown");
  ("ocr-probe-providers-", "ocr-probe-providers-unknown");
  ("ocr-provider-evidence-dml-", "ocr-provider-evidence-unknown");
  ("ocr-pipeline-create-failed-", "ocr-pipeline-create-failed-unknown");
  ("ocr-predict-failed-", "ocr-predict-failed-unknown");
  ("ocr-normalize-failed-", "ocr-normalize-failed-unknown");
  ("ocr-provider-evidence-failed-", "ocr-provider-evidence-failed-unknown");
  ("python-import-onnxruntime-failed-", "python-import-onnxruntime-failed-unknown");
  ("python-import-paddleocr-failed-", "python-import-paddleocr-failed-unknown");
  ("python-import-engine-adapters-os-failed-winerror-", "python-import-engine-adapters-os-failed-winerror-unknown");
  ("python-import-worker-contracts-os-failed-winerror-", "python-import-worker-contracts-os-failed-winerror-unknown");
  ("python-import-worker-server-os-failed-winerror-", "python-import-worker-server-os-failed-winerror-unknown")].

Definition WORKER_STAGE_CRITICAL_STAGES : list string :=
  ["ocr-native-map-before"; "ocr-paddle-factory"; "ocr-native-map-after"; "ocr-execution-evidence-prepare";
  "ocr-dml-device-id-unobservable"; "ocr-dml-device-id-mismatch"].

(** ** One stage *)

(** [/^[a-z0-9]+(?:-[a-z0-9]+)*$/u] *)
Definition workerStageNamePattern (stage : string) : bool :=
  forallb (λ w, negb (String.eqb w "") && all_chars (λ c, is_lower c || is_digit c) w) (split_on "-" stage).

(** The device of [speechModelFailurePattern]; something follows the prefix. *)
Definition speech_failure (stage : string) : option string :=
  let device name := let prefix := "speech-model-load-" +:+ name +:+ "-failed-" in
    if starts_with prefix stage && negb (String.eqb (drop_str (String.length prefix) stage) "") then Some name else None in
  match device "cpu" with Some name => Some name | None => device "cuda" end.

Definition sanitizeWorkerStage (stage : string) : option string :=
  if MAX_WORKER_DIAGNOSTIC_STAGE_LENGTH <? slen stage then None
  else if negb (workerStageNamePattern stage) then None
  else if includes WORKER_STAGE_EXACT_STAGES stage || existsb (λ ps, match_parts ps stage) WORKER_STAGE_FAMILY_PATTERNS
  then Some stage
  else match List.find (λ entry : string * string, starts_with entry.1 stage) WORKER_STAGE_UNKNOWN_PREFIXES with
       | Some (_, sentinel) => Some sentinel
       | None => (λ device, "speech-model-load-" +:+ device +:+ "-failed-unknown") <$> speech_failure stage
       end.

Definition isAllowedWorkerStage (stage : string) : bool := bool_decide (sanitizeWorkerStage stage = Some stage).

(** ** A bounded sequence *)

Definition TRUNCATED : string := "worker-stage-sequence-truncated".

(** [selected.add(index)] *)
Definition select (selected : list nat) (index : nat) : list nat :=
  if decide (index ∈ selected) then selected else selected ++ [index].

(** The indices of the first occurrence of every critical stage. *)
Fixpoint first_critical (index : nat) (seen : list string) (stages : list string) : list nat :=
  match stages with
  | [] => []
  | stage :: rest =>
      if includes WORKER_STAGE_CRITICAL_STAGES stage && negb (includes seen stage)
      then index :: first_critical (S index) (stage :: seen) rest
      else first_critical (S index) seen rest
  end.

(** [for (...; index < stages.length && selected.size < realCapacity; ...)] *)
Fixpoint fill (capacity : nat) (indices selected : list nat) : list nat :=
  match indices with
  | [] => selected
  | index :: rest => if (length selected <? capacity)%nat then fill capacity rest (select selected index) else selected
  end.

Definition selection (stages : list string) : list nat :=
  let n := length stages in
  let head := seq 0 (Nat.min WORKER_STAGE_STARTUP_HEAD_COUNT n) in
  let tail := seq (n - WORKER_STAGE_FAILURE_TAIL_COUNT) (n - (n - WORKER_STAGE_FAILURE_TAIL_COUNT)) in
  fill (MAX_WORKER_DIAGNOSTIC_STAGES - 1) (seq 0 n)
    (fold_left select (first_critical 0 [] stages) (fold_left select tail (fold_left select head []))).

(** The last loop: the marker goes where the first stage is left out. *)
Fixpoint assemble (selected : list nat) (markerAdded : bool) (index : nat) (stages : list string) : list string :=
  match stages with
  | [] => if markerAdded then [] else [TRUNCATED]
  | stage :: rest =>
      if decide (index ∈ selected) then stage :: assemble selected markerAdded (S index) rest
      else if markerAdded then assemble selected true (S index) rest
      else TRUNCATED :: assemble selected true (S index) rest
  end.

Definition boundWorkerStageSequence (stages : list string) : list string :=
  let stages := omap sanitizeWorkerStage stages in
  if (length stages <=? MAX_WORKER_DIAGNOSTIC_STAGES)%nat then stages
  else assemble (selection stages) false 0 stages.

Example sanitized_samples :
  map sanitizeWorkerStage
    ["ocr-predict-start"; "ocr-probe-providers-12-cpu-yes-dml-no"; "ocr-predict-failed-valueerror"; "ocr-predict-failed-secret";
     "speech-model-load-cuda-failed-paddleresultnormalizationerror"; "OCR"; "ocr--start"; "worker-process-timeout-bootloader"] =
    [Some "ocr-predict-start"; Some "ocr-probe-providers-12-cpu-yes-dml-no"; Some "ocr-predict-failed-valueerror";
     Some "ocr-predict-failed-unknown"; Some "speech-model-load-cuda-failed-unknown"; None; None; Some "worker-process-timeout-bootloader"].
Proof. vm_compute. reflexivity. Qed.

(** ** What leaves the worker is allowed *)

Lemma sanitizeWorkerStage_allowed stage safe : sanitizeWorkerStage stage = Some safe → sanitizeWorkerStage safe = Some safe.
Proof.
  unfold sanitizeWorkerStage at 1. intros H.
  destruct (MAX_WORKER_DIAGNOSTIC_STAGE_LENGTH <? slen stage) eqn:H1; [done|]. destruct (negb (workerStageNamePattern stage)) eqn:H2; [done|].
  destruct (includes WORKER_STAGE_EXACT_STAGES stage || _) eqn:H3.
  { apply (inj Some) in H as <-. unfold sanitizeWorkerStage. by rewrite H1, H2, H3. }
  destruct (List.find _ _) as [[prefix sentinel]|] eqn:Hf.
  - apply (inj Some) in H as <-. apply find_some in Hf as [Hin _]. revert Hin. clear.
    enough (Forall (λ e : string * string, sanitizeWorkerStage e.2 = Some e.2) WORKER_STAGE_UNKNOWN_PREFIXES) as Hall.
    { intros Hin. rewrite Forall_forall in Hall. apply (Hall (prefix, sentinel)). by apply list_elem_of_In. }
    repeat (apply Forall_cons; split; [vm_compute; reflexivity|]). constructor.
  - apply fmap_Some in H as (device & Hd & ->). unfold speech_failure in Hd. cbv zeta in Hd.
    destruct (_ && _) in Hd; [injection Hd as <-; vm_compute; reflexivity|].
    destruct (_ && _) in Hd; [injection Hd as <-; vm_compute; reflexivity|done].
Qed.

Lemma sanitized_all stages : Forall (λ s, sanitizeWorkerStage s = Some s) (omap sanitizeWorkerStage stages).
Proof.
  apply Forall_forall. intros s (x & _ & Hx)%list_elem_of_omap. by eapply sanitizeWorkerStage_allowed.
Qed.

Lemma allowed_unchanged stages : Forall (λ s, sanitizeWorkerStage s = Some s) stages → omap sanitizeWorkerStage stages = stages.
Proof. intros H. induction H as [|s stages Hs H IH]; [done|]. cbn. by rewrite Hs, IH. Qed.

(** ** Exactly as many stages as fit *)

Lemma select_spec selected index :
  NoDup selected → NoDup (select selected index) ∧ (∀ i, i ∈ select selected index ↔ i = index ∨ i ∈ selected) ∧
  (length (select selected index) <= S (length selected))%nat.
Proof.
  intros Hnd. unfold select. destruct (decide (index ∈ selected)) as [Hin|Hin].
  - split_and!; [done| |lia]. intros i. naive_solver.
  - split_and!; [|intros i; rewrite elem_of_app, list_elem_of_singleton; tauto|rewrite length_app; cbn; lia].
    apply NoDup_app. split_and!; [done| |apply NoDup_singleton]. intros i Hi Hi'. apply list_elem_of_singleton in Hi'. congruence.
Qed.

Lemma select_all indices selected :
  NoDup selected → NoDup (fold_left select indices selected) ∧
  (∀ i, i ∈ fold_left select indices selected ↔ i ∈ selected ∨ i ∈ indices) ∧
  (length (fold_left select indices selected) <= length selected + length indices)%nat.
Proof.
  revert selected. induction indices as [|index indices IH]; intros selected Hnd; cbn [fold_left length].
  - split_and!; [done| |lia]. intros i. rewrite elem_of_nil. tauto.
  - destruct (select_spec selected index Hnd) as (Hnd' & Hel & Hlen). destruct (IH _ Hnd') as (Hnd'' & Hel' & Hlen').
    split_and!; [done| |lia]. intros i. rewrite Hel', Hel, elem_of_cons. tauto.
Qed.

Lemma fill_spec capacity indices selected :
  NoDup selected → (length selected <= capacity)%nat →
  let result := fill capacity indices selected in
  NoDup result ∧ (length result <= capacity)%nat ∧ (∀ i, i ∈ result → i ∈ selected ∨ i ∈ indices) ∧ selected ⊆ result ∧
  ((length result < capacity)%nat → indices ⊆ result).
Proof.
  revert selected. induction indices as [|index indices IH]; intros selected Hnd Hlen; cbn [fill].
  { split_and!; [done|done|by left|done|]. intros _ i ?%elem_of_nil. done. }
  destruct (Nat.ltb_spec (length selected) capacity) as [Hlt|Hge].
  - destruct (select_spec selected index Hnd) as (Hnd' & Hel & Hlen'). destruct (IH _ Hnd' ltac:(lia)) as (H1 & H2 & H3 & H4 & H5).
    split_and!; [done|done| | |].
    + intros i [Hi|Hi]%H3; [apply Hel in Hi as [->|?]|]; rewrite ?elem_of_cons; tauto.
    + intros i Hi. apply H4, Hel. by right.
    + intros Hr i [->|Hi]%elem_of_cons; [apply H4, Hel; by left|by apply H5].
  - split_and!; [done|done|by left|done|]. lia.
Qed.

Lemma first_critical_spec index seen stages :
  (∀ i, i ∈ first_critical index seen stages → (index <= i < index + length stages)%nat) ∧
  ∃ names, length names = length (first_critical index seen stages) ∧ NoDup names ∧
    names ⊆ WORKER_STAGE_CRITICAL_STAGES ∧ ∀ s, s ∈ names → s ∉ seen.
Proof.
  revert index seen. induction stages as [|stage stages IH]; intros index seen; cbn [first_critical length].
  { split; [by intros i ?%elem_of_nil|]. exists []. split_and!; [done|constructor|by intros x ?%elem_of_nil|by intros s ?%elem_of_nil]. }
  destruct (includes WORKER_STAGE_CRITICAL_STAGES stage && negb (includes seen stage)) eqn:Hc.
  - apply andb_true_iff in Hc as [Hc%includes_spec Hs%negb_true_iff%includes_false].
    destruct (IH (S index) (stage :: seen)) as [Hi (names & Hlen & Hnd & Hsub & Hseen)]. split.
    + intros i [->|Hin]%elem_of_cons; [lia|]. apply Hi in Hin. lia.
    + exists (stage :: names). split_and!; [cbn; lia| | |].
      * apply NoDup_cons. split; [|done]. intros Hin. apply (Hseen stage Hin), elem_of_cons. by left.
      * intros x [->|Hx]%elem_of_cons; [done|by apply Hsub].
      * intros s [->|Hx]%elem_of_cons; [done|]. intros Hs'. apply (Hseen s Hx), elem_of_cons. by right.
  - destruct (IH (S index) seen) as [Hi (names & Hlen & Hnd & Hsub & Hseen)]. split; [|by exists names].
    intros i Hin. apply Hi in Hin. lia.
Qed.

Lemma first_critical_complete index seen stages s :
  s ∈ stages → s ∈ WORKER_STAGE_CRITICAL_STAGES → s ∉ seen →
  ∃ j, stages !! j = Some s ∧ (index + j)%nat ∈ first_critical index seen stages.
Proof.
  revert index seen. induction stages as [|stage stages IH]; intros index seen Hin Hc Hseen; [by apply elem_of_nil in Hin|].
  cbn [first_critical]. destruct (decide (s = stage)) as [<-|Hne].
  - exists O. split; [done|]. rewrite (proj2 (includes_spec _ _) Hc), (proj2 (includes_false _ _) Hseen), Nat.add_0_r. cbn. by apply elem_of_cons; left.
  - apply elem_of_cons in Hin as [?|Hin]; [done|].
    destruct (includes WORKER_STAGE_CRITICAL_STAGES stage && negb (includes seen stage)).
    + destruct (IH (S index) (stage :: seen) Hin Hc) as (j & Hj & Hf); [by intros [?|?]%elem_of_cons|].
      exists (S j). split; [done|]. apply elem_of_cons. right. by rewrite Nat.add_succ_r.
    + destruct (IH (S index) seen Hin Hc Hseen) as (j & Hj & Hf). exists (S j). split; [done|]. by rewrite Nat.add_succ_r.
Qed.

Lemma selection_spec stages :
  (MAX_WORKER_DIAGNOSTIC_STAGES < length stages)%nat →
  NoDup (selection stages) ∧ length (selection stages) = 31%nat ∧ (∀ i, i ∈ selection stages → (i < length stages)%nat) ∧
  (∀ i, (i < 16 ∨ length stages - 8 <= i < length stages)%nat → i ∈ selection stages) ∧
  (∀ i, i ∈ first_critical 0 [] stages → i ∈ selection stages).
Proof.
  unfold MAX_WORKER_DIAGNOSTIC_STAGES. intros Hn. unfold selection. cbv zeta.
  unfold WORKER_STAGE_STARTUP_HEAD_COUNT, WORKER_STAGE_FAILURE_TAIL_COUNT, MAX_WORKER_DIAGNOSTIC_STAGES.
  set (n := length stages) in *. replace (Nat.min 16 n) with 16%nat by lia. replace (n - (n - 8))%nat with 8%nat by lia.
  destruct (select_all (seq 0 16) [] NoDup_nil_2) as (A1 & A2 & A3). set (a := fold_left select (seq 0 16) []) in *.
  destruct (select_all (seq (n - 8) 8) a A1) as (B1 & B2 & B3). set (b := fold_left select (seq (n - 8) 8) a) in *.
  destruct (select_all (first_critical 0 [] stages) b B1) as (C1 & C2 & C3). set (c := fold_left select (first_critical 0 [] stages) b) in *.
  rewrite !length_seq in *. cbn [length] in A3.
  destruct (first_critical_spec 0 [] stages) as [Hbound (names & Hlen & Hnames & Hsub & _)].
  pose proof (submseteq_length _ _ (NoDup_submseteq _ _ Hnames Hsub)) as Hsix. cbn [length WORKER_STAGE_CRITICAL_STAGES] in Hsix.
  destruct (fill_spec 31 (seq 0 n) c C1 ltac:(lia)) as (F1 & F2 & F3 & F4 & F5). change (32 - 1)%nat with 31%nat.
  set (result := fill 31 (seq 0 n) c) in *.
  assert (Hin : ∀ i, i ∈ result → (i < n)%nat).
  { intros i [Hi|Hi%elem_of_seq]%F3; [|lia]. apply C2 in Hi as [Hi|Hi%Hbound]; [|unfold n; lia].
    apply B2 in Hi as [Hi|Hi%elem_of_seq]; [|lia]. apply A2 in Hi as [Hi|Hi%elem_of_seq]; [by apply elem_of_nil in Hi|lia]. }
  split_and!; [done| |done| |].
  - destruct (Nat.lt_ge_cases (length result) 31) as [Hlt|]; [|lia]. specialize (F5 Hlt).
    pose proof (submseteq_length _ _ (NoDup_submseteq _ _ (NoDup_seq 0 n) F5)) as Hall. rewrite length_seq in Hall. lia.
  - intros i Hi. apply F4, C2. left. apply B2. destruct Hi as [Hi|Hi]; [left; apply A2; right|right]; apply elem_of_seq; lia.
  - intros i Hi. apply F4, C2. by right.
Qed.

(** ** The assembled sequence *)

Lemma assemble_length selected m index stages :
  length (assemble selected m index stages) =
    (length (List.filter (λ i, bool_decide (i ∈ selected)) (seq index (length stages))) + if m then 0 else 1)%nat.
Proof.
  revert m index. induction stages as [|stage stages IH]; intros m index; cbn [assemble length seq List.filter]; [by destruct m|].
  case_bool_decide as Hin; [rewrite decide_True by done|rewrite decide_False by done; destruct m]; cbn [length]; rewrite IH; lia.
Qed.

Lemma assemble_elem selected m index stages s : s ∈ assemble selected m index stages → s = TRUNCATED ∨ s ∈ stages.
Proof.
  revert m index. induction stages as [|stage stages IH]; intros m index; cbn [assemble].
  - destruct m; [by intros ?%elem_of_nil|]. intros ?%list_elem_of_singleton. by left.
  - destruct (decide _); [|destruct m]; rewrite ?elem_of_cons; intros H.
    + destruct H as [->|H%IH]; tauto.
    + apply IH in H. tauto.
    + destruct H as [->|H%IH]; tauto.
Qed.

Lemma assemble_keeps selected m index stages j s :
  stages !! j = Some s → (index + j)%nat ∈ selected → s ∈ assemble selected m index stages.
Proof.
  revert m index j. induction stages as [|stage stages IH]; intros m index j Hj Hin; [done|]. cbn [assemble].
  destruct j as [|j]; cbn in Hj.
  - injection Hj as ->. rewrite Nat.add_0_r in Hin. rewrite decide_True by done. apply elem_of_cons. by left.
  - rewrite Nat.add_succ_r in Hin. destruct (decide _); [|destruct m]; rewrite ?elem_of_cons; eauto.
Qed.

Lemma assemble_sublist selected index stages : sublist (assemble selected true index stages) stages.
Proof.
  revert index. induction stages as [|stage stages IH]; intros index; cbn [assemble]; [constructor|].
  destruct (decide _); by constructor.
Qed.

Lemma assemble_suffix selected index before after :
  (∀ i, (index + length before <= i < index + length before + length after)%nat → i ∈ selected) →
  after `suffix_of` (assemble selected true index (before ++ after)).
Proof.
  revert index. induction before as [|stage before IH]; intros index Hall; cbn [app assemble].
  - enough (assemble selected true index after = after) as -> by done.
    revert index Hall. induction after as [|stage after IH]; intros index Hall; cbn [assemble]; [done|].
    rewrite decide_True by (apply Hall; cbn; lia). f_equal. apply IH. intros i Hi. apply Hall. cbn in *. lia.
  - destruct (IH (S index)) as [k Hk]; [intros i Hi; apply Hall; cbn; lia|].
    destruct (decide _); [|by exists k]. exists (stage :: k). by rewrite Hk.
Qed.

Lemma assemble_split selected index stages :
  (∀ j, (j < length stages)%nat → (index + j)%nat ∈ selected) ∨
  ∃ k, (k < length stages)%nat ∧ ((index + k)%nat ∉ selected) ∧ (∀ j, (j < k)%nat → (index + j)%nat ∈ selected) ∧
    assemble selected false index stages = take k stages ++ (TRUNCATED :: assemble selected true (index + S k) (drop (S k) stages)).
Proof.
  revert index. induction stages as [|stage stages IH]; intros index; [left; cbn; lia|]. cbn [assemble].
  destruct (decide (index ∈ selected)) as [Hin|Hin].
  - destruct (IH (S index)) as [Hall|(k & Hk & Hout & Hbefore & Heq)].
    + left. intros [|j] Hj; [by rewrite Nat.add_0_r|]. rewrite Nat.add_succ_r. apply Hall. cbn in Hj. lia.
    + right. exists (S k). split_and!; [cbn; lia|by rewrite Nat.add_succ_r| |].
      * intros [|j] Hj; [by rewrite Nat.add_0_r|]. rewrite Nat.add_succ_r. apply Hbefore. lia.
      * cbn [take app drop]. rewrite Heq. by replace (S index + S k)%nat with (index + S (S k))%nat by lia.
  - right. exists O. split_and!; [cbn; lia|by rewrite Nat.add_0_r|lia|]. cbn [take app drop]. by rewrite Nat.add_1_r.
Qed.

Lemma truncated_spec stages :
  (MAX_WORKER_DIAGNOSTIC_STAGES < length stages)%nat →
  let bounded := assemble (selection stages) false 0 stages in
  length bounded = MAX_WORKER_DIAGNOSTIC_STAGES ∧
  (∃ k rest, (16 <= k)%nat ∧ bounded = take k stages ++ (TRUNCATED :: rest) ∧ sublist rest (drop (S k) stages)) ∧
  (drop (length stages - 8) stages) `suffix_of` bounded ∧
  (∀ s, s ∈ stages → s ∈ WORKER_STAGE_CRITICAL_STAGES → s ∈ bounded).
Proof.
  intros Hn. cbv zeta. destruct (selection_spec stages Hn) as (Hnd & Hlen & Hin & Hends & Hcrit). unfold MAX_WORKER_DIAGNOSTIC_STAGES in *.
  split_and!.
  - rewrite assemble_length.
    enough (List.filter (λ i, bool_decide (i ∈ selection stages)) (seq 0 (length stages)) ≡ₚ selection stages) as -> by (rewrite Hlen; done).
    apply NoDup_Permutation; [|done|].
    + eapply sublist_NoDup; [apply (NoDup_seq 0 (length stages))|]. generalize (seq 0 (length stages)). intros l.
      induction l as [|x l IH]; cbn; [constructor|]. destruct (bool_decide _); by constructor.
    + intros i. rewrite list_elem_of_In, filter_In, <-list_elem_of_In, bool_decide_eq_true, elem_of_seq. split; [tauto|].
      intros Hi. split; [|done]. apply Hin in Hi. lia.
  - destruct (assemble_split (selection stages) 0 stages) as [Hall|(k & Hk & Hout & Hbefore & ->)].
    + exfalso. assert (Hsub : seq 0 (length stages) ⊆ selection stages) by (intros i Hi%elem_of_seq; apply (Hall i); lia).
      pose proof (submseteq_length _ _ (NoDup_submseteq _ _ (NoDup_seq 0 (length stages)) Hsub)) as Hle. rewrite length_seq in Hle. lia.
    + exists k, (assemble (selection stages) true (S k) (drop (S k) stages)). split_and!; [|done|apply assemble_sublist].
      destruct (Nat.le_gt_cases 16 k) as [|Hlt]; [done|]. destruct Hout. apply Hends. lia.
  - destruct (assemble_split (selection stages) 0 stages) as [Hall|(k & Hk & Hout & Hbefore & ->)].
    + exfalso. assert (Hsub : seq 0 (length stages) ⊆ selection stages) by (intros i Hi%elem_of_seq; apply (Hall i); lia).
      pose proof (submseteq_length _ _ (NoDup_submseteq _ _ (NoDup_seq 0 (length stages)) Hsub)) as Hle. rewrite length_seq in Hle. lia.
    + assert (Hk' : (S k <= length stages - 8)%nat).
      { destruct (Nat.le_gt_cases (S k) (length stages - 8)) as [|Hgt]; [done|]. destruct Hout. apply Hends. lia. }
      apply suffix_app_r. apply (suffix_cons_r). cbn [Nat.add].
      assert (Hsplit : drop (S k) stages = take (length stages - 8 - S k) (drop (S k) stages) ++ drop (length stages - 8) stages).
      { rewrite <-(take_drop (length stages - 8 - S k) (drop (S k) stages)) at 1. f_equal. rewrite drop_drop. f_equal. lia. }
      rewrite Hsplit. apply assemble_suffix. rewrite length_take, !length_drop. intros i Hi. apply Hends. lia.
  - intros s Hs Hc. destruct (first_critical_complete 0 [] stages s Hs Hc) as (j & Hj & Hf); [by intros ?%elem_of_nil|].
    eapply assemble_keeps; [done|]. by apply Hcrit.
Qed.

Lemma bound_short stages :
  (length (omap sanitizeWorkerStage stages) <= MAX_WORKER_DIAGNOSTIC_STAGES)%nat →
  boundWorkerStageSequence stages = omap sanitizeWorkerStage stages.
Proof. intros H. unfold boundWorkerStageSequence. cbv zeta. by rewrite (proj2 (Nat.leb_le _ _) H). Qed.

Lemma bound_long stages :
  (MAX_WORKER_DIAGNOSTIC_STAGES < length (omap sanitizeWorkerStage stages))%nat →
  boundWorkerStageSequence stages =
    assemble (selection (omap sanitizeWorkerStage stages)) false 0 (omap sanitizeWorkerStage stages).
Proof. intros H. unfold boundWorkerStageSequence. cbv zeta. by rewrite (proj2 (Nat.leb_gt _ _) H). Qed.

Lemma bound_settled stages :
  Forall (λ s, sanitizeWorkerStage s = Some s) stages → (length stages <= MAX_WORKER_DIAGNOSTIC_STAGES)%nat →
  boundWorkerStageSequence stages = stages.
Proof. intros Hs Hlen. rewrite bound_short; rewrite allowed_unchanged; done. Qed.

Lemma truncated_allowed selected stages :
  Forall (λ s, sanitizeWorkerStage s = Some s) stages →
  Forall (λ s, sanitizeWorkerStage s = Some s) (assemble selected false 0 stages).
Proof. rewrite !Forall_forall. intros H s [->|Hs]%assemble_elem; [vm_compute; reflexivity|by apply H]. Qed.

(** C26: What a failure keeps of its stages is bounded, allowed and settled: at
    most 32 stages, every one of them allowed, and bounding them again changes
    nothing; with 32 allowed stages or fewer all are kept in order, with more
    the marker stands where the first one is left out, after at least the
    first 16, the last 8 end the sequence, the others keep their order, and
    every critical stage that occurred is still named. *)
Theorem stage_sequence_is_bounded stages :
  let safe := omap sanitizeWorkerStage stages in
  let bounded := boundWorkerStageSequence stages in
  (length bounded <= MAX_WORKER_DIAGNOSTIC_STAGES)%nat ∧ Forall (λ s, sanitizeWorkerStage s = Some s) bounded ∧
  boundWorkerStageSequence bounded = bounded ∧
  ((length safe <= MAX_WORKER_DIAGNOSTIC_STAGES)%nat → bounded = safe) ∧
  ((MAX_WORKER_DIAGNOSTIC_STAGES < length safe)%nat →
   (∃ k rest, (16 <= k)%nat ∧ bounded = take k safe ++ (TRUNCATED :: rest) ∧ sublist rest (drop (S k) safe)) ∧
   (drop (length safe - 8) safe) `suffix_of` bounded ∧
   ∀ s, s ∈ safe → s ∈ WORKER_STAGE_CRITICAL_STAGES → s ∈ bounded).
Proof.
  cbv zeta. set (safe := omap sanitizeWorkerStage stages).
  assert (Hsafe : Forall (λ s, sanitizeWorkerStage s = Some s) safe) by apply sanitized_all.
  destruct (Nat.le_gt_cases (length safe) MAX_WORKER_DIAGNOSTIC_STAGES) as [Hle|Hgt].
  - rewrite (bound_short stages Hle). fold safe. split_and!; [done|done|by apply bound_settled|done|lia].
  - rewrite (bound_long stages Hgt). fold safe. destruct (truncated_spec safe Hgt) as (Hlen & Hsplit & Htail & Hcrit).
    split_and!; [lia| | |intros ?; lia|intros _; exact (conj Hsplit (conj Htail Hcrit))].
    + by apply truncated_allowed.
    + apply bound_settled; [by apply truncated_allowed|lia].
Qed.

(** Forty stages of a long run: 31 of them and the marker are kept. *)
Definition long_run : list string :=
  repeat "ocr-probe-start" 10 ++ repeat "ocr-predict-start" 20 ++ ["ocr-paddle-factory"] ++ repeat "ocr-predict-complete" 9.

Lemma stage_sequence_is_bounded_witness :
  (MAX_WORKER_DIAGNOSTIC_STAGES < length (omap sanitizeWorkerStage long_run))%nat ∧
  "ocr-paddle-factory" ∈ boundWorkerStageSequence long_run ∧
  boundWorkerStageSequence ["worker-entry-start"; "C:/secret"; "ocr-predict-failed-secret"] =
    ["worker-entry-start"; "ocr-predict-failed-unknown"].
Proof.
  destruct (stage_sequence_is_bounded long_run) as (_ & _ & _ & _ & H).
  destruct (stage_sequence_is_bounded ["worker-entry-start"; "C:/secret"; "ocr-predict-failed-secret"]) as (_ & _ & _ & H' & _).
  assert (Hn : (MAX_WORKER_DIAGNOSTIC_STAGES < length (omap sanitizeWorkerStage long_run))%nat) by (apply Nat.ltb_lt; vm_compute; reflexivity).
  split_and!; [done| |].
  - destruct (H Hn) as (_ & _ & Hc). apply Hc; apply includes_spec; vm_compute; reflexivity.
  - rewrite H'; [vm_compute; reflexivity|]. apply Nat.leb_le. vm_compute. reflexivity.
Defined.
