(* ===== verification/AcceptanceText.v ===== *)
(** * What an acceptance text may keep

    [src/tools/acceptance-contract.ts], its texts: the private paths and the
    private words that refuse a failure record, the redaction of logs and of
    structured values, the categories a diagnostic is reduced to, and the names
    of fixtures and kinds of artifacts. *)
From S2P Require Import Prelude JsString JsNum JsValue RuntimeErrors Posix ScopeProcesses.

(** ** Texts that must not leave *)

(** The pattern [M] matches somewhere in the text. *)
Fixpoint anywhere (M : string → bool) (s : string) : bool :=
  M s || match s with "" => false | String _ s' => anywhere M s' end.

(** A fixed number of characters, each of its class. *)
Fixpoint matches_word (word : list (ascii → bool)) (s : string) : bool :=
  match word, s with
  | [], _ => true
  | _, "" => false
  | P :: word', String c s' => P c && matches_word word' s'
  end.

Definition is_letter (c : ascii) : bool := is_upper c || is_lower c.
Definition is_slash (c : ascii) : bool := Ascii.eqb c "/" || Ascii.eqb c "\".
Definition same_letter (d c : ascii) : bool := Ascii.eqb d (lower_char c).

(** [[^<>\r\n]] without the quotes. *)
Definition path_char (c : ascii) : bool :=
  negb (is_quote c || Ascii.eqb c "<" || Ascii.eqb c ">" || (code c =? 13) || (code c =? 10)).

Definition PRIVATE_ROOTS : list string := ["users"; "private"; "home"; "tmp"; "var"; "workspace"; "software-dev"].

(** [[A-Za-z]:[\\/]] and a private root between slashes, in either case. *)
Definition drive_word : list (ascii → bool) := [is_letter; Ascii.eqb ":"; is_slash].
Definition root_word (root : string) : list (ascii → bool) :=
  map same_letter (list_ascii_of_string ("/" +:+ root +:+ "/")).

(** [/[A-Za-z]:[\\/]|\/(?:Users|private|...)\//iu.test(text)] *)
Definition has_private_path (text : string) : bool :=
  anywhere (λ s, matches_word drive_word s || existsb (λ root, matches_word (root_word root) s) PRIVATE_ROOTS) text.

(** [[A-Za-z0-9_]] *)
Definition word_char (c : ascii) : bool := is_alnum c || Ascii.eqb c "_".

Definition word_ends (s : string) : bool := match s with "" => true | String c _ => negb (word_char c) end.

(** [/\b(?:authorization|bearer|...)\b/iu.test(text)]; [inside] says that the
    text goes on from a word character. *)
Fixpoint has_word (words : list string) (inside : bool) (s : string) : bool :=
  negb inside && existsb (λ w, ci_prefix w s && word_ends (drop_str (String.length w) s)) words ||
  match s with "" => false | String c s' => has_word words (word_char c) s' end.

Definition has_private_word (text : string) : bool :=
  has_word ["authorization"; "bearer"; "secret"; "token"; "password"; "stderr"; "ocrtext"] false text.

(** ** Redaction *)

(** [text.replace(re, f)]: [re] gives the length of the match at the start of
    its argument and the text that replaces it. *)
Fixpoint substitute (re : string → option (nat * string)) (skip : nat) (s : string) : string :=
  match s with
  | "" => ""
  | String c s' =>
      match skip with
      | S k => substitute re k s'
      | O => match re s with
             | Some (n, replacement) => replacement +:+ substitute re (Nat.pred n) s'
             | None => String c (substitute re O s')
             end
      end
  end.

(** The first and the last character are the same quote; one alone is both. *)
Definition redactDelimitedValue (value : string) : string :=
  match value with
  | String quote _ =>
      if is_quote quote && ends_with (String quote "") value then String quote ("<redacted>" +:+ String quote "")
      else "<redacted>"
  | "" => "<redacted>"
  end.

(** The length of a value in double quotes, in single quotes, or of at least
    one character that does not stop it. *)
Definition secret_length (stop : ascii → bool) (s : string) : option nat :=
  match s with
  | "" => None
  | String c s' =>
      if is_quote c then (λ i, (i + 2)%nat) <$> index_of c s'
      else if stop c then None else Some (span_len (λ d, negb (stop d)) s)
  end.

(** Where a value without quotes ends. *)
Definition stops_secret (c : ascii) : bool :=
  is_quote c || Ascii.eqb c "," || Ascii.eqb c ";" || Ascii.eqb c "}" || Ascii.eqb c "]".
Definition stops_bearer (c : ascii) : bool := is_space c || stops_secret c.
Definition stops_credential (c : ascii) : bool := (code c =? 13) || (code c =? 10) || stops_secret c.

(** [/Bearer\s+(...)/giu] *)
Definition bearer_at (s : string) : option (nat * string) :=
  if ci_prefix "bearer" s then
    let start := (6 + span_len is_space (drop_str 6 s))%nat in
    if Nat.eqb start 6 then None
    else (λ n, ((start + n)%nat, "Bearer " +:+ redactDelimitedValue (take_str n (drop_str start s)))) <$>
           secret_length stops_bearer (drop_str start s)
  else None.

Definition CREDENTIAL_WORDS : list string := ["authorization"; "token"; "secret"; "password"].

(** One optional double quote. *)
Definition quote_length (s : string) : nat := match s with String c _ => if Ascii.eqb c "034" then 1%nat else O | "" => O end.

(** The position after the name, in optional double quotes, and its separator. *)
Definition after_separator (s : string) : option nat :=
  let i := quote_length s in
  match List.find (λ word, ci_prefix word (drop_str i s)) CREDENTIAL_WORDS with
  | None => None
  | Some word =>
      let i := (i + String.length word)%nat in
      let i := (i + quote_length (drop_str i s))%nat in
      let i := (i + span_len is_space (drop_str i s))%nat in
      match drop_str i s with
      | String c _ => if Ascii.eqb c ":" || Ascii.eqb c "=" then Some (S i) else None
      | "" => None
      end
  end.

(** The longest run of spaces after the separator that a value can follow:
    the run gives its last spaces back when nothing else is left to redact. *)
Fixpoint value_after (s : string) (start spaces : nat) : option (nat * nat) :=
  match secret_length stops_credential (drop_str (start + spaces) s) with
  | Some n => Some ((start + spaces)%nat, n)
  | None => match spaces with O => None | S spaces' => value_after s start spaces' end
  end.

(** The named credentials: the name, an optional double quote around it, the
    separator and the spaces are kept, the value is not. *)
Definition credential_at (s : string) : option (nat * string) :=
  match after_separator s with
  | None => None
  | Some start =>
      (λ e : nat * nat, ((e.1 + e.2)%nat, take_str e.1 s +:+ redactDelimitedValue (take_str e.2 (drop_str e.1 s)))) <$>
        value_after s start (span_len is_space (drop_str start s))
  end.

(** A private path goes on to the next quote, angle bracket or line end. *)
Definition path_at (words : list (list (ascii → bool))) (s : string) : option (nat * string) :=
  match List.find (λ word, matches_word (word ++ [path_char]) s) words with
  | Some word => Some ((length word + span_len path_char (drop_str (length word) s))%nat, "<private-path>")
  | None => None
  end.

(** A drive, case as it is *)
Definition windows_path_at : string → option (nat * string) := path_at [drive_word].

(** A private root, in either case *)
Definition unix_path_at : string → option (nat * string) := path_at (map root_word PRIVATE_ROOTS).

Definition redactAcceptanceText (value : string) : string :=
  substitute unix_path_at 0 (substitute windows_path_at 0 (substitute credential_at 0 (substitute bearer_at 0 value))).

(** [/(?:authorization|token|secret|password|api[_-]?key|private[_-]?key)/iu.test(key)] *)
Definition isSensitiveKey (key : string) : bool :=
  existsb (λ w, ci_contains w key)
    (["authorization"; "token"; "secret"; "password"] ++
     flat_map (λ w, map (λ dash, w +:+ dash +:+ "key") [""; "_"; "-"]) ["api"; "private"]).

Fixpoint redactStructuredValue (key : string) (value : js) : js :=
  if isSensitiveKey key then Str "<redacted>"
  else match value with
       | Str s => Str (redactAcceptanceText s)
       | Arr l => Arr (map (redactStructuredValue "") l)
       | Obj r => Obj (map (λ kv, (kv.1, redactStructuredValue kv.1 kv.2)) r)
       | _ => value
       end.

(** ** Categories *)

Inductive fallback_kind : Type := acceptance | cleanup.

(** [value] is [undefined] for anything that is not a text. *)
Definition sanitizeAcceptanceDiagnostic (value : js) (fallback : fallback_kind) : string :=
  let normalized := match value with Str s => lower s | _ => "" end in
  let has words := existsb (λ w, has_substring w normalized) words in
  if has ["tohavescreenshot"; "snapshot"; "pixels (ratio"] then "browser_acceptance_failed"
  else if has ["ocr_worker_failed"] then "ocr_worker_failed"
  else if has ["ocr"; "anchor"] then "ocr_verification_failed"
  else if has ["cleanup"; "residue"; "process"] then "cleanup_verification_failed"
  else if has ["runtime"; "worker"] then "runtime_acceptance_failed"
  else if has ["playwright"; "browser"] then "browser_acceptance_failed"
  else match fallback with cleanup => "cleanup_verification_failed" | acceptance => "acceptance_failed" end.

Definition FIXTURE_EXTENSIONS : list string :=
  ["pdf"; "jpg"; "jpeg"; "png"; "webp"; "wav"; "mp3"; "m4a"; "flac"; "ogg"].

(** [/\.(pdf|jpe?g|png|...)$/iu] *)
Definition sanitizeFixtureName (value : string) : string :=
  match List.find (λ extension, ends_with ("." +:+ extension) (lower value)) FIXTURE_EXTENSIONS with
  | Some extension => "fixture." +:+ extension
  | None => "fixture"
  end.

Definition acceptanceArtifactKind (path : string) : string :=
  let ends := λ suffixes, existsb (λ suffix, Posix.ends_with suffix path) suffixes in
  if ends [".webm"] then "video"
  else if ends [".png"] then "screenshot"
  else if ends [".zip"] then "trace"
  else if ends [".html"; ".md"] then "report"
  else if ends [".log"; ".json"; ".jsonl"] then "log"
  else "other".

Example redacted_samples :
  let q := String "034" "" in
  map redactAcceptanceText
    ["Authorization: Bearer abc.def, x"; "{" +:+ q +:+ "token" +:+ q +:+ ": " +:+ q +:+ "s3 c" +:+ q +:+ "}"; "password=   ,";
     "at C:\work\a.ts:3"; "open '/Users/me/x' failed"; "/opt/x /TMP/y"] =
    ["Authorization: <redacted>, x"; "{" +:+ q +:+ "token" +:+ q +:+ ": " +:+ q +:+ "<redacted>" +:+ q +:+ "}";
     "password=  <redacted>,"; "at <private-path>"; "open '<private-path>' failed"; "/opt/x <private-path>"].
Proof. vm_compute. reflexivity. Qed.

(** ** No private path is left *)

(** A word of a private path, with one character more. *)
Definition path_words : list (list (ascii → bool)) :=
  map (λ word, word ++ [path_char]) (drive_word :: map root_word PRIVATE_ROOTS).

(** No class of the word holds an angle bracket. *)
Definition open_word (word : list (ascii → bool)) : Prop := Forall (λ P : ascii → bool, P "<"%char = false ∧ P ">"%char = false) word.

Lemma path_words_open : Forall open_word path_words.
Proof.
  unfold path_words. apply Forall_map. apply Forall_cons. split; [by repeat constructor|].
  apply Forall_map. repeat (apply Forall_cons; split; [by repeat constructor|]). constructor.
Qed.

(** Text that is put in between angle brackets makes no private path. *)
Lemma substituted_word re word s :
  (∀ t n r, re t = Some (n, r) → r = "<private-path>") → open_word word →
  matches_word word (substitute re 0 s) = true → matches_word word s = true.
Proof.
  intros Hre. revert s. induction word as [|P word IH]; intros s Ho H; [done|].
  apply Forall_cons in Ho as [[HP _] Ho]. destruct s as [|c s]; [done|]. cbn [substitute] in H.
  destruct (re (String c s)) as [[n r]|] eqn:E.
  - rewrite (Hre _ _ _ E) in H. apply andb_true_iff in H as [H _]. congruence.
  - cbn [matches_word] in *. apply andb_true_iff in H as [-> H]. cbn. by apply IH.
Qed.

Lemma anywhere_app M s t : anywhere M (s +:+ t) = false → anywhere M t = false.
Proof. induction s as [|c s IH]; intros H; [done|]. cbn in H. apply orb_false_iff in H as [_ H]. by apply IH. Qed.

Lemma anywhere_suffix M c s : anywhere M (String c s) = false → M (String c s) = false ∧ anywhere M s = false.
Proof. intros H. by apply orb_false_iff in H. Qed.

(** Inside the replacement no word matches. *)
Lemma inside_replacement word t :
  word ∈ path_words → anywhere (matches_word word) t = false → anywhere (matches_word word) ("<private-path>" +:+ t) = false.
Proof.
  intros Hin Ht. cbn [String.append anywhere]. rewrite Ht, orb_false_r.
  unfold path_words in Hin. apply list_elem_of_fmap in Hin as (w & -> & Hin).
  apply elem_of_cons in Hin as [->|Hin]; [reflexivity|]. apply list_elem_of_fmap in Hin as (root & -> & Hin).
  unfold PRIVATE_ROOTS in Hin. rewrite !elem_of_cons, elem_of_nil in Hin.
  repeat (destruct Hin as [->|Hin]; [reflexivity|]). done.
Qed.

(** The substitution of one kind of path leaves no word [M] it looks for, and
    makes none of another kind. *)
Lemma substitution_keeps re word s :
  (∀ t n r, re t = Some (n, r) → r = "<private-path>") → word ∈ path_words →
  (∀ t, re t = None → matches_word word t = false) ∨ anywhere (matches_word word) s = false →
  ∀ skip, anywhere (matches_word word) (substitute re skip s) = false.
Proof.
  intros Hre Hin. assert (Ho : open_word word) by (pose proof path_words_open as Hall; rewrite Forall_forall in Hall; by apply Hall).
  assert (Hnil : matches_word word "" = false).
  { unfold path_words in Hin. apply list_elem_of_fmap in Hin as (w & -> & _). by destruct w. }
  induction s as [|c s IH]; intros Hno skip; [cbn; by rewrite Hnil|].
  assert (IH' : ∀ skip, anywhere (matches_word word) (substitute re skip s) = false).
  { apply IH. destruct Hno as [Hno|Hno]; [by left|]. right. by apply anywhere_suffix in Hno as [_ ?]. }
  cbn [substitute]. destruct skip as [|skip]; [|done]. destruct (re (String c s)) as [[n r]|] eqn:E.
  - rewrite (Hre _ _ _ E). by apply inside_replacement.
  - cbn [anywhere]. rewrite IH', orb_false_r.
    assert (Hm : matches_word word (String c s) = false).
    { destruct Hno as [Hno|Hno]; [by apply Hno|by apply anywhere_suffix in Hno as [? _]]. }
    apply not_true_is_false. intros Ht. apply not_true_iff_false in Hm. apply Hm.
    apply (substituted_word re); [done|done|]. cbn [substitute]. by rewrite E.
Qed.

Lemma path_at_replacement words t n r : path_at words t = Some (n, r) → r = "<private-path>".
Proof. unfold path_at. destruct (List.find _ _); [|done]. by intros [= <- <-]. Qed.

Lemma path_at_None words word t : path_at words t = None → word ∈ words → matches_word (word ++ [path_char]) t = false.
Proof.
  unfold path_at. destruct (List.find _ _) eqn:E; [done|]. intros _ Hin. rewrite find_none_iff, Forall_forall in E. by apply E.
Qed.

(** A private path in a text. *)
Definition shows_path (text : string) : bool := existsb (λ word, anywhere (matches_word word) text) path_words.

Lemma redacted_text_shows_no_path s : shows_path (redactAcceptanceText s) = false.
Proof.
  unfold shows_path, redactAcceptanceText. set (t := substitute credential_at 0 _). apply existsb_false, Forall_forall. intros word Hin.
  pose proof Hin as Hword. unfold path_words in Hin. apply list_elem_of_fmap in Hin as (w & -> & Hin). apply elem_of_cons in Hin as [->|Hin].
  - apply substitution_keeps; [by intros; eapply path_at_replacement|done|]. right.
    apply substitution_keeps; [by intros; eapply path_at_replacement|done|]. left.
    intros u Hu. eapply path_at_None; [exact Hu|]. by apply list_elem_of_singleton.
  - apply substitution_keeps; [by intros; eapply path_at_replacement|done|]. left. intros u Hu. by eapply path_at_None.
Qed.

(** ** Structured values *)

(** Every text of a value, with the name it is stored under. *)
Fixpoint texts_of (key : string) (value : js) : list (string * string) :=
  match value with
  | Str s => [(key, s)]
  | Arr l => flat_map (texts_of "") l
  | Obj r => flat_map (λ kv, texts_of kv.1 kv.2) r
  | _ => []
  end.

(** Every value of a sensitive name. *)
Fixpoint sensitive_values (key : string) (value : js) : list js :=
  (if isSensitiveKey key then [value] else []) ++
  match value with
  | Arr l => flat_map (sensitive_values "") l
  | Obj r => flat_map (λ kv, sensitive_values kv.1 kv.2) r
  | _ => []
  end.

Lemma elem_of_flat_map {A B} (f : A → list B) l y : y ∈ flat_map f l ↔ ∃ x, y ∈ f x ∧ x ∈ l.
Proof. rewrite list_elem_of_In, in_flat_map. setoid_rewrite list_elem_of_In. naive_solver. Qed.

Lemma redacted_texts value : ∀ key k s, (k, s) ∈ texts_of key (redactStructuredValue key value) → shows_path s = false.
Proof.
  assert (Hred : ∀ key k s, (k, s) ∈ texts_of key (Str "<redacted>") → shows_path s = false).
  { intros key k s H%list_elem_of_singleton. by injection H as -> ->. }
  induction value as [| |b|n|s|l IH|r IH] using js_ind; intros key k t;
    cbn [redactStructuredValue]; destruct (isSensitiveKey key); try apply Hred; cbn [texts_of]; try (by intros ?%elem_of_nil).
  - intros H%list_elem_of_singleton. injection H as -> ->. apply redacted_text_shows_no_path.
  - intros (v & Ht & Hv)%elem_of_flat_map. apply list_elem_of_fmap in Hv as (w & -> & Hw).
    rewrite Forall_forall in IH. by apply (IH w Hw "" k t).
  - intros (v & Ht & Hv)%elem_of_flat_map. apply list_elem_of_fmap in Hv as (w & -> & Hw).
    rewrite Forall_forall in IH. by apply (IH w Hw w.1 k t).
Qed.

Lemma redacted_sensitive value : ∀ key v, v ∈ sensitive_values key (redactStructuredValue key value) → v = Str "<redacted>".
Proof.
  induction value as [| |b|n|s|l IH|r IH] using js_ind; intros key v;
    cbn [redactStructuredValue]; destruct (isSensitiveKey key) eqn:Hk; cbn [sensitive_values]; rewrite ?Hk; cbn [app];
    try (by intros ?%elem_of_nil); try (by intros ?%list_elem_of_singleton).
  - intros (u & Ht & Hv)%elem_of_flat_map. apply list_elem_of_fmap in Hv as (w & -> & Hw).
    rewrite Forall_forall in IH. by apply (IH w Hw "").
  - intros (u & Ht & Hv)%elem_of_flat_map. apply list_elem_of_fmap in Hv as (w & -> & Hw).
    rewrite Forall_forall in IH. by apply (IH w Hw w.1).
Qed.



(** A value in quotes is kept when the name before it was taken for the value
    of a bearer token. *)
Lemma bearer_hides_a_credential :
  let q := String "034" "" in
  redactAcceptanceText ("Bearer token=" +:+ q +:+ "hunter2" +:+ q) = "Bearer <redacted>" +:+ q +:+ "hunter2" +:+ q.
Proof. vm_compute. reflexivity. Qed.
