(* ===== verification/AcceptanceProof.v ===== *)
(** * The proof and the failure record of an OCR run

    [src/tools/acceptance-contract.ts], first part: the checks of the
    execution proof and of the execution failure that the runtime publishes as
    artifacts, and the readers that turn an artifact into its summary.  An
    error is its message.

    Parameters: the files of the artifact root as [lstat] and [readFile] see
    them, the working directory, SHA-256 on bytes, and UTF-8. *)
From S2P Require Import Prelude JsString JsNum JsValue Json JsCoerce Stringify CanonicalJson ContractImpact Posix Rounding RuntimeErrors WorkerStages AcceptanceText.

Abbreviation accepted := (result string).

Definition throw {A} (message : string) : accepted A := Err message.
Definition throw_if (bad : bool) (message : string) : accepted unit := if bad then Err message else Ok tt.

(** [Number(value)] of a value that is known to be an integer. *)
Definition number_of (value : js) : Z := match value with Num n => default 0 (to_int n) | _ => 0 end.

(** [Number.isSafeInteger(value)] *)
Definition isSafeInteger (value : js) : bool := number_with is_safe_integer value.

(** ** Fields *)

Definition OCR_EXECUTION_PROOF_ARTIFACT : string := "ocr-device-proof-v1.json".
Definition OCR_EXECUTION_FAILURE_ARTIFACT : string := "ocr-execution-failure-v1.json".
Definition OCR_FAILURE_MAX_BYTES : Z := 64 * 1024.

(** [/^[a-f0-9]{64}$/u] *)
Definition OCR_EXECUTION_PROOF_SHA (s : string) : bool := is_sha256_hex s.

Definition requireRecord (value : js) (expected : list string) (field : string) : accepted fields :=
  match value with
  | Obj r =>
      if bool_decide (sort_keys (keys r) = sort_keys expected) then Ok r
      else throw (field +:+ " contains unsupported fields.")
  | _ => throw (field +:+ " is invalid.")
  end.

Definition requireSha (value : js) (field : string) : accepted string :=
  match value with
  | Str s => if OCR_EXECUTION_PROOF_SHA s then Ok s else throw (field +:+ " is invalid.")
  | _ => throw (field +:+ " is invalid.")
  end.

Definition requireHex (value : js) (width : Z) (field : string) : accepted string :=
  match value with
  | Str s => if (slen s =? width) && all_chars is_hex_lower s then Ok s else throw (field +:+ " is invalid.")
  | _ => throw (field +:+ " is invalid.")
  end.

(** No slash, no backslash, no control character. *)
Definition label_char (c : ascii) : bool :=
  negb (Ascii.eqb c "/" || Ascii.eqb c "\" || (code c <? 32) || (code c =? 127)).

Definition requireSafeLabel (value : js) (field : string) (maximum : Z) : accepted string :=
  match value with
  | Str s =>
      if (slen s <? 1) || (maximum <? slen s) || negb (all_chars label_char s)
      then throw (field +:+ " is invalid.") else Ok s
  | _ => throw (field +:+ " is invalid.")
  end.

Definition requireNonNegativeInteger (value : js) (field : string) : accepted Z :=
  if negb (isSafeInteger value) || (number_of value <? 0) then throw (field +:+ " is invalid.")
  else Ok (number_of value).

Definition requirePositiveInteger (value : js) (field : string) : accepted Z :=
  number ← requireNonNegativeInteger value field;
  throw_if (number <? 1) (field +:+ " must be positive.");;
  Ok number.

(** ** What a validated artifact says *)

Record ValidatedOcrExecutionProof := {
  planSha256 : string; identitySha256 : string; dmlDeviceId : Z; dmlNodeCount : Z; sessionCount : Z;
  executionSha256 : string; sourceSha256 : string; runtimeSha256 : string; workerSha256 : string;
  modelSha256 : string; profileId : string; profileSpecSha256 : string; contractSetSha256 : string;
  requestedPageScope : option (list Z) }.

Record ValidatedOcrExecutionFailure := {
  failure_sourceSha256 : string; failure_runtimeSha256 : string; failure_workerSha256 : string;
  sourceRole : string; stageSequence : list string; failureClass : string; exitCode : option Z }.

Section contract.
Variable sha256 : list Z → string.
Variables (utf8_encode : string → list Z) (utf8_decode : list Z → string).

Definition canonicalValue (value : js) : js := canonicalize value.

(** [createHash('sha256').update(text).digest('hex')] of the canonical JSON. *)
Definition sha256Canonical (value : js) : string :=
  sha256 (utf8_encode (default "" (JSON_stringify (canonicalValue value)))).

(** ** The execution proof *)

Definition PROOF_FIELDS : list string :=
  ["schemaVersion"; "selectionProof"; "pipelineConstruction"; "sessionDeviceProofs"; "sourceSha256";
   "requestedPageScope"; "dmlNodeCount"; "runtimeSha256"; "workerSha256"; "modelSha256"; "profileId";
   "profileSpecSha256"; "contractSetSha256"; "executionSha256"].

Definition IDENTITY_FIELDS : list string :=
  ["adapterClass"; "adapterLuid"; "vendorId"; "deviceId"; "subsystemId"; "revision"; "description"; "identitySha256"].

Definition PROVIDERS : js := Arr [Str "DmlExecutionProvider"; Str "CPUExecutionProvider"].

(** The object whose digest is [identitySha256]. *)
Definition identity_content (identity : fields) : js :=
  Obj (map (λ name, (name, get identity name))
    ["adapterClass"; "adapterLuid"; "vendorId"; "deviceId"; "subsystemId"; "revision"; "description"]).

Definition validate_identity (value : js) : accepted (fields * string) :=
  identity ← requireRecord value IDENTITY_FIELDS "OCR selection identity";
  throw_if (negb (is_str (get identity "adapterClass") "dedicated") &&
            negb (is_str (get identity "adapterClass") "integrated")) "OCR selection identity class is invalid.";;
  requireHex (get identity "adapterLuid") 16 "OCR selection LUID";;
  requireHex (get identity "vendorId") 4 "OCR selection vendor ID";;
  requireHex (get identity "deviceId") 4 "OCR selection device ID";;
  requireHex (get identity "subsystemId") 8 "OCR selection subsystem ID";;
  requireHex (get identity "revision") 2 "OCR selection revision";;
  requireSafeLabel (get identity "description") "OCR selection description" 128;;
  identitySha256 ← requireSha (get identity "identitySha256") "OCR identity digest";
  throw_if (negb (String.eqb (sha256Canonical (identity_content identity)) identitySha256))
    "OCR identity digest is invalid.";;
  Ok (identity, identitySha256).

(** One side, [pre] or [post], of the construction. *)
Definition validate_side (construction : fields) (name : string) : accepted fields :=
  side ← requireRecord (get construction name) ["adapterLuid"; "adapterMapSha256"; "factoryCurrent"]
    ("OCR " +:+ name +:+ " construction");
  requireHex (get side "adapterLuid") 16 ("OCR " +:+ name +:+ " construction LUID");;
  requireSha (get side "adapterMapSha256") ("OCR " +:+ name +:+ " construction map digest");;
  throw_if (negb (is_true (get side "factoryCurrent"))) "OCR pipeline construction factory is not current.";;
  Ok side.

Definition validate_session (deviceId : Z) (index : nat) (rawSession : js) : accepted Z :=
  session ← requireRecord rawSession ["sessionIndex"; "providerOrder"; "dmlDeviceId"; "fallbackDisabled";
    "dmlNodeCount"; "cpuNodeCount"; "evidenceSource"] "OCR session evidence";
  throw_if (negb (strict_eqb (get session "sessionIndex") (js_Z (Z.of_nat index))) ||
            bool_decide (JSON_stringify (get session "providerOrder") ≠ JSON_stringify PROVIDERS))
    "OCR session provider order is invalid.";;
  throw_if (negb (is_null (get session "dmlDeviceId")) && negb (strict_eqb (get session "dmlDeviceId") (js_Z deviceId)) ||
            negb (is_true (get session "fallbackDisabled"))) "OCR session device or fallback evidence drifted.";;
  dmlNodes ← requirePositiveInteger (get session "dmlNodeCount") "OCR session DML node count";
  requireNonNegativeInteger (get session "cpuNodeCount") "OCR session CPU node count";;
  throw_if (negb (is_str (get session "evidenceSource") "ort-graph-assignment") &&
            negb (is_str (get session "evidenceSource") "ort-profile")) "OCR session evidence source is invalid.";;
  Ok dmlNodes.

(** [rawSessions.forEach]; the count is a floating-point sum. *)
Fixpoint validate_sessions (deviceId : Z) (index : nat) (total : num) (rawSessions : list js) : accepted num :=
  match rawSessions with
  | [] => Ok total
  | rawSession :: rest =>
      dmlNodes ← validate_session deviceId index rawSession;
      validate_sessions deviceId (S index) (num_add total (num_of_Z dmlNodes)) rest
  end.

(** [pages.some((page, index) => page !== index + 1)] *)
Definition out_of_order (pages : list js) : bool :=
  existsb id (imap (λ index page, negb (strict_eqb page (js_Z (Z.of_nat (S index))))) pages).

Definition validate_scope (value : js) : accepted (option (list Z)) :=
  if is_null value then Ok None
  else match value with
       | Arr pages =>
           throw_if ((length pages <? 1)%nat || (500 <? length pages)%nat || out_of_order pages)
             "OCR requested page scope is invalid.";;
           Ok (Some (map number_of pages))
       | _ => throw "OCR requested page scope is invalid."
       end.

(** The proof without its own digest. *)
Definition without_digest (proof : fields) : fields :=
  List.filter (λ kv : string * js, negb (String.eqb kv.1 "executionSha256")) proof.

Definition validateOcrExecutionProof (value : js) : accepted ValidatedOcrExecutionProof :=
  proof ← requireRecord value PROOF_FIELDS "OCR execution proof";
  throw_if (negb (is_str (get proof "schemaVersion") "1")) "OCR execution proof schema is unsupported.";;
  selection ← requireRecord (get proof "selectionProof")
    ["identity"; "highPerformanceRank"; "dmlDeviceId"; "adapterMapSha256"; "planSha256"] "OCR selection proof";
  '(identity, identitySha256) ← validate_identity (get selection "identity");
  dmlDeviceId ← requireNonNegativeInteger (get selection "dmlDeviceId") "OCR DML device ID";
  requireNonNegativeInteger (get selection "highPerformanceRank") "OCR GPU rank";;
  requireSha (get selection "adapterMapSha256") "OCR adapter map digest";;
  planSha256 ← requireSha (get selection "planSha256") "OCR plan digest";
  construction ← requireRecord (get proof "pipelineConstruction") ["pre"; "post"] "OCR pipeline construction";
  pre ← validate_side construction "pre";
  post ← validate_side construction "post";
  throw_if (negb (strict_eqb (get pre "adapterLuid") (get post "adapterLuid")) ||
            negb (strict_eqb (get pre "adapterLuid") (get identity "adapterLuid")) ||
            negb (strict_eqb (get pre "adapterMapSha256") (get post "adapterMapSha256")) ||
            negb (strict_eqb (get pre "adapterMapSha256") (get selection "adapterMapSha256")))
    "OCR pipeline construction drifted from selection.";;
  rawSessions ← match get proof "sessionDeviceProofs" with
    | Arr raw =>
        throw_if ((length raw <? 1)%nat || (500 <? length raw)%nat) "OCR execution proof session evidence is invalid.";;
        Ok raw
    | _ => throw "OCR execution proof session evidence is invalid."
    end;
  total ← validate_sessions dmlDeviceId 0 (num_of_Z 0) rawSessions;
  throw_if (negb (strict_eqb (get proof "dmlNodeCount") (Num total))) "OCR aggregate DML node count is invalid.";;
  dmlNodeCount ← requirePositiveInteger (get proof "dmlNodeCount") "OCR DML node count";
  sourceSha256 ← requireSha (get proof "sourceSha256") "OCR source digest";
  requestedPageScope ← validate_scope (get proof "requestedPageScope");
  runtimeSha256 ← requireSha (get proof "runtimeSha256") "OCR runtime digest";
  workerSha256 ← requireSha (get proof "workerSha256") "OCR worker digest";
  modelSha256 ← requireSha (get proof "modelSha256") "OCR model digest";
  profileId ← requireSafeLabel (get proof "profileId") "OCR profile identity" 128;
  profileSpecSha256 ← requireSha (get proof "profileSpecSha256") "OCR profile digest";
  contractSetSha256 ← requireSha (get proof "contractSetSha256") "OCR contract digest";
  executionSha256 ← requireSha (get proof "executionSha256") "OCR execution digest";
  throw_if (negb (String.eqb (sha256Canonical (Obj (without_digest proof))) executionSha256))
    "OCR execution proof digest is invalid.";;
  Ok {| planSha256 := planSha256; identitySha256 := identitySha256; dmlDeviceId := dmlDeviceId;
        dmlNodeCount := dmlNodeCount; sessionCount := Z.of_nat (length rawSessions);
        executionSha256 := executionSha256; sourceSha256 := sourceSha256; runtimeSha256 := runtimeSha256;
        workerSha256 := workerSha256; modelSha256 := modelSha256; profileId := profileId;
        profileSpecSha256 := profileSpecSha256; contractSetSha256 := contractSetSha256;
        requestedPageScope := requestedPageScope |}.

(** ** The execution failure *)

Definition FAILURE_CLASSES : list string :=
  ["entry-point-missing"; "timeout"; "exit-before-response"; "no-response"; "termination"; "response-error";
   "exit-nonzero"; "protocol"; "worker"; "unavailable"].

Definition is_source_role (value : js) : bool :=
  is_str value "pdf" || is_str value "image" || is_str value "audio".

Definition isAllowedOcrFailureStage (value : string) : bool := isAllowedWorkerStage value.

(** The callback of [stageSequence.map]. *)
Definition failure_stage (stage : js) : accepted string :=
  match stage with
  | Str s =>
      throw_if ((slen s <? 1) || (MAX_WORKER_DIAGNOSTIC_STAGE_LENGTH <? slen s) || negb (isAllowedOcrFailureStage s))
        "OCR execution failure stage sequence is invalid.";;
      Ok s
  | _ => throw "OCR execution failure stage sequence is invalid."
  end.

(** [/^[A-Za-z0-9._:-]{1,n}$/u] *)
Definition plain_char (c : ascii) : bool :=
  is_alnum c || Ascii.eqb c "." || Ascii.eqb c "_" || Ascii.eqb c ":" || Ascii.eqb c "-".
Definition plain_name (maximum : Z) (s : string) : bool :=
  (1 <=? slen s) && (slen s <=? maximum) && all_chars plain_char s.

Definition validateOcrFailureProvenance (value : js) : accepted unit :=
  match value with
  | Obj record =>
      let expected :=
        if is_str (get record "status") "resolved"
        then ["device"; "engine"; "model"; "modelDigest"; "profileId"; "profileSpecSha256"; "status"]
        else if is_str (get record "status") "unavailable" then ["profileId"; "profileSpecSha256"; "reason"; "status"]
        else [] in
      throw_if (bool_decide (expected = []) || bool_decide (sort_keys (keys record) ≠ expected))
        "OCR execution failure provenance is invalid.";;
      throw_if (existsb (λ field, negb (is_undefined (get record field)) &&
                  negb (string_with (plain_name 256) (get record field))) ["engine"; "model"; "device"; "profileId"; "reason"])
        "OCR execution failure provenance is invalid.";;
      throw_if (negb (string_with is_sha256_digest (get record "modelDigest")) ||
                negb (string_with OCR_EXECUTION_PROOF_SHA (get record "profileSpecSha256")))
        "OCR execution failure provenance is invalid."
  | _ => throw "OCR execution failure provenance is invalid."
  end.

Definition FAILURE_REQUIRED : list string :=
  ["failureClass"; "runtimeSha256"; "schemaVersion"; "sourceRole"; "sourceSha256"; "stageSequence"; "workerSha256"].

(** The identity of the runtime or the worker. *)
Definition failure_identity (record expected : fields) (field : string) : accepted string :=
  match get record field with
  | Str s =>
      throw_if (negb (OCR_EXECUTION_PROOF_SHA s)) "OCR execution failure identity is invalid.";;
      throw_if (negb (is_str (get expected field) s))
        ("OCR execution failure " +:+ field +:+ " does not match the authenticated identity.");;
      Ok s
  | _ => throw "OCR execution failure identity is invalid."
  end.

Definition is_exit_code (value : js) : bool :=
  isSafeInteger value && (-255 <=? number_of value) && (number_of value <=? 255).

Definition validateOcrExecutionFailure (value : js) (expected : fields) : accepted ValidatedOcrExecutionFailure :=
  record ← match value with Obj r => Ok r | _ => throw "OCR execution failure artifact must be an object." end;
  let allowed := FAILURE_REQUIRED ++ ["exitCode"; "ocrProvenance"] in
  throw_if ((length (keys record) <? length FAILURE_REQUIRED)%nat ||
            existsb (λ key, negb (includes allowed key)) (keys record) ||
            existsb (λ key, negb (includes (keys record) key)) FAILURE_REQUIRED)
    "OCR execution failure artifact fields are invalid.";;
  throw_if (negb (is_str (get record "schemaVersion") "1")) "OCR execution failure artifact schema is unsupported.";;
  source ← match get record "sourceSha256" with
    | Str s => throw_if (negb (OCR_EXECUTION_PROOF_SHA s)) "OCR execution failure source identity is invalid.";; Ok s
    | _ => throw "OCR execution failure source identity is invalid."
    end;
  throw_if (negb (is_str (get expected "sourceSha256") source))
    "OCR execution failure source identity does not match the supplied source.";;
  role ← match get record "sourceRole" with
    | Str s => throw_if (negb (is_source_role (Str s))) "OCR execution failure source role is invalid.";; Ok s
    | _ => throw "OCR execution failure source role is invalid."
    end;
  throw_if (negb (is_str (get expected "sourceRole") role))
    "OCR execution failure sourceRole does not match the authenticated identity.";;
  raw ← match get record "stageSequence" with
    | Arr raw =>
        throw_if ((MAX_WORKER_DIAGNOSTIC_STAGES <? length raw)%nat) "OCR execution failure stage sequence is invalid.";;
        Ok raw
    | _ => throw "OCR execution failure stage sequence is invalid."
    end;
  stages ← mapM_idx (λ _, failure_stage) raw;
  failureClass ← match get record "failureClass" with
    | Str s => throw_if (negb (includes FAILURE_CLASSES s)) "OCR execution failure class is invalid.";; Ok s
    | _ => throw "OCR execution failure class is invalid."
    end;
  runtime ← failure_identity record expected "runtimeSha256";
  worker ← failure_identity record expected "workerSha256";
  throw_if (negb (is_undefined (get record "exitCode")) && negb (is_exit_code (get record "exitCode")))
    "OCR execution failure exit code is invalid.";;
  (if is_undefined (get record "ocrProvenance") then Ok tt
   else validateOcrFailureProvenance (get record "ocrProvenance"));;
  Ok {| failure_sourceSha256 := source; failure_runtimeSha256 := runtime; failure_workerSha256 := worker;
        sourceRole := role; stageSequence := boundWorkerStageSequence stages; failureClass := failureClass;
        exitCode := if is_undefined (get record "exitCode") then None else Some (number_of (get record "exitCode")) |}.

Definition assertValidOcrExecutionFailureExpectation (value : js) : accepted fields :=
  match value with
  | Obj record =>
      throw_if (bool_decide (sort_keys (keys record) ≠ ["runtimeSha256"; "sourceRole"; "sourceSha256"; "workerSha256"]))
        "expected OCR failure identity is required.";;
      throw_if (negb (is_source_role (get record "sourceRole"))) "expected OCR failure source role is invalid.";;
      throw_if (existsb (λ field, negb (string_with OCR_EXECUTION_PROOF_SHA (get record field)))
        ["sourceSha256"; "runtimeSha256"; "workerSha256"]) "expected OCR failure identity is invalid.";;
      Ok record
  | _ => throw "expected OCR failure identity is required."
  end.

(** ** Reading the artifacts *)

(** What [lstat] says a path is, and what [readFile] finds in a file. *)
Inductive Entry : Type := File (bytes : list Z) | Directory | Link (target : string) | Other.

Definition is_directory (entry : option Entry) : bool := match entry with Some Directory => true | _ => false end.

Section files.
Variables (cwd : string) (lstat : string → option Entry).

Definition proof_summary (bytes : list Z) (proof : ValidatedOcrExecutionProof) : fields :=
  [("artifactPath", Str OCR_EXECUTION_PROOF_ARTIFACT); ("bytes", js_Z (Z.of_nat (length bytes)));
   ("sha256", Str (sha256 bytes)); ("schemaVersion", Str "1"); ("planSha256", Str (planSha256 proof));
   ("identitySha256", Str (identitySha256 proof)); ("dmlDeviceId", js_Z (dmlDeviceId proof));
   ("dmlNodeCount", js_Z (dmlNodeCount proof)); ("sessionCount", js_Z (sessionCount proof));
   ("executionSha256", Str (executionSha256 proof)); ("sourceSha256", Str (sourceSha256 proof));
   ("runtimeSha256", Str (runtimeSha256 proof)); ("workerSha256", Str (workerSha256 proof));
   ("modelSha256", Str (modelSha256 proof)); ("profileId", Str (profileId proof));
   ("profileSpecSha256", Str (profileSpecSha256 proof)); ("contractSetSha256", Str (contractSetSha256 proof));
   ("requestedPageScope", match requestedPageScope proof with Some pages => Arr (map js_Z pages) | None => Null end)].

Definition readOcrExecutionProof (artifactRoot : string) : accepted fields :=
  let root := resolve cwd [artifactRoot] in
  throw_if (negb (is_directory (lstat root))) "OCR execution proof artifact root must be a regular directory.";;
  let proofPath := resolve cwd [root; OCR_EXECUTION_PROOF_ARTIFACT] in
  throw_if (negb (String.eqb (relative cwd root proofPath) OCR_EXECUTION_PROOF_ARTIFACT))
    "OCR execution proof artifact path escaped its root.";;
  match lstat proofPath with
  | Some (File bytes) =>
      match JSON_parse (utf8_decode bytes) with
      | None => throw "OCR execution proof artifact is not valid JSON."
      | Some value => proof_summary bytes <$> validateOcrExecutionProof value
      end
  | _ => throw "OCR execution proof artifact is missing or not a regular file."
  end.

Definition failure_summary (bytes : list Z) (failure : ValidatedOcrExecutionFailure) : fields :=
  [("artifactPath", Str OCR_EXECUTION_FAILURE_ARTIFACT); ("bytes", js_Z (Z.of_nat (length bytes)));
   ("sha256", Str (sha256 bytes)); ("schemaVersion", Str "1"); ("sourceSha256", Str (failure_sourceSha256 failure));
   ("runtimeSha256", Str (failure_runtimeSha256 failure)); ("workerSha256", Str (failure_workerSha256 failure));
   ("sourceRole", Str (sourceRole failure)); ("stageSequence", Arr (map Str (stageSequence failure)));
   ("failureClass", Str (failureClass failure))] ++
  match exitCode failure with Some exitCode => [("exitCode", js_Z exitCode)] | None => [] end.

Definition readOcrExecutionFailure (artifactRoot : string) (expected : js) : accepted fields :=
  expected ← assertValidOcrExecutionFailureExpectation expected;
  let root := resolve cwd [artifactRoot] in
  throw_if (negb (is_directory (lstat root))) "OCR execution failure artifact root must be a regular directory.";;
  let failurePath := resolve cwd [root; OCR_EXECUTION_FAILURE_ARTIFACT] in
  throw_if (negb (String.eqb (relative cwd root failurePath) OCR_EXECUTION_FAILURE_ARTIFACT))
    "OCR execution failure artifact path escaped its root.";;
  match lstat failurePath with
  | Some (File bytes) =>
      throw_if ((Z.of_nat (length bytes) <? 1) || (OCR_FAILURE_MAX_BYTES <? Z.of_nat (length bytes)))
        "OCR execution failure artifact size is invalid.";;
      let text := utf8_decode bytes in
      throw_if (has_private_path text) "OCR execution failure artifact contains a private path.";;
      throw_if (has_private_word text) "OCR execution failure artifact contains private diagnostics.";;
      match JSON_parse text with
      | None => throw "OCR execution failure artifact is not valid JSON."
      | Some value => failure_summary bytes <$> validateOcrExecutionFailure value expected
      end
  | _ => throw "OCR execution failure artifact is missing or not a regular file."
  end.
End files.
End contract.

(** ** Accepted records *)

Lemma guard_Ok bad message u : throw_if bad message = Ok u ↔ bad = false.
Proof. destruct bad, u; cbn; naive_solver. Qed.

Lemma requireRecord_Ok value expected field r :
  requireRecord value expected field = Ok r ↔ value = Obj r ∧ keys r ≡ₚ expected.
Proof.
  unfold requireRecord. split.
  - destruct value; try done. case_bool_decide as H; [|done]. intros <-%Ok_inj. by apply sort_keys_unique in H.
  - intros [-> H]. rewrite bool_decide_true; [done|]. by apply sort_keys_unique.
Qed.

Lemma requireSha_Ok value field s : requireSha value field = Ok s ↔ value = Str s ∧ is_sha256_hex s = true.
Proof.
  unfold requireSha, OCR_EXECUTION_PROOF_SHA. destruct value as [| | | |t| |]; try naive_solver. destruct (is_sha256_hex t) eqn:E.
  - split; [by intros <-%Ok_inj|]. by intros [[= ->] _].
  - split; [done|]. intros [[= ->] H]. congruence.
Qed.

Lemma requireSafeLabel_Ok value field maximum s :
  requireSafeLabel value field maximum = Ok s ↔ value = Str s ∧ 1 ≤ slen s ≤ maximum ∧ all_chars label_char s = true.
Proof.
  unfold requireSafeLabel. destruct value as [| | | |t| |]; try naive_solver.
  destruct (_ || _) eqn:E.
  - split; [done|]. intros (H & Hl & Ha). injection H as ->. rewrite Ha in E. bsimp. lia.
  - bsimp. split; [intros <-%Ok_inj; split_and!; [done|lia|lia|tauto]|]. by intros (H & _); simplify_eq.
Qed.

Lemma isSafeInteger_Ok value :
  isSafeInteger value = true ↔ ∃ n, value = Num n ∧ to_int n = Some (number_of value) ∧ Z.abs (number_of value) ≤ MAX_SAFE_INTEGER.
Proof.
  unfold isSafeInteger. rewrite number_with_spec. split.
  - intros (n & -> & (z & Hz & Hb)%is_safe_integer_spec). exists n. cbn. rewrite Hz. cbn. done.
  - intros (n & -> & Hz & Hb). exists n. split; [done|]. apply is_safe_integer_spec. eauto.
Qed.

Lemma requireNonNegativeInteger_Ok value field z :
  requireNonNegativeInteger value field = Ok z ↔
  ∃ n, value = Num n ∧ to_int n = Some z ∧ 0 ≤ z ≤ MAX_SAFE_INTEGER.
Proof.
  unfold requireNonNegativeInteger. destruct (isSafeInteger value) eqn:E; cbn [negb orb].
  - apply isSafeInteger_Ok in E as (n & -> & Hz & Hb). cbn [number_of] in *. rewrite Hz in *. cbn in *.
    destruct (_ <? 0) eqn:E; bsimp; split.
    + done.
    + intros (m & [= <-] & Hm & ?). rewrite Hz in Hm. simplify_eq. lia.
    + intros <-%Ok_inj. exists n. split_and!; [done|done|lia|lia].
    + intros (m & [= <-] & Hm & ?). rewrite Hz in Hm. by simplify_eq.
  - split; [done|]. intros (n & -> & Hz & Hb). apply not_true_iff_false in E. destruct E. apply isSafeInteger_Ok.
    exists n. cbn. rewrite Hz. cbn. split_and!; [done|done|lia].
Qed.

Lemma requirePositiveInteger_Ok value field z :
  requirePositiveInteger value field = Ok z ↔ ∃ n, value = Num n ∧ to_int n = Some z ∧ 1 ≤ z ≤ MAX_SAFE_INTEGER.
Proof.
  unfold requirePositiveInteger. rewrite bind_Ok. setoid_rewrite requireNonNegativeInteger_Ok. setoid_rewrite bind_Ok.
  setoid_rewrite guard_Ok. split.
  - intros (z' & (n & -> & Hn & Hb) & _ & Hz & <-%Ok_inj). bsimp. exists n. split_and!; [done|done|lia|lia].
  - intros (n & -> & Hn & Hb). exists z. split; [exists n; split_and!; [done|done|lia|lia]|]. exists tt. split; [|done]. bsimp. lia.
Qed.

Lemma requireHex_Ok value width field s :
  requireHex value width field = Ok s → value = Str s.
Proof. unfold requireHex. destruct value; try done. destruct (_ && _); [|done]. by intros <-%Ok_inj. Qed.

(** What an accepted session shows of its place and its nodes. *)
Definition session_shows (deviceId : Z) (index : nat) (value : js) (count : Z) : Prop :=
  ∃ session n, value = Obj session ∧ strict_eqb (get session "sessionIndex") (js_Z (Z.of_nat index)) = true ∧
    JSON_stringify (get session "providerOrder") = JSON_stringify PROVIDERS ∧
    (get session "dmlDeviceId" = Null ∨ strict_eqb (get session "dmlDeviceId") (js_Z deviceId) = true) ∧
    get session "fallbackDisabled" = Bool true ∧
    get session "dmlNodeCount" = Num n ∧ to_int n = Some count ∧ 1 ≤ count ≤ MAX_SAFE_INTEGER.

Lemma is_null_spec v : is_null v = true ↔ v = Null.
Proof. destruct v; naive_solver. Qed.

Lemma validate_session_Ok deviceId index value count :
  validate_session deviceId index value = Ok count → session_shows deviceId index value count.
Proof.
  unfold validate_session. intros H. inv_ok. repeat match goal with H : throw_if _ _ = Ok _ |- _ => apply guard_Ok in H end.
  match goal with H : requireRecord _ _ _ = Ok _ |- _ => apply requireRecord_Ok in H as [-> _] end.
  match goal with H : requirePositiveInteger _ _ = Ok _ |- _ => apply requirePositiveInteger_Ok in H as (n & Hn & Hc & Hb) end.
  match goal with H : negb (strict_eqb _ _) || _ = false |- _ => apply orb_false_iff in H as [Hi%negb_false_iff Hp] end.
  match goal with H : negb (is_null _) && _ || _ = false |- _ => apply orb_false_iff in H as [Hd Hf%negb_false_iff] end.
  eexists _, n. split_and!; [done|done| | | |done|done|lia|lia].
  - apply bool_decide_eq_false in Hp. by apply dec_stable.
  - apply andb_false_iff in Hd as [Hd|Hd]; apply negb_false_iff in Hd; [left|by right]. by apply is_null_spec.
  - by apply is_true_spec.
Qed.

Lemma validate_sessions_Ok deviceId index total raw result :
  validate_sessions deviceId index total raw = Ok result →
  ∃ counts, length counts = length raw ∧ Forall (λ n, 1 ≤ n) counts ∧
    (∀ j s c, raw !! j = Some s → counts !! j = Some c → session_shows deviceId (index + j) s c) ∧
    result = fold_left (λ total n, num_add total (num_of_Z n)) counts total.
Proof.
  revert index total. induction raw as [|s raw IH]; intros index total H; cbn [validate_sessions] in H.
  { apply Ok_inj in H as <-. exists []. split_and!; [done|constructor|done|done]. }
  apply bind_Ok in H as (c & Hc%validate_session_Ok & H). apply IH in H as (counts & Hlen & Hpos & Hall & ->).
  exists (c :: counts). split_and!; [cbn; lia| | |done].
  - apply Forall_cons. split; [|done]. destruct Hc as (? & ? & _ & _ & _ & _ & _ & _ & _ & ?). lia.
  - intros [|j] s' c' Hs Hc'; cbn in *; simplify_eq; [by rewrite Nat.add_0_r|].
    rewrite Nat.add_succ_r. by apply (Hall j).
Qed.

Lemma num_eqb_sym a b : num_eqb a b = num_eqb b a.
Proof. destruct a as [|s|], b as [|t|]; cbn; try done; [by destruct s, t|apply Qeq_bool_comm]. Qed.

(** A number equal to an integer is that integer. *)
Lemma num_eqb_to_int a b z : num_eqb a b = true → to_int b = Some z → to_int a = Some z.
Proof.
  intros H (q & -> & Hq)%to_int_Some. destruct a; try done. apply num_eqb_Fin in H.
  apply to_int_Some. eexists. split; [done|]. by rewrite H.
Qed.

Lemma validate_scope_Ok value scope :
  validate_scope value = Ok scope →
  (value = Null ∧ scope = None) ∨ ∃ n, (1 <= n <= 500)%nat ∧ scope = Some (map Z.of_nat (seq 1 n)).
Proof.
  unfold validate_scope. destruct (is_null value) eqn:E.
  - apply is_null_spec in E as ->. intros <-%Ok_inj. by left.
  - destruct value as [| | | | |pages|]; try done. intros H. inv_ok. right.
    match goal with H : throw_if _ _ = Ok _ |- _ => apply guard_Ok in H; rename H into Hb end.
    rewrite !orb_false_iff in Hb. destruct Hb as [[Hlo%Nat.ltb_ge Hhi%Nat.ltb_ge] Ho]. exists (length pages). split; [lia|]. f_equal.
    unfold out_of_order in Ho. rewrite existsb_false, Forall_forall in Ho.
    apply list_eq. intros i. change (map ?f ?l) with (f <$> l). rewrite !list_lookup_fmap.
    destruct (pages !! i) as [page|] eqn:Hi; cbn.
    + assert (Hlt : (i < length pages)%nat) by (by eapply lookup_lt_Some). rewrite lookup_seq_lt by done. cbn. f_equal.
      assert (Hp : negb (strict_eqb page (js_Z (Z.of_nat (S i)))) = false).
      { apply Ho. apply list_elem_of_lookup. exists i. rewrite list_lookup_imap, Hi. done. }
      apply negb_false_iff in Hp. destruct page as [| | |m| | |]; try done. cbn [strict_eqb js_Z] in Hp.
      assert (Hi' : to_int m = Some (Z.of_nat (S i))).
      { eapply num_eqb_to_int; [exact Hp|]. apply to_int_of_Z. }
      cbn [number_of]. by rewrite Hi'.
    + apply lookup_ge_None in Hi. rewrite (lookup_seq_ge 1 (length pages) i) by done. done.
Qed.

Ltac accepted_fields :=
  repeat match goal with
  | H : throw_if _ _ = Ok _ |- _ => apply guard_Ok in H
  | H : requireRecord _ _ _ = Ok _ |- _ => apply requireRecord_Ok in H as [? ?]
  | H : requireSha _ _ = Ok _ |- _ => apply requireSha_Ok in H as [? ?]
  | H : requireHex _ _ _ = Ok _ |- _ => apply requireHex_Ok in H
  | H : requireNonNegativeInteger _ _ = Ok _ |- _ => apply requireNonNegativeInteger_Ok in H as (? & ? & ? & ?)
  | H : requirePositiveInteger _ _ = Ok _ |- _ => apply requirePositiveInteger_Ok in H as (? & ? & ? & ?)
  | H : requireSafeLabel _ _ _ = Ok _ |- _ => apply requireSafeLabel_Ok in H as (? & ? & ?)
  end.

Lemma validate_identity_Ok sha256 utf8_encode value identity digest :
  validate_identity sha256 utf8_encode value = Ok (identity, digest) →
  value = Obj identity ∧ sha256Canonical sha256 utf8_encode (identity_content identity) = digest ∧
  get identity "identitySha256" = Str digest ∧ ∃ luid, get identity "adapterLuid" = Str luid.
Proof.
  unfold validate_identity. intros H. inv_ok. accepted_fields. simplify_eq.
  match goal with H : negb (String.eqb _ _) = false |- _ => apply negb_false_iff, String.eqb_eq in H end. eauto.
Qed.

Lemma validate_side_Ok construction name side :
  validate_side construction name = Ok side →
  get construction name = Obj side ∧ get side "factoryCurrent" = Bool true ∧ ∃ luid, get side "adapterLuid" = Str luid.
Proof.
  unfold validate_side. intros H. inv_ok. accepted_fields.
  match goal with H : negb (is_true _) = false |- _ => apply negb_false_iff, is_true_spec in H end. eauto.
Qed.

Lemma counts_at_least counts : Forall (λ n, 1 ≤ n) counts → ∀ x, x + Z.of_nat (length counts) ≤ fold_left Z.add counts x.
Proof. intros H. induction H as [|n counts Hn H IH]; intros x; cbn [length fold_left]; [lia|]. specialize (IH (x + n)). lia. Qed.


(** *** A proof *)

Definition sample_digest : string := "0000000000000000000000000000000000000000000000000000000000000000".

Definition sample_session (index count : Z) : js :=
  Obj [("sessionIndex", js_Z index); ("providerOrder", PROVIDERS); ("dmlDeviceId", js_Z 1); ("fallbackDisabled", Bool true);
    ("dmlNodeCount", js_Z count); ("cpuNodeCount", js_Z 3); ("evidenceSource", Str "ort-profile")].

Definition sample_side : js :=
  Obj [("adapterLuid", Str "00000000000abcde"); ("adapterMapSha256", Str sample_digest); ("factoryCurrent", Bool true)].

Definition sample_proof (profile : string) (scope : js) : js :=
  Obj [("schemaVersion", Str "1");
    ("selectionProof", Obj [
      ("identity", Obj [("adapterClass", Str "dedicated"); ("adapterLuid", Str "00000000000abcde"); ("vendorId", Str "10de");
        ("deviceId", Str "2684"); ("subsystemId", Str "889d1043"); ("revision", Str "a1"); ("description", Str "GPU 0");
        ("identitySha256", Str sample_digest)]);
      ("highPerformanceRank", js_Z 0); ("dmlDeviceId", js_Z 1); ("adapterMapSha256", Str sample_digest);
      ("planSha256", Str sample_digest)]);
    ("pipelineConstruction", Obj [("pre", sample_side); ("post", sample_side)]);
    ("sessionDeviceProofs", Arr [sample_session 0 40; sample_session 1 2]);
    ("sourceSha256", Str sample_digest); ("requestedPageScope", scope); ("dmlNodeCount", js_Z 42);
    ("runtimeSha256", Str sample_digest); ("workerSha256", Str sample_digest); ("modelSha256", Str sample_digest);
    ("profileId", Str profile); ("profileSpecSha256", Str sample_digest); ("contractSetSha256", Str sample_digest);
    ("executionSha256", Str sample_digest)].


(** ** Accepted failures *)

Lemma stages_mapM raw stages :
  mapM_idx (λ _, failure_stage) raw = Ok stages → raw = map Str stages ∧ Forall (λ s, sanitizeWorkerStage s = Some s) stages.
Proof.
  intros [Hlen H]%mapM_idx_Ok.
  assert (Hat : ∀ i x s, raw !! i = Some x → stages !! i = Some s → x = Str s ∧ sanitizeWorkerStage s = Some s).
  { intros i x s Hx Hs. specialize (H i x s Hx Hs). unfold failure_stage in H. destruct x as [| | | |t| |]; try done.
    apply bind_Ok in H as (? & Hb%guard_Ok & <-%Ok_inj). apply orb_false_iff in Hb as [_ Hb%negb_false_iff].
    split; [done|]. unfold isAllowedOcrFailureStage, isAllowedWorkerStage in Hb. by apply bool_decide_eq_true in Hb. }
  split.
  - apply list_eq. intros i. change (map Str stages) with (Str <$> stages). rewrite list_lookup_fmap.
    destruct (raw !! i) as [x|] eqn:Hx, (stages !! i) as [s|] eqn:Hs; cbn; [|exfalso|exfalso|done].
    + destruct (Hat i x s Hx Hs) as [-> _]. done.
    + apply lookup_lt_Some in Hx. apply lookup_ge_None in Hs. lia.
    + apply lookup_lt_Some in Hs. apply lookup_ge_None in Hx. lia.
  - apply Forall_lookup. intros i s Hs. destruct (raw !! i) as [x|] eqn:Hx.
    + by destruct (Hat i x s Hx Hs).
    + apply lookup_lt_Some in Hs. apply lookup_ge_None in Hx. lia.
Qed.

Lemma is_exit_code_Ok value : is_exit_code value = true →
  ∃ n, value = Num n ∧ to_int n = Some (number_of value) ∧ -255 ≤ number_of value ≤ 255.
Proof.
  unfold is_exit_code. rewrite !andb_true_iff, !Z.leb_le. intros [[(n & -> & Hn & _)%isSafeInteger_Ok Hlo] Hhi]. by exists n.
Qed.

(** What an accepted failure record guarantees. *)
Record sound_failure (expected : fields) (f : ValidatedOcrExecutionFailure) : Prop := {
  sound_source : is_sha256_hex (failure_sourceSha256 f) = true ∧ get expected "sourceSha256" = Str (failure_sourceSha256 f);
  sound_runtime : is_sha256_hex (failure_runtimeSha256 f) = true ∧ get expected "runtimeSha256" = Str (failure_runtimeSha256 f);
  sound_worker : is_sha256_hex (failure_workerSha256 f) = true ∧ get expected "workerSha256" = Str (failure_workerSha256 f);
  sound_role : is_source_role (Str (sourceRole f)) = true ∧ get expected "sourceRole" = Str (sourceRole f);
  sound_stages : (length (stageSequence f) <= MAX_WORKER_DIAGNOSTIC_STAGES)%nat ∧
    Forall (λ s, sanitizeWorkerStage s = Some s) (stageSequence f);
  sound_class : failureClass f ∈ FAILURE_CLASSES;
  sound_exit : ∀ code, exitCode f = Some code → -255 ≤ code ≤ 255 }.

Lemma failure_identity_Ok record expected field s :
  failure_identity record expected field = Ok s → get record field = Str s ∧ is_sha256_hex s = true ∧ get expected field = Str s.
Proof.
  unfold failure_identity. destruct (get record field); try done. intros H. inv_ok. accepted_fields.
  repeat match goal with H : negb _ = false |- _ => apply negb_false_iff in H end. split_and!; [done|done|]. by apply is_str_spec.
Qed.

Lemma validateOcrExecutionFailure_sound value expected f :
  validateOcrExecutionFailure value expected = Ok f →
  sound_failure expected f ∧ ∃ record, value = Obj record ∧ get record "stageSequence" = Arr (map Str (stageSequence f)).
Proof.
  unfold validateOcrExecutionFailure. intros H. apply bind_Ok in H as (record & Hv & H). destruct value; try done. apply Ok_inj in Hv as ->.
  cbv zeta in H. do 2 apply bind_Ok in H as (? & _ & H). apply bind_Ok in H as (source & Hs & H).
  apply bind_Ok in H as (? & Hse%guard_Ok & H). apply bind_Ok in H as (role & Hr & H). apply bind_Ok in H as (? & Hre%guard_Ok & H).
  apply bind_Ok in H as (raw & Hraw & H). apply bind_Ok in H as (stages & [Hst Hall]%stages_mapM & H).
  apply bind_Ok in H as (cls & Hc & H). apply bind_Ok in H as (runtime & (_ & Hrt)%failure_identity_Ok & H).
  apply bind_Ok in H as (worker & (_ & Hw)%failure_identity_Ok & H). apply bind_Ok in H as (? & He%guard_Ok & H).
  apply bind_Ok in H as (? & _ & H). apply Ok_inj in H as <-.
  destruct (get record "stageSequence") eqn:Eq; try done. inv_ok. accepted_fields. subst.
  match goal with H : (_ <? _)%nat = false |- _ => apply Nat.ltb_ge in H; rewrite length_map in H; rename H into Hlen end.
  assert (Hb : boundWorkerStageSequence stages = stages) by (by apply bound_settled).
  split; [|exists record; cbn; by rewrite Hb].
  split; cbn [failure_sourceSha256 failure_runtimeSha256 failure_workerSha256 sourceRole stageSequence failureClass exitCode].
  - destruct (get record "sourceSha256"); try done. inv_ok. accepted_fields. split; [by apply negb_false_iff|]. by apply is_str_spec, negb_false_iff.
  - done.
  - done.
  - destruct (get record "sourceRole"); try done. inv_ok. accepted_fields. split; [by apply negb_false_iff|]. by apply is_str_spec, negb_false_iff.
  - by rewrite Hb.
  - destruct (get record "failureClass"); try done. inv_ok. accepted_fields. by apply includes_spec, negb_false_iff.
  - intros code. destruct (is_undefined _) eqn:Eu; [done|]. intros [= <-]. cbn [negb andb] in He.
    apply negb_false_iff, is_exit_code_Ok in He as (n & -> & Hn & Hb'). done.
Qed.

(** A record of an unresolved model is refused: its fields do not include the
    digest that is then required. *)
Lemma unavailable_provenance_is_refused record :
  get record "status" = Str "unavailable" → validateOcrFailureProvenance (Obj record) ≠ Ok tt.
Proof.
  intros Hs H. unfold validateOcrFailureProvenance in H. rewrite Hs in H. cbn [is_str strict_eqb String.eqb Ascii.eqb Bool.eqb] in H.
  apply bind_Ok in H as (? & Hk%guard_Ok & H). apply bind_Ok in H as (? & _ & H). apply guard_Ok in H.
  apply orb_false_iff in Hk as [_ Hk%bool_decide_eq_false%dec_stable]. apply orb_false_iff in H as [H _]. apply negb_false_iff in H.
  rewrite get_absent in H; [done|]. rewrite <-(sort_keys_perm (keys record)), Hk. rewrite !elem_of_cons, elem_of_nil. naive_solver.
Qed.

Lemma validate_identity_Ok_sha sha256 utf8_encode value identity digest :
  validate_identity sha256 utf8_encode value = Ok (identity, digest) → is_sha256_hex digest = true.
Proof. unfold validate_identity. intros H. inv_ok. accepted_fields. by simplify_eq. Qed.

(** What an accepted proof's summary is made of. *)
Record sound_proof (p : ValidatedOcrExecutionProof) : Prop := {
  sound_hashes : Forall (λ s, is_sha256_hex s = true)
    [planSha256 p; identitySha256 p; executionSha256 p; sourceSha256 p; runtimeSha256 p; workerSha256 p; modelSha256 p;
     profileSpecSha256 p; contractSetSha256 p];
  sound_device : 0 ≤ dmlDeviceId p ≤ MAX_SAFE_INTEGER;
  sound_nodes : 1 ≤ dmlNodeCount p ≤ MAX_SAFE_INTEGER;
  sound_sessions : 1 ≤ sessionCount p ≤ 500;
  sound_profile : 1 ≤ slen (profileId p) ≤ 128 ∧ all_chars label_char (profileId p) = true;
  sound_scope : requestedPageScope p = None ∨
    ∃ n, (1 <= n <= 500)%nat ∧ requestedPageScope p = Some (map Z.of_nat (seq 1 n)) }.

Lemma validateOcrExecutionProof_sound sha256 utf8_encode value p :
  validateOcrExecutionProof sha256 utf8_encode value = Ok p → sound_proof p.
Proof.
  unfold validateOcrExecutionProof. intros H. do 3 apply bind_Ok in H as (? & _ & H).
  apply bind_Ok in H as ([adapter digest] & Hid & H). cbv beta iota in H. apply validate_identity_Ok_sha in Hid.
  apply bind_Ok in H as (device & (? & _ & _ & Hdevice)%requireNonNegativeInteger_Ok & H). do 2 apply bind_Ok in H as (? & _ & H).
  apply bind_Ok in H as (plan & [_ Hplan]%requireSha_Ok & H). do 4 apply bind_Ok in H as (? & _ & H).
  apply bind_Ok in H as (raw & Hraw & H). do 2 apply bind_Ok in H as (? & _ & H).
  apply bind_Ok in H as (nodes & (? & _ & _ & Hnodes)%requirePositiveInteger_Ok & H).
  apply bind_Ok in H as (source & [_ Hsource]%requireSha_Ok & H). apply bind_Ok in H as (scope & Hscope%validate_scope_Ok & H).
  apply bind_Ok in H as (runtime & [_ Hruntime]%requireSha_Ok & H). apply bind_Ok in H as (worker & [_ Hworker]%requireSha_Ok & H).
  apply bind_Ok in H as (model & [_ Hmodel]%requireSha_Ok & H). apply bind_Ok in H as (profile & (_ & Hprofile)%requireSafeLabel_Ok & H).
  apply bind_Ok in H as (spec & [_ Hspec]%requireSha_Ok & H). apply bind_Ok in H as (contract & [_ Hcontract]%requireSha_Ok & H).
  apply bind_Ok in H as (execution & [_ Hexecution]%requireSha_Ok & H). apply bind_Ok in H as (? & _ & H). apply Ok_inj in H as <-.
  split; cbn; [by repeat (apply Forall_cons; split)|done|done| |done|].
  - destruct (get _ "sessionDeviceProofs"); try done. apply bind_Ok in Hraw as (? & Hlen%guard_Ok & <-%Ok_inj).
    apply orb_false_iff in Hlen as [?%Nat.ltb_ge ?%Nat.ltb_ge]. lia.
  - destruct Hscope as [[_ ->]|?]; [by left|by right].
Qed.
