(* ===== verification/AcceptanceEvidence.v ===== *)
(** * What a manifest keeps as evidence

    [src/tools/acceptance-contract.ts]: the summary of the evidence that
    reaches a manifest.  It is built member by member, and a member that does
    not have its exact form is left out.  [String(value)] of an object with a
    [toString] of its own throws, so a sanitizer may throw. *)
From S2P Require Import Prelude JsString JsNum JsValue Json JsCoerce Stringify CanonicalJson RuntimeErrors WorkerStages AcceptanceText AcceptanceProof.

(** The value, when it has the form. *)
Definition kept (form : js → bool) (value : js) : option js := if form value then Some value else None.

(** The members that are assigned: each of the named values in its form. *)
Definition assigned (record : fields) (forms : list (string * (js → option js))) : fields :=
  omap (λ e : string * (js → option js), pair e.1 <$> e.2 (get record e.1)) forms.

(** Several members of one form. *)
Definition each (form : js → bool) (names : list string) : list (string * (js → option js)) :=
  map (λ name, (name, kept form)) names.

Definition is_sha (value : js) : bool := string_with OCR_EXECUTION_PROOF_SHA value.

Definition isSafeEvidenceCount (value : js) : bool := isSafeInteger value && (0 <=? number_of value).

Definition isPageNumberList (value : js) : bool :=
  array_with (λ pages, (1 <=? length pages)%nat && (length pages <=? 500)%nat &&
    forallb (λ page, isSafeInteger page && (1 <=? number_of page) && (number_of page <=? 500)) pages) value.

(** The pages of an array; nothing for any other value. *)
Definition pages_of (value : js) : list js := match value with Arr pages => pages | _ => [] end.

Definition differs (a b : js) : bool := negb (strict_eqb a b).

(** [processed.some((page, index) => page !== requested[index])] *)
Definition pages_differ (processed requested : list js) : bool :=
  existsb id (imap (λ index page, differs page (default Undefined (requested !! index))) processed).

Definition sanitizePdfPageScope (value : js) : option fields :=
  match value with
  | Obj record =>
      let sourcePageCount := get record "sourcePageCount" in
      let requested := get record "requestedPageNumbers" in
      let processed := get record "processedPageNumbers" in
      if negb (isSafeInteger sourcePageCount) || (number_of sourcePageCount <? 1) || (500 <? number_of sourcePageCount) ||
         negb (isPageNumberList requested) || negb (isPageNumberList processed)
      then None
      else if out_of_order (pages_of requested) ||
              (number_of sourcePageCount <? number_of (List.last (pages_of requested) Undefined)) ||
              negb (length (pages_of processed) =? length (pages_of requested))%nat ||
              pages_differ (pages_of processed) (pages_of requested)
      then None
      else Some [("sourcePageCount", sourcePageCount); ("requestedPageNumbers", requested); ("processedPageNumbers", processed)]
  | _ => None
  end.

Definition PROOF_SUMMARY_FIELDS : list string :=
  ["artifactPath"; "bytes"; "sha256"; "schemaVersion"; "planSha256"; "identitySha256"; "dmlDeviceId"; "dmlNodeCount";
   "sessionCount"; "executionSha256"; "sourceSha256"; "runtimeSha256"; "workerSha256"; "modelSha256"; "profileId";
   "profileSpecSha256"; "contractSetSha256"; "requestedPageScope"].

(** [OCR_EXECUTION_PROOF_SHA.test(String(value))]: the text, when it is one. *)
Definition sha_text (value : js) : outcome (option string) :=
  s ← to_string value; Ok (if OCR_EXECUTION_PROOF_SHA s then Some s else None).

(** A safe integer of at least [least]. *)
Definition count_from (least : Z) (value : js) : bool := isSafeInteger value && negb (number_of value <? least).

Definition sanitizeOcrExecutionProofSummary (value : js) : outcome (option fields) :=
  match value with
  | Obj record =>
      if bool_decide (sort_keys (keys record) ≠ sort_keys PROOF_SUMMARY_FIELDS) then Ok None
      else if negb (is_str (get record "artifactPath") OCR_EXECUTION_PROOF_ARTIFACT) ||
              negb (is_str (get record "schemaVersion") "1") ||
              negb (isSafeInteger (get record "bytes")) || (number_of (get record "bytes") <=? 0) then Ok None
      else
        sha ← sha_text (get record "sha256");
        match sha with None => Ok None | Some sha =>
        plan ← sha_text (get record "planSha256");
        match plan with None => Ok None | Some plan =>
        adapter ← sha_text (get record "identitySha256");
        match adapter with None => Ok None | Some adapter =>
        execution ← sha_text (get record "executionSha256");
        match execution with None => Ok None | Some execution =>
        let scope := get record "requestedPageScope" in
        if existsb (λ key, negb (is_sha (get record key))) ["sourceSha256"; "runtimeSha256"; "workerSha256"; "modelSha256"] ||
           negb (string_with (plain_name 128) (get record "profileId")) ||
           existsb (λ key, negb (is_sha (get record key))) ["profileSpecSha256"; "contractSetSha256"] ||
           (negb (is_null scope) && (negb (isPageNumberList scope) || out_of_order (pages_of scope))) ||
           negb (count_from 0 (get record "dmlDeviceId")) || negb (count_from 1 (get record "dmlNodeCount")) ||
           negb (count_from 1 (get record "sessionCount"))
        then Ok None
        else Ok (Some
          [("artifactPath", Str OCR_EXECUTION_PROOF_ARTIFACT); ("bytes", get record "bytes"); ("sha256", Str sha);
           ("schemaVersion", Str "1"); ("planSha256", Str plan); ("identitySha256", Str adapter);
           ("dmlDeviceId", get record "dmlDeviceId"); ("dmlNodeCount", get record "dmlNodeCount");
           ("sessionCount", get record "sessionCount"); ("executionSha256", Str execution);
           ("sourceSha256", get record "sourceSha256"); ("runtimeSha256", get record "runtimeSha256");
           ("workerSha256", get record "workerSha256"); ("modelSha256", get record "modelSha256");
           ("profileId", get record "profileId"); ("profileSpecSha256", get record "profileSpecSha256");
           ("contractSetSha256", get record "contractSetSha256"); ("requestedPageScope", scope)])
        end end end end
  | _ => Ok None
  end.

Definition FAILURE_SUMMARY_FIELDS : list string :=
  ["artifactPath"; "bytes"; "failureClass"; "schemaVersion"; "sha256"; "sourceRole"; "sourceSha256"; "stageSequence";
   "runtimeSha256"; "workerSha256"].

Definition is_stage_list (value : js) : bool :=
  array_with (λ stages, (length stages <=? MAX_WORKER_DIAGNOSTIC_STAGES)%nat &&
    forallb (string_with isAllowedOcrFailureStage) stages) value.

Definition sanitizeOcrExecutionFailureSummary (value : js) : option fields :=
  match value with
  | Obj record =>
      let exit := get record "exitCode" in
      let expected := FAILURE_SUMMARY_FIELDS ++ (if is_undefined exit then [] else ["exitCode"]) in
      if bool_decide (sort_keys (keys record) ≠ sort_keys expected) then None
      else if negb (is_str (get record "artifactPath") OCR_EXECUTION_FAILURE_ARTIFACT) ||
              negb (is_str (get record "schemaVersion") "1") ||
              negb (isSafeInteger (get record "bytes")) || (number_of (get record "bytes") <=? 0) ||
              (OCR_FAILURE_MAX_BYTES <? number_of (get record "bytes")) ||
              existsb (λ key, negb (is_sha (get record key))) ["sha256"; "sourceSha256"; "runtimeSha256"; "workerSha256"] ||
              negb (is_source_role (get record "sourceRole")) || negb (is_stage_list (get record "stageSequence")) ||
              negb (one_of FAILURE_CLASSES (get record "failureClass")) ||
              (negb (is_undefined exit) && negb (is_exit_code exit))
      then None
      else Some
        ([("artifactPath", Str OCR_EXECUTION_FAILURE_ARTIFACT); ("bytes", get record "bytes"); ("sha256", get record "sha256");
          ("schemaVersion", Str "1"); ("sourceSha256", get record "sourceSha256");
          ("runtimeSha256", get record "runtimeSha256"); ("workerSha256", get record "workerSha256");
          ("sourceRole", get record "sourceRole"); ("stageSequence", get record "stageSequence");
          ("failureClass", get record "failureClass")] ++ (if is_undefined exit then [] else [("exitCode", exit)]))
  | _ => None
  end.

(** [cer]: unknown, or a finite ratio. *)
Definition is_cer (value : js) : bool :=
  is_null value || number_with (λ n, is_finite n && num_leb (num_of_Z 0) n && num_leb n (num_of_Z 1)) value.

Definition sanitize_provenance (value : js) : option js :=
  match value with
  | Obj source =>
      match assigned source (each (string_with (plain_name 160))
              ["ocrEngine"; "ocrModel"; "ocrDevice"; "structuringEngine"; "structuringModel"]) with
      | [] => None
      | provenance => Some (Obj provenance)
      end
  | _ => None
  end.

(** The members in the order of their assignment. *)
Definition evidence_forms (ocrExecutionProof : option fields) : list (string * (js → option js)) :=
  [("acceptanceMode", kept (one_of ["ocr-only"; "structuring"]))] ++
  each is_boolean ["ocrProofSucceeded"; "structuringSucceeded"; "releaseGateSatisfied"] ++
  each is_sha ["sourceSha256"; "importedSourceSha256"; "runtimeArtifactSha256"; "contractSetSha256"; "workerArchiveSha256";
    "workerExecutableSha256"; "candidateId"; "catalogSha256"; "modelManifestSha256"; "sourceLockSha256"] ++
  each isSafeEvidenceCount ["modelFileCount"; "modelExtractedBytes"] ++
  [("authenticatedRuntimePreflight", kept (one_of ["gpu-dml"; "cpu-fallback"])); ("uiGpuBeforeImport", kept is_boolean);
   ("cer", kept is_cer)] ++
  each isSafeEvidenceCount ["expectedAnchorCount"; "matchedAnchorCount"] ++
  [("pdfPageScope", λ value, Obj <$> sanitizePdfPageScope value); ("provenance", sanitize_provenance);
   ("ocrExecutionProof", λ _, Obj <$> ocrExecutionProof);
   ("ocrExecutionFailure", λ value, Obj <$> sanitizeOcrExecutionFailureSummary value)].

Definition sanitizeAcceptanceEvidence (value : js) : outcome (option fields) :=
  match value with
  | Obj record =>
      ocrExecutionProof ← sanitizeOcrExecutionProofSummary (get record "ocrExecutionProof");
      Ok (match assigned record (evidence_forms ocrExecutionProof) with [] => None | evidence => Some evidence end)
  | _ => Ok None
  end.

(** ** Sanitizing twice *)

(** No two of the listed names are the same. *)
Ltac distinct := apply (bool_decide_unpack _); vm_compute; exact I.

(** What a form lets through it lets through again. *)
Definition settled (f : js → option js) : Prop := ∀ v, f (default Undefined (f v)) = f v.

Lemma kept_settled form : form Undefined = false → settled (kept form).
Proof. intros Hu v. unfold kept. destruct (form v) eqn:E; cbn; [by rewrite E|by rewrite Hu]. Qed.

Lemma each_settled form names : form Undefined = false → Forall (λ e, settled e.2) (each form names).
Proof. intros Hu. apply Forall_map, Forall_forall. intros name _. by apply kept_settled. Qed.

Lemma each_names form names : map fst (each form names) = names.
Proof. unfold each. rewrite map_map. by rewrite map_id. Qed.

Lemma assigned_absent record forms k : k ∉ map fst forms → get (assigned record forms) k = Undefined.
Proof.
  intros Hk. apply get_absent. unfold keys. intros (e & -> & He)%list_elem_of_fmap.
  apply list_elem_of_omap in He as ([k f] & Hin & He). cbn in He. apply fmap_Some in He as (w & _ & ->).
  apply Hk. apply list_elem_of_fmap. by exists (k, f).
Qed.

Lemma get_assigned record forms k f :
  NoDup (map fst forms) → (k, f) ∈ forms → get (assigned record forms) k = default Undefined (f (get record k)).
Proof.
  induction forms as [|[k' g] forms IH]; intros Hnd Hin; [by apply elem_of_nil in Hin|]. cbn [map fst] in Hnd. apply NoDup_cons in Hnd as [Hk Hnd].
  assert (Hcons : assigned record ((k', g) :: forms) =
    match g (get record k') with Some w => [(k', w)] | None => [] end ++ assigned record forms).
  { unfold assigned. cbn. by destruct (g (get record k')). }
  rewrite Hcons. apply elem_of_cons in Hin as [[= -> ->]|Hin].
  - destruct (g (get record k')); cbn [app get]; [by rewrite String.eqb_refl|]. by apply assigned_absent.
  - assert (k ≠ k') as Hne. { intros ->. apply Hk. apply list_elem_of_fmap. by exists (k', f). }
    destruct (g (get record k')); cbn [app get]; [rewrite (proj2 (String.eqb_neq _ _) Hne)|]; by apply IH.
Qed.

Lemma assigned_settled record forms :
  NoDup (map fst forms) → Forall (λ e : string * (js → option js), settled e.2) forms →
  assigned (assigned record forms) forms = assigned record forms.
Proof.
  intros Hnd Hset. unfold assigned at 1 3.
  assert (Heq : ∀ e, e ∈ forms → e.2 (get (assigned record forms) e.1) = e.2 (get record e.1)).
  { intros [k f] Hin. cbn. rewrite (get_assigned record forms k f) by done. rewrite Forall_forall in Hset. by apply (Hset (k, f)). }
  revert Heq. generalize (assigned record forms) as r. clear Hnd Hset. intros r Heq.
  induction forms as [|e forms IH]; [done|]. cbn. rewrite (Heq e) by (apply elem_of_cons; by left).
  rewrite IH; [done|]. intros e' Hin. apply Heq, elem_of_cons. by right.
Qed.

(** Nothing is assigned twice. *)
Lemma evidence_names proof : NoDup (map fst (evidence_forms proof)).
Proof. vm_compute. distinct. Qed.

Lemma scope_settled : settled (λ value, Obj <$> sanitizePdfPageScope value).
Proof.
  intros v. destruct (sanitizePdfPageScope v) as [r|] eqn:E; [|done]. cbn [fmap option_fmap option_map default id].
  destruct v as [| | | | | |record]; try done. unfold sanitizePdfPageScope in E. destruct (_ || _) eqn:E1 in E; [done|].
  destruct (_ || _) eqn:E2 in E; [done|]. apply (inj Some) in E as <-. unfold sanitizePdfPageScope. cbv zeta. cbn [get String.eqb Ascii.eqb Bool.eqb].
  by rewrite E1, E2.
Qed.

Lemma provenance_settled : settled sanitize_provenance.
Proof.
  intros v. destruct (sanitize_provenance v) as [r|] eqn:E; [|done]. cbn [default id].
  destruct v as [| | | | | |source]; try done. unfold sanitize_provenance in *.
  destruct (assigned source _) as [|e provenance] eqn:Ea; [done|]. apply (inj Some) in E as <-. rewrite <-Ea.
  rewrite assigned_settled; [by rewrite Ea| |by apply each_settled].
  rewrite each_names. distinct.
Qed.

Lemma failure_settled : settled (λ value, Obj <$> sanitizeOcrExecutionFailureSummary value).
Proof.
  intros v. destruct (sanitizeOcrExecutionFailureSummary v) as [r|] eqn:E; [|done]. cbn [fmap option_fmap option_map default id].
  destruct v as [| | | | | |record]; try done. unfold sanitizeOcrExecutionFailureSummary in E.
  cbv zeta in E. case_bool_decide as Hk; [done|]. destruct (_ || _) eqn:E1 in E; [done|]. apply (inj Some) in E as <-.
  assert (Hfix : get record "artifactPath" = Str OCR_EXECUTION_FAILURE_ARTIFACT ∧ get record "schemaVersion" = Str "1").
  { rewrite !orb_false_iff, !negb_false_iff, !is_str_spec in E1. tauto. }
  destruct Hfix as [Ha Hs]. rewrite Ha, Hs in E1. unfold sanitizeOcrExecutionFailureSummary. cbv zeta.
  destruct (is_undefined (get record "exitCode")) eqn:Eu.
  - rewrite bool_decide_false by (intros Hn; apply Hn; vm_compute; reflexivity).
    cbn [app get String.eqb Ascii.eqb Bool.eqb existsb negb andb] in *. change (is_undefined Undefined) with true.
    cbn [negb andb]. by rewrite E1.
  - cbn [app get String.eqb Ascii.eqb Bool.eqb existsb negb andb] in *. rewrite Eu. cbn [negb andb].
    rewrite bool_decide_false by (intros Hn; apply Hn; vm_compute; reflexivity). by rewrite E1.
Qed.

Lemma sha_text_Str s : is_sha256_hex s = true → sha_text (Str s) = Ok (Some s).
Proof. intros H. unfold sha_text, OCR_EXECUTION_PROOF_SHA. cbn. by rewrite H. Qed.

Lemma sha_text_Some v s : sha_text v = Ok (Some s) → is_sha256_hex s = true.
Proof.
  unfold sha_text. intros (t & _ & H)%bind_Ok. apply Ok_inj in H. unfold OCR_EXECUTION_PROOF_SHA in H. destruct (is_sha256_hex t) eqn:E; by simplify_eq.
Qed.

Lemma proof_settled v r :
  sanitizeOcrExecutionProofSummary v = Ok (Some r) → sanitizeOcrExecutionProofSummary (Obj r) = Ok (Some r).
Proof.
  destruct v as [| | | | | |record]; try done. unfold sanitizeOcrExecutionProofSummary. case_bool_decide as Hk; [done|].
  destruct (_ || _) eqn:E1; [done|]. intros H.
  apply bind_Ok in H as ([sha|] & Hsha & H); [apply sha_text_Some in Hsha|done]. apply bind_Ok in H as ([plan|] & Hplan & H); [apply sha_text_Some in Hplan|done].
  apply bind_Ok in H as ([adapter|] & Hadapter & H); [apply sha_text_Some in Hadapter|done].
  apply bind_Ok in H as ([execution|] & Hex & H); [apply sha_text_Some in Hex|done].
  cbv zeta in H. destruct (_ || _) eqn:E2 in H; [done|]. apply Ok_inj, (inj Some) in H as <-.
  rewrite bool_decide_false by (intros Hn; apply Hn; vm_compute; reflexivity). cbn [get String.eqb Ascii.eqb Bool.eqb existsb] in *.
  rewrite !orb_false_iff in E1. destruct E1 as [[_ Hb1] Hb2]. rewrite Hb1, Hb2. cbv zeta.
  cbn [is_str strict_eqb negb orb]. rewrite !String.eqb_refl. cbn [negb orb]. rewrite !sha_text_Str by done. cbn [mbind result_bind].
  by rewrite E2.
Qed.

Lemma evidence_settled proof : Forall (λ e, settled e.2) (evidence_forms proof).
Proof.
  unfold evidence_forms. repeat (apply Forall_app; split); try (by apply each_settled);
    repeat (apply Forall_cons; split); try (by apply kept_settled); try apply Forall_nil_2.
  - apply scope_settled.
  - apply provenance_settled.
  - done.
  - apply failure_settled.
Qed.


Definition sample_evidence : js :=
  Obj [("cer", Num (Fin (1 # 20))); ("transcript", Str "private"); ("acceptanceMode", Str "ocr-only");
    ("sourceSha256", Str sample_digest); ("matchedAnchorCount", js_Z (-1));
    ("provenance", Obj [("ocrDevice", Str "dml:0"); ("ocrModel", Str "C:/models")]);
    ("pdfPageScope", Obj [("processedPageNumbers", Arr [js_Z 1]); ("sourcePageCount", js_Z 3); ("requestedPageNumbers", Arr [js_Z 1])])].


(** ** The summaries that are read back *)

Lemma isSafeInteger_Z z : Z.abs z ≤ MAX_SAFE_INTEGER → isSafeInteger (js_Z z) = true ∧ number_of (js_Z z) = z.
Proof.
  intros Hz. assert (Hn : number_of (js_Z z) = z) by (unfold number_of, js_Z; by rewrite to_int_of_Z).
  split; [|done]. apply isSafeInteger_Ok. exists (num_of_Z z). rewrite Hn. split_and!; [done|apply to_int_of_Z|done].
Qed.

Lemma stage_list_of stages :
  (length stages <= MAX_WORKER_DIAGNOSTIC_STAGES)%nat → Forall (λ s, sanitizeWorkerStage s = Some s) stages →
  is_stage_list (Arr (map Str stages)) = true.
Proof.
  intros Hlen Hall. unfold is_stage_list. cbn [array_with]. rewrite length_map. apply andb_true_iff. split; [by apply Nat.leb_le|].
  apply forallb_true, Forall_map. eapply Forall_impl; [exact Hall|]. intros s Hs. cbn. unfold isAllowedOcrFailureStage, isAllowedWorkerStage.
  by apply bool_decide_eq_true.
Qed.

Lemma failure_summary_kept (sha256 : list Z → string) bytes expected f :
  is_sha256_hex (sha256 bytes) = true → sound_failure expected f → 0 < Z.of_nat (length bytes) ≤ OCR_FAILURE_MAX_BYTES →
  sanitizeOcrExecutionFailureSummary (Obj (failure_summary sha256 bytes f)) = Some (failure_summary sha256 bytes f).
Proof.
  intros Hdigest [[Hs _] [Hr _] [Hw _] [Hro _] [Hl Hst] Hc He] Hb. unfold OCR_FAILURE_MAX_BYTES in Hb.
  destruct (isSafeInteger_Z (Z.of_nat (length bytes))) as [Hsafe Hnum]; [unfold MAX_SAFE_INTEGER; lia|].
  assert (Hsha : ∀ s, is_sha256_hex s = true → is_sha (Str s) = true) by done.
  unfold sanitizeOcrExecutionFailureSummary, failure_summary. cbv zeta.
  destruct (exitCode f) as [code|] eqn:Ee; cbn [app get String.eqb Ascii.eqb Bool.eqb existsb].
  - destruct (isSafeInteger_Z code) as [Hes Hen]; [specialize (He code eq_refl); unfold MAX_SAFE_INTEGER; lia|].
    change (is_undefined (js_Z code)) with false. rewrite bool_decide_false by (intros Hn; apply Hn; vm_compute; reflexivity).
    rewrite Hsafe, Hnum, !Hsha, Hro, stage_list_of by done.
    assert (is_exit_code (js_Z code) = true) as ->. { unfold is_exit_code. rewrite Hes, Hen. specialize (He code eq_refl). by rewrite !(proj2 (Z.leb_le _ _)) by lia. }
    rewrite (proj2 (Z.leb_gt _ _)), (proj2 (Z.ltb_ge _ _)) by (unfold OCR_FAILURE_MAX_BYTES; lia).
    assert (one_of FAILURE_CLASSES (Str (failureClass f)) = true) as -> by (apply includes_spec; exact Hc). done.
  - change (is_undefined Undefined) with true. rewrite bool_decide_false by (intros Hn; apply Hn; vm_compute; reflexivity).
    rewrite Hsafe, Hnum, !Hsha, Hro, stage_list_of by done.
    rewrite (proj2 (Z.leb_gt _ _)), (proj2 (Z.ltb_ge _ _)) by (unfold OCR_FAILURE_MAX_BYTES; lia).
    assert (one_of FAILURE_CLASSES (Str (failureClass f)) = true) as -> by (apply includes_spec; exact Hc). done.
Qed.

Lemma scope_pages n : (1 <= n <= 500)%nat → let scope := Arr (map js_Z (map Z.of_nat (seq 1 n))) in
  isPageNumberList scope = true ∧ out_of_order (pages_of scope) = false.
Proof.
  intros Hn. cbv zeta. unfold isPageNumberList. cbn [array_with pages_of]. split.
  - rewrite !length_map, length_seq, !andb_true_iff, !Nat.leb_le. split; [lia|]. apply forallb_true, Forall_map, Forall_map, Forall_forall.
    intros i Hi%elem_of_seq. destruct (isSafeInteger_Z (Z.of_nat i)) as [-> ->]; [unfold MAX_SAFE_INTEGER; lia|].
    by rewrite !(proj2 (Z.leb_le _ _)) by lia.
  - unfold out_of_order. apply existsb_false, Forall_lookup. intros i b Hb. rewrite list_lookup_imap in Hb.
    apply fmap_Some in Hb as (page & Hp & ->). change (map js_Z (map Z.of_nat (seq 1 n))) with (js_Z <$> (Z.of_nat <$> seq 1 n)) in Hp. rewrite !list_lookup_fmap in Hp.
    apply fmap_Some in Hp as (z & Hz & ->). apply fmap_Some in Hz as (k & Hk & ->). apply lookup_seq in Hk as [-> Hk].
    cbn [id]. apply negb_false_iff. cbn [strict_eqb js_Z]. rewrite (num_eqb_int _ _ (Z.of_nat (1 + i)) (Z.of_nat (S i))) by apply to_int_of_Z.
    by apply Z.eqb_refl.
Qed.

(** The summary of a proof reaches the manifest when its profile is a plain name. *)
Lemma proof_summary_kept sha256 bytes p :
  is_sha256_hex (sha256 bytes) = true → sound_proof p → 0 < Z.of_nat (length bytes) ≤ MAX_SAFE_INTEGER →
  sanitizeOcrExecutionProofSummary (Obj (proof_summary sha256 bytes p)) =
    Ok (if plain_name 128 (profileId p) then Some (proof_summary sha256 bytes p) else None).
Proof.
  intros Hsha [Hh Hd Hn Hs _ Hscope] Hb. rewrite !Forall_cons in Hh. destruct Hh as (H1 & H2 & H3 & H4 & H5 & H6 & H7 & H8 & H9 & _).
  destruct (isSafeInteger_Z (Z.of_nat (length bytes))) as [Hb1 Hb2]; [lia|].
  destruct (isSafeInteger_Z (dmlDeviceId p)) as [Hd1 Hd2]; [lia|]. destruct (isSafeInteger_Z (dmlNodeCount p)) as [Hn1 Hn2]; [lia|].
  destruct (isSafeInteger_Z (sessionCount p)) as [Hs1 Hs2]; [unfold MAX_SAFE_INTEGER; lia|].
  assert (His : ∀ s, is_sha256_hex s = true → is_sha (Str s) = true) by done.
  unfold sanitizeOcrExecutionProofSummary, proof_summary. rewrite bool_decide_false by (intros Hx; apply Hx; vm_compute; reflexivity).
  cbn [get String.eqb Ascii.eqb Bool.eqb existsb]. rewrite Hb1, Hb2, !sha_text_Str by done. rewrite (proj2 (Z.leb_gt _ _)) by lia.
  cbn [is_str strict_eqb]. rewrite !String.eqb_refl. cbn [negb orb mbind result_bind]. cbv zeta. rewrite !His by done. cbn [negb orb string_with].
  unfold count_from. rewrite Hd1, Hd2, Hn1, Hn2, Hs1, Hs2, !(proj2 (Z.ltb_ge _ _)) by lia. cbn [negb andb orb]. rewrite !orb_false_r.
  destruct (plain_name 128 (profileId p)); cbn [negb orb]; [|done].
  destruct Hscope as [->|(n & Hk & ->)]; [done|]. destruct (scope_pages n Hk) as [Hp Ho]. by rewrite Hp, Ho.
Qed.

Section readers.
Variables (sha256 : list Z → string) (utf8_encode : string → list Z) (utf8_decode : list Z → string).
Variables (cwd : string) (lstat : string → option Entry).
(** A SHA-256 in hexadecimal, no text without bytes, and no file beyond the exact integers. *)
Hypothesis sha256_hex : ∀ bytes, is_sha256_hex (sha256 bytes) = true.
Hypothesis utf8_nil : utf8_decode [] = "".
Hypothesis lstat_bounded : ∀ path bytes, lstat path = Some (File bytes) → Z.of_nat (length bytes) ≤ MAX_SAFE_INTEGER.

Lemma read_proof_Ok root summary :
  readOcrExecutionProof sha256 utf8_encode utf8_decode cwd lstat root = Ok summary →
  ∃ bytes p, summary = proof_summary sha256 bytes p ∧ sound_proof p ∧ 0 < Z.of_nat (length bytes) ≤ MAX_SAFE_INTEGER.
Proof.
  unfold readOcrExecutionProof. intros H. apply bind_Ok in H as (? & _ & H). apply bind_Ok in H as (? & _ & H).
  destruct (lstat _) as [[bytes| |target|]|] eqn:El; try done. destruct (JSON_parse (utf8_decode bytes)) as [value|] eqn:Ep; [|done].
  destruct (validateOcrExecutionProof _ _ value) as [p|] eqn:Ev; [|done]. apply Ok_inj in H as <-. exists bytes, p.
  split_and!; [done|by eapply validateOcrExecutionProof_sound| |by eapply lstat_bounded].
  destruct bytes; cbn; [|lia]. by rewrite utf8_nil in Ep.
Qed.

Lemma read_failure_Ok root expected summary :
  readOcrExecutionFailure sha256 utf8_decode cwd lstat root expected = Ok summary →
  ∃ record bytes f, expected = Obj record ∧ summary = failure_summary sha256 bytes f ∧ sound_failure record f ∧
    0 < Z.of_nat (length bytes) ≤ OCR_FAILURE_MAX_BYTES ∧ has_private_path (utf8_decode bytes) = false ∧
    has_private_word (utf8_decode bytes) = false.
Proof.
  unfold readOcrExecutionFailure. intros H. apply bind_Ok in H as (record & He & H). do 2 apply bind_Ok in H as (? & _ & H).
  destruct (lstat _) as [[bytes| |target|]|] eqn:El; try done. apply bind_Ok in H as (? & Hb%guard_Ok & H). cbv zeta in H.
  apply bind_Ok in H as (? & Hp%guard_Ok & H). apply bind_Ok in H as (? & Hw%guard_Ok & H).
  destruct (JSON_parse _) as [value|]; [|done]. destruct (validateOcrExecutionFailure value record) as [f|] eqn:Ev; [|done].
  apply Ok_inj in H as <-. apply validateOcrExecutionFailure_sound in Ev as [Hf _]. exists record, bytes, f.
  unfold assertValidOcrExecutionFailureExpectation in He. destruct expected; try done. do 3 apply bind_Ok in He as (? & _ & He). apply Ok_inj in He as ->.
  apply orb_false_iff in Hb as [?%Z.ltb_ge ?%Z.ltb_ge]. split_and!; [done|done|done|lia|lia|done|done].
Qed.

End readers.

Definition bytes_of (text : string) : list Z := map code (list_ascii_of_string text).
Definition text_of (bytes : list Z) : string := string_of_list_ascii (map (λ z, ascii_of_N (Z.to_N z)) bytes).

(** A root with a failure record, and one with a proof whose profile has a space. *)
Definition sample_failure : js :=
  Obj [("failureClass", Str "timeout"); ("runtimeSha256", Str sample_digest); ("schemaVersion", Str "1"); ("sourceRole", Str "pdf");
    ("sourceSha256", Str sample_digest); ("stageSequence", Arr [Str "ocr-predict-start"]); ("workerSha256", Str sample_digest);
    ("exitCode", js_Z (-9))].

Definition sample_files (path : string) : option Entry :=
  if String.eqb path "/run" then Some Directory
  else if String.eqb path "/run/ocr-execution-failure-v1.json" then Some (File (bytes_of (default "" (JSON_stringify sample_failure))))
  else if String.eqb path "/run/ocr-device-proof-v1.json" then
    Some (File (bytes_of (default "" (JSON_stringify (sample_proof "zh v5" Null)))))
  else None.

Definition sample_expectation : js :=
  Obj [("sourceRole", Str "pdf"); ("sourceSha256", Str sample_digest); ("runtimeSha256", Str sample_digest); ("workerSha256", Str sample_digest)].

Lemma sample_files_bounded path bytes : sample_files path = Some (File bytes) → Z.of_nat (length bytes) ≤ MAX_SAFE_INTEGER.
Proof.
  unfold sample_files. destruct (String.eqb path "/run"); [done|].
  destruct (String.eqb path _); [intros [= <-]; apply Z.leb_le; vm_compute; reflexivity|].
  destruct (String.eqb path _); [intros [= <-]; apply Z.leb_le; vm_compute; reflexivity|done].
Qed.

