(* ===== verification/AcceptanceManifest.v ===== *)
(** * Acceptance runs and their manifests

    [src/tools/acceptance-contract.ts]: the run a script works in, the manifest
    it leaves there, and the tolerant reader of the manifest of a child run.

    The files are a store that every operation may change, whether it succeeds
    or fails; a link is followed as [stat], [readFile] and [writeFile] do.
    Paths are POSIX paths.  Parameters: SHA-256 on bytes, UTF-8, the Python
    script that rewrites a ZIP archive, and the validators of the caller.
    Failures of the file system itself (permissions, a full disk) are not
    modelled. *)
From stdpp Require Import gmap strings.
From S2P Require Import Prelude JsString JsNum JsValue Json JsCoerce Stringify CanonicalJson RuntimeErrors Posix WorkerStages AcceptanceText AcceptanceProof AcceptanceEvidence.

(** ** Texts *)

(** [JSON.stringify(value, null, 2)] *)
Fixpoint pretty (indent : string) (v : js) : option string :=
  let inner := indent +:+ "  " in
  let line := String "010" inner in
  let block open members close :=
    match members with
    | [] => open +:+ close
    | _ => open +:+ line +:+ join ("," +:+ line) members +:+ String "010" (indent +:+ close)
    end in
  match v with
  | Arr l => Some (block "[" (map (λ x, default "null" (pretty inner x)) l) "]")
  | Obj r => Some (block "{" (omap (λ x, x) (map (λ kv,
      match pretty inner kv.2 with
      | Some t => Some (json_string kv.1 +:+ ": " +:+ t)
      | None => None
      end) r)) "}")
  | _ => JSON_stringify v
  end.

(** The text of a file that holds a JSON value. *)
Definition json_file (value : js) : string := default "undefined" (pretty "" value) +:+ String "010" "".

(** [text.split(/\r?\n/u)]: a carriage return before the line end goes with it. *)
Definition without_cr (line : string) : string :=
  if Posix.ends_with (String "013" "") line then take_str (String.length line - 1) line else line.
Definition text_lines (text : string) : list string :=
  match rev (split_on "010" text) with
  | [] => []
  | last :: before => rev (last :: map without_cr before)
  end.

(** ** The run *)

Record AcceptanceRun := { project : string; runId : string; recordVideo : bool; artifactRoot : string }.

(** [/^[A-Za-z0-9][A-Za-z0-9._-]{0,63}$/u], and without capitals. *)
Definition id_char (c : ascii) : bool := is_alnum c || Ascii.eqb c "." || Ascii.eqb c "_" || Ascii.eqb c "-".
Definition RUN_ID_PATTERN (s : string) : bool :=
  match s with String c s' => is_alnum c && (slen s' <=? 63) && all_chars id_char s' | "" => false end.
Definition PROJECT_PATTERN (s : string) : bool :=
  RUN_ID_PATTERN s && all_chars (λ c, negb (is_upper c)) s.

Definition parseBoolean (value : option string) (name : string) : accepted bool :=
  match value with
  | None => Ok false
  | Some value =>
      if blank value then Ok false
      else if String.eqb value "1" || String.eqb (lower value) "true" then Ok true
      else if String.eqb value "0" || String.eqb (lower value) "false" then Ok false
      else throw (name +:+ " must be 0, 1, true, or false.")
  end.

(** [/^[A-Za-z]:/u] *)
Definition drive_prefix (path : string) : bool := matches_word [is_letter; Ascii.eqb ":"] path.

(** [environment.NAME?.trim()] when it is not empty. *)
Definition setting (environment : string → option string) (name : string) : option string :=
  match environment name with Some s => if blank s then None else Some (trim s) | None => None end.

Definition createAcceptanceRun (cwd : string) (environment : string → option string) (project workspaceRoot : string)
  : accepted AcceptanceRun :=
  throw_if (negb (PROJECT_PATTERN project)) ("Acceptance project name is invalid: " +:+ project);;
  runId ← match setting environment "E2E_ACCEPTANCE_RUN_ID" with
    | Some runId => Ok runId
    | None => throw "E2E_ACCEPTANCE_RUN_ID must be set for acceptance runs."
    end;
  throw_if (negb (RUN_ID_PATTERN runId)) ("Acceptance run ID is invalid: " +:+ runId);;
  recordVideo ← parseBoolean (environment "E2E_RECORD_VIDEO") "E2E_RECORD_VIDEO";
  let projectRoot := resolve cwd [workspaceRoot; "output"; "playwright"; project] in
  let artifactRoot := resolve cwd
    [match setting environment "E2E_ARTIFACT_ROOT" with Some root => root | None => resolve cwd [projectRoot; runId] end] in
  let relativeArtifactRoot := relative cwd projectRoot artifactRoot in
  throw_if (negb (String.eqb relativeArtifactRoot runId) || String.eqb relativeArtifactRoot ".." ||
            starts_with "../" relativeArtifactRoot || drive_prefix relativeArtifactRoot)
    "E2E_ARTIFACT_ROOT must equal output/playwright/<project>/<run-id>.";;
  Ok {| project := project; runId := runId; recordVideo := recordVideo; artifactRoot := artifactRoot |}.

(** ** Files *)

Abbreviation store := (gmap string Entry).

(** A step on the files: its result and the files it leaves. *)
Definition io (A : Type) : Type := store → accepted A * store.

Definition ret {A} (a : A) : io A := λ files, (Ok a, files).
Definition lift {A} (r : accepted A) : io A := λ files, (r, files).
Definition get_files : io store := λ files, (Ok files, files).
Definition andThen {A B} (m : io A) (k : A → io B) : io B :=
  λ files, match m files with (Ok a, files') => k a files' | (Err e, files') => (Err e, files') end.

Declare Scope io_scope.
Delimit Scope io_scope with io.
Notation "x <- m ; k" := (andThen m (λ x, k)) (at level 100, m at next level, right associativity) : io_scope.
Notation "m ;; k" := (andThen m (λ _, k)) : io_scope.
Open Scope io_scope.

(** The file a path leads to; a chain of links ends somewhere or fails. *)
Fixpoint follow (hops : nat) (files : store) (path : string) : string :=
  match files !! path, hops with
  | Some (Link target), S hops' => follow hops' files target
  | _, _ => path
  end.

Definition MAX_LINKS : nat := 40.

Definition stat (files : store) (path : string) : option Entry := files !! follow MAX_LINKS files path.

Definition readFile (path : string) : io (list Z) := λ files,
  match stat files path with
  | Some (File bytes) => (Ok bytes, files)
  | Some Directory => (throw ("EISDIR: illegal operation on a directory, read"), files)
  | _ => (throw ("ENOENT: no such file or directory, open '" +:+ path +:+ "'"), files)
  end.

Definition writeFile (path : string) (bytes : list Z) : io unit := λ files,
  match stat files path with
  | Some (File _) | None => (Ok tt, <[follow MAX_LINKS files path := File bytes]> files)
  | _ => (throw ("EISDIR: illegal operation on a directory, open '" +:+ path +:+ "'"), files)
  end.

(** [mkdir(path, { recursive: true })] *)
Definition mkdir (path : string) : io unit := λ files,
  match stat files path with
  | None => (Ok tt, <[path := Directory]> files)
  | Some Directory => (Ok tt, files)
  | _ => (throw ("EEXIST: file already exists, mkdir '" +:+ path +:+ "'"), files)
  end.

Section manifest.
Variable sha256 : list Z → string.
Variables (utf8_encode : string → list Z) (utf8_decode : list Z → string).
(** The archive after the Python script, or the error of a script that fails. *)
Variable scrub_archive : string → list Z → accepted (list Z).
Variable cwd : string.

(** The reader of the proof, on the files. *)
Definition read_proof (root : string) (files : store) : accepted fields :=
  readOcrExecutionProof sha256 utf8_encode utf8_decode cwd (λ path, files !! path) root.

(** ** Text artifacts *)

Definition TEXT_SUFFIXES : list string := [".html"; ".json"; ".jsonl"; ".log"; ".md"; ".txt"].

Definition redact_line (line : string) : string :=
  if blank line then line
  else match JSON_parse line with
       | Some value => default "" (JSON_stringify (redactStructuredValue "" value))
       | None => redactAcceptanceText line
       end.

(** The text a file is rewritten to. *)
Definition sanitized_text (filePath value : string) : string :=
  let ends suffix := Posix.ends_with suffix (lower filePath) in
  match (if ends ".json" then JSON_parse value else None) with
  | Some json => json_file (redactStructuredValue "" json)
  | None =>
      if ends ".jsonl" then join (String "010" "") (map redact_line (text_lines value))
      else redactAcceptanceText value
  end.

Definition sanitizeTextArtifact (filePath : string) : io unit :=
  if existsb (λ suffix, Posix.ends_with suffix (lower filePath)) TEXT_SUFFIXES then
    bytes <- readFile filePath;
    writeFile filePath (utf8_encode (sanitized_text filePath (utf8_decode bytes)))
  else ret tt.

Definition sanitizeAcceptanceArchive (filePath : string) : io unit :=
  if Posix.ends_with ".zip" (lower filePath) then
    bytes <- readFile filePath;
    scrubbed <- lift (scrub_archive filePath bytes);
    writeFile filePath scrubbed
  else ret tt.

(** ** One artifact *)

Record AcceptanceArtifactInput := {
  input_path : string; input_kind : string; expectedIdentity : option (js * string) }.

Record AcceptanceArtifact := {
  artifact_path : string; artifact_kind : string; artifact_bytes : Z; artifact_sha256 : string }.

(** What the loop has gathered. *)
Record gathered := {
  artifacts : list AcceptanceArtifact; proofSummary : option fields; failureSummary : option fields }.

Definition same_json (a b : fields) : bool := bool_decide (JSON_stringify (Obj a) = JSON_stringify (Obj b)).

(** [summary && JSON.stringify(summary) !== JSON.stringify(other)] *)
Definition listed_differently (before : option fields) (summary : fields) : bool :=
  match before with Some summary' => negb (same_json summary' summary) | None => false end.

Definition expect_path (artifactRoot : string) (path : string) : accepted string :=
  let relativePath := relative cwd (resolve cwd [artifactRoot]) (resolve cwd [path]) in
  throw_if (String.eqb relativePath "" || starts_with "../" relativePath || String.eqb relativePath ".." || drive_prefix relativePath)
    ("Acceptance artifact must stay inside its artifact root: " +:+ redactAcceptanceText path) ≫= λ _,
  Ok relativePath.

(** The proof is kept as it is, a failure record must have been verified
    before, and any other text is redacted. *)
Definition prepare_artifact (root : string) (verified : option fields) (g : gathered) (absolutePath relativePath : string)
  : io gathered :=
  if String.eqb relativePath OCR_EXECUTION_PROOF_ARTIFACT then
    files <- get_files;
    summary <- lift (read_proof root files);
    lift (throw_if (listed_differently (proofSummary g) summary) "Acceptance OCR execution proof artifact was listed more than once.");;
    ret {| artifacts := artifacts g; proofSummary := Some summary; failureSummary := failureSummary g |}
  else if String.eqb relativePath OCR_EXECUTION_FAILURE_ARTIFACT then
    summary <- lift (match verified with
      | Some summary => Ok summary
      | None => throw "Acceptance OCR execution failure requires a smoke-verified summary."
      end);
    lift (throw_if (negb (is_str (get summary "artifactPath") OCR_EXECUTION_FAILURE_ARTIFACT))
      "Acceptance OCR execution failure summary artifact is invalid.");;
    lift (throw_if (listed_differently (failureSummary g) summary)
      "Acceptance OCR execution failure artifact was listed more than once.");;
    ret {| artifacts := artifacts g; proofSummary := proofSummary g; failureSummary := Some summary |}
  else
    sanitizeTextArtifact absolutePath;;
    ret g.

(** The bytes of a regular file. *)
Definition file_bytes (artifact : AcceptanceArtifactInput) (absolutePath : string) : io (list Z) := λ files,
  match stat files absolutePath with
  | Some (File bytes) => (Ok bytes, files)
  | _ => (throw ("Acceptance artifact is missing: " +:+ redactAcceptanceText (input_path artifact)), files)
  end.

Definition identity_changed (expected : js * string) (bytes : Z) (sha : string) : bool :=
  negb (isSafeInteger expected.1) || (number_of expected.1 <=? 0) || negb (OCR_EXECUTION_PROOF_SHA expected.2) ||
  negb (strict_eqb expected.1 (js_Z bytes)) || negb (String.eqb expected.2 sha).

Definition record_artifact (root : string) (verified : option fields) (g : gathered) (artifact : AcceptanceArtifactInput)
  : io gathered :=
  let absolutePath := resolve cwd [input_path artifact] in
  relativePath <- lift (expect_path root (input_path artifact));
  g <- prepare_artifact root verified g absolutePath relativePath;
  bytes <- file_bytes artifact absolutePath;
  (if String.eqb (input_kind artifact) "trace" || String.eqb (input_kind artifact) "report"
   then sanitizeAcceptanceArchive absolutePath else ret tt);;
  bytes <- file_bytes artifact absolutePath;
  let size := Z.of_nat (length bytes) in
  lift (throw_if (match expectedIdentity artifact with Some expected => identity_changed expected size (sha256 bytes) | None => false end)
    ("Acceptance artifact changed after producer identity verification: " +:+ redactAcceptanceText (input_path artifact)));;
  lift (throw_if (String.eqb relativePath OCR_EXECUTION_FAILURE_ARTIFACT &&
      match verified with
      | Some summary => differs (js_Z size) (get summary "bytes") || negb (is_str (get summary "sha256") (sha256 bytes))
      | None => true
      end) "Acceptance OCR execution failure artifact changed after smoke verification.");;
  ret {| artifacts := artifacts g ++ [{| artifact_path := relativePath; artifact_kind := input_kind artifact;
           artifact_bytes := size; artifact_sha256 := sha256 bytes |}];
         proofSummary := proofSummary g; failureSummary := failureSummary g |}.

Fixpoint record_artifacts (root : string) (verified : option fields) (g : gathered) (inputs : list AcceptanceArtifactInput)
  : io gathered :=
  match inputs with
  | [] => ret g
  | artifact :: rest => g <- record_artifact root verified g artifact; record_artifacts root verified g rest
  end.

(** ** The evidence is bound to its artifacts *)

(** Not listed, not read, other than what was read, or of other bytes. *)
Definition unbound (list : list AcceptanceArtifact) (name : string) (read : option fields) (claimed : js) : bool :=
  match List.find (λ artifact, String.eqb (artifact_path artifact) name) list, read, claimed with
  | Some artifact, Some summary, Obj evidence =>
      negb (same_json summary evidence) || differs (js_Z (artifact_bytes artifact)) (get evidence "bytes") ||
      negb (is_str (get evidence "sha256") (artifact_sha256 artifact))
  | _, _, _ => true
  end.

(** [input.evidence && hasOwnProperty(input.evidence, name)] *)
Definition claims (evidence : js) (name : string) : bool :=
  match evidence with Obj r => has_key r name | _ => false end.

Definition bind_evidence (input : js) (g : gathered) : accepted (option fields) :=
  match sanitizeAcceptanceEvidence input with
  | Err _ => throw "Cannot convert object to primitive value"
  | Ok evidence =>
      let member name := match evidence with Some r => get r name | None => Undefined end in
      let proof := member "ocrExecutionProof" in
      let failure := member "ocrExecutionFailure" in
      throw_if (claims input "ocrExecutionProof" && negb (truthy proof)) "Acceptance OCR execution proof evidence is invalid." ≫= λ _,
      throw_if (truthy proof && unbound (artifacts g) OCR_EXECUTION_PROOF_ARTIFACT (proofSummary g) proof)
        "Acceptance OCR execution proof evidence is not bound to its artifact." ≫= λ _,
      throw_if (claims input "ocrExecutionFailure" && negb (truthy failure)) "Acceptance OCR execution failure evidence is invalid." ≫= λ _,
      throw_if (bool_decide (is_Some (failureSummary g)) && negb (truthy failure))
        "Acceptance OCR execution failure evidence must include its verified summary." ≫= λ _,
      throw_if (truthy failure && unbound (artifacts g) OCR_EXECUTION_FAILURE_ARTIFACT (failureSummary g) failure)
        "Acceptance OCR execution failure evidence is not bound to its artifact." ≫= λ _,
      Ok evidence
  end.

(** ** The manifest *)

Record AcceptanceManifestInput := {
  input_project : string; input_runId : string; input_status : string; input_recordVideo : bool;
  input_artifacts : list AcceptanceArtifactInput; input_errors : list js; input_consoleErrors : list js;
  input_pageErrors : list js; input_cleanup : fields; input_fixture : option (string * string);
  verifiedOcrExecutionFailure : option fields; input_evidence : js }.

Definition artifact_json (artifact : AcceptanceArtifact) : js :=
  Obj [("path", Str (artifact_path artifact)); ("kind", Str (artifact_kind artifact)); ("bytes", js_Z (artifact_bytes artifact));
    ("sha256", Str (artifact_sha256 artifact))].

Definition fixture_json (fixture : option (string * string)) : js :=
  match fixture with
  | Some (name, sha) =>
      if OCR_EXECUTION_PROOF_SHA sha then Obj [("name", Str (sanitizeFixtureName name)); ("sha256", Str sha)] else Undefined
  | None => Undefined
  end.

Definition manifest_of (input : AcceptanceManifestInput) (artifacts : list AcceptanceArtifact) (evidence : option fields) : fields :=
  [("schemaVersion", js_Z 2); ("project", Str (input_project input)); ("runId", Str (input_runId input));
   ("status", Str (input_status input)); ("recordVideo", Bool (input_recordVideo input));
   ("artifacts", Arr (map artifact_json artifacts));
   ("errors", Arr (map (λ error, Str (sanitizeAcceptanceDiagnostic error acceptance)) (input_errors input)));
   ("consoleErrors", Arr (map (λ _, Str "browser_console_error") (input_consoleErrors input)));
   ("pageErrors", Arr (map (λ _, Str "browser_page_error") (input_pageErrors input)));
   ("cleanup", Obj (input_cleanup input)); ("fixture", fixture_json (input_fixture input));
   ("evidence", match evidence with Some r => Obj r | None => Undefined end)].

Definition writeAcceptanceManifest (artifactRoot : string) (input : AcceptanceManifestInput) : io string :=
  mkdir (resolve cwd [artifactRoot]);;
  g <- record_artifacts artifactRoot (verifiedOcrExecutionFailure input)
         {| artifacts := []; proofSummary := None; failureSummary := None |} (input_artifacts input);
  evidence <- lift (bind_evidence (input_evidence input) g);
  let manifestPath := resolve cwd [artifactRoot; "acceptance-manifest.json"] in
  writeFile manifestPath (utf8_encode (json_file (Obj (manifest_of input (artifacts g) evidence))));;
  ret manifestPath.

(** ** The tolerant reader *)

Inductive AcceptanceManifestReadResult : Type :=
| Valid (manifest : fields) (sourceManifestSha256 : string)
| MissingOrInvalid (sourceManifestSha256 : option string).

(** [value?.name] of a value that may not be a record. *)
Definition optional_member (value : js) (name : string) : js := match value with Obj r => get r name | _ => Undefined end.

Definition proofMatches (files : store) (root : string) (manifest : fields) : bool :=
  match read_proof root files with
  | Err _ => false
  | Ok proof =>
      let claimed := optional_member (get manifest "evidence") "ocrExecutionProof" in
      let listed := List.filter (λ artifact, strict_eqb (optional_member artifact "path") (get proof "artifactPath"))
        (pages_of (get manifest "artifacts")) in
      truthy claimed && bool_decide (JSON_stringify (Obj proof) = JSON_stringify claimed) &&
      strict_eqb (optional_member (get manifest "fixture") "sha256") (get proof "sourceSha256") &&
      match listed with
      | [artifact] =>
          is_str (optional_member artifact "kind") "log" &&
          strict_eqb (optional_member artifact "bytes") (get proof "bytes") &&
          strict_eqb (optional_member artifact "sha256") (get proof "sha256")
      | _ => false
      end
  end.

Section reader.
Variables (validateTerminalManifest : fields → bool) (validateChildManifest : fields → bool → bool).

Definition readAcceptanceManifestTolerant (context : AcceptanceRun) (files : store) : AcceptanceManifestReadResult :=
  match files !! resolve cwd [artifactRoot context; "acceptance-manifest.json"] with
  | Some (File bytes) =>
      let sourceManifestSha256 := sha256 bytes in
      match JSON_parse (utf8_decode bytes) with
      | Some (Obj value) =>
          if negb (is_str (get value "project") (project context)) || negb (is_str (get value "runId") (runId context)) ||
             negb (strict_eqb (get value "recordVideo") (Bool (recordVideo context))) || negb (validateTerminalManifest value) ||
             (is_str (get value "status") "completed" &&
              (negb (validateChildManifest value false) || negb (proofMatches files (artifactRoot context) value)))
          then MissingOrInvalid (Some sourceManifestSha256)
          else Valid value sourceManifestSha256
      | _ => MissingOrInvalid (Some sourceManifestSha256)
      end
  | _ => MissingOrInvalid None
  end.
End reader.

(** ** Recordings *)

(** [assertWebmArtifact]: a regular file that starts as EBML does. *)
Definition assertWebmArtifact (filePath : string) : io bool := λ files,
  match stat files filePath with
  | Some (File bytes) =>
      if bool_decide (bytes = []) then
        (throw ("Acceptance recording must be a non-empty WebM: " +:+ redactAcceptanceText filePath), files)
      else if bool_decide (take 4 bytes = [26; 69; 223; 163]) then (Ok true, files)
      else (throw ("Acceptance recording is not an EBML/WebM file: " +:+ redactAcceptanceText filePath), files)
  | _ => (throw ("Acceptance recording must be a non-empty WebM: " +:+ redactAcceptanceText filePath), files)
  end.
End manifest.

(** ** Steps on files *)

Lemma andThen_Ok {A B} (m : io A) (k : A → io B) files b files' :
  andThen m k files = (Ok b, files') ↔ ∃ a files1, m files = (Ok a, files1) ∧ k a files1 = (Ok b, files').
Proof. unfold andThen. destruct (m files) as [[a|e] files1]; naive_solver. Qed.

Lemma lift_Ok {A} (r : accepted A) files a files' : lift r files = (Ok a, files') ↔ r = Ok a ∧ files' = files.
Proof. unfold lift. naive_solver. Qed.

(** Every step of a successful run. *)
Ltac steps :=
  repeat match goal with
  | H : andThen _ _ _ = (Ok _, _) |- _ => apply andThen_Ok in H as (? & ? & ? & H); cbv beta in H
  | H : lift _ _ = (Ok _, _) |- _ => apply lift_Ok in H as [? ->]
  | H : ret _ _ = (Ok _, _) |- _ => apply pair_equal_spec in H as [H <-]; apply Ok_inj in H as <-
  | H : get_files _ = (Ok _, _) |- _ => apply pair_equal_spec in H as [H <-]; apply Ok_inj in H as <-
  end.

(** No path is a link. *)
Definition plain (files : store) : Prop := ∀ p t, files !! p ≠ Some (Link t).

Lemma follow_plain n files p : plain files → follow n files p = p.
Proof. intros H. destruct n; cbn; destruct (files !! p) as [[]|] eqn:E; try done. by destruct (H p target). Qed.

Lemma stat_plain files p : plain files → stat files p = files !! p.
Proof. intros H. unfold stat. by rewrite follow_plain. Qed.

(** Only the file [p] has other bytes. *)
Definition only_file (p : string) (files files' : store) : Prop :=
  plain files' ∧ (∃ bytes, files !! p = Some (File bytes)) ∧ (∃ bytes, files' !! p = Some (File bytes)) ∧
  ∀ q, q ≠ p → files' !! q = files !! q.

Lemma only_file_refl p files bytes : plain files → files !! p = Some (File bytes) → only_file p files files.
Proof. intros Hp Hf. split_and!; eauto. Qed.

Lemma only_file_trans p files1 files2 files3 : only_file p files1 files2 → only_file p files2 files3 → only_file p files1 files3.
Proof. intros (_ & H1 & _ & H2) (Hp & _ & H3 & H4). split_and!; [done|done|done|]. intros q Hq. by rewrite H4, H2. Qed.

Lemma rewritten_file p f files u files' :
  plain files → (bytes <- readFile p; writeFile p (f bytes)) files = (Ok u, files') → only_file p files files'.
Proof.
  intros Hp H. steps. unfold readFile in *. rewrite stat_plain in * by done.
  destruct (files !! p) as [[bytes| | |]|] eqn:Ef; simplify_eq. unfold writeFile in H. rewrite stat_plain, follow_plain in H by done.
  rewrite Ef in H. simplify_eq. split_and!; [|by eexists|by rewrite lookup_insert_eq; eexists|intros q Hq; by rewrite lookup_insert_ne].
  intros q t. destruct (decide (p = q)) as [<-|Hq]; [by rewrite lookup_insert_eq|]. by rewrite lookup_insert_ne.
Qed.

Lemma ends_with_app suffix s t :
  (String.length suffix <= String.length t)%nat → Posix.ends_with suffix (s +:+ t) = Posix.ends_with suffix t.
Proof.
  intros Hl. unfold Posix.ends_with. rewrite str_length_app, !(proj2 (Nat.leb_le _ _)) by lia. cbn [andb]. f_equal.
  replace (String.length s + String.length t - String.length suffix)%nat with (String.length s + (String.length t - String.length suffix))%nat by lia.
  generalize (String.length t - String.length suffix)%nat as k. intros k. induction s as [|c s IH]; [done|]. exact IH.
Qed.

Lemma lower_app s t : lower (s +:+ t) = lower s +:+ lower t.
Proof. induction s as [|c s IH]; [done|]. cbn. by rewrite <-IH. Qed.

Lemma absolute_snoc names name : ∃ x, absolute (names ++ [name]) = x +:+ name.
Proof.
  assert (Hj : ∃ x, join "/" (names ++ [name]) = x +:+ name).
  { induction names as [|s names [x IH]]; [by exists ""|]. destruct names as [|s' names]; [by exists (s +:+ "/"); rewrite <-str_app_assoc|].
    exists (s +:+ "/" +:+ x). change (join "/" ((s :: s' :: names) ++ [name])) with (s +:+ "/" +:+ join "/" ((s' :: names) ++ [name])).
    by rewrite IH, !str_app_assoc. }
  destruct Hj as [x Hx]. exists ("/" +:+ x). unfold absolute. rewrite Hx. by rewrite str_app_assoc.
Qed.

Section facts.
Variable sha256 : list Z → string.
Variables (utf8_encode : string → list Z) (utf8_decode : list Z → string).
Variable scrub_archive : string → list Z → accepted (list Z).
Variable cwd : string.
Hypothesis cwd_absolute : starts_with "/" cwd = true.

Local Abbreviation proof_of := (read_proof sha256 utf8_encode utf8_decode cwd).
Local Abbreviation record_one := (record_artifact sha256 utf8_encode utf8_decode scrub_archive cwd).
Local Abbreviation record_all := (record_artifacts sha256 utf8_encode utf8_decode scrub_archive cwd).

(** The path of an artifact, and that of the proof of a root. *)
Definition path_of_input (a : AcceptanceArtifactInput) : string := resolve cwd [input_path a].
Definition proof_path (root : string) : string := resolve cwd [resolve cwd [root]; OCR_EXECUTION_PROOF_ARTIFACT].

Lemma proof_name_good : good_name OCR_EXECUTION_PROOF_ARTIFACT.
Proof. split_and!; [|done|done]. by split. Qed.

Lemma proof_path_json root : ∃ x, proof_path root = x +:+ OCR_EXECUTION_PROOF_ARTIFACT.
Proof.
  unfold proof_path. destruct (resolve_absolute cwd [root] cwd_absolute) as (names & Hn & ->).
  rewrite resolve_below by (done || apply proof_name_good). apply absolute_snoc.
Qed.

(** The artifact with the proof's relative path is the proof. *)
Lemma proof_input root path : expect_path cwd root path = Ok OCR_EXECUTION_PROOF_ARTIFACT → resolve cwd [path] = proof_path root.
Proof.
  unfold expect_path. intros (u & _ & H)%bind_Ok. apply Ok_inj in H. unfold proof_path.
  destruct (resolve_absolute cwd [root] cwd_absolute) as (a & Ha & Ea). destruct (resolve_absolute cwd [path] cwd_absolute) as (b & Hb & Eb).
  rewrite Ea, Eb in *. rewrite resolve_below by (done || apply proof_name_good). f_equal.
  eapply relative_name; [done|done|apply proof_name_good|done].
Qed.

Lemma read_proof_Directory root files summary :
  proof_of root files = Ok summary → files !! resolve cwd [root] = Some Directory.
Proof.
  unfold read_proof, readOcrExecutionProof. intros (u & H & _)%bind_Ok. apply guard_Ok, negb_false_iff in H.
  unfold is_directory in H. by destruct (files !! resolve cwd [root]) as [[]|].
Qed.

(** The reader looks at the root and at the proof, and at nothing else. *)
Lemma read_proof_same root files files' :
  files !! resolve cwd [root] = files' !! resolve cwd [root] → files !! proof_path root = files' !! proof_path root →
  proof_of root files = proof_of root files'.
Proof. unfold read_proof, readOcrExecutionProof, proof_path. intros H1 H2. cbv zeta. by rewrite H1, H2. Qed.

(** What the manifest says of an artifact is so in these files. *)
Definition describes (root : string) (files : store) (a : AcceptanceArtifactInput) (r : AcceptanceArtifact) : Prop :=
  expect_path cwd root (input_path a) = Ok (artifact_path r) ∧ artifact_kind r = input_kind a ∧
  ∃ bytes, files !! path_of_input a = Some (File bytes) ∧ artifact_bytes r = Z.of_nat (length bytes) ∧ artifact_sha256 r = sha256 bytes.

Lemma file_bytes_Ok a path files bytes files' :
  plain files → file_bytes a path files = (Ok bytes, files') → files' = files ∧ files !! path = Some (File bytes).
Proof.
  intros Hp. unfold file_bytes. rewrite stat_plain by done. destruct (files !! path) as [[b| | |]|]; intros H; by simplify_eq.
Qed.

Lemma prepare_artifact_Ok root verified g path rel files g' files' :
  plain files → prepare_artifact sha256 utf8_encode utf8_decode cwd root verified g path rel files = (Ok g', files') →
  (files' = files ∨ only_file path files files') ∧ artifacts g' = artifacts g ∧
  (proofSummary g' = proofSummary g ∨
   rel = OCR_EXECUTION_PROOF_ARTIFACT ∧ files' = files ∧ ∃ summary, proofSummary g' = Some summary ∧ proof_of root files = Ok summary).
Proof.
  intros Hp. unfold prepare_artifact. destruct (String.eqb_spec rel OCR_EXECUTION_PROOF_ARTIFACT) as [->|].
  { intros H. steps. simplify_eq. cbn. split_and!; [by left|done|]. right. eauto. }
  destruct (String.eqb rel _); intros H; steps; cbn.
  - split_and!; [by left|done|by left].
  - split_and!; [|done|by left]. unfold sanitizeTextArtifact in *. destruct (existsb _ _); [|by steps; left]. right.
    match goal with H : andThen _ _ _ = _ |- _ =>
      exact (rewritten_file path (λ bytes, utf8_encode (sanitized_text path (utf8_decode bytes))) _ _ _ Hp H) end.
Qed.

Lemma scrubbed_archive path files u files' :
  plain files → sanitizeAcceptanceArchive scrub_archive path files = (Ok u, files') →
  files' = files ∨ only_file path files files' ∧ Posix.ends_with ".zip" (lower path) = true.
Proof.
  intros Hp. unfold sanitizeAcceptanceArchive. destruct (Posix.ends_with _ _) eqn:E; intros H; [|by steps; left]. right. split; [|done].
  destruct (readFile path files) as [[bytes|e] files1] eqn:Er; [|unfold andThen in H; by rewrite Er in H].
  unfold andThen in H at 1. rewrite Er in H. destruct (scrub_archive path bytes) as [scrubbed|e] eqn:Es.
  - apply (rewritten_file path (λ _, scrubbed) files u files' Hp). unfold andThen. rewrite Er. unfold andThen, lift in H. done.
  - unfold andThen, lift in H. done.
Qed.

Lemma proof_is_no_archive root : Posix.ends_with ".zip" (lower (proof_path root)) = false.
Proof. destruct (proof_path_json root) as [x ->]. rewrite lower_app, ends_with_app by (vm_compute; lia). vm_compute. reflexivity. Qed.

(** Recording an artifact touches its file only, and says what is in it. *)
Lemma record_one_Ok root verified g a files g' files' :
  plain files → record_one root verified g a files = (Ok g', files') →
  only_file (path_of_input a) files files' ∧
  (∃ r, artifacts g' = artifacts g ++ [r] ∧ describes root files' a r) ∧
  (proofSummary g' = proofSummary g ∨
   path_of_input a = proof_path root ∧ files' !! proof_path root = files !! proof_path root ∧
   ∃ summary, proofSummary g' = Some summary ∧ proof_of root files = Ok summary).
Proof.
  intros Hp. unfold record_artifact. cbv zeta. intros H. fold (path_of_input a) in *.
  apply andThen_Ok in H as (rel & f0 & [Hrel ->]%lift_Ok & H). apply andThen_Ok in H as (g1 & f1 & Hg1 & H).
  apply (prepare_artifact_Ok _ _ _ _ _ _ _ _ Hp) in Hg1 as (Hf1 & Ha1 & Hs1).
  assert (Hp1 : plain f1) by (destruct Hf1 as [->|(? & _)]; done).
  apply andThen_Ok in H as (b1 & f1' & [-> Hb1]%file_bytes_Ok & H); [|done]. apply andThen_Ok in H as (u & f2 & Hf2 & H).
  assert (Hf2' : f2 = f1 ∨ only_file (path_of_input a) f1 f2 ∧ Posix.ends_with ".zip" (lower (path_of_input a)) = true).
  { destruct (_ || _) in Hf2; [by eapply scrubbed_archive|]. steps. by left. }
  assert (Hp2 : plain f2) by (destruct Hf2' as [->|((? & _) & _)]; done).
  apply andThen_Ok in H as (bytes & f2' & [-> Hb]%file_bytes_Ok & H); [|done]. cbv zeta in H. steps. cbn [artifacts proofSummary].
  assert (H01 : only_file (path_of_input a) files f1) by (destruct Hf1 as [->|?]; [by eapply only_file_refl|done]).
  split_and!.
  - destruct Hf2' as [->|[H12 _]]; [done|]. by eapply only_file_trans.
  - rewrite Ha1. eexists. split; [done|]. split_and!; [done|done|]. exists bytes. done.
  - destruct Hs1 as [->|(-> & -> & summary & Hsum & Hread)]; [by left|right].
    pose proof (proof_input _ _ Hrel) as Hpath. fold (path_of_input a) in Hpath. split_and!; [done| |by exists summary].
    destruct Hf2' as [->|[_ Hzip]]; [done|]. rewrite Hpath, proof_is_no_archive in Hzip. done.
Qed.

Lemma only_file_Directory p q files files' : only_file p files files' → files !! q = Some Directory → files' !! q = Some Directory.
Proof. intros (_ & [b Hb] & _ & Hother) Hq. rewrite Hother; [done|]. congruence. Qed.

Lemma record_all_Ok root verified inputs : ∀ g files g' files',
  plain files → NoDup (map path_of_input inputs) → record_all root verified g inputs files = (Ok g', files') →
  plain files' ∧ (∀ q, q ∉ map path_of_input inputs → files' !! q = files !! q) ∧
  (∀ q, files !! q = Some Directory → files' !! q = Some Directory) ∧
  (∃ rs, artifacts g' = artifacts g ++ rs ∧ Forall2 (describes root files') inputs rs) ∧
  (proofSummary g' = proofSummary g ∨
   proof_path root ∈ map path_of_input inputs ∧ ∃ summary, proofSummary g' = Some summary ∧ proof_of root files' = Ok summary).
Proof.
  induction inputs as [|a inputs IH]; intros g files g' files' Hp Hnd H; cbn [record_artifacts map] in *.
  { steps. split_and!; [done|done|done|exists []; by rewrite app_nil_r|by left]. }
  apply NoDup_cons in Hnd as [Ha Hnd]. apply andThen_Ok in H as (g1 & f1 & H1 & H).
  apply record_one_Ok in H1 as (H01 & (r & Hr & Hdesc) & Hsum1); [|done]. pose proof H01 as (Hp1 & _ & _ & Hother).
  destruct (IH _ _ _ _ Hp1 Hnd H) as (Hp' & Hsame & Hdir & (rs & Hrs & Hall) & Hsum). split_and!.
  - done.
  - intros q Hq. apply not_elem_of_cons in Hq as [Hq1 Hq2]. rewrite Hsame by done. by apply Hother.
  - intros q Hq. apply Hdir. by eapply only_file_Directory.
  - exists (r :: rs). split; [by rewrite Hrs, Hr, <-app_assoc|]. apply Forall2_cons. split; [|done].
    destruct Hdesc as (He & Hk & bytes & Hb & Hd). split_and!; [done|done|]. exists bytes. by rewrite Hsame.
  - destruct Hsum as [Hsum|[Hin Hsum]]; [|right; split; [apply elem_of_cons; by right|done]].
    destruct Hsum1 as [Hs1|(Hpath & Hbytes & summary & Hs1 & Hread)]; [left; congruence|right].
    split; [apply elem_of_cons; by left|]. exists summary. split; [congruence|]. rewrite <-Hread. symmetry. apply read_proof_same.
    + pose proof (read_proof_Directory _ _ _ Hread) as Hd. rewrite Hd. symmetry. apply Hdir. by eapply only_file_Directory.
    + rewrite Hsame by by rewrite <-Hpath. by rewrite Hbytes.
Qed.

Lemma find_listed (list : list AcceptanceArtifact) name r :
  List.find (λ artifact, String.eqb (artifact_path artifact) name) list = Some r → r ∈ list ∧ artifact_path r = name.
Proof. intros [Hin He]%find_some. split; [by apply list_elem_of_In|by apply String.eqb_eq]. Qed.

Lemma bound_Ok list name read claimed :
  unbound list name read (Obj claimed) = false →
  ∃ r summary, r ∈ list ∧ artifact_path r = name ∧ read = Some summary ∧ same_json summary claimed = true ∧
    strict_eqb (js_Z (artifact_bytes r)) (get claimed "bytes") = true ∧ get claimed "sha256" = Str (artifact_sha256 r).
Proof.
  unfold unbound. destruct (List.find _ _) as [r|] eqn:Hf; [|done]. destruct read as [summary|]; [|done]. apply find_listed in Hf as [Hin Hr].
  rewrite !orb_false_iff, !negb_false_iff. intros [[Hj Hb] Hs]. unfold differs in Hb. apply negb_false_iff in Hb. apply is_str_spec in Hs.
  exists r, summary. done.
Qed.

(** C19: A manifest that was written describes the files it was written beside: when
    no artifact is listed twice, none is the manifest itself and none is a link,
    the manifest's entries are the listed artifacts in order, each inside the
    root, with the length and the SHA-256 of the bytes the file now has, after
    its redaction; files that are not listed keep their bytes, and a claimed
    execution proof is the one that can be read from the root, listed with its
    own bytes and digest. *)
Theorem manifest_describes_its_files root input files path files' :
  plain files → NoDup (map path_of_input (input_artifacts input)) →
  resolve cwd [root; "acceptance-manifest.json"] ∉ map path_of_input (input_artifacts input) →
  writeAcceptanceManifest sha256 utf8_encode utf8_decode scrub_archive cwd root input files = (Ok path, files') →
  ∃ rs evidence,
    path = resolve cwd [root; "acceptance-manifest.json"] ∧
    files' !! path = Some (File (utf8_encode (json_file (Obj (manifest_of input rs evidence))))) ∧
    Forall2 (describes root files') (input_artifacts input) rs ∧
    (∀ q, q ∉ map path_of_input (input_artifacts input) → q ≠ path → q ≠ resolve cwd [root] → files' !! q = files !! q) ∧
    (∀ r claimed, evidence = Some r → get r "ocrExecutionProof" = Obj claimed →
       ∃ listed summary, listed ∈ rs ∧ artifact_path listed = OCR_EXECUTION_PROOF_ARTIFACT ∧
         proof_of root files' = Ok summary ∧ JSON_stringify (Obj summary) = JSON_stringify (Obj claimed) ∧
         strict_eqb (js_Z (artifact_bytes listed)) (get claimed "bytes") = true ∧ get claimed "sha256" = Str (artifact_sha256 listed)).
Proof.
  intros Hp Hnd Hm H. unfold writeAcceptanceManifest in H. cbv zeta in H.
  apply andThen_Ok in H as (u & f0 & Hmk & H). apply andThen_Ok in H as (g & f1 & Hg & H).
  apply andThen_Ok in H as (evidence & f2 & [Hev ->]%lift_Ok & H). apply andThen_Ok in H as (u' & f3 & Hw & H). steps.
  set (path := resolve cwd [root; "acceptance-manifest.json"]) in *.
  assert (H0 : plain f0 ∧ ∀ q, q ≠ resolve cwd [root] → f0 !! q = files !! q).
  { unfold mkdir in Hmk. rewrite stat_plain in Hmk by done. destruct (files !! resolve cwd [root]) as [[b| | |]|] eqn:Er; simplify_eq; [done|].
    split; [|intros q Hq; by rewrite lookup_insert_ne]. intros q t.
    destruct (decide (resolve cwd [root] = q)) as [<-|Hq]; [by rewrite lookup_insert_eq|]. rewrite lookup_insert_ne by done. apply Hp. }
  destruct H0 as [Hp0 Hsame0]. apply record_all_Ok in Hg as (Hp1 & Hsame1 & Hdir & (rs & Hrs & Hall) & Hsum); [|done|done].
  cbn [artifacts proofSummary app] in *. unfold writeFile in Hw. rewrite stat_plain, follow_plain in Hw by done.
  assert (Hf3 : f3 = <[path := File (utf8_encode (json_file (Obj (manifest_of input (artifacts g) evidence))))]> f1 ∧ f1 !! path ≠ Some Directory).
  { destruct (f1 !! path) as [[b| | |]|] eqn:Ep; by simplify_eq. }
  destruct Hf3 as [-> Hnd1]. rewrite Hrs. exists rs, evidence.
  assert (Hkeep : ∀ q, q ≠ path → <[path := File (utf8_encode (json_file (Obj (manifest_of input rs evidence))))]> f1 !! q = f1 !! q)
    by (intros q Hq; by rewrite lookup_insert_ne).
  split_and!; [done|by rewrite lookup_insert_eq| | |].
  - rewrite Forall2_lookup in Hall |- *. intros i. specialize (Hall i).
    destruct (input_artifacts input !! i) as [a|] eqn:Ea; [|by inversion Hall; constructor].
    inversion Hall as [x y (He & Hk & bytes & Hb & Hd) Hx Hy|]; subst. constructor. split_and!; [done|done|]. exists bytes. split; [|done].
    rewrite Hkeep; [done|]. intros <-. apply Hm. apply list_elem_of_fmap. exists a. split; [done|]. by eapply list_elem_of_lookup_2.
  - intros q Hq Hqp Hqr. rewrite Hkeep by done. rewrite Hsame1 by done. by apply Hsame0.
  - intros r claimed -> Hc. unfold bind_evidence in Hev. destruct (sanitizeAcceptanceEvidence _) as [e|]; [|done]. cbv zeta in Hev.
    apply bind_Ok in Hev as (? & _ & Hev). apply bind_Ok in Hev as (? & Hb%guard_Ok & Hev). do 3 apply bind_Ok in Hev as (? & _ & Hev).
    apply Ok_inj in Hev as ->. rewrite Hc in Hb. cbn [truthy andb] in Hb. apply bound_Ok in Hb as (listed & summary & Hin & Hl & Hs & Hj & Hbytes & Hsha).
    exists listed, summary. unfold same_json in Hj. apply bool_decide_eq_true in Hj. rewrite Hrs in Hin. split_and!; try done.
    destruct Hsum as [Hn|(Hlisted & summary' & Hs' & Hread)]; [congruence|]. assert (summary' = summary) as -> by congruence.
    rewrite <-Hread. symmetry. apply read_proof_same; symmetry; apply Hkeep.
    + intros Heq. apply Hnd1. rewrite <-Heq. by eapply read_proof_Directory.
    + intros Heq. apply Hm. by rewrite <-Heq.
Qed.
End facts.

(** ** Where a run works *)

Lemma id_char_no_slash s : all_chars id_char s = true → index_of "/" s = None.
Proof.
  induction s as [|c s IH]; [done|]. intros [Hc Hs]%andb_true_iff. apply index_of_cons. split; [|by apply IH].
  intros <-. vm_compute in Hc. discriminate Hc.
Qed.

Lemma run_id_good s : RUN_ID_PATTERN s = true → good_name s.
Proof.
  destruct s as [|c s]; [done|]. unfold RUN_ID_PATTERN. rewrite !andb_true_iff. intros [[Hc _] Hs].
  assert (Hdot : c ≠ "."%char) by (intros ->; vm_compute in Hc; discriminate Hc).
  assert (Hslash : c ≠ "/"%char) by (intros ->; vm_compute in Hc; discriminate Hc).
  split_and!; [split; [done|]| |]; [|by intros [= -> ->]|by intros [= -> ->]].
  apply index_of_cons. split; [by intros <-|]. by apply id_char_no_slash.
Qed.

(** A run works in the directory of its project and its own id, wherever the
    environment says the artifacts go. *)
Lemma run_has_its_own_root cwd environment name workspaceRoot run :
  starts_with "/" cwd = true → createAcceptanceRun cwd environment name workspaceRoot = Ok run →
  RUN_ID_PATTERN (runId run) = true ∧ project run = name ∧
  artifactRoot run = resolve cwd [resolve cwd [workspaceRoot; "output"; "playwright"; name]; runId run].
Proof.
  intros Hcwd H. unfold createAcceptanceRun in H. apply bind_Ok in H as (? & _ & H). apply bind_Ok in H as (id & _ & H).
  apply bind_Ok in H as (? & Hid%guard_Ok%negb_false_iff & H). apply bind_Ok in H as (video & _ & H). cbv zeta in H.
  apply bind_Ok in H as (? & Hroot%guard_Ok & H). apply Ok_inj in H as <-. cbn [runId project artifactRoot]. split_and!; [done|done|].
  rewrite !orb_false_iff in Hroot. destruct Hroot as [[[Heq%negb_false_iff%String.eqb_eq _] _] _].
  destruct (resolve_absolute cwd [workspaceRoot; "output"; "playwright"; name] Hcwd) as (a & Ha & Ea). rewrite Ea in *.
  destruct (resolve_absolute cwd [match setting environment "E2E_ARTIFACT_ROOT" with Some root => root | None => resolve cwd [absolute a; id] end] Hcwd)
    as (b & Hb & Eb). rewrite Eb in *. pose proof (run_id_good id Hid) as Hgood. rewrite resolve_below by done. f_equal. by eapply relative_name.
Qed.

(** *** A run with a log and a proof *)

Definition sample_store : store :=
  list_to_map [("/run", Directory); ("/run/app.log", File (bytes_of "token=abc"));
    ("/run/ocr-device-proof-v1.json", File (bytes_of (default "" (JSON_stringify (sample_proof "zh-v5" Null)))))].

Definition sample_claim : fields :=
  match read_proof (λ _, sample_digest) bytes_of text_of "/" "run" sample_store with Ok summary => summary | Err _ => [] end.

Definition sample_input : AcceptanceManifestInput :=
  {| input_project := "capture-workbench"; input_runId := "run"; input_status := "completed"; input_recordVideo := false;
     input_artifacts :=
       [{| input_path := "run/app.log"; input_kind := "log"; expectedIdentity := None |};
        {| input_path := "run/ocr-device-proof-v1.json"; input_kind := "log"; expectedIdentity := None |}];
     input_errors := []; input_consoleErrors := []; input_pageErrors := []; input_cleanup := [];
     input_fixture := None; verifiedOcrExecutionFailure := None;
     input_evidence := Obj [("ocrExecutionProof", Obj sample_claim)] |}.

Definition sample_written : accepted string * store :=
  writeAcceptanceManifest (λ _, sample_digest) bytes_of text_of (λ _, Ok) "/" "run" sample_input sample_store.

Lemma sample_store_plain : plain sample_store.
Proof.
  intros p t H. unfold sample_store in H. apply elem_of_list_to_map_2 in H. rewrite !elem_of_cons, elem_of_nil in H. naive_solver.
Qed.

Lemma manifest_describes_its_files_witness :
  ∃ rs, Forall2 (describes (λ _, sample_digest) "/" "run" sample_written.2) (input_artifacts sample_input) rs ∧
    sample_written.2 !! "/run/app.log" = Some (File (bytes_of "token=<redacted>")) ∧
    read_proof (λ _, sample_digest) bytes_of text_of "/" "run" sample_written.2 = Ok sample_claim.
Proof.
  assert (Hw : sample_written = (Ok "/run/acceptance-manifest.json", sample_written.2)) by (vm_compute; reflexivity).
  destruct (manifest_describes_its_files (λ _, sample_digest) bytes_of text_of (λ _, Ok) "/" eq_refl "run" sample_input sample_store
    "/run/acceptance-manifest.json" sample_written.2 sample_store_plain) as (rs & evidence & _ & _ & Hall & _ & _); [| |exact Hw|].
  - apply (bool_decide_unpack _). vm_compute. exact I.
  - apply (bool_decide_unpack _). vm_compute. exact I.
  - exists rs. split_and!; [exact Hall|vm_compute; reflexivity|vm_compute; reflexivity].
Defined.
