(* ===== verification/CheckpointJournal.v ===== *)
(** * The checkpoint journal of an acceptance run

    [src/tools/acceptance-checkpoint-journal.ts]: the journal in which a run
    notes its five checkpoints, the writer that extends it, and the terminal
    record that judges a run by its journal, its manifest and its cleanup.

    The files are those of [AcceptanceManifest]; [atomic] writes beside the
    file and renames, so that a reader finds the old text or the new one.
    Failures of the file system itself are not modelled. *)
From stdpp Require Import gmap strings.
From S2P Require Import Prelude JsString JsNum JsValue Json JsCoerce Stringify RuntimeErrors Posix AcceptanceText AcceptanceProof AcceptanceEvidence AcceptanceManifest.

Definition STAGES : list string := ["launch"; "cdp"; "runtime"; "ocr_compute"; "ocr_semantic"].
Definition IDS : list string := ["desktop-process"; "initial-attach"; "runtime-ready"; "compute-preflight"; "ocr-result"].
Definition FAILURE : list (string * string) :=
  [("launch", "launch_failed"); ("cdp", "cdp_failed"); ("runtime", "runtime_failed"); ("ocr_compute", "ocr_gpu_failed");
   ("ocr_semantic", "ocr_semantic_failed")].

(** [/^[A-Za-z0-9][A-Za-z0-9._-]{0,63}$/u] *)
Definition SAFE (s : string) : bool := RUN_ID_PATTERN s.

(** The state is kept as the value it was read as: the validation lets a list
    of one text pass for that text. *)
Record AcceptanceCheckpointEntry := { seq : Z; stage : string; checkpointId : string; state : js; code : string }.

Record AcceptanceCheckpointJournalState := {
  project : string; runId : string; sequence : Z; entries : list AcceptanceCheckpointEntry; active : list (string * string) }.

Record AcceptanceCheckpointJournalRequest := { eventRoot : string; request_project : string; request_runId : string }.

(** [new AcceptanceCheckpointJournalError(code)] by its code. *)
Abbreviation journaled := (result string).

Definition requestOk (r : AcceptanceCheckpointJournalRequest) : journaled unit :=
  if negb (SAFE (request_project r)) || negb (SAFE (request_runId r)) then Err "invalid_request" else Ok tt.

(** [pair(index)]; its members are undefined past the last stage. *)
Definition pair (index : nat) : option (string * string) := zip STAGES IDS !! index.

(** [STAGES.some((s, i) => s === stage && IDS[i] === checkpointId)] *)
Definition is_checkpoint (stage checkpointId : string) : bool :=
  existsb (λ p : string * string, String.eqb p.1 stage && String.eqb p.2 checkpointId) (zip STAGES IDS).

(** ** Values *)

Definition entry_json (e : AcceptanceCheckpointEntry) : js :=
  Obj [("seq", js_Z (seq e)); ("stage", Str (stage e)); ("checkpointId", Str (checkpointId e)); ("state", state e);
    ("code", Str (code e))].

Definition pair_json (p : string * string) : js := Obj [("stage", Str p.1); ("checkpointId", Str p.2)].

Definition state_json (s : AcceptanceCheckpointJournalState) : js :=
  Obj [("schemaVersion", js_Z 1); ("kind", Str "checkpoint-journal"); ("project", Str (project s)); ("runId", Str (runId s));
    ("sequence", js_Z (sequence s)); ("entries", Arr (map entry_json (entries s))); ("active", Arr (map pair_json (active s)))].

Definition initial (r : AcceptanceCheckpointJournalRequest) : AcceptanceCheckpointJournalState :=
  {| project := request_project r; runId := request_runId r; sequence := 0; entries := []; active := [] |}.

Definition exactKeys (value : fields) (names : list string) : bool :=
  (length (keys value) =? length names)%nat && forallb (has_key value) names.

(** ** Validation *)

(** What the loop over the entries keeps: the completed checkpoints, the active
    one, and whether one failed. *)
Record scan_state := { completed : nat; current : option (string * string); failed : bool }.

(** One entry; [None] is [return false].  [String(raw.state)] may throw, and
    takes a list of one text for that text. *)
Definition valid_entry (index : nat) (k : scan_state) (raw : js) : outcome (option scan_state) :=
  match raw with
  | Obj raw =>
      match get raw "stage", get raw "checkpointId" with
      | Str stage, Str checkpointId =>
          if negb (exactKeys raw ["seq"; "stage"; "checkpointId"; "state"; "code"]) ||
             negb (strict_eqb (get raw "seq") (js_Z (Z.of_nat (S index)))) || negb (is_checkpoint stage checkpointId)
          then Ok None
          else
            state ← to_string (get raw "state");
            if negb (includes ["started"; "completed"; "failed"] state) then Ok None
            else if is_str (get raw "state") "started" then
              Ok (match pair (completed k) with
                  | Some next =>
                      if failed k || bool_decide (is_Some (current k)) || negb (String.eqb stage next.1) ||
                         negb (String.eqb checkpointId next.2) || negb (is_str (get raw "code") "checkpoint_started")
                      then None
                      else Some {| completed := completed k; current := Some (stage, checkpointId); failed := failed k |}
                  | None => None
                  end)
            else if negb (bool_decide (current k = Some (stage, checkpointId))) then Ok None
            else if is_str (get raw "state") "completed" then
              Ok (if negb (is_str (get raw "code") "checkpoint_completed") then None
                  else Some {| completed := S (completed k); current := None; failed := failed k |})
            else
              Ok (if negb (is_str (get raw "code") (default "" (table_find FAILURE stage))) &&
                     negb (is_str (get raw "code") "runner_interrupted") then None
                  else Some {| completed := completed k; current := None; failed := true |})
      | _, _ => Ok None
      end
  | _ => Ok None
  end.

Fixpoint valid_entries (index : nat) (k : scan_state) (raws : list js) : outcome (option scan_state) :=
  match raws with
  | [] => Ok (Some k)
  | raw :: rest =>
      k' ← valid_entry index k raw;
      match k' with Some k' => valid_entries (S index) k' rest | None => Ok None end
  end.

(** The saved active checkpoint is the one the entries leave active. *)
Definition active_matches (actives : list js) (k : scan_state) : bool :=
  match actives with
  | [] => bool_decide (current k = None)
  | saved :: _ =>
      match saved, current k with
      | Obj saved, Some (stage, checkpointId) =>
          exactKeys saved ["stage"; "checkpointId"] && is_str (get saved "stage") stage &&
          is_str (get saved "checkpointId") checkpointId
      | _, _ => false
      end
  end.

Definition validState (value : js) (r : AcceptanceCheckpointJournalRequest) : outcome bool :=
  match value with
  | Obj v =>
      match get v "entries", get v "active" with
      | Arr raws, Arr actives =>
          if exactKeys v ["schemaVersion"; "kind"; "project"; "runId"; "sequence"; "entries"; "active"] &&
             strict_eqb (get v "schemaVersion") (js_Z 1) && is_str (get v "kind") "checkpoint-journal" &&
             is_str (get v "project") (request_project r) && is_str (get v "runId") (request_runId r) &&
             isSafeInteger (get v "sequence") && (0 <=? number_of (get v "sequence")) &&
             strict_eqb (get v "sequence") (js_Z (Z.of_nat (length raws))) &&
             (length raws <=? length STAGES * 2 + 1)%nat && (length actives <=? 1)%nat
          then
            k ← valid_entries 0 {| completed := 0; current := None; failed := false |} raws;
            Ok (match k with Some k => active_matches actives k | None => false end)
          else Ok false
      | _, _ => Ok false
      end
  | _ => Ok false
  end.

(** ** Transitions *)

Inductive transition_kind : Type := begin | complete | fail.

Definition append (s : AcceptanceCheckpointJournalState) (stage checkpointId state code : string) (active : list (string * string))
  : AcceptanceCheckpointJournalState :=
  {| project := project s; runId := runId s; sequence := sequence s + 1;
     entries := entries s ++ [{| seq := sequence s + 1; stage := stage; checkpointId := checkpointId; state := Str state; code := code |}];
     active := active |}.

(** The state that [transition] asks [save] to keep. *)
Definition next_state (s : AcceptanceCheckpointJournalState) (kind : transition_kind) (stage' checkpointId' : string)
    (code' : option string) : journaled AcceptanceCheckpointJournalState :=
  let invalid := Err "invalid_transition" in
  let activePair := last (active s) in
  let next := pair (length (List.filter (λ e, is_str (state e) "completed") (entries s))) in
  if negb (is_checkpoint stage' checkpointId') then invalid
  else match kind with
       | begin =>
           if bool_decide (is_Some activePair) || existsb (λ e, String.eqb (checkpointId e) checkpointId') (entries s) ||
              negb (bool_decide (next = Some (stage', checkpointId')))
           then invalid
           else Ok (append s stage' checkpointId' "started" "checkpoint_started" [(stage', checkpointId')])
       | _ =>
           if negb (bool_decide (activePair = Some (stage', checkpointId'))) then invalid
           else match kind with
                | fail =>
                    let failure := default "" (table_find FAILURE stage') in
                    match code' with
                    | Some c =>
                        if negb (String.eqb c failure) && negb (String.eqb c "runner_interrupted") then invalid
                        else Ok (append s stage' checkpointId' "failed" c [])
                    | None => Ok (append s stage' checkpointId' "failed" failure [])
                    end
                | _ => Ok (append s stage' checkpointId' "completed" "checkpoint_completed" [])
                end
       end.

(** [save]: the state is checked before it is written. *)
Definition save (r : AcceptanceCheckpointJournalRequest) (next : AcceptanceCheckpointJournalState)
  : journaled AcceptanceCheckpointJournalState :=
  match validState (state_json next) r with
  | Ok true => Ok next
  | Ok false => Err "invalid_transition"
  | Err _ => Err "Cannot convert object to primitive value"
  end.

Definition transition (r : AcceptanceCheckpointJournalRequest) (s : AcceptanceCheckpointJournalState) (kind : transition_kind)
    (stage checkpointId : string) (code : option string) : journaled AcceptanceCheckpointJournalState :=
  next ← next_state s kind stage checkpointId code; save r next.

(** [failActive]: whether there was an active checkpoint. *)
Definition failActive (r : AcceptanceCheckpointJournalRequest) (s : AcceptanceCheckpointJournalState) (code : option string)
  : journaled (option AcceptanceCheckpointJournalState) :=
  match last (active s) with
  | None => Ok None
  | Some (stage, checkpointId) => Some <$> transition r s fail stage checkpointId code
  end.

(** ** Files *)

(** The state that a valid value is. *)
Definition text_at (r : fields) (name : string) : string := match get r name with Str s => s | _ => "" end.

Definition entry_of (value : js) : AcceptanceCheckpointEntry :=
  match value with
  | Obj e => {| seq := number_of (get e "seq"); stage := text_at e "stage"; checkpointId := text_at e "checkpointId";
                state := get e "state"; code := text_at e "code" |}
  | _ => {| seq := 0; stage := ""; checkpointId := ""; state := Undefined; code := "" |}
  end.

Definition pair_of (value : js) : string * string :=
  match value with Obj p => (text_at p "stage", text_at p "checkpointId") | _ => ("", "") end.

Definition state_of (value : js) : AcceptanceCheckpointJournalState :=
  match value with
  | Obj v => {| project := text_at v "project"; runId := text_at v "runId"; sequence := number_of (get v "sequence");
                entries := map entry_of (pages_of (get v "entries")); active := map pair_of (pages_of (get v "active")) |}
  | _ => {| project := ""; runId := ""; sequence := 0; entries := []; active := [] |}
  end.

Section files.
Variables (utf8_encode : string → list Z) (utf8_decode : list Z → string).
Variable cwd : string.

Definition journal_path (root : string) : string := path_join [resolve cwd [root]; "private"; "checkpoint-journal-v1.json"].
Definition terminal_path (root : string) : string := path_join [resolve cwd [root]; "public"; "acceptance-terminal-v1.json"].

(** The text of a JSON value, and a line end. *)
Definition json_line (value : js) : string := default "undefined" (JSON_stringify value) +:+ String "010" "".

(** A rename replaces a file or a link, not a directory. *)
Definition put_file (path : string) (bytes : list Z) : io unit := λ files,
  match files !! path with
  | Some Directory => (throw ("EISDIR: illegal operation on a directory, rename '" +:+ path +:+ "'"), files)
  | _ => (Ok tt, <[path := File bytes]> files)
  end.

Definition atomic (path : string) (value : js) : io unit :=
  mkdir (dirname path);;
  put_file path (utf8_encode (json_line value)).

(** [readFile]: absent, not readable, or the bytes. *)
Definition read_text (files : store) (path : string) : option (option string) :=
  match stat files path with
  | Some (File bytes) => Some (Some (utf8_decode bytes))
  | Some Directory => Some None
  | _ => None
  end.

Definition openAcceptanceCheckpointWriter (r : AcceptanceCheckpointJournalRequest) : io AcceptanceCheckpointJournalState :=
  lift (requestOk r);;
  files <- get_files;
  let path := journal_path (eventRoot r) in
  value <- (match read_text files path with
            | Some (Some text) => lift (match JSON_parse text with Some value => Ok value | None => Err "journal_read_failed" end)
            | Some None => lift (Err "journal_read_failed")
            | None => atomic path (state_json (initial r));; ret (state_json (initial r))
            end);
  match validState value r with
  | Ok true => ret (state_of value)
  | Ok false => lift (Err "invalid_journal")
  | Err _ => lift (Err "Cannot convert object to primitive value")
  end.

(** One call of the writer: the checked state is written and becomes current. *)
Definition write_transition (r : AcceptanceCheckpointJournalRequest) (s : AcceptanceCheckpointJournalState) (kind : transition_kind)
    (stage checkpointId : string) (code : option string) : io AcceptanceCheckpointJournalState :=
  next <- lift (transition r s kind stage checkpointId code);
  atomic (journal_path (eventRoot r)) (state_json next);;
  ret next.

Inductive AcceptanceJournalStatus : Type := absent | valid_complete | valid_active | invalid.

Record AcceptanceJournalObservation := { journal_status : AcceptanceJournalStatus; observed : option AcceptanceCheckpointJournalState }.

Definition readAcceptanceCheckpointJournal (r : AcceptanceCheckpointJournalRequest) (files : store)
  : journaled AcceptanceJournalObservation :=
  requestOk r ≫= λ _,
  let none status := {| journal_status := status; observed := None |} in
  Ok (match read_text files (journal_path (eventRoot r)) with
      | None => none absent
      | Some None => none invalid
      | Some (Some text) =>
          match JSON_parse text with
          | None => none invalid
          | Some value =>
              match validState value r with
              | Ok true =>
                  {| journal_status := match active (state_of value) with [] => valid_complete | _ => valid_active end;
                     observed := Some (state_of value) |}
              | _ => none invalid
              end
          end
      end).

(** ** The terminal record *)

Definition expected_entry (i : nat) (e : AcceptanceCheckpointEntry) : bool :=
  match pair (i / 2) with
  | Some expected =>
      String.eqb (stage e) expected.1 && String.eqb (checkpointId e) expected.2 &&
      is_str (state e) (if Nat.odd i then "completed" else "started") &&
      String.eqb (code e) (if Nat.odd i then "checkpoint_completed" else "checkpoint_started")
  | None => false
  end.

Definition hasMandatoryCheckpointCoverage (s : option AcceptanceCheckpointJournalState) : bool :=
  match s with
  | None => false
  | Some s =>
      bool_decide (active s = []) && (length (entries s) =? length STAGES * 2)%nat && forallb id (imap expected_entry (entries s))
  end.

Definition cleanupComplete (value : js) : bool :=
  match value with Obj r => negb (bool_decide (keys r = [])) && forallb (λ kv : string * js, is_true kv.2) r | _ => false end.

Inductive outcome_of_cleanup : Type := cleanup_completed | cleanup_failed | cleanup_not_applicable.

Record AcceptancePrimaryAcceptanceFailure := {
  failure_code : string; failure_stage : option string; failure_checkpointId : option string }.

Record AcceptanceTerminalInput := {
  request : AcceptanceCheckpointJournalRequest; child_status : Z; child_error : bool; journal : AcceptanceJournalObservation;
  manifest : AcceptanceManifestReadResult; outerScope : outcome_of_cleanup }.

Record derived := {
  primary : option AcceptancePrimaryAcceptanceFailure; producer_completed : bool; artifactCount : Z }.

Definition plain_failure (code : string) : AcceptancePrimaryAcceptanceFailure :=
  {| failure_code := code; failure_stage := None; failure_checkpointId := None |}.

Definition failed_entry (s : option AcceptanceCheckpointJournalState) : option AcceptanceCheckpointEntry :=
  match s with Some s => List.find (λ e, is_str (state e) "failed") (entries s) | None => None end.

Definition derive (input : AcceptanceTerminalInput) : derived :=
  let interrupted code stage checkpointId :=
    {| primary := Some {| failure_code := code; failure_stage := Some stage; failure_checkpointId := Some checkpointId |};
       producer_completed := false; artifactCount := 0 |} in
  match failed_entry (observed (journal input)), observed (journal input) ≫= (λ s, last (active s)) with
  | Some e, _ => interrupted (code e) (stage e) (checkpointId e)
  | None, Some active => interrupted "runner_interrupted" active.1 active.2
  | None, None =>
      let manifest := match manifest input with Valid manifest _ => Some manifest | MissingOrInvalid _ => None end in
      let member name := match manifest with Some m => get m name | None => Undefined end in
      let producerCleanup := cleanupComplete (member "cleanup") in
      let completed := is_str (member "status") "completed" in
      let result primary :=
        {| primary := primary; producer_completed := completed && producerCleanup;
           artifactCount := if completed then Z.of_nat (length (pages_of (member "artifacts"))) else 0 |} in
      match manifest with
      | None => result (Some (plain_failure "manifest_missing_or_invalid"))
      | Some _ =>
          if negb (match journal_status (journal input) with valid_complete => true | _ => false end) ||
             negb (hasMandatoryCheckpointCoverage (observed (journal input))) || negb (child_status input =? 0) ||
             child_error input || negb completed
          then result (Some (plain_failure "acceptance_failed"))
          else if negb producerCleanup || match outerScope input with cleanup_failed => true | _ => false end
          then result (Some (plain_failure "cleanup_failed"))
          else result None
      end
  end.

Definition status_name (status : AcceptanceJournalStatus) : string :=
  match status with absent => "absent" | valid_complete => "valid-complete" | valid_active => "valid-active" | invalid => "invalid" end.

Definition outcome_name (outcome : outcome_of_cleanup) : string :=
  match outcome with cleanup_completed => "completed" | cleanup_failed => "failed" | cleanup_not_applicable => "not-applicable" end.

Definition text_or_null (s : option string) : js := match s with Some s => Str s | None => Null end.

Definition source_digest (input : AcceptanceTerminalInput) : option string :=
  match manifest input with Valid _ sha => Some sha | MissingOrInvalid sha => sha end.

Definition cleanup_allowed (input : AcceptanceTerminalInput) : bool :=
  producer_completed (derive input) && match outerScope input with cleanup_failed => false | _ => true end.

Definition terminal_json (input : AcceptanceTerminalInput) : js :=
  let d := derive input in
  Obj [("schemaVersion", js_Z 1); ("kind", Str "acceptance-terminal"); ("project", Str (request_project (request input)));
    ("runId", Str (request_runId (request input))); ("checkpointJournalStatus", Str (status_name (journal_status (journal input))));
    ("checkpointSequence", Arr (match observed (journal input) with Some s => map entry_json (entries s) | None => [] end));
    ("primaryAcceptanceFailure", match primary d with
       | Some f => Obj [("code", Str (failure_code f)); ("stage", text_or_null (failure_stage f));
                        ("checkpointId", text_or_null (failure_checkpointId f))]
       | None => Null
       end);
    ("sourceManifestSha256", match source_digest input with Some s => if is_sha256_hex s then Str s else Null | None => Null end);
    ("artifactCount", js_Z (artifactCount d));
    ("cleanupOutcome", Obj [("producer", Str (if producer_completed d then "completed" else "failed"));
                            ("outerScope", Str (outcome_name (outerScope input)))]);
    ("phase1Verdict", Str (match primary d with Some _ => "fail" | None => "pass" end));
    ("artifactCleanup", Str (if cleanup_allowed input then "allowed" else "blocked"))].

Definition writeAcceptanceTerminal (input : AcceptanceTerminalInput) : io js :=
  lift (requestOk (request input));;
  let terminal := terminal_json input in
  let path := terminal_path (eventRoot (request input)) in
  files <- get_files;
  lift (match read_text files path with
        | Some (Some _) => Err "terminal_already_written"
        | Some None => Err "terminal_read_failed"
        | None => Ok tt
        end);;
  (λ files, match (mkdir (dirname path);;
                   let bytes := utf8_encode (json_line terminal) in
                   lift (if bool_decide ((JSON_parse (utf8_decode bytes) ≫= JSON_stringify) = JSON_stringify terminal) then Ok tt
                         else Err "terminal_publication_failed");;
                   put_file path bytes) files with
            | (Ok _, files') => (Ok terminal, files')
            | (Err _, files') => (Err "terminal_publication_failed", files')
            end).
End files.

(** ** The five checkpoints in order *)

(** Where a run stands: before the next checkpoint, in one, or failed in one
    with a code and a value that shows as a state. *)
Inductive progress : Type := Idle (k : nat) | Active (k : nat) | Failed (k : nat) (code : string) (shown : js).

Definition failure_of (k : nat) : string := default "" (table_find FAILURE (default "" (STAGES !! k))).

Definition well_formed (p : progress) : Prop :=
  match p with
  | Idle k => (k <= 5)%nat
  | Active k => (k < 5)%nat
  | Failed k code shown =>
      (k < 5)%nat ∧ (code = failure_of k ∨ code = "runner_interrupted") ∧
      ∃ t, to_string shown = Ok t ∧ t ∈ ["started"; "completed"; "failed"] ∧ shown ≠ Str "started" ∧ shown ≠ Str "completed"
  end.

Definition checkpoint (k : nat) : string * string := default ("", "") (pair k).

Definition entry (n k : nat) (state : js) (code : string) : AcceptanceCheckpointEntry :=
  {| seq := Z.of_nat (S n); stage := (checkpoint k).1; checkpointId := (checkpoint k).2; state := state; code := code |}.

Fixpoint done_entries (k : nat) : list AcceptanceCheckpointEntry :=
  match k with
  | O => []
  | S k' => done_entries k' ++ [entry (2 * k') k' (Str "started") "checkpoint_started";
                                entry (2 * k' + 1) k' (Str "completed") "checkpoint_completed"]
  end.

Definition entries_of (p : progress) : list AcceptanceCheckpointEntry :=
  match p with
  | Idle k => done_entries k
  | Active k => done_entries k ++ [entry (2 * k) k (Str "started") "checkpoint_started"]
  | Failed k code shown =>
      done_entries k ++ [entry (2 * k) k (Str "started") "checkpoint_started"; entry (2 * k + 1) k shown code]
  end.

Definition active_of (p : progress) : list (string * string) := match p with Active k => [checkpoint k] | _ => [] end.

(** The journal of a run that stands there. *)
Definition represent (r : AcceptanceCheckpointJournalRequest) (p : progress) : AcceptanceCheckpointJournalState :=
  {| project := request_project r; runId := request_runId r; sequence := Z.of_nat (length (entries_of p));
     entries := entries_of p; active := active_of p |}.

(** The specification of the writer. *)
Definition step (p : progress) (kind : transition_kind) (stage checkpointId : string) (code : option string) : option progress :=
  match p, kind with
  | Idle k, begin => if bool_decide (pair k = Some (stage, checkpointId)) then Some (Active k) else None
  | Active k, complete => if bool_decide (pair k = Some (stage, checkpointId)) then Some (Idle (S k)) else None
  | Active k, fail =>
      if bool_decide (pair k = Some (stage, checkpointId)) then
        match code with
        | None => Some (Failed k (failure_of k) (Str "failed"))
        | Some c => if String.eqb c (failure_of k) || String.eqb c "runner_interrupted" then Some (Failed k c (Str "failed")) else None
        end
      else None
  | _, _ => None
  end.

Definition scan_of (p : progress) : scan_state :=
  match p with
  | Idle k => {| completed := k; current := None; failed := false |}
  | Active k => {| completed := k; current := Some (checkpoint k); failed := false |}
  | Failed k _ _ => {| completed := k; current := None; failed := true |}
  end.

Lemma pair_checkpoint k : (k < 5)%nat → pair k = Some (checkpoint k).
Proof. intros H. do 5 (destruct k as [|k]; [done|]). lia. Qed.

Lemma pair_past k q : pair k = Some q → (k < 5)%nat ∧ q = checkpoint k.
Proof.
  intros H. assert (Hk : (k < 5)%nat) by (apply lookup_lt_Some in H; exact H). split; [done|]. rewrite pair_checkpoint in H by done. congruence.
Qed.

Lemma done_length k : length (done_entries k) = (2 * k)%nat.
Proof. induction k as [|k IH]; [done|]. cbn [done_entries]. rewrite length_app, IH. cbn. lia. Qed.

Lemma is_checkpoint_pair stage checkpointId : is_checkpoint stage checkpointId = true → ∃ i, (i < 5)%nat ∧ (stage, checkpointId) = checkpoint i.
Proof.
  unfold is_checkpoint. rewrite existsb_true. intros ([s i] & Hin & Heq). cbn in Heq. apply andb_true_iff in Heq as [->%String.eqb_eq ->%String.eqb_eq].
  apply list_elem_of_lookup in Hin as [i Hi]. change (pair i = Some (stage, checkpointId)) in Hi. apply pair_past in Hi as [? ?]. by exists i.
Qed.

(** One more entry is one more step. *)
Lemma valid_entry_step p raw k' :
  well_formed p → valid_entry (length (entries_of p)) (scan_of p) raw = Ok (Some k') →
  ∃ p', well_formed p' ∧ k' = scan_of p' ∧ entries_of p' = entries_of p ++ [entry_of raw].
Proof.
  intros Hp. unfold valid_entry. destruct raw as [| | | | | |raw]; try done.
  destruct (get raw "stage") as [| | | |stage| |] eqn:Es; try done. destruct (get raw "checkpointId") as [| | | |checkpointId| |] eqn:Ei; try done.
  destruct (_ || _) eqn:E1; [done|]. rewrite !orb_false_iff, !negb_false_iff in E1. destruct E1 as [[_ Hseq] _].
  assert (Hnum : number_of (get raw "seq") = Z.of_nat (S (length (entries_of p)))).
  { destruct (get raw "seq") as [| | |n| | |]; try done. cbn in Hseq. unfold number_of. by rewrite (num_eqb_to_int n _ _ Hseq (to_int_of_Z _)). }
  assert (Hentry : ∀ k, (stage, checkpointId) = checkpoint k → entry_of (Obj raw) =
    entry (length (entries_of p)) k (get raw "state") (text_at raw "code")).
  { intros k Hk. unfold entry_of, entry, text_at. by rewrite Es, Ei, Hnum, <-Hk. }
  intros H. apply bind_Ok in H as (t & Ht & H). destruct (negb _) eqn:Hin; [done|]. apply negb_false_iff, includes_spec in Hin.
  destruct (is_str (get raw "state") "started") eqn:Estart.
  - apply is_str_spec in Estart. destruct (pair (completed (scan_of p))) as [next|] eqn:En; [|done]. apply Ok_inj in H.
    destruct (_ || _) eqn:Eb in H; [done|]. apply (inj Some) in H as <-. rewrite !orb_false_iff, !negb_false_iff in Eb.
    destruct Eb as [[[[Hf Hc] ->%String.eqb_eq] ->%String.eqb_eq] Hcode%is_str_spec]. apply bool_decide_eq_false in Hc.
    apply pair_past in En as [Hk Hn]. destruct p as [k|k|k c shown]; cbn [scan_of completed current failed] in *; [|by destruct Hc|done].
    exists (Active k). split_and!; [done|cbn [scan_of]; rewrite <-Hn; by destruct next|]. cbn [entries_of]. rewrite (Hentry k) by (rewrite <-Hn; by destruct next).
    cbn [entries_of]. unfold text_at. by rewrite Hcode, Estart, done_length.
  - destruct (negb (bool_decide _)) eqn:Ec; [done|]. apply negb_false_iff, bool_decide_eq_true in Ec.
    destruct p as [k|k|k c shown]; cbn [scan_of completed current failed] in *; try done. injection Ec as Ec. rewrite (Hentry k) by done.
    unfold text_at. cbn [entries_of]. rewrite length_app, done_length. cbn [length]. cbn [well_formed] in Hp.
    destruct (is_str (get raw "state") "completed") eqn:Ecomp; apply Ok_inj in H.
    + destruct (negb _) eqn:Eb in H; [done|]. apply (inj Some) in H as <-. apply negb_false_iff, is_str_spec in Eb. apply is_str_spec in Ecomp.
      exists (Idle (S k)). split_and!; [cbn; lia|done|]. cbn [entries_of done_entries]. rewrite <-app_assoc. by rewrite Eb, Ecomp.
    + destruct (_ && _) eqn:Eb in H; [done|]. apply (inj Some) in H as <-.
      assert (Hcode : ∃ c, get raw "code" = Str c ∧ (c = failure_of k ∨ c = "runner_interrupted")).
      { apply andb_false_iff in Eb as [Eb|Eb]; apply negb_false_iff, is_str_spec in Eb; eexists; (split; [exact Eb|]); [left|by right].
        unfold failure_of. clear -Hp Ec. do 5 (destruct k as [|k]; [vm_compute in Ec; by injection Ec as <- _|]). lia. }
      destruct Hcode as (c & Hc & Hcs). rewrite Hc. exists (Failed k c (get raw "state")). split_and!; [|done|by rewrite <-app_assoc].
      cbn. split_and!; [done|done|]. exists t. split_and!; [done|exact Hin| |]; intros Heq; rewrite Heq in *; done.
Qed.

Lemma valid_entries_steps raws : ∀ p k',
  well_formed p → valid_entries (length (entries_of p)) (scan_of p) raws = Ok (Some k') →
  ∃ p', well_formed p' ∧ k' = scan_of p' ∧ entries_of p' = entries_of p ++ map entry_of raws.
Proof.
  induction raws as [|raw raws IH]; intros p k' Hp H; cbn [valid_entries map] in *.
  { apply Ok_inj, (inj Some) in H as <-. exists p. by rewrite app_nil_r. }
  apply bind_Ok in H as ([k1|] & H1 & H); [|done]. apply valid_entry_step in H1 as (p1 & Hp1 & -> & He1); [|done].
  assert (Hl : S (length (entries_of p)) = length (entries_of p1)) by (rewrite He1, length_app; cbn; lia).
  rewrite Hl in H. apply IH in H as (p' & Hp' & -> & He'); [|done]. exists p'. split_and!; [done|done|]. by rewrite He', He1, <-app_assoc.
Qed.

(** A valid journal is that of a run that stands somewhere. *)
Lemma valid_journal value r : validState value r = Ok true → ∃ p, well_formed p ∧ state_of value = represent r p.
Proof.
  unfold validState. destruct value as [| | | | | |v]; try done.
  destruct (get v "entries") as [| | | | |raws|] eqn:Ee; try done. destruct (get v "active") as [| | | | |actives|] eqn:Ea; try done.
  destruct (_ && _) eqn:E1; [|done]. rewrite !andb_true_iff in E1. destruct E1 as [[[[[[[[[_ _] _] Hproject%is_str_spec] Hrun%is_str_spec] _] _] Hseq] _] Hone%Nat.leb_le].
  intros H. apply bind_Ok in H as ([k|] & Hk & H); [|done]. apply Ok_inj in H.
  change {| completed := 0; current := None; failed := false |} with (scan_of (Idle 0)) in Hk.
  apply (valid_entries_steps raws (Idle 0)) in Hk as (p & Hp & -> & He); [|cbn; lia]. exists p. split; [done|].
  assert (Hnum : number_of (get v "sequence") = Z.of_nat (length raws)).
  { destruct (get v "sequence") as [| | |n| | |]; try done. cbn in Hseq. unfold number_of. by rewrite (num_eqb_to_int n _ _ Hseq (to_int_of_Z _)). }
  unfold state_of, represent, text_at. rewrite Hproject, Hrun, Hnum, Ee, Ea. cbn [pages_of]. cbn [entries_of done_entries app] in He. rewrite He, length_map. f_equal.
  destruct actives as [|saved [|? ?]]; cbn [active_matches length map] in *; [| |lia].
  - apply bool_decide_eq_true in H. by destruct p.
  - destruct saved as [| | | | | |saved]; try done. destruct p as [k|k|k c shown]; cbn [scan_of current active_of] in *; try done.
    destruct (checkpoint k) as [stage checkpointId]. rewrite !andb_true_iff in H. destruct H as [[_ Hs%is_str_spec] Hi%is_str_spec].
    unfold pair_of, text_at. by rewrite Hs, Hi.
Qed.

Lemma valid_entries_app raws raws' : ∀ index k,
  valid_entries index k (raws ++ raws') =
  (k' ← valid_entries index k raws; match k' with Some k' => valid_entries (index + length raws) k' raws' | None => Ok None end).
Proof.
  induction raws as [|raw raws IH]; intros index k; cbn [app valid_entries length]; [by rewrite Nat.add_0_r|].
  destruct (valid_entry index k raw) as [[k'|]|e]; [|done|done]. cbn [mbind result_bind]. rewrite IH.
  by rewrite Nat.add_succ_r.
Qed.

Lemma js_Z_eqb z : strict_eqb (js_Z z) (js_Z z) = true.
Proof. change (num_eqb (num_of_Z z) (num_of_Z z) = true). rewrite (num_eqb_int _ _ z z) by apply to_int_of_Z. by apply Z.eqb_eq. Qed.

(** The entry of a failure, whatever shows as its state. *)
Lemma failure_entry n k c shown :
  well_formed (Failed k c shown) →
  valid_entry n (scan_of (Active k)) (entry_json (entry n k shown c)) = Ok (Some (scan_of (Failed k c shown))).
Proof.
  intros (Hk & Hcode & t & Ht & Hin%includes_spec & Hns & Hnc).
  assert (Hcheck : is_checkpoint (checkpoint k).1 (checkpoint k).2 = true) by (do 5 (destruct k as [|k]; [reflexivity|]); lia).
  assert (Hfail : default "" (table_find FAILURE (checkpoint k).1) = failure_of k) by (do 5 (destruct k as [|k]; [reflexivity|]); lia).
  unfold valid_entry, entry_json, entry. cbn [seq stage checkpointId state code get String.eqb Ascii.eqb Bool.eqb scan_of completed current failed].
  rewrite js_Z_eqb, Hcheck, Ht, Hfail. change (exactKeys _ _) with true. cbn [negb orb mbind result_bind]. rewrite Hin.
  rewrite (proj2 (is_str_false shown "started") Hns), (proj2 (is_str_false shown "completed") Hnc). cbn [negb].
  rewrite bool_decide_true by (by destruct (checkpoint k)). cbn [negb].
  destruct Hcode as [->| ->]; cbn [is_str strict_eqb]; rewrite String.eqb_refl; cbn [negb andb]; [done|]. by rewrite andb_false_r.
Qed.

Lemma entries_scan p :
  well_formed p → valid_entries 0 (scan_of (Idle 0)) (map entry_json (entries_of p)) = Ok (Some (scan_of p)).
Proof.
  assert (Hactive : ∀ k, (k < 5)%nat →
    valid_entries 0 (scan_of (Idle 0)) (map entry_json (entries_of (Active k))) = Ok (Some (scan_of (Active k)))).
  { intros k Hk. do 5 (destruct k as [|k]; [vm_compute; reflexivity|]). lia. }
  destruct p as [k|k|k code shown]; intros H.
  - cbn [well_formed] in H. do 6 (destruct k as [|k]; [vm_compute; reflexivity|]). lia.
  - by apply Hactive.
  - pose proof H as (Hk & _).
    assert (He : entries_of (Failed k code shown) = entries_of (Active k) ++ [entry (2 * k + 1) k shown code])
      by (cbn [entries_of]; by rewrite <-app_assoc).
    rewrite He, map_app, valid_entries_app, (Hactive k Hk). cbn [mbind result_bind map valid_entries].
    rewrite length_map. cbn [entries_of]. rewrite length_app, done_length. cbn [length Nat.add].
    rewrite failure_entry by done. done.
Qed.

Lemma entries_length p : well_formed p → (length (entries_of p) <= 10)%nat.
Proof. destruct p as [k|k|k code shown]; cbn [well_formed entries_of]; rewrite ?length_app, done_length; cbn [length]; lia. Qed.

(** A run that stands somewhere has a valid journal. *)
Lemma represented_journal r p : well_formed p → validState (state_json (represent r p)) r = Ok true.
Proof.
  intros Hp. pose proof (entries_length p Hp) as Hl. destruct (isSafeInteger_Z (Z.of_nat (length (entries_of p)))) as [Hs Hn]; [unfold MAX_SAFE_INTEGER; lia|].
  unfold validState, state_json, represent. cbn [project runId sequence entries active get String.eqb Ascii.eqb Bool.eqb].
  rewrite !length_map, !js_Z_eqb, Hs, Hn. change (exactKeys _ _) with true. cbn [is_str strict_eqb]. rewrite !String.eqb_refl. cbn [andb].
  rewrite (proj2 (Z.leb_le _ _)), (proj2 (Nat.leb_le _ (length STAGES * 2 + 1))) by (cbn; lia).
  assert ((length (active_of p) <=? 1)%nat = true) as -> by by destruct p. cbn [andb].
  change {| completed := 0; current := None; failed := false |} with (scan_of (Idle 0)). rewrite entries_scan by done. cbn [mbind result_bind]. f_equal.
  destruct p as [k|k|k code shown]; cbn [active_of map active_matches scan_of current]; [by apply bool_decide_true| |by apply bool_decide_true].
  destruct (checkpoint k) as [stage checkpointId]. unfold pair_json. cbn [fst snd get String.eqb Ascii.eqb Bool.eqb is_str strict_eqb].
  by rewrite !String.eqb_refl.
Qed.

(** ** The writer follows the specification *)

Lemma append_represent r p p' k shown c :
  entries_of p' = entries_of p ++ [entry (length (entries_of p)) k (Str shown) c] →
  append (represent r p) (checkpoint k).1 (checkpoint k).2 shown c (active_of p') = represent r p'.
Proof.
  intros He. unfold append, represent, entry in *. cbn [project runId sequence entries active]. rewrite He, length_app. cbn [length].
  assert (Hz : Z.of_nat (length (entries_of p)) + 1 = Z.of_nat (S (length (entries_of p)))) by lia.
  rewrite Hz. by replace (length (entries_of p) + 1)%nat with (S (length (entries_of p))) by lia.
Qed.

Lemma completed_count k : length (List.filter (λ e, is_str (state e) "completed") (done_entries k)) = k.
Proof. induction k as [|k IH]; [done|]. cbn [done_entries]. rewrite List.filter_app, length_app, IH. cbn. lia. Qed.

Definition place (p : progress) : nat := match p with Idle k | Active k | Failed k _ _ => k end.

Lemma completed_place r p : well_formed p →
  length (List.filter (λ e, is_str (state e) "completed") (entries (represent r p))) = place p.
Proof.
  destruct p as [k|k|k c shown]; cbn [well_formed represent entries entries_of place]; intros H; [apply completed_count| |];
    rewrite List.filter_app, length_app, completed_count; cbn [List.filter entry state];
    change (is_str (Str "started") "completed") with false; cbn [length]; [lia|].
  destruct H as (_ & _ & t & _ & _ & _ & Hnc). rewrite (proj2 (is_str_false shown "completed") Hnc). cbn. lia.
Qed.

Lemma pair_is_checkpoint k stage checkpointId : pair k = Some (stage, checkpointId) → is_checkpoint stage checkpointId = true.
Proof. intros H. apply existsb_true. exists (stage, checkpointId). split; [by eapply list_elem_of_lookup_2|]. cbn. by rewrite !String.eqb_refl. Qed.

Lemma fresh_checkpoint k : (k < 5)%nat → existsb (λ e, String.eqb (checkpointId e) (checkpoint k).2) (done_entries k) = false.
Proof. intros H. do 5 (destruct k as [|k]; [vm_compute; reflexivity|]). lia. Qed.

Lemma failure_of_checkpoint k : (k < 5)%nat → default "" (table_find FAILURE (checkpoint k).1) = failure_of k.
Proof. intros H. do 5 (destruct k as [|k]; [reflexivity|]). lia. Qed.

Lemma next_state_step r p kind sid cid code :
  well_formed p →
  next_state (represent r p) kind sid cid code =
    match step p kind sid cid code with Some p' => Ok (represent r p') | None => Err "invalid_transition" end.
Proof.
  intros Hp. unfold next_state. cbv zeta. rewrite completed_place by done. cbn [represent active].
  destruct (is_checkpoint sid cid) eqn:Hc; cbn [negb].
  2:{ assert (Hno : ∀ k, bool_decide (pair k = Some (sid, cid)) = false).
      { intros k. apply bool_decide_false. intros H%pair_is_checkpoint. congruence. }
      destruct p, kind; cbn [step]; rewrite ?Hno; done. }
  destruct kind.
  - destruct p as [k|k|k c shown]; cbn [active_of last step place]; [|done|].
    + rewrite bool_decide_false by (by intros [? ?]). cbn [orb]. destruct (bool_decide (pair k = Some (sid, cid))) eqn:Hd; [|by rewrite orb_true_r].
      apply bool_decide_eq_true, pair_past in Hd as [Hk He]. change (entries (represent r (Idle k))) with (done_entries k). cbn [negb]. rewrite orb_false_r.
      assert (cid = (checkpoint k).2) as Hid by (by rewrite <-He). assert (sid = (checkpoint k).1) as Hst by (by rewrite <-He).
      rewrite Hid, (fresh_checkpoint k Hk), Hst, <-surjective_pairing. f_equal.
      apply (append_represent r (Idle k) (Active k)). cbn [entries_of]. by rewrite done_length.
    + rewrite (bool_decide_false (is_Some None)) by (by intros [? ?]). cbn [orb].
      change (entries (represent r (Failed k c shown))) with (entries_of (Failed k c shown)). cbn [entries_of].
      destruct (bool_decide (pair k = Some (sid, cid))) eqn:Hd; [|by rewrite orb_true_r].
      apply bool_decide_eq_true, pair_past in Hd as [Hk He]. rewrite existsb_app. cbn [existsb]. unfold entry at 1. cbn [checkpointId].
      rewrite <-He. cbn [snd]. rewrite String.eqb_refl. cbn [orb]. by rewrite orb_true_r.
  - destruct p as [k|k|k c shown]; cbn [active_of last step]; [by rewrite bool_decide_false| |by rewrite bool_decide_false].
    cbn [well_formed] in Hp. rewrite (pair_checkpoint k) by done. destruct (bool_decide _) eqn:Hd; [|done]. cbn [negb].
    apply bool_decide_eq_true in Hd. injection Hd as Hd. f_equal.
    assert (sid = (checkpoint k).1 ∧ cid = (checkpoint k).2) as [-> ->] by (by rewrite Hd).
    apply (append_represent r (Active k) (Idle (S k))). cbn [entries_of done_entries]. rewrite length_app, done_length. cbn [length]. by rewrite <-app_assoc.
  - destruct p as [k|k|k c shown]; cbn [active_of last step]; [by rewrite bool_decide_false| |by rewrite bool_decide_false].
    cbn [well_formed] in Hp. rewrite (pair_checkpoint k) by done. destruct (bool_decide _) eqn:Hd; [|done]. cbn [negb].
    apply bool_decide_eq_true in Hd. injection Hd as Hd.
    assert (sid = (checkpoint k).1 ∧ cid = (checkpoint k).2) as [-> ->] by (by rewrite Hd).
    rewrite failure_of_checkpoint by done.
    assert (Happ : ∀ c, append (represent r (Active k)) (checkpoint k).1 (checkpoint k).2 "failed" c [] = represent r (Failed k c (Str "failed"))).
    { intros c. apply (append_represent r (Active k) (Failed k c (Str "failed"))). cbn [entries_of]. rewrite length_app, done_length. cbn [length]. by rewrite <-app_assoc. }
    destruct code as [c|]; [|by rewrite Happ]. destruct (String.eqb c (failure_of k)) eqn:E1, (String.eqb c "runner_interrupted") eqn:E2; cbn [negb andb orb]; rewrite ?Happ; done.
Qed.

Lemma step_well_formed p kind stage checkpointId code p' :
  well_formed p → step p kind stage checkpointId code = Some p' → well_formed p'.
Proof.
  assert (Hshown : ∃ t, to_string (Str "failed") = Ok t ∧ t ∈ ["started"; "completed"; "failed"] ∧ Str "failed" ≠ Str "started" ∧ Str "failed" ≠ Str "completed").
  { exists "failed". split_and!; [done|by apply includes_spec|done|done]. }
  destruct p as [k|k|k c shown], kind; cbn [well_formed step]; intros Hp H; try done; destruct (bool_decide _) eqn:Hd; try done.
  - injection H as <-. apply bool_decide_eq_true, pair_past in Hd as [Hk _]. done.
  - injection H as <-. cbn. lia.
  - destruct code as [c|]; [|injection H as <-; cbn; split_and!; [done|by left|done]].
    destruct (_ || _) eqn:E; [|done]. injection H as <-. apply orb_true_iff in E as [->%String.eqb_eq| ->%String.eqb_eq]; cbn; split_and!; try done; [by left|by right].
Qed.

Lemma coverage_exact r p : well_formed p → hasMandatoryCheckpointCoverage (Some (represent r p)) = true ↔ p = Idle 5.
Proof.
  intros Hp. unfold hasMandatoryCheckpointCoverage. cbn [represent active entries]. split; [|intros ->; vm_compute; reflexivity].
  rewrite !andb_true_iff. intros [[Ha%bool_decide_eq_true Hl%Nat.eqb_eq] Hall].
  destruct p as [k|k|k c shown]; cbn [entries_of active_of well_formed] in *; [rewrite done_length in Hl; f_equal; cbn in Hl; lia|done|].
  rewrite length_app, done_length in Hl. cbn in Hl. assert (k = 4%nat) as -> by lia. exfalso.
  destruct Hp as (_ & _ & t & _ & _ & _ & Hnc). rewrite forallb_true, Forall_lookup in Hall.
  assert (Hlast : imap expected_entry (done_entries 4 ++ [entry (2 * 4) 4 (Str "started") "checkpoint_started"; entry (2 * 4 + 1) 4 shown c]) !! 9%nat =
    Some (is_str shown "completed" && String.eqb c "checkpoint_completed")) by reflexivity.
  specialize (Hall _ _ Hlast). rewrite (proj2 (is_str_false shown "completed") Hnc) in Hall. discriminate Hall.
Qed.

(** C20: The writer of the journal is the machine of five checkpoints in order: a
    value is a valid journal of a request only if it is that of a run before,
    in, or failed in one of the checkpoints, and the journal of every such run
    is valid; on it the writer begins only the next checkpoint, completes or
    fails only the active one, refuses every other call, and what it asks to
    save is never refused by its own check; the coverage of a run is mandatory
    coverage exactly when all five are completed. *)
Theorem journal_follows_its_checkpoints r :
  (∀ value, validState value r = Ok true → ∃ p, well_formed p ∧ state_of value = represent r p) ∧
  (∀ p, well_formed p → validState (state_json (represent r p)) r = Ok true) ∧
  (∀ p kind stage checkpointId code, well_formed p →
     transition r (represent r p) kind stage checkpointId code =
       match step p kind stage checkpointId code with Some p' => Ok (represent r p') | None => Err "invalid_transition" end) ∧
  (∀ p, well_formed p → hasMandatoryCheckpointCoverage (Some (represent r p)) = true ↔ p = Idle 5).
Proof.
  split_and!; [intros value; apply valid_journal|apply represented_journal| |apply coverage_exact].
  intros p kind stage checkpointId code Hp. unfold transition. rewrite next_state_step by done.
  destruct (step p kind stage checkpointId code) as [p'|] eqn:E; [|done]. cbn [mbind result_bind]. unfold save.
  by rewrite represented_journal by by eapply step_well_formed.
Qed.

(** *** A run that stops at its second checkpoint *)

Definition sample_request : AcceptanceCheckpointJournalRequest :=
  {| eventRoot := "/events"; request_project := "capture-workbench"; request_runId := "r1" |}.

Lemma journal_follows_its_checkpoints_witness :
  well_formed (Active 1) ∧
  transition sample_request (represent sample_request (Active 1)) fail "cdp" "initial-attach" None =
    Ok (represent sample_request (Failed 1 "cdp_failed" (Str "failed"))) ∧
  transition sample_request (represent sample_request (Active 1)) begin "runtime" "runtime-ready" None = Err "invalid_transition" ∧
  (∃ p, well_formed p ∧ state_of (state_json (represent sample_request (Active 1))) = represent sample_request p).
Proof.
  assert (Hp : well_formed (Active 1)) by (cbn; lia).
  destruct (journal_follows_its_checkpoints sample_request) as (Hvalid & Hback & Hstep & _). split_and!.
  - done.
  - rewrite (Hstep (Active 1) fail) by done. reflexivity.
  - rewrite (Hstep (Active 1) begin) by done. reflexivity.
  - apply Hvalid, Hback, Hp.
Defined.

(** A failure whose state is a list of the one text is valid, but it is no
    failure to the terminal record. *)
Lemma listed_failure_is_not_seen :
  let journal := represent sample_request (Failed 0 "launch_failed" (Arr [Str "failed"])) in
  validState (state_json journal) sample_request = Ok true ∧ failed_entry (Some journal) = None ∧
  failed_entry (Some (represent sample_request (Failed 0 "launch_failed" (Str "failed")))) ≠ None.
Proof. vm_compute. done. Qed.

(** ** What a pass takes *)

Lemma expected_not_failed i e : expected_entry i e = true → is_str (state e) "failed" = false.
Proof.
  unfold expected_entry. destruct (pair (i / 2)) as [expected|]; [|done]. rewrite !andb_true_iff. intros [[_ Hs%is_str_spec] _].
  rewrite Hs. by destruct (Nat.odd i).
Qed.

Lemma coverage_settled s : hasMandatoryCheckpointCoverage (Some s) = true → active s = [] ∧ failed_entry (Some s) = None.
Proof.
  unfold hasMandatoryCheckpointCoverage. rewrite !andb_true_iff. intros [[Ha%bool_decide_eq_true _] Hall]. split; [done|].
  apply find_none_iff, Forall_lookup. intros i e He. rewrite forallb_true, Forall_lookup in Hall. apply (expected_not_failed i).
  apply (Hall i). by rewrite list_lookup_imap, He.
Qed.

Lemma observed_settled (observed : option AcceptanceCheckpointJournalState) :
  hasMandatoryCheckpointCoverage observed = true → failed_entry observed = None ∧ (observed ≫= λ s, last (active s)) = None.
Proof. destruct observed as [s|]; [|done]. intros [Ha Hf]%coverage_settled. split; [done|]. cbn. by rewrite Ha. Qed.

(** What a run must have done to pass. *)
Definition earned (input : AcceptanceTerminalInput) : Prop :=
  journal_status (journal input) = valid_complete ∧ hasMandatoryCheckpointCoverage (observed (journal input)) = true ∧
  child_status input = 0 ∧ child_error input = false ∧ outerScope input ≠ cleanup_failed ∧
  ∃ m sha, manifest input = Valid m sha ∧ get m "status" = Str "completed" ∧ cleanupComplete (get m "cleanup") = true.

Lemma derive_earned input : primary (derive input) = None ↔ earned input.
Proof.
  unfold derive, earned. cbv zeta. split.
  - destruct (failed_entry _) as [e|]; [done|]. destruct (observed (journal input) ≫= _) as [a|]; [done|].
    destruct (manifest input) as [m sha|sha] eqn:Em; [|done]. cbn [primary].
    destruct (_ || _ || _ || _ || _) eqn:E1; [done|].
    destruct (negb (cleanupComplete _) || _) eqn:E2; [done|]. intros _.
    rewrite !orb_false_iff, !negb_false_iff in E1. destruct E1 as [[[[Hj Hcov] Hchild%Z.eqb_eq] Herr] Hst%is_str_spec].
    apply orb_false_iff in E2 as [Hclean%negb_false_iff Ho]. split_and!; try done.
    + by destruct (journal_status (journal input)).
    + by destruct (outerScope input).
    + by exists m, sha.
  - intros (Hj & Hcov & Hchild & Herr & Ho & m & sha & Hm & Hst & Hclean).
    destruct (observed_settled _ Hcov) as [Hf Ha]. rewrite Hf, Ha, Hm, Hj, Hcov, Hchild, Herr, Hst, Hclean. cbn [is_str strict_eqb negb orb Z.eqb].
    rewrite String.eqb_refl. cbn [negb orb]. by destruct (outerScope input).
Qed.

(** C21: A pass is earned and stands: the terminal record of a run passes exactly
    when its journal is complete with all five checkpoints, the child ended
    with status 0 and no error, its manifest is valid, completed and clean in
    every respect, and the outer cleanup has not failed, and then its artifacts
    may be removed; a record that was written is in its file as it is, and once
    there is one every further record is refused and no file changes. *)
Theorem pass_is_earned utf8_encode utf8_decode cwd input :
  (primary (derive input) = None ↔ earned input) ∧
  (primary (derive input) = None → cleanup_allowed input = true) ∧
  (∀ files terminal files', writeAcceptanceTerminal utf8_encode utf8_decode cwd input files = (Ok terminal, files') →
     terminal = terminal_json input ∧
     files' !! terminal_path cwd (eventRoot (request input)) = Some (File (utf8_encode (json_line terminal)))) ∧
  (∀ files bytes, stat files (terminal_path cwd (eventRoot (request input))) = Some (File bytes) →
     ∃ e, writeAcceptanceTerminal utf8_encode utf8_decode cwd input files = (Err e, files)).
Proof.
  split_and!.
  - apply derive_earned.
  - intros H. pose proof (proj1 (derive_earned input) H) as (_ & Hcov & _ & _ & Ho & m & sha & Hm & Hst & Hclean).
    destruct (observed_settled _ Hcov) as [Hf Ha]. unfold cleanup_allowed, derive. cbv zeta. rewrite Hf, Ha, Hm. rewrite Hst, Hclean. cbn [is_str strict_eqb andb].
    rewrite String.eqb_refl. cbn [andb]. destruct (_ || _ || _ || _ || _); [|destruct (_ || _)]; cbn [producer_completed andb]; by destruct (outerScope input).
  - intros files terminal files' H. unfold writeAcceptanceTerminal in H. cbv zeta in H. apply andThen_Ok in H as (? & f0 & [_ ->]%lift_Ok & H).
    apply andThen_Ok in H as (? & f0' & H0 & H). apply pair_equal_spec in H0 as [_ <-]. apply andThen_Ok in H as (? & f1 & [_ ->]%lift_Ok & H).
    destruct ((mkdir _;; _) files) as [[u|e] f2] eqn:E; [|done]. injection H as <- <-. split; [done|].
    apply andThen_Ok in E as (? & f3 & _ & E). cbv zeta in E. apply andThen_Ok in E as (? & f4 & [_ ->]%lift_Ok & E).
    unfold put_file in E. destruct (f3 !! _) as [[]|]; try done; injection E as <- <-; by rewrite lookup_insert_eq.
  - intros files bytes Hf. unfold writeAcceptanceTerminal. cbv zeta. unfold andThen, lift, get_files.
    destruct (requestOk (request input)) as [u|e]; [|by exists e]. unfold read_text. rewrite Hf. by eexists.
Qed.

Definition passing_input : AcceptanceTerminalInput :=
  {| request := sample_request; child_status := 0; child_error := false;
     journal := {| journal_status := valid_complete; observed := Some (represent sample_request (Idle 5)) |};
     manifest := Valid [("status", Str "completed"); ("artifacts", Arr [Null]); ("cleanup", Obj [("app", Bool true)])] "none";
     outerScope := cleanup_not_applicable |}.

Lemma pass_is_earned_witness :
  primary (derive passing_input) = None ∧ earned passing_input ∧ cleanup_allowed passing_input = true ∧
  ∃ files', writeAcceptanceTerminal bytes_of text_of "/" passing_input ∅ = (Ok (terminal_json passing_input), files') ∧
    ∃ e, writeAcceptanceTerminal bytes_of text_of "/" passing_input files' = (Err e, files').
Proof.
  destruct (pass_is_earned bytes_of text_of "/" passing_input) as (Hearned & Hallowed & Hwritten & Hrefused).
  assert (Hp : primary (derive passing_input) = None) by (vm_compute; reflexivity).
  split_and!; [done|by apply Hearned|by apply Hallowed|].
  destruct (writeAcceptanceTerminal bytes_of text_of "/" passing_input ∅) as [[t|e] files'] eqn:E; [|vm_compute in E; discriminate E].
  destruct (Hwritten _ _ _ E) as [-> Hf]. exists files'. split; [done|].
  assert (Hs : stat files' (terminal_path "/" (eventRoot (request passing_input))) =
    Some (File (bytes_of (json_line (terminal_json passing_input))))).
  { unfold stat, MAX_LINKS. cbn [follow]. rewrite Hf. exact Hf. }
  exact (Hrefused _ _ Hs).
Defined.
